(** * SnapLogic architecture diagrams: layout, shape synthesis and text flow

    A shallow embedding of the layout and element-synthesis pipeline of the
    SnapLogic/Excalidraw architecture designer, and of the text chunker of
    its documentation generator:

    - [src/types/snaplogic.ts], [src/types/excalidraw.ts]: the data model;
    - [src/utils/excalidrawHelpers.ts]: the basic shapes and [autoLayout];
    - [src/utils/libraryUtils.ts]: [LibraryManager.cloneLibraryItem];
    - [src/services/libraryLoader.ts]: [LibraryLoaderService.getShape];
    - [src/utils/shapeFactory.ts]: [ShapeFactory];
    - the App component ([src/unnamed/part_001]): [generateExcalidrawElements];
    - [src/utils/documentationGenerator.ts]: [TextUtils].

    Conventions.  JavaScript numbers handed between the layout and the
    synthesis functions are sums, products and maxima of integer constants,
    so they are integers [Z]; the geometry stored in an element is a
    rational [Q], because the shapes halve widths, scale by 1.2, 1.4, 1.6 and
    shift library geometry (rounding of doubles is not modelled).  Strings
    are [string], [Map<string, _>] is [gmap string _].  The ambient sources
    [Math.random], [Date.now], the [generateIndex] counter and the two
    singletons ([libraryLoader], [libraryManager]) are fields of an explicit
    [World] threaded through a state-and-exception monad.  The functions
    are first embedded on values; the last part of the embedding puts the
    arrays and objects of the store in a heap and runs the layout and the
    synthesis pass on references to them. *)

From Stdlib Require Import ZArith QArith Qround Qminmax String Ascii List Lia.
From Stdlib Require Import DecimalString DecimalZ DecimalNat DecimalPos.
From stdpp Require Import gmap strings list fin_maps.

Local Open Scope string_scope.
Local Open Scope list_scope.
Local Open Scope Z_scope.

(* ===================================================================== *)
(** * Part I.  The embedding                                              *)
(* ===================================================================== *)

(** ** Template literals: numbers printed in decimal *)

Definition Z_toString (z : Z) : string := NilEmpty.string_of_int (Z.to_int z).
Definition nat_toString (n : nat) : string := NilEmpty.string_of_uint (Nat.to_uint n).

(** ** src/types/snaplogic.ts

    The records keep the fields the layout, the shapes and the text code
    read, and a few more for orientation; addresses, ports, utilisation
    figures, gateways, balancers and pipelines are never read by them and
    are left out. *)

Inductive EnvironmentType := production | staging | development | sandbox.
Inductive SnaplexType := cloudplex | groundplex.
Inductive SnaplexStatus := active | inactive | maintenance.
Inductive NodeType := JCC | FM.
Inductive NodeStatus := running | stopped | error.
(** [size] and [memoryOptimized] are read by the shape code and written by
    the sidebar ([size: 'medium', memoryOptimized: false], stepping through
    ['medium', 'L', 'XL', '2XL']); the mock data builds nodes without them,
    so [node_size] is optional ([None] is JavaScript's [undefined]). *)
Inductive NodeSize := medium | L | XL | XXL.
Inductive EndpointType := rest | soap | database | file | kafka | sqs | mqtt.
Inductive ConnectionType := data_flow | network | dependency.
Inductive ZoneType := geographical | technical | security.

Record ExecutionNode := {
  node_id : string;
  node_name : string;
  node_type : NodeType;
  node_hostname : string;
  node_status : NodeStatus;
  node_size : option NodeSize;
  node_memoryOptimized : bool
}.

Record SnaplexContainer := {
  nodes : list ExecutionNode;
  minWidth : Z;
  minHeight : Z
}.

Record Snaplex := {
  snaplex_id : string;
  snaplex_name : string;
  snaplex_type : SnaplexType;
  snaplex_environment : string;
  container : SnaplexContainer;
  snaplex_status : SnaplexStatus
}.

Record Zone := {
  zone_id : string;
  zone_name : string;
  zone_type : ZoneType;
  components : list string
}.

Record Environment := {
  env_id : string;
  env_name : string;
  env_type : EnvironmentType;
  region : string;
  snaplexes : list Snaplex;
  zones : list Zone
}.

Record Endpoint := {
  endpoint_id : string;
  endpoint_name : string;
  endpoint_type : EndpointType;
  url : option string
}.

Record Connection := {
  conn_id : string;
  source : string;
  target : string;
  conn_type : ConnectionType;
  label : option string
}.

Record ArchitectureState := {
  environments : list Environment;
  endpoints : list Endpoint;
  connections : list Connection
}.

Definition EnvironmentType_toString (t : EnvironmentType) : string :=
  match t with
  | production => "production" | staging => "staging"
  | development => "development" | sandbox => "sandbox"
  end.

Definition NodeSize_toString (s : option NodeSize) : string :=
  match s with
  | Some medium => "medium" | Some L => "L" | Some XL => "XL" | Some XXL => "2XL"
  | None => "undefined"
  end.

(** ** src/types/excalidraw.ts *)

Record Binding := {
  elementId : string;
  focus : Z;
  gap : Z
}.

Record TextFields := {
  text : string;
  fontSize : Q;
  fontFamily : Z;
  textAlign : string;
  verticalAlign : string;
  originalText : string;
  autoResize : bool;
  lineHeight : Q
}.

Record ArrowFields := {
  startBinding : Binding;
  endBinding : Binding;
  endArrowhead : string;
  points : list (Q * Q);
  elbowed : bool
}.

(** The fields every shape of this program sets to the same constant
    ([frameId], [boundElements], [link]: [null]; [locked]: [false]) are left
    out; [type] is a string, as in the declaration, since library items may
    carry any Excalidraw type. *)
Record ExcalidrawElement := {
  el_id : string;
  el_type : string;
  el_x : Q;
  el_y : Q;
  el_width : Q;
  el_height : Q;
  el_angle : Q;
  el_strokeColor : string;
  el_backgroundColor : string;
  el_fillStyle : string;
  el_strokeWidth : Q;
  el_strokeStyle : string;
  el_roughness : Q;
  el_opacity : Q;
  el_groupIds : list string;
  el_index : string;
  el_roundness : option Z;
  el_seed : Z;
  el_versionNonce : Z;
  el_isDeleted : bool;
  el_updated : Z;
  el_text : option TextFields;
  el_arrow : option ArrowFields
}.

(** ** src/utils/libraryUtils.ts: the data *)

Inductive SnapLogicShapeType :=
  | GROUNDPLEX | CLOUDPLEX | JCC_NODE | FM_NODE | API_GATEWAY
  | LOAD_BALANCER | ULTRA_PIPELINE | ENDPOINT | ZONE.

(** The enumeration is a string enum; these are its values. *)
Definition SnapLogicShapeType_value (t : SnapLogicShapeType) : string :=
  match t with
  | GROUNDPLEX => "groundplex" | CLOUDPLEX => "cloudplex"
  | JCC_NODE => "jcc_node" | FM_NODE => "fm_node"
  | API_GATEWAY => "api_gateway" | LOAD_BALANCER => "load_balancer"
  | ULTRA_PIPELINE => "ultra_pipeline" | ENDPOINT => "endpoint" | ZONE => "zone"
  end.

Record LibraryItem := {
  item_id : string;
  item_name : option string;
  item_elements : list ExcalidrawElement
}.

(** [LibraryManager.libraryItems : Map<SnapLogicShapeType, LibraryItem>],
    keyed by the enumeration's string value. *)
Record LibraryManager := {
  libraryItems : gmap string LibraryItem
}.

(** [LibraryLoaderService]: the loaded flag and the shape cache. *)
Record LibraryLoaderService := {
  isLoaded : bool;
  libraryCache : gmap string (list ExcalidrawElement)
}.

(** ** The world the pipeline runs in *)

Record World := {
  architecture : ArchitectureState;     (* the store's snapshot *)
  libraryLoader : LibraryLoaderService; (* singleton of libraryLoader.ts *)
  libraryManager : LibraryManager;      (* singleton of libraryUtils.ts *)
  useLibraryShapes : bool;              (* field of the shapeFactory singleton *)
  indexCounter : nat;                   (* [counter] closed over by generateIndex *)
  randomTape : nat -> Q;                (* successive results of Math.random() *)
  randomPos : nat;
  clock : Z                             (* Date.now() *)
}.

Inductive Outcome (A : Type) :=
  | Returned (a : A)
  | Thrown (e : string).
Arguments Returned {A} a.
Arguments Thrown {A} e.

Definition M (A : Type) : Type := World -> Outcome A * World.

Definition ret {A} (a : A) : M A := fun w => (Returned a, w).

Definition bind {A B} (c : M A) (k : A -> M B) : M B :=
  fun w => match c w with
           | (Returned a, w') => k a w'
           | (Thrown e, w') => (Thrown e, w')
           end.

Definition throw {A} (e : string) : M A := fun w => (Thrown e, w).

(** [try { c } catch (error) { h error }]: the handler runs in the world the
    failed block left behind. *)
Definition try_catch {A} (c : M A) (h : string -> M A) : M A :=
  fun w => match c w with
           | (Returned a, w') => (Returned a, w')
           | (Thrown e, w') => h e w'
           end.

Definition gets {A} (f : World -> A) : M A := fun w => (Returned (f w), w).
Definition modify (f : World -> World) : M unit := fun w => (Returned tt, f w).

Notation "'do' x <- c ; k" := (bind c (fun x => k))
  (at level 10, x name, c at level 100, k at level 200).
Notation "'run' c ; k" := (bind c (fun _ => k))
  (at level 10, c at level 100, k at level 200).

Definition set_indexCounter (n : nat) (w : World) : World :=
  {| architecture := architecture w; libraryLoader := libraryLoader w;
     libraryManager := libraryManager w; useLibraryShapes := useLibraryShapes w;
     indexCounter := n; randomTape := randomTape w; randomPos := randomPos w;
     clock := clock w |}.

Definition set_randomPos (n : nat) (w : World) : World :=
  {| architecture := architecture w; libraryLoader := libraryLoader w;
     libraryManager := libraryManager w; useLibraryShapes := useLibraryShapes w;
     indexCounter := indexCounter w; randomTape := randomTape w; randomPos := n;
     clock := clock w |}.

Definition set_useLibraryShapes (b : bool) (w : World) : World :=
  {| architecture := architecture w; libraryLoader := libraryLoader w;
     libraryManager := libraryManager w; useLibraryShapes := b;
     indexCounter := indexCounter w; randomTape := randomTape w;
     randomPos := randomPos w; clock := clock w |}.

Definition set_libraryLoader (l : LibraryLoaderService) (w : World) : World :=
  {| architecture := architecture w; libraryLoader := l;
     libraryManager := libraryManager w; useLibraryShapes := useLibraryShapes w;
     indexCounter := indexCounter w; randomTape := randomTape w;
     randomPos := randomPos w; clock := clock w |}.

(** [Math.random()]: the next value of the tape. *)
Definition Math_random : M Q :=
  fun w => (Returned (randomTape w (randomPos w)), set_randomPos (S (randomPos w)) w).

(** [Date.now()]. *)
Definition Date_now : M Z := gets clock.

(** [Math.floor(Math.random() * 2000000000)]. *)
Definition randomSeed : M Z :=
  do r <- Math_random; ret (Qfloor (r * 2000000000)).

(** [forEach((a, index) => ...)] over a local state. *)
Fixpoint forEach_from {A S : Type} (f : S -> A -> nat -> S) (l : list A) (i : nat) (s : S) : S :=
  match l with
  | [] => s
  | a :: l' => forEach_from f l' (Datatypes.S i) (f s a i)
  end.

Definition forEach {A S : Type} (f : S -> A -> nat -> S) (l : list A) (s : S) : S :=
  forEach_from f l 0 s.

(** [forEach] whose body runs effects and pushes onto [elements]. *)
Fixpoint forEachM {A : Type} (f : A -> list ExcalidrawElement -> M (list ExcalidrawElement))
    (l : list A) (elements : list ExcalidrawElement) : M (list ExcalidrawElement) :=
  match l with
  | [] => ret elements
  | a :: l' => do elements' <- f a elements; forEachM f l' elements'
  end.

(** ** src/utils/excalidrawHelpers.ts *)

Definition COLORS_environment (t : EnvironmentType) : string :=
  match t with
  | production => "#dc2626" | staging => "#f59e0b"
  | development => "#3b82f6" | sandbox => "#8b5cf6"
  end.

Definition COLORS_snaplex (t : SnaplexType) : string :=
  match t with cloudplex => "#10b981" | groundplex => "#6366f1" end.

Definition COLORS_node : string := "#64748b".

(** [COLORS.endpoint[endpoint.type] || '#000000']: the table has no entry
    for soap. *)
Definition COLORS_endpoint (t : EndpointType) : string :=
  match t with
  | rest => "#3b82f6" | database => "#f59e0b" | file => "#8b5cf6"
  | kafka => "#dc2626" | sqs => "#f97316" | mqtt => "#14b8a6"
  | soap => "#000000"
  end.

(** [generateIndex]: a1, a1V, a2, a2V, ... from the closed-over counter. *)
Definition generateIndex : M string :=
  fun w =>
    let counter := indexCounter w in
    let base := Nat.div counter 2 in
    let suffix := if Nat.eqb (Nat.modulo counter 2) 0 then "V" else "" in
    (Returned ("a" +:+ nat_toString base +:+ suffix),
     set_indexCounter (S counter) w).

(** The four effectful initialisers of every shape literal, in the order
    the literal evaluates them: [index], [seed], [versionNonce], [updated]. *)
Definition stamp : M (string * Z * Z * Z) :=
  do i <- generateIndex;
  do s <- randomSeed;
  do v <- randomSeed;
  do t <- Date_now;
  ret (i, s, v, t).

Definition createEnvironmentElement (env : Environment) (x y width height : Z)
  : M (list ExcalidrawElement) :=
  do st1 <- stamp;
  let '(i1, s1, v1, t1) := st1 in
  let container :=
    {| el_id := "env-" +:+ env_id env; el_type := "rectangle";
       el_x := inject_Z x; el_y := inject_Z y;
       el_width := inject_Z width; el_height := inject_Z height; el_angle := 0;
       el_strokeColor := COLORS_environment (env_type env);
       el_backgroundColor := "transparent"; el_fillStyle := "hachure";
       el_strokeWidth := 2; el_strokeStyle := "solid"; el_roughness := 1;
       el_opacity := 100; el_groupIds := ["group-" +:+ env_id env];
       el_index := i1; el_roundness := Some 3; el_seed := s1;
       el_versionNonce := v1; el_isDeleted := false; el_updated := t1;
       el_text := None; el_arrow := None |} in
  do st2 <- stamp;
  let '(i2, s2, v2, t2) := st2 in
  let labelText :=
    env_name env +:+ " (" +:+ EnvironmentType_toString (env_type env) +:+ ")" in
  let label :=
    {| el_id := "label-" +:+ env_id env; el_type := "text";
       el_x := inject_Z x + 10; el_y := inject_Z y + 10;
       el_width := 200; el_height := 25; el_angle := 0;
       el_strokeColor := COLORS_environment (env_type env);
       el_backgroundColor := "transparent"; el_fillStyle := "hachure";
       el_strokeWidth := 1; el_strokeStyle := "solid"; el_roughness := 0;
       el_opacity := 100; el_groupIds := ["group-" +:+ env_id env];
       el_index := i2; el_roundness := None; el_seed := s2;
       el_versionNonce := v2; el_isDeleted := false; el_updated := t2;
       el_text := Some {| text := labelText; fontSize := 20; fontFamily := 1;
                          textAlign := "left"; verticalAlign := "top";
                          originalText := labelText; autoResize := true;
                          lineHeight := 1.25 |};
       el_arrow := None |}%Q in
  ret [container; label].

Definition createSnaplexElement (snaplex : Snaplex) (x y width height : Z)
  : M (list ExcalidrawElement) :=
  do st1 <- stamp;
  let '(i1, s1, v1, t1) := st1 in
  let box :=
    {| el_id := "snaplex-" +:+ snaplex_id snaplex; el_type := "rectangle";
       el_x := inject_Z x; el_y := inject_Z y;
       el_width := inject_Z width; el_height := inject_Z height; el_angle := 0;
       el_strokeColor := COLORS_snaplex (snaplex_type snaplex);
       el_backgroundColor := COLORS_snaplex (snaplex_type snaplex) +:+ "20";
       el_fillStyle := "solid";
       el_strokeWidth := 2; el_strokeStyle := "solid"; el_roughness := 1;
       el_opacity := 100;
       el_groupIds := ["group-snaplex-" +:+ snaplex_id snaplex];
       el_index := i1; el_roundness := Some 3; el_seed := s1;
       el_versionNonce := v1; el_isDeleted := false; el_updated := t1;
       el_text := None; el_arrow := None |} in
  do st2 <- stamp;
  let '(i2, s2, v2, t2) := st2 in
  let label :=
    {| el_id := "label-snaplex-" +:+ snaplex_id snaplex; el_type := "text";
       el_x := inject_Z x + inject_Z width / 2 - 40; el_y := inject_Z y + 5;
       el_width := 80; el_height := 20; el_angle := 0;
       el_strokeColor := "#000000";
       el_backgroundColor := "transparent"; el_fillStyle := "hachure";
       el_strokeWidth := 1; el_strokeStyle := "solid"; el_roughness := 0;
       el_opacity := 100;
       el_groupIds := ["group-snaplex-" +:+ snaplex_id snaplex];
       el_index := i2; el_roundness := None; el_seed := s2;
       el_versionNonce := v2; el_isDeleted := false; el_updated := t2;
       el_text := Some {| text := snaplex_name snaplex; fontSize := 16;
                          fontFamily := 1; textAlign := "center";
                          verticalAlign := "middle";
                          originalText := snaplex_name snaplex;
                          autoResize := true; lineHeight := 1.25 |};
       el_arrow := None |}%Q in
  ret [box; label].

(** [sizeMultipliers[node.size] || 1]. *)
Definition sizeMultipliers (s : option NodeSize) : Q :=
  match s with
  | Some medium => 1 | Some L => 1.2 | Some XL => 1.4 | Some XXL => 1.6
  | None => 1
  end%Q.

Definition NodeSize_is_medium (s : option NodeSize) : bool :=
  match s with Some medium => true | _ => false end.

Definition isJCC (t : NodeType) : bool :=
  match t with JCC => true | FM => false end.

Definition nodeStatusColor (s : NodeStatus) : string :=
  match s with running => "#10b981" | error => "#dc2626" | stopped => "#fbbf24" end.

Definition createNodeElement (node : ExecutionNode) (x y size : Z)
  : M (list ExcalidrawElement) :=
  let actualSize := (inject_Z size * sizeMultipliers (node_size node))%Q in
  do st1 <- stamp;
  let '(i1, s1, v1, t1) := st1 in
  let circle :=
    {| el_id := "node-" +:+ node_id node; el_type := "ellipse";
       el_x := inject_Z x; el_y := inject_Z y;
       el_width := actualSize; el_height := actualSize; el_angle := 0;
       el_strokeColor := COLORS_node;
       el_backgroundColor := nodeStatusColor (node_status node);
       el_fillStyle := "solid";
       el_strokeWidth := 2; el_strokeStyle := "solid"; el_roughness := 1;
       el_opacity := 100; el_groupIds := ["group-node-" +:+ node_id node];
       el_index := i1; el_roundness := Some 2; el_seed := s1;
       el_versionNonce := v1; el_isDeleted := false; el_updated := t1;
       el_text := None; el_arrow := None |} in
  let sizeIndicator :=
    if NodeSize_is_medium (node_size node) then ""
    else " (" +:+ NodeSize_toString (node_size node) +:+ ")" in
  let moIndicator :=
    if node_memoryOptimized node && isJCC (node_type node) then " MO" else "" in
  let labelText := node_name node +:+ sizeIndicator +:+ moIndicator in
  do st2 <- stamp;
  let '(i2, s2, v2, t2) := st2 in
  let label :=
    {| el_id := "label-node-" +:+ node_id node; el_type := "text";
       el_x := inject_Z x - 25; el_y := inject_Z y + actualSize + 5;
       el_width := actualSize + 50; el_height := 15; el_angle := 0;
       el_strokeColor := "#000000";
       el_backgroundColor := "transparent"; el_fillStyle := "hachure";
       el_strokeWidth := 1; el_strokeStyle := "solid"; el_roughness := 0;
       el_opacity := 100; el_groupIds := ["group-node-" +:+ node_id node];
       el_index := i2; el_roundness := None; el_seed := s2;
       el_versionNonce := v2; el_isDeleted := false; el_updated := t2;
       el_text := Some {| text := labelText; fontSize := 12; fontFamily := 1;
                          textAlign := "center"; verticalAlign := "top";
                          originalText := labelText; autoResize := true;
                          lineHeight := 1.25 |};
       el_arrow := None |}%Q in
  ret [circle; label].

Definition createEndpointElement (endpoint : Endpoint) (x y width height : Z)
  : M (list ExcalidrawElement) :=
  let color := COLORS_endpoint (endpoint_type endpoint) in
  do st1 <- stamp;
  let '(i1, s1, v1, t1) := st1 in
  let diamond :=
    {| el_id := "endpoint-" +:+ endpoint_id endpoint; el_type := "diamond";
       el_x := inject_Z x; el_y := inject_Z y;
       el_width := inject_Z width; el_height := inject_Z height; el_angle := 0;
       el_strokeColor := color; el_backgroundColor := color +:+ "20";
       el_fillStyle := "solid";
       el_strokeWidth := 2; el_strokeStyle := "solid"; el_roughness := 1;
       el_opacity := 100;
       el_groupIds := ["group-endpoint-" +:+ endpoint_id endpoint];
       el_index := i1; el_roundness := Some 2; el_seed := s1;
       el_versionNonce := v1; el_isDeleted := false; el_updated := t1;
       el_text := None; el_arrow := None |} in
  do st2 <- stamp;
  let '(i2, s2, v2, t2) := st2 in
  let label :=
    {| el_id := "label-endpoint-" +:+ endpoint_id endpoint; el_type := "text";
       el_x := inject_Z x + inject_Z width / 2 - 30;
       el_y := inject_Z y + inject_Z height / 2 - 10;
       el_width := 60; el_height := 20; el_angle := 0;
       el_strokeColor := "#000000";
       el_backgroundColor := "transparent"; el_fillStyle := "hachure";
       el_strokeWidth := 1; el_strokeStyle := "solid"; el_roughness := 0;
       el_opacity := 100;
       el_groupIds := ["group-endpoint-" +:+ endpoint_id endpoint];
       el_index := i2; el_roundness := None; el_seed := s2;
       el_versionNonce := v2; el_isDeleted := false; el_updated := t2;
       el_text := Some {| text := endpoint_name endpoint; fontSize := 14;
                          fontFamily := 1; textAlign := "center";
                          verticalAlign := "middle";
                          originalText := endpoint_name endpoint;
                          autoResize := true; lineHeight := 1.25 |};
       el_arrow := None |}%Q in
  ret [diamond; label].

(** The dashed outline drawn around the whole cluster area. *)
Definition createSnaplexContainer (snaplex : Snaplex) (x y width height : Z)
  : M ExcalidrawElement :=
  do st1 <- stamp;
  let '(i1, s1, v1, t1) := st1 in
  ret {| el_id := "container-" +:+ snaplex_id snaplex; el_type := "rectangle";
         el_x := inject_Z x; el_y := inject_Z y;
         el_width := inject_Z width; el_height := inject_Z height; el_angle := 0;
         el_strokeColor := "#000000";
         el_backgroundColor := "transparent"; el_fillStyle := "hachure";
         el_strokeWidth := 2; el_strokeStyle := "dashed"; el_roughness := 1;
         el_opacity := 100;
         el_groupIds := ["group-snaplex-" +:+ snaplex_id snaplex];
         el_index := i1; el_roundness := Some 3; el_seed := s1;
         el_versionNonce := v1; el_isDeleted := false; el_updated := t1;
         el_text := None; el_arrow := None |}.

Definition createConnectionElement (connection : Connection)
    (startX startY endX endY : Z) : M ExcalidrawElement :=
  do st1 <- stamp;
  let '(i1, s1, v1, t1) := st1 in
  ret {| el_id := "connection-" +:+ conn_id connection; el_type := "arrow";
         el_x := inject_Z startX; el_y := inject_Z startY;
         el_width := inject_Z (endX - startX);
         el_height := inject_Z (endY - startY); el_angle := 0;
         el_strokeColor :=
           match conn_type connection with
           | data_flow => "#3b82f6" | _ => "#6b7280" end;
         el_backgroundColor := "transparent"; el_fillStyle := "hachure";
         el_strokeWidth := 2;
         el_strokeStyle :=
           match conn_type connection with
           | dependency => "dashed" | _ => "solid" end;
         el_roughness := 1; el_opacity := 100; el_groupIds := [];
         el_index := i1; el_roundness := Some 2; el_seed := s1;
         el_versionNonce := v1; el_isDeleted := false; el_updated := t1;
         el_text := None;
         el_arrow :=
           Some {| startBinding :=
                     {| elementId := source connection; focus := 0; gap := 0 |};
                   endBinding :=
                     {| elementId := target connection; focus := 0; gap := 0 |};
                   endArrowhead := "arrow";
                   points := [(0, 0);
                              (inject_Z (endX - startX), inject_Z (endY - startY))]%Q;
                   elbowed := false |} |}.

(** *** autoLayout *)

Record Point := { pt_x : Z; pt_y : Z }.
Record Dimensions := { dim_width : Z; dim_height : Z }.

Record Layout := {
  positions : gmap string Point;
  envDimensions : gmap string Dimensions
}.

Definition ENV_WIDTH : Z := 1200.
Definition ENV_HEIGHT : Z := 500.
Definition SNAPLEX_WIDTH : Z := 450.
Definition SNAPLEX_HEIGHT : Z := 300.
Definition NODE_SPACING : Z := 80.
Definition SNAPLEX_MARGIN : Z := 40.
Definition nodesPerRow : Z := 5.
Definition nodeSpacing : Z := NODE_SPACING - 10.

(** The variables the loop over [snaplex.container.nodes] assigns. *)
Record NodeLoop := {
  nl_positions : gmap string Point;
  nodeX : Z;
  nodeY : Z
}.

Definition nodeBody (nodeStartX : Z) (st : NodeLoop) (node : ExecutionNode) (nIndex : nat)
  : NodeLoop :=
  let st1 :=
    if (0 <? Z.of_nat nIndex) && (Z.of_nat nIndex mod nodesPerRow =? 0)
    then {| nl_positions := nl_positions st; nodeX := nodeStartX; nodeY := nodeY st + 70 |}
    else st in
  {| nl_positions :=
       <[ "node-" +:+ node_id node := {| pt_x := nodeX st1; pt_y := nodeY st1 |} ]>
         (nl_positions st1);
     nodeX := nodeX st1 + nodeSpacing;
     nodeY := nodeY st1 |}.

(** [Math.ceil(snaplex.container.nodes.length / nodesPerRow)]. *)
Definition nodeRows (snaplex : Snaplex) : Z :=
  Qceiling (inject_Z (Z.of_nat (length (nodes (container snaplex)))) / inject_Z nodesPerRow).

Definition actualSnaplexHeight (snaplex : Snaplex) : Z :=
  let calculatedSnaplexHeight :=
    SNAPLEX_HEIGHT + (if 1 <? nodeRows snaplex then (nodeRows snaplex - 1) * 70 else 0) in
  Z.max SNAPLEX_HEIGHT calculatedSnaplexHeight.

(** The variables the loop over [env.snaplexes] assigns; [snaplexY] is
    never reassigned. *)
Record SnaplexLoop := {
  sl_positions : gmap string Point;
  sl_envDimensions : gmap string Dimensions;
  snaplexX : Z;
  maxX : Z;
  maxY : Z
}.

Definition snaplexBody (snaplexY : Z) (st : SnaplexLoop) (snaplex : Snaplex) (sIndex : nat)
  : SnaplexLoop :=
  let positions1 :=
    <[ "snaplex-" +:+ snaplex_id snaplex := {| pt_x := snaplexX st; pt_y := snaplexY |} ]>
      (sl_positions st) in
  let maxX1 := Z.max (maxX st) (snaplexX st + SNAPLEX_WIDTH) in
  let nodeStartX := snaplexX st + 50 in
  let nl :=
    forEach (nodeBody nodeStartX) (nodes (container snaplex))
      {| nl_positions := positions1; nodeX := nodeStartX; nodeY := snaplexY + 220 |} in
  let maxY1 := Z.max (maxY st) (snaplexY + actualSnaplexHeight snaplex) in
  {| sl_positions := nl_positions nl;
     sl_envDimensions :=
       <[ "snaplex-" +:+ snaplex_id snaplex :=
            {| dim_width := SNAPLEX_WIDTH; dim_height := actualSnaplexHeight snaplex |} ]>
         (sl_envDimensions st);
     snaplexX := snaplexX st + (SNAPLEX_WIDTH + 30);
     maxX := maxX1;
     maxY := maxY1 |}.

(** The variables the loop over [environments] assigns. *)
Record EnvLoop := {
  ev_positions : gmap string Point;
  ev_envDimensions : gmap string Dimensions;
  currentX : Z;
  currentY : Z;
  rowStartY : Z;
  maxRowHeight : Z
}.

Definition envBody (st : EnvLoop) (env : Environment) (index : nat) : EnvLoop :=
  let positions1 :=
    <[ "env-" +:+ env_id env := {| pt_x := currentX st; pt_y := currentY st |} ]>
      (ev_positions st) in
  let sl :=
    forEach (snaplexBody (currentY st + 80)) (snaplexes env)
      {| sl_positions := positions1; sl_envDimensions := ev_envDimensions st;
         snaplexX := currentX st + SNAPLEX_MARGIN;
         maxX := currentX st; maxY := currentY st + 80 |} in
  let actualWidth := Z.max ENV_WIDTH (maxX sl - currentX st + SNAPLEX_MARGIN) in
  let actualHeight := Z.max ENV_HEIGHT (maxY sl - currentY st + 30) in
  let envDimensions1 :=
    <[ "env-" +:+ env_id env := {| dim_width := actualWidth; dim_height := actualHeight |} ]>
      (sl_envDimensions sl) in
  let maxRowHeight1 := Z.max (maxRowHeight st) actualHeight in
  let currentX1 := currentX st + (actualWidth + 50) in
  if (Z.of_nat index + 1) mod 2 =? 0
  then {| ev_positions := sl_positions sl; ev_envDimensions := envDimensions1;
          currentX := 50;
          currentY := rowStartY st + maxRowHeight1 + 100;
          rowStartY := rowStartY st + maxRowHeight1 + 100;
          maxRowHeight := 0 |}
  else {| ev_positions := sl_positions sl; ev_envDimensions := envDimensions1;
          currentX := currentX1;
          currentY := currentY st;
          rowStartY := rowStartY st;
          maxRowHeight := maxRowHeight1 |}.

Definition endpointBody (currentY : Z) (positions : gmap string Point)
    (endpoint : Endpoint) (index : nat) : gmap string Point :=
  <[ "endpoint-" +:+ endpoint_id endpoint :=
       {| pt_x := 50 + Z.of_nat index * 200; pt_y := currentY |} ]> positions.

Definition autoLayout (environments : list Environment) (endpoints : list Endpoint) : Layout :=
  let ev :=
    forEach envBody environments
      {| ev_positions := ∅; ev_envDimensions := ∅;
         currentX := 50; currentY := 50; rowStartY := 50; maxRowHeight := 0 |} in
  let currentY1 :=
    if Z.of_nat (length environments) mod 2 =? 1
    then rowStartY ev + maxRowHeight ev + 100
    else currentY ev in
  let currentY2 := currentY1 + 50 in
  {| positions := forEach (endpointBody currentY2) endpoints (ev_positions ev);
     envDimensions := ev_envDimensions ev |}.

(** ** JavaScript built-ins the library and the text code use *)

(** The digit characters of base 36. *)
Definition digit36 (d : Z) : ascii :=
  nth (Z.to_nat d) (list_ascii_of_string "0123456789abcdefghijklmnopqrstuvwxyz") "0"%char.

(** The digits of [r.toString(36)] after the point, at most [n] of them
    ([substr(2, n)] of the rendering of a number in [0, 1)); the expansion
    is exact, the shortest-round-trip cut-off of doubles is not modelled. *)
Fixpoint fraction36 (n : nat) (r : Q) : string :=
  match n with
  | O => ""
  | S n' =>
      if Qeq_bool r 0 then ""
      else let d := Qfloor (r * 36) in
           String (digit36 d) (fraction36 n' (r * 36 - inject_Z d))
  end.

(** [Math.min(...l)] of a non-empty list ([d] is its head). *)
Definition Math_min (d : Q) (l : list Q) : Q := fold_right Qmin d l.

(** [elements.map(f)] with an effectful [f], left to right. *)
Fixpoint mapM {A B : Type} (f : A -> M B) (l : list A) : M (list B) :=
  match l with
  | [] => ret []
  | a :: l' => do b <- f a; do bs <- mapM f l'; ret (b :: bs)
  end.

(** ** src/utils/libraryUtils.ts: LibraryManager *)

Module LibraryManager.

(** [Math.random().toString(36).substr(2, 9)]. *)
Definition generateId : M string :=
  do r <- Math_random; ret (fraction36 9 r).

(** [this.libraryItems.get(type) || null]. *)
Definition getShape (type : SnapLogicShapeType) : M (option LibraryItem) :=
  gets (fun w => libraryItems (libraryManager w) !! SnapLogicShapeType_value type).

(** The object literal mapped over the item's elements. *)
Definition cloneElement (x y : Z) (minX minY : Q) (element : ExcalidrawElement)
  : M ExcalidrawElement :=
  do newId <- generateId;
  do s <- randomSeed;
  do v <- randomSeed;
  do t <- Date_now;
  ret {| el_id := newId; el_type := el_type element;
         el_x := inject_Z x + el_x element - minX;
         el_y := inject_Z y + el_y element - minY;
         el_width := el_width element; el_height := el_height element;
         el_angle := el_angle element;
         el_strokeColor := el_strokeColor element;
         el_backgroundColor := el_backgroundColor element;
         el_fillStyle := el_fillStyle element;
         el_strokeWidth := el_strokeWidth element;
         el_strokeStyle := el_strokeStyle element;
         el_roughness := el_roughness element; el_opacity := el_opacity element;
         el_groupIds := el_groupIds element; el_index := el_index element;
         el_roundness := el_roundness element; el_seed := s;
         el_versionNonce := v; el_isDeleted := false; el_updated := t;
         el_text := el_text element; el_arrow := el_arrow element |}.

(** [e.x || 0] is [e.x] on rationals: the only falsy one is 0 itself. *)
Definition cloneLibraryItem (type : SnapLogicShapeType) (x y : Z)
  : M (list ExcalidrawElement) :=
  do libraryItem <- getShape type;
  match libraryItem with
  | None => ret []
  | Some item =>
      match item_elements item with
      | [] => ret []
      | e0 :: _ =>
          let elements := item_elements item in
          let minX := Math_min (el_x e0) (map el_x elements) in
          let minY := Math_min (el_y e0) (map el_y elements) in
          mapM (cloneElement x y minX minY) elements
      end
  end.

End LibraryManager.

(** ** src/services/libraryLoader.ts: LibraryLoaderService *)

Module LibraryLoaderService.

(** [`${type}-${x}-${y}`]. *)
Definition cacheKey (type : SnapLogicShapeType) (x y : Z) : string :=
  SnapLogicShapeType_value type +:+ "-" +:+ Z_toString x +:+ "-" +:+ Z_toString y.

Definition set_libraryCache (c : gmap string (list ExcalidrawElement)) (w : World) : World :=
  set_libraryLoader {| isLoaded := isLoaded (libraryLoader w); libraryCache := c |} w.

Definition getShape (type : SnapLogicShapeType) (x y : Z)
  : M (list ExcalidrawElement) :=
  do loaded <- gets (fun w => isLoaded (libraryLoader w));
  if negb loaded then ret []
  else
    do cached <- gets (fun w => libraryCache (libraryLoader w) !! cacheKey type x y);
    match cached with
    | Some elements => ret elements
    | None =>
        do elements <- LibraryManager.cloneLibraryItem type x y;
        run modify (fun w =>
              set_libraryCache
                (<[ cacheKey type x y := elements ]> (libraryCache (libraryLoader w))) w);
        ret elements
    end.

Definition isLibraryLoaded (w : World) : bool :=
  isLoaded (libraryLoader w).

End LibraryLoaderService.

(** The same lookup with the cache taken out: every call derives the bundle
    afresh.  It is what [getShape] is compared with. *)
Definition getShape_uncached (type : SnapLogicShapeType) (x y : Z)
  : M (list ExcalidrawElement) :=
  do loaded <- gets (fun w => isLoaded (libraryLoader w));
  if negb loaded then ret []
  else LibraryManager.cloneLibraryItem type x y.

(** ** src/utils/shapeFactory.ts: ShapeFactory

    The file holds two revisions of the class; this is the later one, whose
    createExecutionNode adds the node indicators. *)

(** What the factory asks of [libraryLoader]: whether the library is loaded
    (a plain read of a flag), and a shape, which may come back empty or not
    come back at all. *)
Record ShapeProvider := {
  isLibraryLoaded : World -> bool;
  getShape : SnapLogicShapeType -> Z -> Z -> M (list ExcalidrawElement)
}.

Definition libraryLoaderProvider : ShapeProvider :=
  {| isLibraryLoaded := LibraryLoaderService.isLibraryLoaded;
     getShape := LibraryLoaderService.getShape |}.

Module ShapeFactory.

(** [width || 350]: an absent or zero argument takes the default. *)
Definition orDefault (v : option Z) (d : Z) : Z :=
  match v with
  | Some n => if n =? 0 then d else n
  | None => d
  end.

Definition hasIndicator (node : ExecutionNode) : bool :=
  negb (NodeSize_is_medium (node_size node))
  || (node_memoryOptimized node && isJCC (node_type node)).

(** [indicatorText]; [None] when it is assigned [node.size] and the node has
    none, so that [indicatorText.length] raises a TypeError. *)
Definition indicatorText (node : ExecutionNode) : option string :=
  if node_memoryOptimized node && isJCC (node_type node) then
    if negb (NodeSize_is_medium (node_size node))
    then Some ("mo-" +:+ NodeSize_toString (node_size node))
    else Some "mo"
  else if negb (NodeSize_is_medium (node_size node)) then
    match node_size node with
    | Some s => Some (NodeSize_toString (Some s))
    | None => None
    end
  else Some "".

(** The local [generateIndex] of createNodeIndicators:
    [`a${Date.now()}-${Math.random().toString(36).substr(2, 5)}`]. *)
Definition indicatorIndex : M string :=
  do t <- Date_now;
  do r <- Math_random;
  ret ("a" +:+ Z_toString t +:+ "-" +:+ fraction36 5 r).

Definition createNodeIndicators (node : ExecutionNode) (x y : Z)
  : M (list ExcalidrawElement) :=
  if hasIndicator node then
    match indicatorText node with
    | None => throw "TypeError: Cannot read properties of undefined (reading 'length')"
    | Some indicatorText =>
        let indicatorWidth := Z.max 30 (Z.of_nat (String.length indicatorText) * 8 + 12) in
        let indicatorHeight := 25 in
        let indicatorX := x + 5 in
        let indicatorY := y + 37 in
        do i1 <- indicatorIndex;
        do s1 <- randomSeed;
        do v1 <- randomSeed;
        do t1 <- Date_now;
        let background :=
          {| el_id := "indicator-bg-" +:+ node_id node; el_type := "rectangle";
             el_x := inject_Z indicatorX; el_y := inject_Z indicatorY;
             el_width := inject_Z indicatorWidth;
             el_height := inject_Z indicatorHeight; el_angle := 0;
             el_strokeColor := "#000000"; el_backgroundColor := "#ffffff";
             el_fillStyle := "solid";
             el_strokeWidth := 1; el_strokeStyle := "solid"; el_roughness := 0;
             el_opacity := 100; el_groupIds := ["group-node-" +:+ node_id node];
             el_index := i1; el_roundness := Some 3; el_seed := s1;
             el_versionNonce := v1; el_isDeleted := false; el_updated := t1;
             el_text := None; el_arrow := None |} in
        do i2 <- indicatorIndex;
        do s2 <- randomSeed;
        do v2 <- randomSeed;
        do t2 <- Date_now;
        let badge :=
          {| el_id := "indicator-text-" +:+ node_id node; el_type := "text";
             el_x := inject_Z (indicatorX + 6); el_y := inject_Z (indicatorY + 6);
             el_width := inject_Z (indicatorWidth - 12); el_height := 15;
             el_angle := 0;
             el_strokeColor :=
               if node_memoryOptimized node && isJCC (node_type node)
               then "#10b981" else "#3b82f6";
             el_backgroundColor := "transparent"; el_fillStyle := "solid";
             el_strokeWidth := 1; el_strokeStyle := "solid"; el_roughness := 0;
             el_opacity := 100; el_groupIds := ["group-node-" +:+ node_id node];
             el_index := i2; el_roundness := None; el_seed := s2;
             el_versionNonce := v2; el_isDeleted := false; el_updated := t2;
             el_text := Some {| text := indicatorText; fontSize := 12;
                                fontFamily := 4; textAlign := "center";
                                verticalAlign := "middle";
                                originalText := indicatorText;
                                autoResize := false; lineHeight := 1.25 |};
             el_arrow := None |} in
        ret [background; badge]
    end
  else ret [].

Section WithProvider.
Variable provider : ShapeProvider.

Definition checkLibraryAvailability : M unit :=
  do loaded <- gets (isLibraryLoaded provider);
  modify (set_useLibraryShapes loaded).

(** In [fromLibrary], [Some elements] is the [return] inside the [try] and
    [None] falls through to the basic shapes, after the block or after the
    [catch]. *)
Definition createSnaplex (snaplex : Snaplex) (x y : Z)
    (width height : option Z) : M (list ExcalidrawElement) :=
  run checkLibraryAvailability;
  do useLibrary <- gets useLibraryShapes;
  do fromLibrary <-
    (if useLibrary then
       try_catch
         (let shapeType :=
            match snaplex_type snaplex with
            | cloudplex => CLOUDPLEX | groundplex => GROUNDPLEX end in
          do elements <- getShape provider shapeType x y;
          if (0 <? Z.of_nat (length elements)) then ret (Some elements) else ret None)
         (fun _ => ret None)
     else ret None);
  match fromLibrary with
  | Some elements => ret elements
  | None => createSnaplexElement snaplex x y (orDefault width 350) (orDefault height 200)
  end.

Definition createExecutionNode (node : ExecutionNode) (x y : Z)
  : M (list ExcalidrawElement) :=
  run checkLibraryAvailability;
  do useLibrary <- gets useLibraryShapes;
  do fromLibrary <-
    (if useLibrary then
       try_catch
         (let shapeType :=
            match node_type node with JCC => JCC_NODE | FM => FM_NODE end in
          do elements <- getShape provider shapeType x y;
          if (0 <? Z.of_nat (length elements)) then
            do indicators <- createNodeIndicators node x y;
            ret (Some (elements ++ indicators))
          else ret None)
         (fun _ => ret None)
     else ret None);
  match fromLibrary with
  | Some elements => ret elements
  | None => createNodeElement node x y 40
  end.

End WithProvider.

Definition createEnvironment (env : Environment) (x y : Z)
  : M (list ExcalidrawElement) :=
  createEnvironmentElement env x y 1200 500.

Definition createEndpoint (endpoint : Endpoint) (x y : Z)
  : M (list ExcalidrawElement) :=
  createEndpointElement endpoint x y 120 60.

End ShapeFactory.

(** ** The App component (src/unnamed/part_001): generateExcalidrawElements *)

Section App.
(** The [libraryLoader] behind the [shapeFactory] singleton. *)
Variable provider : ShapeProvider.

Definition positionOr (positions : gmap string Point) (key : string) (d : Point) : Point :=
  match positions !! key with Some p => p | None => d end.

Definition dimensionsOr (dims : gmap string Dimensions) (key : string) (d : Dimensions)
  : Dimensions :=
  match dims !! key with Some p => p | None => d end.

Definition nodeElements (layout : Layout) (node : ExecutionNode)
    (elements : list ExcalidrawElement) : M (list ExcalidrawElement) :=
  let nPos := positionOr (positions layout) ("node-" +:+ node_id node)
                {| pt_x := 150; pt_y := 150 |} in
  do shapes <- ShapeFactory.createExecutionNode provider node (pt_x nPos) (pt_y nPos);
  ret (elements ++ shapes).

Definition snaplexElements (layout : Layout) (snaplex : Snaplex)
    (elements : list ExcalidrawElement) : M (list ExcalidrawElement) :=
  let sPos := positionOr (positions layout) ("snaplex-" +:+ snaplex_id snaplex)
                {| pt_x := 100; pt_y := 100 |} in
  let sDims := dimensionsOr (envDimensions layout) ("snaplex-" +:+ snaplex_id snaplex)
                 {| dim_width := 450; dim_height := 300 |} in
  do header <- ShapeFactory.createSnaplex provider snaplex (pt_x sPos + 30) (pt_y sPos + 30)
                 (Some (dim_width sDims)) (Some (dim_height sDims));
  do outline <- createSnaplexContainer snaplex (pt_x sPos) (pt_y sPos)
                  (dim_width sDims) (dim_height sDims);
  forEachM (nodeElements layout) (nodes (container snaplex))
    ((elements ++ header) ++ [outline]).

Definition environmentElements (layout : Layout) (env : Environment)
    (elements : list ExcalidrawElement) : M (list ExcalidrawElement) :=
  let pos := positionOr (positions layout) ("env-" +:+ env_id env)
               {| pt_x := 50; pt_y := 50 |} in
  let dims := dimensionsOr (envDimensions layout) ("env-" +:+ env_id env)
                {| dim_width := 1200; dim_height := 500 |} in
  do shapes <- createEnvironmentElement env (pt_x pos) (pt_y pos)
                 (dim_width dims) (dim_height dims);
  forEachM (snaplexElements layout) (snaplexes env) (elements ++ shapes).

Definition endpointElements (layout : Layout) (endpoint : Endpoint)
    (elements : list ExcalidrawElement) : M (list ExcalidrawElement) :=
  let pos := positionOr (positions layout) ("endpoint-" +:+ endpoint_id endpoint)
               {| pt_x := 50; pt_y := 400 |} in
  do shapes <- ShapeFactory.createEndpoint endpoint (pt_x pos) (pt_y pos);
  ret (elements ++ shapes).

(** The body of [connections.forEach]: the connection resolver. *)
Definition resolveConnection (positions : gmap string Point) (conn : Connection)
  : M ExcalidrawElement :=
  let sourcePos := positionOr positions (source conn) {| pt_x := 0; pt_y := 0 |} in
  let targetPos := positionOr positions (target conn) {| pt_x := 100; pt_y := 100 |} in
  createConnectionElement conn (pt_x sourcePos) (pt_y sourcePos)
    (pt_x targetPos) (pt_y targetPos).

Definition connectionElements (layout : Layout) (conn : Connection)
    (elements : list ExcalidrawElement) : M (list ExcalidrawElement) :=
  do arrow <- resolveConnection (positions layout) conn;
  ret (elements ++ [arrow]).

Definition generateExcalidrawElements : M (list ExcalidrawElement) :=
  do store <- gets architecture;
  let layout := autoLayout (environments store) (endpoints store) in
  do elements1 <- forEachM (environmentElements layout) (environments store) [];
  do elements2 <- forEachM (endpointElements layout) (endpoints store) elements1;
  forEachM (connectionElements layout) (connections store) elements2.

End App.

(** ** src/utils/documentationGenerator.ts: TextUtils *)

(** [s.split(sep)] for a one-character separator. *)
Fixpoint split (sep : ascii) (s : string) : list string :=
  match s with
  | EmptyString => [EmptyString]
  | String c s' =>
      if Ascii.eqb c sep then EmptyString :: split sep s'
      else match split sep s' with
           | [] => [String c EmptyString]
           | h :: t => String c h :: t
           end
  end.

Definition newline : ascii := "010"%char.
Definition space : ascii := " "%char.

(** [lines.join('\n')]. *)
Definition join (sep : ascii) (l : list string) : string :=
  String.concat (String sep EmptyString) l.

Module TextUtils.

(** [Math.floor(maxWidth / (fontSize * 0.6))]. *)
Definition getCharactersPerLine (fontSize maxWidth : Q) : Z :=
  Qfloor (maxWidth / (fontSize * 0.6)).

(** The variables the loop of wrapLine assigns. *)
Record WrapLoop := {
  wrappedLines : list string;
  currentLine : string
}.

Definition wrapBody (maxCharsPerLine : Z) (st : WrapLoop) (word : string) : WrapLoop :=
  let testLine :=
    if String.eqb (currentLine st) "" then word
    else currentLine st +:+ " " +:+ word in
  if Z.of_nat (String.length testLine) <=? maxCharsPerLine then
    {| wrappedLines := wrappedLines st; currentLine := testLine |}
  else if negb (String.eqb (currentLine st) "") then
    {| wrappedLines := wrappedLines st ++ [currentLine st]; currentLine := word |}
  else
    {| wrappedLines :=
         wrappedLines st ++ [substring 0 (Z.to_nat (maxCharsPerLine - 3)) word +:+ "..."];
       currentLine := "" |}.

Definition wrapLine (line : string) (maxCharsPerLine : Z) : list string :=
  if Z.of_nat (String.length line) <=? maxCharsPerLine then [line]
  else
    let st := fold_left (wrapBody maxCharsPerLine) (split space line)
                {| wrappedLines := []; currentLine := "" |} in
    if negb (String.eqb (currentLine st) "") then wrappedLines st ++ [currentLine st]
    else wrappedLines st.

(** The variables the loops of chunkText assign. *)
Record ChunkLoop := {
  chunks : list string;
  currentChunk : list string;
  currentChunkLines : Z
}.

Definition pushLine (line : string) (st : ChunkLoop) : ChunkLoop :=
  {| chunks := chunks st;
     currentChunk := currentChunk st ++ [line];
     currentChunkLines := currentChunkLines st + 1 |}.

(** [if (currentChunkLines >= maxLinesPerChunk) { chunks.push(...); ... }]. *)
Definition flushIfFull (maxLinesPerChunk : Z) (st : ChunkLoop) : ChunkLoop :=
  if maxLinesPerChunk <=? currentChunkLines st then
    {| chunks := chunks st ++ [join newline (currentChunk st)];
       currentChunk := [];
       currentChunkLines := 0 |}
  else st.

Definition chunkBody (maxCharsPerLine maxLinesPerChunk : Z) (st : ChunkLoop) (line : string)
  : ChunkLoop :=
  let st1 :=
    if Z.of_nat (String.length line) <=? maxCharsPerLine then pushLine line st
    else
      fold_left (fun st wrappedLine => flushIfFull maxLinesPerChunk (pushLine wrappedLine st))
        (wrapLine line maxCharsPerLine) st in
  flushIfFull maxLinesPerChunk st1.

Definition chunkText (text : string) (maxCharsPerLine maxLinesPerChunk : Z) : list string :=
  let st := fold_left (chunkBody maxCharsPerLine maxLinesPerChunk) (split newline text)
              {| chunks := []; currentChunk := []; currentChunkLines := 0 |} in
  let chunks1 :=
    if (0 <? Z.of_nat (length (currentChunk st)))
    then chunks st ++ [join newline (currentChunk st)]
    else chunks st in
  if (0 <? Z.of_nat (length chunks1)) then chunks1 else [text].

(** [text.split('\n').length * fontSize * lineHeight]. *)
Definition calculateTextHeight (text : string) (fontSize lineHeight : Q) : Q :=
  (inject_Z (Z.of_nat (length (split newline text))) * fontSize * lineHeight)%Q.

End TextUtils.
Import TextUtils.

(** ** Vocabulary of the statements *)

(** *** Layout *)

(** What the cluster loop writes into the dimension table. *)
Definition snaplexDimensions (snaplex : Snaplex) : Dimensions :=
  {| dim_width := SNAPLEX_WIDTH; dim_height := actualSnaplexHeight snaplex |}.

Definition recordSnaplex (d : gmap string Dimensions) (snaplex : Snaplex)
  : gmap string Dimensions :=
  <[ "snaplex-" +:+ snaplex_id snaplex := snaplexDimensions snaplex ]> d.

(** What the layout reads of its input: the ids, in order. *)
Definition snaplexSkeleton (snaplex : Snaplex) : string * list string :=
  (snaplex_id snaplex, map node_id (nodes (container snaplex))).

Definition environmentSkeleton (env : Environment) : string * list (string * list string) :=
  (env_id env, map snaplexSkeleton (snaplexes env)).

(** *** Runs and what they leave alone *)

(** What a run leaves alone when it only draws indices, random numbers and
    the time, and re-reads the loaded flag: the store and both library
    singletons. *)
Definition keeps_library (w w' : World) : Prop :=
  architecture w' = architecture w
  /\ libraryLoader w' = libraryLoader w
  /\ libraryManager w' = libraryManager w.

(** The world after [checkLibraryAvailability]. *)
Definition checkedWorld (provider : ShapeProvider) (w : World) : World :=
  set_useLibraryShapes (isLibraryLoaded provider w) w.

(** The worlds in which the library is not loaded. *)
Definition unloaded (w : World) : Prop := isLoaded (libraryLoader w) = false.

(** *** Elements seen from outside *)

(** [s.startsWith(p)]. *)
Fixpoint startsWith (p s : string) : bool :=
  match p with
  | EmptyString => true
  | String a p' =>
      match s with
      | EmptyString => false
      | String b s' => Ascii.eqb a b && startsWith p' s'
      end
  end.

(** The texts of the indicator badges among some elements: the text
    elements createNodeIndicators names [indicator-text-<node id>]. *)
Definition indicatorBadges (l : list ExcalidrawElement) : list string :=
  flat_map (fun e =>
              if startsWith "indicator-text-" (el_id e)
              then match el_text e with Some t => [text t] | None => [] end
              else []) l.

(** The library shape the factory asks for a cluster and for a node. *)
Definition snaplexShapeType (snaplex : Snaplex) : SnapLogicShapeType :=
  match snaplex_type snaplex with cloudplex => CLOUDPLEX | groundplex => GROUNDPLEX end.

Definition nodeShapeType (node : ExecutionNode) : SnapLogicShapeType :=
  match node_type node with JCC => JCC_NODE | FM => FM_NODE end.

(** An element seen from outside: its id and its type. *)
Definition summary (e : ExcalidrawElement) : string * string := (el_id e, el_type e).

(** The ids and types of the diagram under the basic strategy. *)
Definition nodeSummary (node : ExecutionNode) : list (string * string) :=
  [("node-" +:+ node_id node, "ellipse"); ("label-node-" +:+ node_id node, "text")].

Definition snaplexSummary (snaplex : Snaplex) : list (string * string) :=
  [("snaplex-" +:+ snaplex_id snaplex, "rectangle");
   ("label-snaplex-" +:+ snaplex_id snaplex, "text");
   ("container-" +:+ snaplex_id snaplex, "rectangle")]
  ++ flat_map nodeSummary (nodes (container snaplex)).

Definition environmentSummary (env : Environment) : list (string * string) :=
  [("env-" +:+ env_id env, "rectangle"); ("label-" +:+ env_id env, "text")]
  ++ flat_map snaplexSummary (snaplexes env).

Definition endpointSummary (endpoint : Endpoint) : list (string * string) :=
  [("endpoint-" +:+ endpoint_id endpoint, "diamond");
   ("label-endpoint-" +:+ endpoint_id endpoint, "text")].

Definition connectionSummary (conn : Connection) : list (string * string) :=
  [("connection-" +:+ conn_id conn, "arrow")].

(** How many elements of a type a list holds. *)
Definition countType (t : string) (l : list ExcalidrawElement) : nat :=
  length (List.filter (fun e => String.eqb (el_type e) t) l).

(** *** The shape cache *)

(** Strings in which a character does not occur. *)
Fixpoint noChar (c : ascii) (s : string) : bool :=
  match s with
  | EmptyString => true
  | String a s' => negb (Ascii.eqb a c) && noChar c s'
  end.

(** An element without the fields cloning draws afresh: its id, seed,
    version nonce and time stamp. *)
Definition blank (e : ExcalidrawElement) : ExcalidrawElement :=
  {| el_id := ""; el_type := el_type e;
     el_x := el_x e; el_y := el_y e;
     el_width := el_width e; el_height := el_height e; el_angle := el_angle e;
     el_strokeColor := el_strokeColor e; el_backgroundColor := el_backgroundColor e;
     el_fillStyle := el_fillStyle e; el_strokeWidth := el_strokeWidth e;
     el_strokeStyle := el_strokeStyle e; el_roughness := el_roughness e;
     el_opacity := el_opacity e; el_groupIds := el_groupIds e;
     el_index := el_index e; el_roundness := el_roundness e;
     el_seed := 0; el_versionNonce := 0; el_isDeleted := el_isDeleted e;
     el_updated := 0; el_text := el_text e; el_arrow := el_arrow e |}.

(** The clone of a library element, drawn fields blanked. *)
Definition movedElement (x y : Z) (minX minY : Q) (element : ExcalidrawElement)
  : ExcalidrawElement :=
  {| el_id := ""; el_type := el_type element;
     el_x := inject_Z x + el_x element - minX;
     el_y := inject_Z y + el_y element - minY;
     el_width := el_width element; el_height := el_height element;
     el_angle := el_angle element;
     el_strokeColor := el_strokeColor element;
     el_backgroundColor := el_backgroundColor element;
     el_fillStyle := el_fillStyle element;
     el_strokeWidth := el_strokeWidth element;
     el_strokeStyle := el_strokeStyle element;
     el_roughness := el_roughness element; el_opacity := el_opacity element;
     el_groupIds := el_groupIds element; el_index := el_index element;
     el_roundness := el_roundness element; el_seed := 0;
     el_versionNonce := 0; el_isDeleted := false; el_updated := 0;
     el_text := el_text element; el_arrow := el_arrow element |}.

(** What cloning a library item yields, drawn fields blanked: a function of
    the item table and the request alone. *)
Definition clonedGeometry (items : gmap string LibraryItem)
    (type : SnapLogicShapeType) (x y : Z) : list ExcalidrawElement :=
  match items !! SnapLogicShapeType_value type with
  | None => []
  | Some item =>
      match item_elements item with
      | [] => []
      | e0 :: _ =>
          map (movedElement x y (Math_min (el_x e0) (map el_x (item_elements item)))
                 (Math_min (el_y e0) (map el_y (item_elements item))))
            (item_elements item)
      end
  end.

(** Every cached bundle is a clone of the current library item for its
    key. *)
Definition cache_sound (w : World) : Prop :=
  forall type x y elements,
    libraryCache (libraryLoader w) !! LibraryLoaderService.cacheKey type x y = Some elements ->
    map blank elements = clonedGeometry (libraryItems (libraryManager w)) type x y.

(** The bundle a request is answered with from now on: the cached one, or
    nothing while the library is not loaded. *)
Definition settled (w : World) (type : SnapLogicShapeType) (x y : Z)
    (elements : list ExcalidrawElement) : Prop :=
  if isLoaded (libraryLoader w)
  then libraryCache (libraryLoader w) !! LibraryLoaderService.cacheKey type x y
       = Some elements
  else elements = [].

(** A sequence of getShape requests, served one after the other. *)
Definition serve (get : SnapLogicShapeType -> Z -> Z -> M (list ExcalidrawElement))
    (calls : list (SnapLogicShapeType * Z * Z)) : M (list (list ExcalidrawElement)) :=
  mapM (fun '(type, x, y) => get type x y) calls.

(** *** Text flow *)

(** The logical lines of a text, wrapped one after the other: the lines the
    chunker distributes over chunks. *)
Definition wrappedText (text : string) (maxCharsPerLine : Z) : list string :=
  flat_map (fun line => wrapLine line maxCharsPerLine) (split newline text).

(** [s !== '']. *)
Definition nonEmpty (s : string) : bool := negb (String.eqb s "").

(** The words of a line: its non-empty pieces between spaces. *)
Definition wordsOf (line : string) : list string :=
  List.filter nonEmpty (split space line).

(** The forced break of a word that does not fit a line on its own. *)
Definition truncated (maxCharsPerLine : Z) (word : string) : string :=
  substring 0 (Z.to_nat (maxCharsPerLine - 3)) word +:+ "...".

(** On a line, the words too long for a line of their own come before all
    the others (none of them is the common case). *)
Definition longWordsFirst (maxCharsPerLine : Z) (line : string) : Prop :=
  exists longs shorts,
    split space line = longs ++ shorts
    /\ Forall (fun w => maxCharsPerLine < Z.of_nat (String.length w)) longs
    /\ Forall (fun w => Z.of_nat (String.length w) <= maxCharsPerLine) shorts.

(** A word of the output stands for a word of the input: the word itself,
    or, for a word too long for a line of its own, its forced break.  A
    word that fits a line is never cut. *)
Definition standsFor (maxCharsPerLine : Z) (out inp : string) : Prop :=
  out = inp
  \/ (maxCharsPerLine < Z.of_nat (String.length inp)
      /\ out = truncated maxCharsPerLine inp).

(** The words a state of the wrapping loop has laid out so far. *)
Definition laidOut (st : WrapLoop) : list string :=
  flat_map wordsOf (wrappedLines st) ++ wordsOf (currentLine st).

(** One wrapped line entering the chunk under construction. *)
Definition chunkStep (maxLinesPerChunk : Z) (st : ChunkLoop) (line : string) : ChunkLoop :=
  flushIfFull maxLinesPerChunk (pushLine line st).

(** The state of the chunker between two wrapped lines. *)
Definition chunk_inv (n : nat) (st : ChunkLoop) : Prop :=
  currentChunkLines st = Z.of_nat (length (currentChunk st))
  /\ (length (currentChunk st) < n)%nat
  /\ Forall (fun c => length (split newline c) = n) (chunks st)
  /\ Forall (fun l => noChar newline l = true) (currentChunk st).

(** *** Sample inputs *)

(** A world in which the library never loaded. *)
Definition basicWorld : World :=
  {| architecture := {| environments := []; endpoints := []; connections := [] |};
     libraryLoader := {| isLoaded := false; libraryCache := ∅ |};
     libraryManager := {| libraryItems := ∅ |};
     useLibraryShapes := false;
     indexCounter := 1;
     randomTape := fun n => (1 # Pos.of_nat (n + 2))%Q;
     randomPos := 0;
     clock := 1700000000000 |}.

(** A running control node of a given size. *)
Definition sampleNode (id : string) (size : NodeSize) (mo : bool) : ExecutionNode :=
  {| node_id := id; node_name := "node-" +:+ id; node_type := JCC;
     node_hostname := "node.snaplogic.local"; node_status := running;
     node_size := Some size; node_memoryOptimized := mo |}.

(** The end-to-end scenario: environment env-1 (production), cluster
    cluster-1 (cloud), six medium control nodes, library not loaded. *)
Definition scenarioNodes : list ExecutionNode :=
  map (fun id => sampleNode id medium false) ["1"; "2"; "3"; "4"; "5"; "6"].

Definition scenarioCluster : Snaplex :=
  {| snaplex_id := "cluster-1"; snaplex_name := "Primary Cloudplex";
     snaplex_type := cloudplex; snaplex_environment := "env-1";
     container := {| nodes := scenarioNodes; minWidth := 400; minHeight := 300 |};
     snaplex_status := active |}.

Definition scenarioEnvironment : Environment :=
  {| env_id := "env-1"; env_name := "Production"; env_type := production;
     region := "us-east-1"; snaplexes := [scenarioCluster]; zones := [] |}.

Definition scenarioWorld : World :=
  {| architecture :=
       {| environments := [scenarioEnvironment]; endpoints := []; connections := [] |};
     libraryLoader := libraryLoader basicWorld;
     libraryManager := libraryManager basicWorld;
     useLibraryShapes := false;
     indexCounter := 1;
     randomTape := randomTape basicWorld;
     randomPos := 0;
     clock := clock basicWorld |}.

(** A world whose library is loaded and holds a two-element cloud item. *)
Definition libraryElement (x y : Q) : ExcalidrawElement :=
  {| el_id := "lib"; el_type := "rectangle"; el_x := x; el_y := y;
     el_width := 100; el_height := 60; el_angle := 0;
     el_strokeColor := "#000000"; el_backgroundColor := "transparent";
     el_fillStyle := "solid"; el_strokeWidth := 1; el_strokeStyle := "solid";
     el_roughness := 0; el_opacity := 100; el_groupIds := []; el_index := "a0";
     el_roundness := None; el_seed := 1; el_versionNonce := 1;
     el_isDeleted := false; el_updated := 0; el_text := None; el_arrow := None |}.

Definition libraryWorld : World :=
  {| architecture := architecture basicWorld;
     libraryLoader := {| isLoaded := true; libraryCache := ∅ |};
     libraryManager :=
       {| libraryItems :=
            {[ "cloudplex" :=
                 {| item_id := "item-1"; item_name := Some "Cloudplex";
                    item_elements := [libraryElement 10 20; libraryElement 30 5] |} ]} |};
     useLibraryShapes := true;
     indexCounter := 1;
     randomTape := randomTape basicWorld;
     randomPos := 0;
     clock := clock basicWorld |}.

(** A connection between two ids the layout does not know. *)
Definition danglingConnection : Connection :=
  {| conn_id := "c1"; source := "ghost-a"; target := "ghost-b";
     conn_type := data_flow; label := None |}.

(** A provider that is available and always throws. *)
Definition throwingProvider : ShapeProvider :=
  {| isLibraryLoaded := fun _ => true;
     getShape := fun _ _ _ => throw "library unavailable" |}.

(** [n] copies of a line, one per logical line. *)
Fixpoint repeatLine (n : nat) (line : string) : string :=
  match n with
  | O => line
  | S n' => line +:+ String newline (repeatLine n' line)
  end.

(** 200 logical lines that fit, and 200 logical lines of 23 characters,
    each of which wraps into two. *)
Definition shortLinesText : string := repeatLine 199 "aaaaaaaaaaa".
Definition wrappingLinesText : string := repeatLine 199 "aaaaaaaaaaa bbbbbbbbbbb".

(** Two logical lines, the first of which starts with a word of 25
    characters and has to wrap. *)
Definition breakingText : string :=
  "aaaaaaaaaaaaaaaaaaaaaaaaa hi there" +:+ String newline "second line".

(** ** Further parts of the sources

    The rest of the embedding covers what the pipeline above leaves out:
    the vocabulary of the layout; [LibraryManager.loadLibrary],
    [indexLibraryItems] and [getShapeBounds] ([src/utils/libraryUtils.ts]);
    the loader's cache ([src/services/libraryLoader.ts]); the factory's
    rendering mode ([src/utils/shapeFactory.ts]); the text elements of the
    documentation generator; the actions of the store
    ([src/store/architectureStore.ts]) and the node buttons of the Sidebar
    component ([src/unnamed/part_000]). *)

(** *** Where the layout puts things *)

(** The keys an input writes into the position table. *)
Definition nodeKeys (snaplex : Snaplex) : list string :=
  map (fun n => "node-" +:+ node_id n) (nodes (container snaplex)).

Definition snaplexKeys (snaplex : Snaplex) : list string :=
  ("snaplex-" +:+ snaplex_id snaplex) :: nodeKeys snaplex.

Definition environmentKeys (env : Environment) : list string :=
  ("env-" +:+ env_id env) :: flat_map snaplexKeys (snaplexes env).

Definition endpointKeys (eps : list Endpoint) : list string :=
  map (fun e => "endpoint-" +:+ endpoint_id e) eps.

Definition layoutKeys (envs : list Environment) (eps : list Endpoint) : list string :=
  flat_map environmentKeys envs ++ endpointKeys eps.

(** No two entities of the input share a key: ids are distinct among the
    environments, among the clusters, among the nodes and among the
    endpoints. *)
Definition distinctKeys (envs : list Environment) (eps : list Endpoint) : Prop :=
  List.NoDup (layoutKeys envs eps).

(** The place of the [i]-th node of a cluster placed at [(x, y)]: five to a
    row, 70 apart. *)
Definition gridPoint (x y : Z) (i : nat) : Point :=
  {| pt_x := x + 50 + 70 * (Z.of_nat i mod 5);
     pt_y := y + 220 + 70 * (Z.of_nat i / 5) |}.

(** The height of the tallest cluster of an environment, 0 when it has
    none. *)
Definition tallestSnaplex (env : Environment) : Z :=
  fold_right Z.max 0 (map actualSnaplexHeight (snaplexes env)).

(** The state of the node loop before its [j]-th iteration. *)
Definition node_pre (x0 y0 : Z) (j : nat) (st : NodeLoop) : Prop :=
  (j = 0%nat /\ nodeX st = x0 /\ nodeY st = y0)
  \/ ((0 < j)%nat
      /\ nodeX st = x0 + 70 * ((Z.of_nat j - 1) mod 5 + 1)
      /\ nodeY st = y0 + 70 * ((Z.of_nat j - 1) / 5)).

(** The state of the environment loop before its [j]-th iteration: a row
    starts at every even [j]. *)
Definition row_inv (j : nat) (st : EnvLoop) : Prop :=
  currentY st = rowStartY st
  /\ 0 <= maxRowHeight st
  /\ (Z.of_nat j mod 2 = 0 -> currentX st = 50 /\ maxRowHeight st = 0).

(** Where the row after the one being filled will start. *)
Definition nextRowY (j : nat) (st : EnvLoop) : Z :=
  if Z.of_nat j mod 2 =? 1 then rowStartY st + maxRowHeight st + 100 else currentY st.

(** The variables of autoLayout before the loop over the environments, and
    before its [m]-th iteration. *)
Definition layoutStart : EnvLoop :=
  {| ev_positions := ∅; ev_envDimensions := ∅;
     currentX := 50; currentY := 50; rowStartY := 50; maxRowHeight := 0 |}.

Definition stateBefore (envs : list Environment) (m : nat) : EnvLoop :=
  forEach envBody (firstn m envs) layoutStart.

(** The size the layout gives an environment: wide enough for its clusters
    side by side, high enough for the tallest of them. *)
Definition environmentDimensions (env : Environment) : Dimensions :=
  {| dim_width := Z.max 1200 (480 * Z.of_nat (length (snaplexes env)) + 50);
     dim_height := Z.max 500 (tallestSnaplex env + 110) |}.

(** *** More sample inputs *)

Definition sampleCluster (id : string) (nodeIds : list string) : Snaplex :=
  {| snaplex_id := id; snaplex_name := "Groundplex " +:+ id;
     snaplex_type := groundplex; snaplex_environment := "";
     container := {| nodes := map (fun i => sampleNode i medium false) nodeIds;
                     minWidth := 400; minHeight := 300 |};
     snaplex_status := active |}.

Definition sampleEnvironment (id : string) (clusters : list Snaplex) : Environment :=
  {| env_id := id; env_name := "Environment " +:+ id; env_type := staging;
     region := "eu-west-1"; snaplexes := clusters; zones := [] |}.

Definition sampleEndpoint (id : string) : Endpoint :=
  {| endpoint_id := id; endpoint_name := "Endpoint " +:+ id;
     endpoint_type := rest; url := None |}.

(** Three environments, so that the layout starts a second row: the
    scenario's, one with three clusters (one of eleven nodes), one empty;
    and two endpoints. *)
Definition sampleEnvironments : list Environment :=
  [scenarioEnvironment;
   sampleEnvironment "env-2"
     [sampleCluster "c2" ["7"; "8"; "9"; "10"; "11"; "12"; "13"; "14"; "15"; "16"; "17"];
      sampleCluster "c3" []; sampleCluster "c4" ["18"]];
   sampleEnvironment "env-3" []].

Definition sampleEndpoints : list Endpoint := [sampleEndpoint "e1"; sampleEndpoint "e2"].

(** *** Counting the elements of a diagram *)

(** How many entries of a summary have a type that [g] accepts. *)
Definition typeCount (g : string -> bool) (l : list (string * string)) : nat :=
  length (List.filter (fun p => g (snd p)) l).

(** The clusters and the nodes of a store, across its environments. *)
Definition allSnaplexes (store : ArchitectureState) : list Snaplex :=
  flat_map snaplexes (environments store).

Definition allNodes (store : ArchitectureState) : list ExecutionNode :=
  flat_map (fun s => nodes (container s)) (allSnaplexes store).

(** ** src/utils/excalidrawHelpers.ts: generateIndex, seen from outside *)

(** The index generateIndex returns when its counter is [c]. *)
Definition indexAt (c : nat) : string :=
  "a" +:+ nat_toString (Nat.div c 2)
  +:+ (if Nat.eqb (Nat.modulo c 2) 0 then "V" else "").

(** ** src/utils/libraryUtils.ts: indexing the library, shape bounds

    [loadLibrary] is taken from the parsed content on: [JSON.parse] is not
    modelled.  A library item keeps the fields the cloning reads, so that the
    [type] and [description] the index adds to the item it stores do not
    show. *)

Record ExcalidrawLibrary := {
  lib_type : string;
  lib_version : Z;
  lib_libraryItems : list LibraryItem
}.

(** [c.toLowerCase()] and [s.toLowerCase()] on the letters A to Z.  No other
    character lowers to text that can take part in a match of the patterns
    below: the Kelvin sign gives a k, which no pattern has, and the dotted
    capital I gives an i followed by a combining dot, while no pattern ends
    in i. *)
Definition toLowerCase_char (c : ascii) : ascii :=
  let n := nat_of_ascii c in
  if (65 <=? n)%nat && (n <=? 90)%nat then ascii_of_nat (n + 32) else c.

Fixpoint toLowerCase (s : string) : string :=
  match s with
  | EmptyString => EmptyString
  | String c s' => String (toLowerCase_char c) (toLowerCase s')
  end.

(** [s.includes(p)]. *)
Fixpoint includes (s p : string) : bool :=
  match s with
  | EmptyString => startsWith p EmptyString
  | String _ s' => startsWith p s || includes s' p
  end.

(** The chain of tests of indexLibraryItems on the lowered name; [None] is
    the [null] no test replaced. *)
Definition matchShapeType (itemName : string) : option SnapLogicShapeType :=
  if String.eqb itemName "groundplex" || startsWith "groundplex" itemName
  then Some GROUNDPLEX
  else if String.eqb itemName "cloudplex" || startsWith "cloudplex" itemName
  then Some CLOUDPLEX
  else if String.eqb itemName "jcc node" || startsWith "jcc" itemName
  then Some JCC_NODE
  else if String.eqb itemName "feedmaster node" || includes itemName "feedmaster"
  then Some FM_NODE
  else if String.eqb itemName "api gateway" || includes itemName "api gateway"
  then Some API_GATEWAY
  else if String.eqb itemName "load balancer" || startsWith "load balancer" itemName
  then Some LOAD_BALANCER
  else if String.eqb itemName "ultra pipeline" || includes itemName "ultra pipeline"
  then Some ULTRA_PIPELINE
  else if includes itemName "endpoint" then Some ENDPOINT
  else if includes itemName "node" then Some JCC_NODE
  else None.

(** [item.name?.toLowerCase() || '']. *)
Definition loweredName (item : LibraryItem) : string :=
  match item_name item with
  | Some name => toLowerCase name
  | None => ""
  end.

(** The body of the loop of indexLibraryItems: only the first match of
    each type is kept. *)
Definition indexBody (items : gmap string LibraryItem) (item : LibraryItem)
  : gmap string LibraryItem :=
  match matchShapeType (loweredName item) with
  | Some shapeType =>
      match items !! SnapLogicShapeType_value shapeType with
      | Some _ => items
      | None => <[ SnapLogicShapeType_value shapeType := item ]> items
      end
  | None => items
  end.

(** [this.libraryItems.clear()], then the loop. *)
Definition indexLibraryItems (libraryItems : list LibraryItem) : gmap string LibraryItem :=
  fold_left indexBody libraryItems ∅.

Definition set_libraryManager (m : LibraryManager) (w : World) : World :=
  {| architecture := architecture w; libraryLoader := libraryLoader w;
     libraryManager := m; useLibraryShapes := useLibraryShapes w;
     indexCounter := indexCounter w; randomTape := randomTape w;
     randomPos := randomPos w; clock := clock w |}.

(** [loadLibrary], after [JSON.parse]: the [catch] logs and rethrows. *)
Definition loadLibrary (parsedLibrary : ExcalidrawLibrary) : M unit :=
  if negb (String.eqb (lib_type parsedLibrary) "excalidrawlib")
  then throw "Invalid library format"
  else modify (set_libraryManager
                 {| libraryItems := indexLibraryItems (lib_libraryItems parsedLibrary) |}).

(** [Math.max(...l)] of a non-empty list ([d] is its head). *)
Definition Math_max (d : Q) (l : list Q) : Q := fold_right Qmax d l.

Record ShapeBounds := {
  sb_width : Q;
  sb_height : Q;
  sb_minX : Q;
  sb_minY : Q
}.

(** The sums and the differences are exact here and rounded to doubles in
    the code; [wholeNumber] below says where the two agree. *)
Definition getShapeBounds (elements : list ExcalidrawElement) : ShapeBounds :=
  match elements with
  | [] => {| sb_width := 100; sb_height := 50; sb_minX := 0; sb_minY := 0 |}
  | e0 :: _ =>
      let xs := map el_x elements in
      let ys := map el_y elements in
      let widths := map (fun el => el_x el + el_width el)%Q elements in
      let heights := map (fun el => el_y el + el_height el)%Q elements in
      let minX := Math_min (el_x e0) xs in
      let minY := Math_min (el_y e0) ys in
      let maxX := Math_max (el_x e0 + el_width e0)%Q widths in
      let maxY := Math_max (el_y e0 + el_height e0)%Q heights in
      {| sb_width := (maxX - minX)%Q; sb_height := (maxY - minY)%Q;
         sb_minX := minX; sb_minY := minY |}
  end.

(** The geometry of an element is stored and added up in doubles.  On
    whole numbers of magnitude up to 2^48 the sums and differences the
    library code forms are exact, so that there the rationals of this
    embedding are the values the code computes; on fractional coordinates
    the code's results may be off by a rounding. *)
Definition wholeNumber (q : Q) : bool :=
  Qeq_bool q (inject_Z (Qfloor q)) && (Z.abs (Qfloor q) <=? 2 ^ 48).

Definition wholeGeometry (e : ExcalidrawElement) : bool :=
  wholeNumber (el_x e) && wholeNumber (el_y e)
  && wholeNumber (el_width e) && wholeNumber (el_height e).

(** ** src/services/libraryLoader.ts: the rest of the service *)

(** [getCleanContainer] hands the request to [getShape]. *)
Definition getCleanContainer (type : SnapLogicShapeType) (x y : Z)
  : M (list ExcalidrawElement) :=
  LibraryLoaderService.getShape type x y.

(** [this.libraryCache.clear()]. *)
Definition clearCache : M unit :=
  modify (LibraryLoaderService.set_libraryCache ∅).

(** [Object.values(SnapLogicShapeType)], in declaration order, once the
    library is loaded. *)
Definition getAvailableShapes : M (list SnapLogicShapeType) :=
  do loaded <- gets (fun w => isLoaded (libraryLoader w));
  if negb loaded then ret []
  else ret [GROUNDPLEX; CLOUDPLEX; JCC_NODE; FM_NODE; API_GATEWAY;
            LOAD_BALANCER; ULTRA_PIPELINE; ENDPOINT; ZONE].

(** ** src/utils/shapeFactory.ts: the rendering mode *)

Inductive RenderingMode := libraryMode | basicMode.

Definition getRenderingMode : M RenderingMode :=
  do useLibrary <- gets useLibraryShapes;
  ret (if useLibrary then libraryMode else basicMode).

Definition forceRenderingMode (mode : RenderingMode) : M unit :=
  modify (set_useLibraryShapes
            match mode with libraryMode => true | basicMode => false end).

(** *** The library index, seen from outside *)

(** The items whose name the index takes for a shape type. *)
Definition matchesType (t : SnapLogicShapeType) (item : LibraryItem) : bool :=
  match matchShapeType (loweredName item) with
  | Some t' => String.eqb (SnapLogicShapeType_value t') (SnapLogicShapeType_value t)
  | None => false
  end.

(** ** src/utils/documentationGenerator.ts: text elements

    A style is one of the style constants of the file: the base text style
    with a font size, a font family and a stroke colour, and for some a
    stroke width of its own. *)

Record TextStyle := {
  st_backgroundColor : string;
  st_fillStyle : string;
  st_strokeWidth : Q;
  st_strokeStyle : string;
  st_roughness : Q;
  st_opacity : Q;
  st_textAlign : string;
  st_verticalAlign : string;
  st_lineHeight : Q;
  st_groupIds : list string;
  st_fontSize : Q;
  st_fontFamily : Z;
  st_strokeColor : string
}.

(** [{ ...baseTextStyle, fontSize, fontFamily, strokeColor, strokeWidth }]. *)
Definition textStyle (size : Q) (family : Z) (colour : string) (strokeWidth : Q)
  : TextStyle :=
  {| st_backgroundColor := "transparent"; st_fillStyle := "solid";
     st_strokeWidth := strokeWidth; st_strokeStyle := "solid";
     st_roughness := 0; st_opacity := 100;
     st_textAlign := "left"; st_verticalAlign := "top"; st_lineHeight := 1.4;
     st_groupIds := ["documentation"];
     st_fontSize := size; st_fontFamily := family; st_strokeColor := colour |}.

Definition mainTitleStyle : TextStyle := textStyle 18 1 "#1e40af" 2.
Definition sectionTitleStyle : TextStyle := textStyle 16 1 "#1e40af" 2.
Definition subsectionTitleStyle : TextStyle := textStyle 14 1 "#3b82f6" 1.5.
Definition standardTextStyle : TextStyle := textStyle 12 1 "#374151" 1.
Definition tableTextStyle : TextStyle := textStyle 11 3 "#4b5563" 1.

Module Documentation.

(** [`doc-${Math.random().toString(36).substr(2, 9)}`]. *)
Definition generateId : M string :=
  do r <- Math_random; ret ("doc-" +:+ fraction36 9 r).

(** [`a${Math.random().toString(36).substr(2, 5)}`]. *)
Definition generateIndex : M string :=
  do r <- Math_random; ret ("a" +:+ fraction36 5 r).

End Documentation.

(** The variables the loop of createTextElements assigns. *)
Record TextLoop := {
  tl_elements : list ExcalidrawElement;
  tl_currentY : Q;
  tl_totalHeight : Q
}.

(** The element literal of the loop. *)
Definition textElement (chunk : string) (x y maxWidth chunkHeight : Q) (style : TextStyle)
  : M ExcalidrawElement :=
  do newId <- Documentation.generateId;
  do i <- Documentation.generateIndex;
  do s <- randomSeed;
  do v <- randomSeed;
  do t <- Date_now;
  ret {| el_id := newId; el_type := "text";
         el_x := x; el_y := y; el_width := maxWidth; el_height := chunkHeight;
         el_angle := 0;
         el_strokeColor := st_strokeColor style;
         el_backgroundColor := st_backgroundColor style;
         el_fillStyle := st_fillStyle style;
         el_strokeWidth := st_strokeWidth style;
         el_strokeStyle := st_strokeStyle style;
         el_roughness := st_roughness style; el_opacity := st_opacity style;
         el_groupIds := st_groupIds style; el_index := i;
         el_roundness := None; el_seed := s; el_versionNonce := v;
         el_isDeleted := false; el_updated := t;
         el_text := Some {| text := chunk; fontSize := st_fontSize style;
                            fontFamily := st_fontFamily style;
                            textAlign := st_textAlign style;
                            verticalAlign := st_verticalAlign style;
                            originalText := chunk; autoResize := false;
                            lineHeight := st_lineHeight style |};
         el_arrow := None |}.

(** The body of [chunks.forEach]; [count] is [chunks.length].  The heights
    and the running y are exact here and rounded to doubles in the code:
    what is proved of the elements below is about their texts, their x and
    width and the y of the first, which no rounding touches. *)
Definition textBody (x maxWidth : Q) (style : TextStyle) (count : nat)
    (st : TextLoop) (chunk : string) : M TextLoop :=
  let chunkHeight := calculateTextHeight chunk (st_fontSize style) (st_lineHeight style) in
  do element <- textElement chunk x (tl_currentY st) maxWidth chunkHeight style;
  let gap := (if (1 <? Z.of_nat count) then 10 else 0)%Q in
  ret {| tl_elements := tl_elements st ++ [element];
         tl_currentY := (tl_currentY st + (chunkHeight + gap))%Q;
         tl_totalHeight := (tl_totalHeight st + (chunkHeight + gap))%Q |}.

Fixpoint textLoop (x maxWidth : Q) (style : TextStyle) (count : nat)
    (chunks : list string) (st : TextLoop) : M TextLoop :=
  match chunks with
  | [] => ret st
  | chunk :: others =>
      do st' <- textBody x maxWidth style count st chunk;
      textLoop x maxWidth style count others st'
  end.

(** Returns [{ elements, totalHeight }]. *)
Definition createTextElements (text : string) (x y maxWidth : Q) (style : TextStyle)
  : M (list ExcalidrawElement * Q) :=
  let maxCharsPerLine := getCharactersPerLine (st_fontSize style) maxWidth in
  let chunks := chunkText text maxCharsPerLine 15 in
  do st <- textLoop x maxWidth style (length chunks) chunks
             {| tl_elements := []; tl_currentY := y; tl_totalHeight := 0 |};
  ret (tl_elements st, tl_totalHeight st).

(** [result.elements[0]]: [None] is [undefined]. *)
Definition createTextElement (text : string) (x y maxWidth : Q) (style : TextStyle)
  : M (option ExcalidrawElement) :=
  do result <- createTextElements text x y maxWidth style;
  ret (head (fst result)).

(** *** Text elements, seen from outside *)

(** The text an element shows, [""] for a shape without text. *)
Definition shownText (e : ExcalidrawElement) : string :=
  match el_text e with Some t => text t | None => "" end.

(** Elements stacked downwards from [y], [gap] apart. *)
Fixpoint stacked (y gap : Q) (l : list ExcalidrawElement) : Prop :=
  match l with
  | [] => True
  | e :: others => el_y e = y /\ stacked (y + (el_height e + gap)) gap others
  end.

(** *** More sample worlds *)

(** A world whose loaded library holds a control-node item. *)
Definition nodeLibraryWorld : World :=
  set_libraryManager
    {| libraryItems :=
         {[ "jcc_node" :=
              {| item_id := "item-2"; item_name := Some "JCC Node";
                 item_elements := [libraryElement 0 0] |} ]} |}
    libraryWorld.

(** A node as the mock data has them: without a size. *)
Definition sizelessNode : ExecutionNode :=
  {| node_id := "n1"; node_name := "JCC-1"; node_type := JCC;
     node_hostname := "jcc-1.snaplogic.local"; node_status := running;
     node_size := None; node_memoryOptimized := false |}.

(** The indices generateIndex returns on [n] calls from counter [c] on. *)
Definition indicesFrom (c n : nat) : list string := map indexAt (seq c n).

(** What a drawing step does to the index counter. *)
Definition draws_indices (w : World) (new : list ExcalidrawElement) (w' : World) : Prop :=
  map el_index new = indicesFrom (indexCounter w) (length new)
  /\ indexCounter w' = (indexCounter w + length new)%nat.

(** ** src/store/architectureStore.ts

    The store's state and its actions on environments, clusters, nodes,
    endpoints and connections; [now] is the [new Date()] an action stamps
    the metadata with.  [set] merges what an action returns into the state,
    so that the fields an action does not name stay. *)

Record ArchitectureMetadata := {
  meta_title : string;
  meta_description : string;
  meta_createdAt : Z;
  meta_updatedAt : Z;
  meta_version : string;
  meta_author : string
}.

Record ArchitectureStore := {
  store_environments : list Environment;
  store_endpoints : list Endpoint;
  store_connections : list Connection;
  store_metadata : ArchitectureMetadata;
  selectedItemId : option string;
  architectureDescription : string
}.

(** What the App component reads of the store. *)
Definition snapshot (s : ArchitectureStore) : ArchitectureState :=
  {| environments := store_environments s; endpoints := store_endpoints s;
     connections := store_connections s |}.

(** [{ ...state.metadata, updatedAt: new Date() }]. *)
Definition touched (now : Z) (m : ArchitectureMetadata) : ArchitectureMetadata :=
  {| meta_title := meta_title m; meta_description := meta_description m;
     meta_createdAt := meta_createdAt m; meta_updatedAt := now;
     meta_version := meta_version m; meta_author := meta_author m |}.

(** [set((state) => ({ environments: ..., metadata: ... }))]. *)
Definition setEnvironments (now : Z) (envs : list Environment) (s : ArchitectureStore)
  : ArchitectureStore :=
  {| store_environments := envs; store_endpoints := store_endpoints s;
     store_connections := store_connections s;
     store_metadata := touched now (store_metadata s);
     selectedItemId := selectedItemId s;
     architectureDescription := architectureDescription s |}.

Definition setEndpoints (now : Z) (eps : list Endpoint) (s : ArchitectureStore)
  : ArchitectureStore :=
  {| store_environments := store_environments s; store_endpoints := eps;
     store_connections := store_connections s;
     store_metadata := touched now (store_metadata s);
     selectedItemId := selectedItemId s;
     architectureDescription := architectureDescription s |}.

Definition setConnections (now : Z) (conns : list Connection) (s : ArchitectureStore)
  : ArchitectureStore :=
  {| store_environments := store_environments s; store_endpoints := store_endpoints s;
     store_connections := conns;
     store_metadata := touched now (store_metadata s);
     selectedItemId := selectedItemId s;
     architectureDescription := architectureDescription s |}.

(** [{ ...env, snaplexes }], [{ ...s, container: { ...s.container, nodes } }]. *)
Definition withSnaplexes (env : Environment) (l : list Snaplex) : Environment :=
  {| env_id := env_id env; env_name := env_name env; env_type := env_type env;
     region := region env; snaplexes := l; zones := zones env |}.

Definition withNodes (s : Snaplex) (l : list ExecutionNode) : Snaplex :=
  {| snaplex_id := snaplex_id s; snaplex_name := snaplex_name s;
     snaplex_type := snaplex_type s; snaplex_environment := snaplex_environment s;
     container := {| nodes := l; minWidth := minWidth (container s);
                     minHeight := minHeight (container s) |};
     snaplex_status := snaplex_status s |}.

(** [state.environments.map(env => env.id === envId ? { ...env, snaplexes:
    f(env.snaplexes) } : env)]. *)
Definition inEnvironment (envId : string) (f : list Snaplex -> list Snaplex)
    (envs : list Environment) : list Environment :=
  map (fun env => if String.eqb (env_id env) envId
                  then withSnaplexes env (f (snaplexes env)) else env) envs.

(** The same, one level down: [env.snaplexes.map(s => s.id === snaplexId ?
    { ...s, container: { ...s.container, nodes: f(nodes) } } : s)]. *)
Definition inCluster (snaplexId : string)
    (f : list ExecutionNode -> list ExecutionNode) (l : list Snaplex) : list Snaplex :=
  map (fun s => if String.eqb (snaplex_id s) snaplexId
                then withNodes s (f (nodes (container s))) else s) l.

Definition inSnaplex (envId snaplexId : string)
    (f : list ExecutionNode -> list ExecutionNode) (envs : list Environment)
  : list Environment :=
  inEnvironment envId (inCluster snaplexId f) envs.

(** [Partial<ExecutionNode>]: the keys an update carries; for the optional
    size, a key may be there with the value [undefined]. *)
Record ExecutionNodeUpdate := {
  upd_id : option string;
  upd_name : option string;
  upd_type : option NodeType;
  upd_hostname : option string;
  upd_status : option NodeStatus;
  upd_size : option (option NodeSize);
  upd_memoryOptimized : option bool
}.

Definition noUpdate : ExecutionNodeUpdate :=
  {| upd_id := None; upd_name := None; upd_type := None; upd_hostname := None;
     upd_status := None; upd_size := None; upd_memoryOptimized := None |}.

(** [{ ...n, ...updates }]. *)
Definition updated (n : ExecutionNode) (updates : ExecutionNodeUpdate) : ExecutionNode :=
  {| node_id := default (node_id n) (upd_id updates);
     node_name := default (node_name n) (upd_name updates);
     node_type := default (node_type n) (upd_type updates);
     node_hostname := default (node_hostname n) (upd_hostname updates);
     node_status := default (node_status n) (upd_status updates);
     node_size := default (node_size n) (upd_size updates);
     node_memoryOptimized := default (node_memoryOptimized n) (upd_memoryOptimized updates) |}.

Module Store.

Definition addEnvironment (now : Z) (env : Environment) (s : ArchitectureStore)
  : ArchitectureStore :=
  setEnvironments now (store_environments s ++ [env]) s.

Definition removeEnvironment (now : Z) (id : string) (s : ArchitectureStore)
  : ArchitectureStore :=
  setEnvironments now
    (List.filter (fun env => negb (String.eqb (env_id env) id)) (store_environments s)) s.

Definition addSnaplex (now : Z) (envId : string) (snaplex : Snaplex)
    (s : ArchitectureStore) : ArchitectureStore :=
  setEnvironments now
    (inEnvironment envId (fun l => l ++ [snaplex]) (store_environments s)) s.

Definition removeSnaplex (now : Z) (envId snaplexId : string) (s : ArchitectureStore)
  : ArchitectureStore :=
  setEnvironments now
    (inEnvironment envId
       (List.filter (fun x => negb (String.eqb (snaplex_id x) snaplexId)))
       (store_environments s)) s.

Definition addExecutionNode (now : Z) (envId snaplexId : string) (node : ExecutionNode)
    (s : ArchitectureStore) : ArchitectureStore :=
  setEnvironments now
    (inSnaplex envId snaplexId (fun l => l ++ [node]) (store_environments s)) s.

Definition updateExecutionNode (now : Z) (envId snaplexId nodeId : string)
    (updates : ExecutionNodeUpdate) (s : ArchitectureStore) : ArchitectureStore :=
  setEnvironments now
    (inSnaplex envId snaplexId
       (map (fun n => if String.eqb (node_id n) nodeId then updated n updates else n))
       (store_environments s)) s.

Definition removeExecutionNode (now : Z) (envId snaplexId nodeId : string)
    (s : ArchitectureStore) : ArchitectureStore :=
  setEnvironments now
    (inSnaplex envId snaplexId
       (List.filter (fun n => negb (String.eqb (node_id n) nodeId)))
       (store_environments s)) s.

Definition addEndpoint (now : Z) (endpoint : Endpoint) (s : ArchitectureStore)
  : ArchitectureStore :=
  setEndpoints now (store_endpoints s ++ [endpoint]) s.

Definition removeEndpoint (now : Z) (id : string) (s : ArchitectureStore)
  : ArchitectureStore :=
  setEndpoints now
    (List.filter (fun ep => negb (String.eqb (endpoint_id ep) id)) (store_endpoints s)) s.

Definition addConnection (now : Z) (connection : Connection) (s : ArchitectureStore)
  : ArchitectureStore :=
  setConnections now (store_connections s ++ [connection]) s.

Definition removeConnection (now : Z) (id : string) (s : ArchitectureStore)
  : ArchitectureStore :=
  setConnections now
    (List.filter (fun c => negb (String.eqb (conn_id c) id)) (store_connections s)) s.

End Store.

(** ** The Sidebar component (src/unnamed/part_000): the node handlers

    A handler reads the environments the component rendered with, taken to
    be the store's current ones, and calls an action of the store. *)

(** [environments.find(...)?.snaplexes.find(...)?.container.nodes.find(...)]. *)
Definition findNode (envId snaplexId nodeId : string) (envs : list Environment)
  : option ExecutionNode :=
  match List.find (fun e => String.eqb (env_id e) envId) envs with
  | None => None
  | Some env =>
      match List.find (fun x => String.eqb (snaplex_id x) snaplexId) (snaplexes env) with
      | None => None
      | Some snaplex =>
          List.find (fun n => String.eqb (node_id n) nodeId) (nodes (container snaplex))
      end
  end.

Definition sizeOrder : list NodeSize := [medium; L; XL; XXL].

(** [sizeOrder.indexOf(node.size)]: -1 for a node without a size. *)
Definition indexOfSize (size : option NodeSize) : Z :=
  match size with
  | Some medium => 0 | Some L => 1 | Some XL => 2 | Some XXL => 3
  | None => -1
  end.

(** [sizeOrder[i]]: [None] is [undefined]. *)
Definition sizeAt (i : Z) : option NodeSize :=
  if i <? 0 then None else nth_error sizeOrder (Z.to_nat i).

Definition handleNodeSizeUp (now : Z) (envId snaplexId nodeId : string)
    (s : ArchitectureStore) : ArchitectureStore :=
  match findNode envId snaplexId nodeId (store_environments s) with
  | Some node =>
      let currentIndex := indexOfSize (node_size node) in
      if currentIndex <? Z.of_nat (length sizeOrder) - 1 then
        Store.updateExecutionNode now envId snaplexId nodeId
          {| upd_id := None; upd_name := None; upd_type := None; upd_hostname := None;
             upd_status := None; upd_size := Some (sizeAt (currentIndex + 1));
             upd_memoryOptimized := None |} s
      else s
  | None => s
  end.

Definition handleNodeSizeDown (now : Z) (envId snaplexId nodeId : string)
    (s : ArchitectureStore) : ArchitectureStore :=
  match findNode envId snaplexId nodeId (store_environments s) with
  | Some node =>
      let currentIndex := indexOfSize (node_size node) in
      if 0 <? currentIndex then
        Store.updateExecutionNode now envId snaplexId nodeId
          {| upd_id := None; upd_name := None; upd_type := None; upd_hostname := None;
             upd_status := None; upd_size := Some (sizeAt (currentIndex - 1));
             upd_memoryOptimized := None |} s
      else s
  | None => s
  end.

Definition handleToggleMO (now : Z) (envId snaplexId nodeId : string)
    (s : ArchitectureStore) : ArchitectureStore :=
  match findNode envId snaplexId nodeId (store_environments s) with
  | Some node =>
      if isJCC (node_type node) then
        Store.updateExecutionNode now envId snaplexId nodeId
          {| upd_id := None; upd_name := None; upd_type := None; upd_hostname := None;
             upd_status := None; upd_size := None;
             upd_memoryOptimized := Some (negb (node_memoryOptimized node)) |} s
      else s
  | None => s
  end.

(** *** What the size buttons are for *)

(** The next size up, the smallest for a node that has none, and the next
    size down. *)
Definition sizeAbove (size : option NodeSize) : NodeSize :=
  match size with
  | None => medium | Some medium => L | Some L => XL | Some XL => XXL | Some XXL => XXL
  end.

Definition sizeBelow (size : option NodeSize) : option NodeSize :=
  match size with
  | None => None | Some medium => Some medium | Some L => Some medium
  | Some XL => Some L | Some XXL => Some XL
  end.

Definition withSize (n : ExecutionNode) (size : option NodeSize) : ExecutionNode :=
  {| node_id := node_id n; node_name := node_name n; node_type := node_type n;
     node_hostname := node_hostname n; node_status := node_status n;
     node_size := size; node_memoryOptimized := node_memoryOptimized n |}.

(** The layout of what the store holds. *)
Definition storeLayout (s : ArchitectureStore) : Layout :=
  autoLayout (store_environments s) (store_endpoints s).

(** A store to run the actions on: the sample environments and endpoints,
    and a connection from the first cluster to the second endpoint. *)
Definition sampleStore : ArchitectureStore :=
  {| store_environments := sampleEnvironments; store_endpoints := sampleEndpoints;
     store_connections :=
       [{| conn_id := "k1"; source := "snaplex-c2"; target := "endpoint-e2";
           conn_type := data_flow; label := None |}];
     store_metadata :=
       {| meta_title := "SnapLogic Architecture"; meta_description := "";
          meta_createdAt := 0; meta_updatedAt := 0; meta_version := "1.0.0";
          meta_author := "" |};
     selectedItemId := None; architectureDescription := "" |}.

(** ** The store's objects, held by reference

    JavaScript hands arrays and objects over by reference: [autoLayout] and
    the callbacks of the App component work on the very arrays and objects
    of the store, and could assign to them.  This part of the embedding
    keeps them in a heap.  An object is a cell that can be assigned to; an
    array holds references to its items; [new Map()] and [[]] allocate new
    cells, and [positions.set], [envDimensions.set] and [elements.push]
    assign to them.  What the pipeline computes from the values it reads is
    taken from the definitions above. *)

Abbreviation Loc := nat (only parsing).

Inductive Obj :=
  | ArrayObj (items : list Loc)
  | EnvironmentObj (id name : string) (type : EnvironmentType) (region : string)
      (snaplexes : Loc) (zones : list Zone)
  | SnaplexObj (id name : string) (type : SnaplexType) (environment : string)
      (container : Loc) (status : SnaplexStatus)
  | ContainerObj (nodes : Loc) (minWidth minHeight : Z)
  | NodeObj (node : ExecutionNode)
  | EndpointObj (endpoint : Endpoint)
  | ConnectionObj (connection : Connection)
  | PositionsObj (entries : gmap string Point)
  | DimensionsObj (entries : gmap string Dimensions)
  | ElementsObj (items : list ExcalidrawElement).

(** The heap, a reference being an index into it, and the world of the
    singletons. *)
Record Machine := {
  objects : list Obj;
  world : World
}.

(** A run on references: it returns or throws, and leaves a machine. *)
Definition Prog (A : Type) : Type := Machine -> Outcome A * Machine.

Definition rret {A} (a : A) : Prog A := fun m => (Returned a, m).

Definition rbind {A B} (c : Prog A) (k : A -> Prog B) : Prog B :=
  fun m => match c m with
           | (Returned a, m') => k a m'
           | (Thrown e, m') => (Thrown e, m')
           end.

Definition rthrow {A} (e : string) : Prog A := fun m => (Thrown e, m).

Notation "'let*' x ':=' c 'in' k" := (rbind c (fun x => k))
  (at level 10, x name, c at level 100, k at level 200).
Notation "c ';;' k" := (rbind c (fun _ => k))
  (at level 100, k at level 200, right associativity).

(** A step that works on values and the singletons only. *)
Definition lift {A} (c : M A) : Prog A :=
  fun m => (fst (c (world m)), {| objects := objects m; world := snd (c (world m)) |}).

(** A new object: [new Map()], [[]]. *)
Definition alloc (o : Obj) : Prog Loc :=
  fun m => (Returned (length (objects m)),
            {| objects := objects m ++ [o]; world := world m |}).

(** Following a reference; one that leads nowhere is [undefined]. *)
Definition deref (l : Loc) : Prog Obj :=
  fun m => match objects m !! l with
           | Some o => (Returned o, m)
           | None => (Thrown "TypeError", m)
           end.

(** Assigning to the object behind a reference. *)
Definition assign (l : Loc) (o : Obj) : Prog unit :=
  fun m => (Returned tt, {| objects := <[ l := o ]> (objects m); world := world m |}).

(** *** Reading the store's objects *)

Definition readArray (array : Loc) : Prog (list Loc) :=
  let* o := deref array in
  match o with ArrayObj items => rret items | _ => rthrow "TypeError" end.

(** [env.id], [env.snaplexes]. *)
Definition envId (env : Loc) : Prog string :=
  let* o := deref env in
  match o with EnvironmentObj id _ _ _ _ _ => rret id | _ => rthrow "TypeError" end.

Definition envSnaplexes (env : Loc) : Prog Loc :=
  let* o := deref env in
  match o with
  | EnvironmentObj _ _ _ _ snaplexes _ => rret snaplexes
  | _ => rthrow "TypeError"
  end.

(** [snaplex.id], [snaplex.container.nodes]. *)
Definition snaplexId (snaplex : Loc) : Prog string :=
  let* o := deref snaplex in
  match o with SnaplexObj id _ _ _ _ _ => rret id | _ => rthrow "TypeError" end.

Definition snaplexContainerNodes (snaplex : Loc) : Prog Loc :=
  let* o := deref snaplex in
  match o with
  | SnaplexObj _ _ _ _ container _ =>
      let* c := deref container in
      match c with ContainerObj nodes _ _ => rret nodes | _ => rthrow "TypeError" end
  | _ => rthrow "TypeError"
  end.

(** [node.id], [endpoint.id]. *)
Definition nodeId (node : Loc) : Prog string :=
  let* o := deref node in
  match o with NodeObj n => rret (node_id n) | _ => rthrow "TypeError" end.

Definition endpointId (endpoint : Loc) : Prog string :=
  let* o := deref endpoint in
  match o with EndpointObj e => rret (endpoint_id e) | _ => rthrow "TypeError" end.

(** The value of an object, with everything it refers to: what a function
    that is handed the object can read of it. *)
Fixpoint loadAll {A} (load : Loc -> option A) (items : list Loc) : option (list A) :=
  match items with
  | [] => Some []
  | l :: items' =>
      match load l, loadAll load items' with
      | Some a, Some l' => Some (a :: l')
      | _, _ => None
      end
  end.

Definition loadArray {A} (load : list Obj -> Loc -> option A) (h : list Obj) (array : Loc)
  : option (list A) :=
  match h !! array with
  | Some (ArrayObj items) => loadAll (load h) items
  | _ => None
  end.

Definition loadNode (h : list Obj) (l : Loc) : option ExecutionNode :=
  match h !! l with Some (NodeObj n) => Some n | _ => None end.

Definition loadEndpoint (h : list Obj) (l : Loc) : option Endpoint :=
  match h !! l with Some (EndpointObj e) => Some e | _ => None end.

Definition loadConnection (h : list Obj) (l : Loc) : option Connection :=
  match h !! l with Some (ConnectionObj c) => Some c | _ => None end.

Definition loadSnaplex (h : list Obj) (l : Loc) : option Snaplex :=
  match h !! l with
  | Some (SnaplexObj id name type environment c status) =>
      match h !! c with
      | Some (ContainerObj ns minWidth minHeight) =>
          match loadArray loadNode h ns with
          | Some nodes =>
              Some {| snaplex_id := id; snaplex_name := name; snaplex_type := type;
                      snaplex_environment := environment;
                      container := {| nodes := nodes; minWidth := minWidth;
                                      minHeight := minHeight |};
                      snaplex_status := status |}
          | None => None
          end
      | _ => None
      end
  | _ => None
  end.

Definition loadEnvironment (h : list Obj) (l : Loc) : option Environment :=
  match h !! l with
  | Some (EnvironmentObj id name type region ss zones) =>
      match loadArray loadSnaplex h ss with
      | Some snaplexes =>
          Some {| env_id := id; env_name := name; env_type := type; region := region;
                  snaplexes := snaplexes; zones := zones |}
      | None => None
      end
  | _ => None
  end.

Definition read {A} (load : list Obj -> Loc -> option A) (l : Loc) : Prog A :=
  fun m => match load (objects m) l with
           | Some a => (Returned a, m)
           | None => (Thrown "TypeError", m)
           end.

(** *** Maps and the element array *)

(** [positions.set(key, value)], [positions.get(key) || d]. *)
Definition positionsSet (positions : Loc) (key : string) (value : Point) : Prog unit :=
  let* o := deref positions in
  match o with
  | PositionsObj entries => assign positions (PositionsObj (<[ key := value ]> entries))
  | _ => rthrow "TypeError"
  end.

Definition positionsGetOr (positions : Loc) (key : string) (d : Point) : Prog Point :=
  let* o := deref positions in
  match o with
  | PositionsObj entries => rret (positionOr entries key d)
  | _ => rthrow "TypeError"
  end.

Definition dimensionsSet (envDimensions : Loc) (key : string) (value : Dimensions)
  : Prog unit :=
  let* o := deref envDimensions in
  match o with
  | DimensionsObj entries =>
      assign envDimensions (DimensionsObj (<[ key := value ]> entries))
  | _ => rthrow "TypeError"
  end.

Definition dimensionsGetOr (envDimensions : Loc) (key : string) (d : Dimensions)
  : Prog Dimensions :=
  let* o := deref envDimensions in
  match o with
  | DimensionsObj entries => rret (dimensionsOr entries key d)
  | _ => rthrow "TypeError"
  end.

(** [elements.push(...shapes)]. *)
Definition push (elements : Loc) (shapes : list ExcalidrawElement) : Prog unit :=
  let* o := deref elements in
  match o with
  | ElementsObj items => assign elements (ElementsObj (items ++ shapes))
  | _ => rthrow "TypeError"
  end.

(** [array.forEach((item, index) => ...)] over the local variables [s]: the
    length is read once, the items as the loop comes to them, and an index
    the array has lost in the meantime is skipped. *)
Fixpoint forEachRef_from {S : Type} (count : nat) (array : Loc) (index : nat)
    (body : Loc -> nat -> S -> Prog S) (s : S) : Prog S :=
  match count with
  | O => rret s
  | Datatypes.S count' =>
      let* items := readArray array in
      match items !! index with
      | Some item =>
          let* s' := body item index s in
          forEachRef_from count' array (Datatypes.S index) body s'
      | None => forEachRef_from count' array (Datatypes.S index) body s
      end
  end.

Definition forEachRef {S : Type} (array : Loc) (body : Loc -> nat -> S -> Prog S) (s : S)
  : Prog S :=
  let* items := readArray array in
  forEachRef_from (length items) array 0 body s.

(** *** autoLayout, on references *)

(** The variables the loops assign; the two maps are objects. *)
Record NodeVars := { nv_nodeX : Z; nv_nodeY : Z }.
Record SnaplexVars := { sv_snaplexX : Z; sv_maxX : Z; sv_maxY : Z }.
Record EnvVars := {
  ev_currentX : Z; ev_currentY : Z; ev_rowStartY : Z; ev_maxRowHeight : Z
}.

Module ByReference.

Definition nodeBody (positions : Loc) (nodeStartX : Z) (node : Loc) (nIndex : nat)
    (st : NodeVars) : Prog NodeVars :=
  let st1 :=
    if (0 <? Z.of_nat nIndex) && (Z.of_nat nIndex mod nodesPerRow =? 0)
    then {| nv_nodeX := nodeStartX; nv_nodeY := nv_nodeY st + 70 |}
    else st in
  let* id := nodeId node in
  positionsSet positions ("node-" +:+ id) {| pt_x := nv_nodeX st1; pt_y := nv_nodeY st1 |};;
  rret {| nv_nodeX := nv_nodeX st1 + nodeSpacing; nv_nodeY := nv_nodeY st1 |}.

(** [Math.ceil(snaplex.container.nodes.length / nodesPerRow)] and the
    height computed from it. *)
Definition snaplexHeight (count : nat) : Z :=
  let nodeRows := Qceiling (inject_Z (Z.of_nat count) / inject_Z nodesPerRow) in
  let calculatedSnaplexHeight :=
    SNAPLEX_HEIGHT + (if 1 <? nodeRows then (nodeRows - 1) * 70 else 0) in
  Z.max SNAPLEX_HEIGHT calculatedSnaplexHeight.

Definition snaplexBody (positions envDimensions : Loc) (snaplexY : Z) (snaplex : Loc)
    (sIndex : nat) (st : SnaplexVars) : Prog SnaplexVars :=
  let* id := snaplexId snaplex in
  positionsSet positions ("snaplex-" +:+ id)
    {| pt_x := sv_snaplexX st; pt_y := snaplexY |};;
  let maxX1 := Z.max (sv_maxX st) (sv_snaplexX st + SNAPLEX_WIDTH) in
  let nodeStartX := sv_snaplexX st + 50 in
  let* nodes := snaplexContainerNodes snaplex in
  forEachRef nodes (nodeBody positions nodeStartX)
    {| nv_nodeX := nodeStartX; nv_nodeY := snaplexY + 220 |};;
  let* nodes' := snaplexContainerNodes snaplex in
  let* items := readArray nodes' in
  let actualSnaplexHeight := snaplexHeight (length items) in
  let maxY1 := Z.max (sv_maxY st) (snaplexY + actualSnaplexHeight) in
  let* id' := snaplexId snaplex in
  dimensionsSet envDimensions ("snaplex-" +:+ id')
    {| dim_width := SNAPLEX_WIDTH; dim_height := actualSnaplexHeight |};;
  rret {| sv_snaplexX := sv_snaplexX st + (SNAPLEX_WIDTH + 30);
          sv_maxX := maxX1; sv_maxY := maxY1 |}.

Definition envBody (positions envDimensions : Loc) (env : Loc) (index : nat)
    (st : EnvVars) : Prog EnvVars :=
  let* id := envId env in
  positionsSet positions ("env-" +:+ id)
    {| pt_x := ev_currentX st; pt_y := ev_currentY st |};;
  let* snaplexes := envSnaplexes env in
  let* sl := forEachRef snaplexes (snaplexBody positions envDimensions (ev_currentY st + 80))
               {| sv_snaplexX := ev_currentX st + SNAPLEX_MARGIN;
                  sv_maxX := ev_currentX st; sv_maxY := ev_currentY st + 80 |} in
  let actualWidth := Z.max ENV_WIDTH (sv_maxX sl - ev_currentX st + SNAPLEX_MARGIN) in
  let actualHeight := Z.max ENV_HEIGHT (sv_maxY sl - ev_currentY st + 30) in
  let* id' := envId env in
  dimensionsSet envDimensions ("env-" +:+ id')
    {| dim_width := actualWidth; dim_height := actualHeight |};;
  let maxRowHeight1 := Z.max (ev_maxRowHeight st) actualHeight in
  let currentX1 := ev_currentX st + (actualWidth + 50) in
  if (Z.of_nat index + 1) mod 2 =? 0
  then rret {| ev_currentX := 50;
               ev_currentY := ev_rowStartY st + maxRowHeight1 + 100;
               ev_rowStartY := ev_rowStartY st + maxRowHeight1 + 100;
               ev_maxRowHeight := 0 |}
  else rret {| ev_currentX := currentX1;
               ev_currentY := ev_currentY st;
               ev_rowStartY := ev_rowStartY st;
               ev_maxRowHeight := maxRowHeight1 |}.

Definition endpointBody (positions : Loc) (currentY : Z) (endpoint : Loc) (index : nat)
    (st : unit) : Prog unit :=
  let* id := endpointId endpoint in
  positionsSet positions ("endpoint-" +:+ id)
    {| pt_x := 50 + Z.of_nat index * 200; pt_y := currentY |}.

(** Returns [{ positions, envDimensions }]: the two maps. *)
Definition autoLayout (environments endpoints : Loc) : Prog (Loc * Loc) :=
  let* positions := alloc (PositionsObj ∅) in
  let* envDimensions := alloc (DimensionsObj ∅) in
  let* ev := forEachRef environments (envBody positions envDimensions)
               {| ev_currentX := 50; ev_currentY := 50; ev_rowStartY := 50;
                  ev_maxRowHeight := 0 |} in
  let* items := readArray environments in
  let currentY1 :=
    if Z.of_nat (length items) mod 2 =? 1
    then ev_rowStartY ev + ev_maxRowHeight ev + 100
    else ev_currentY ev in
  let currentY2 := currentY1 + 50 in
  forEachRef endpoints (endpointBody positions currentY2) tt;;
  rret (positions, envDimensions).

(** *** generateExcalidrawElements, on references *)

Section App.
Variable provider : ShapeProvider.

Definition nodeElements (elements positions : Loc) (node : Loc) (index : nat) (st : unit)
  : Prog unit :=
  let* id := nodeId node in
  let* nPos := positionsGetOr positions ("node-" +:+ id) {| pt_x := 150; pt_y := 150 |} in
  let* n := read loadNode node in
  let* shapes := lift (ShapeFactory.createExecutionNode provider n (pt_x nPos) (pt_y nPos)) in
  push elements shapes.

Definition snaplexElements (elements positions envDimensions : Loc) (snaplex : Loc)
    (index : nat) (st : unit) : Prog unit :=
  let* id := snaplexId snaplex in
  let* sPos := positionsGetOr positions ("snaplex-" +:+ id)
                 {| pt_x := 100; pt_y := 100 |} in
  let* id' := snaplexId snaplex in
  let* sDims := dimensionsGetOr envDimensions ("snaplex-" +:+ id')
                  {| dim_width := 450; dim_height := 300 |} in
  let* s := read loadSnaplex snaplex in
  let* header := lift (ShapeFactory.createSnaplex provider s (pt_x sPos + 30)
                         (pt_y sPos + 30) (Some (dim_width sDims))
                         (Some (dim_height sDims))) in
  push elements header;;
  let* s' := read loadSnaplex snaplex in
  let* outline := lift (createSnaplexContainer s' (pt_x sPos) (pt_y sPos)
                          (dim_width sDims) (dim_height sDims)) in
  push elements [outline];;
  let* nodes := snaplexContainerNodes snaplex in
  forEachRef nodes (nodeElements elements positions) tt.

Definition environmentElements (elements positions envDimensions : Loc) (env : Loc)
    (index : nat) (st : unit) : Prog unit :=
  let* id := envId env in
  let* pos := positionsGetOr positions ("env-" +:+ id) {| pt_x := 50; pt_y := 50 |} in
  let* id' := envId env in
  let* dims := dimensionsGetOr envDimensions ("env-" +:+ id')
                 {| dim_width := 1200; dim_height := 500 |} in
  let* e := read loadEnvironment env in
  let* shapes := lift (createEnvironmentElement e (pt_x pos) (pt_y pos)
                         (dim_width dims) (dim_height dims)) in
  push elements shapes;;
  let* snaplexes := envSnaplexes env in
  forEachRef snaplexes (snaplexElements elements positions envDimensions) tt.

Definition endpointElements (elements positions : Loc) (endpoint : Loc) (index : nat)
    (st : unit) : Prog unit :=
  let* id := endpointId endpoint in
  let* pos := positionsGetOr positions ("endpoint-" +:+ id) {| pt_x := 50; pt_y := 400 |} in
  let* e := read loadEndpoint endpoint in
  let* shapes := lift (ShapeFactory.createEndpoint e (pt_x pos) (pt_y pos)) in
  push elements shapes.

Definition connectionElements (elements positions : Loc) (conn : Loc) (index : nat)
    (st : unit) : Prog unit :=
  let* c := read loadConnection conn in
  let* sourcePos := positionsGetOr positions (source c) {| pt_x := 0; pt_y := 0 |} in
  let* c' := read loadConnection conn in
  let* targetPos := positionsGetOr positions (target c') {| pt_x := 100; pt_y := 100 |} in
  let* c'' := read loadConnection conn in
  let* arrow := lift (createConnectionElement c'' (pt_x sourcePos) (pt_y sourcePos)
                        (pt_x targetPos) (pt_y targetPos)) in
  push elements [arrow].

(** Returns [elements], the array. *)
Definition generateExcalidrawElements (environments endpoints connections : Loc) : Prog Loc :=
  let* elements := alloc (ElementsObj []) in
  let* layout := autoLayout environments endpoints in
  forEachRef environments
    (environmentElements elements (fst layout) (snd layout)) tt;;
  forEachRef endpoints (endpointElements elements (fst layout)) tt;;
  forEachRef connections (connectionElements elements (fst layout)) tt;;
  rret elements.

End App.
End ByReference.

(** *** What a run leaves of the heap *)

(** The objects that were there are as they were. *)
Definition untouched (n : nat) (m m' : Machine) : Prop :=
  (n <= length (objects m'))%nat
  /\ forall l, (l < n)%nat -> objects m' !! l = objects m !! l.

(** A step leaves the first [n] objects alone, returning or throwing, and
    what it returns satisfies [Q]. *)
Definition leaves {A} (n : nat) (c : Prog A) (Q : A -> Prop) : Prop :=
  forall m, (n <= length (objects m))%nat ->
    untouched n m (snd (c m))
    /\ forall a, fst (c m) = Returned a -> Q a.

(** A heap that holds the store's snapshot at three references. *)
Definition holds (m : Machine) (envs eps conns : Loc) (a : ArchitectureState) : Prop :=
  loadArray loadEnvironment (objects m) envs = Some (environments a)
  /\ loadArray loadEndpoint (objects m) eps = Some (endpoints a)
  /\ loadArray loadConnection (objects m) conns = Some (connections a).

(** A heap that still holds every object of [h]. *)
Definition extends (h h' : list Obj) : Prop :=
  forall l o, h !! l = Some o -> h' !! l = Some o.

(** The machine in the course of a run of autoLayout that started from the
    heap [h]: the objects of [h] are as they were, and the two maps are
    objects of the run's own, with the entries set so far. *)
Definition layoutState (h : list Obj) (positions envDimensions : Loc)
    (entries : gmap string Point) (dims : gmap string Dimensions) (w : World)
    (m : Machine) : Prop :=
  extends h (objects m)
  /\ (length h <= positions)%nat /\ (length h <= envDimensions)%nat
  /\ positions <> envDimensions
  /\ objects m !! positions = Some (PositionsObj entries)
  /\ objects m !! envDimensions = Some (DimensionsObj dims)
  /\ world m = w.

(** The local variables of a loop of autoLayout on references, and the
    maps in the heap, next to the variables of the loop on values. *)
Definition nodeLoopState (h : list Obj) (positions envDimensions : Loc)
    (dims : gmap string Dimensions) (w : World)
    (s : NodeVars) (t : NodeLoop) (m : Machine) : Prop :=
  nodeX t = nv_nodeX s /\ nodeY t = nv_nodeY s
  /\ layoutState h positions envDimensions (nl_positions t) dims w m.

Definition snaplexLoopState (h : list Obj) (positions envDimensions : Loc) (w : World)
    (s : SnaplexVars) (t : SnaplexLoop) (m : Machine) : Prop :=
  snaplexX t = sv_snaplexX s /\ maxX t = sv_maxX s /\ maxY t = sv_maxY s
  /\ layoutState h positions envDimensions (sl_positions t) (sl_envDimensions t) w m.

Definition envLoopState (h : list Obj) (positions envDimensions : Loc) (w : World)
    (s : EnvVars) (t : EnvLoop) (m : Machine) : Prop :=
  currentX t = ev_currentX s /\ currentY t = ev_currentY s
  /\ rowStartY t = ev_rowStartY s /\ maxRowHeight t = ev_maxRowHeight s
  /\ layoutState h positions envDimensions (ev_positions t) (ev_envDimensions t) w m.

Definition endpointLoopState (h : list Obj) (positions envDimensions : Loc)
    (dims : gmap string Dimensions) (w : World)
    (s : unit) (t : gmap string Point) (m : Machine) : Prop :=
  layoutState h positions envDimensions t dims w m.

(** *** Sample machines *)

(** The scenario in a heap: the six nodes, their array, the container, the
    cluster, the environment, and the three arrays of the store. *)
Definition scenarioHeap : list Obj :=
  map NodeObj scenarioNodes
  ++ [ArrayObj [0; 1; 2; 3; 4; 5]%nat;
      ContainerObj 6 400 300;
      SnaplexObj "cluster-1" "Primary Cloudplex" cloudplex "env-1" 7 active;
      ArrayObj [8%nat];
      EnvironmentObj "env-1" "Production" production "us-east-1" 9 [];
      ArrayObj [10%nat];
      ArrayObj [];
      ArrayObj []].

Definition scenarioMachine : Machine :=
  {| objects := scenarioHeap; world := scenarioWorld |}.

(** Another store with the same ids in the same order: other names, kinds,
    sizes and statuses, other addresses, another world. *)
Definition otherHeap : list Obj :=
  [ArrayObj [];
   ArrayObj [2%nat];
   EnvironmentObj "env-1" "Staging copy" staging "eu-west-1" 3 [];
   ArrayObj [4%nat];
   SnaplexObj "cluster-1" "Groundplex" groundplex "" 5 maintenance;
   ContainerObj 6 0 0;
   ArrayObj [7; 8; 9; 10; 11; 12]%nat]
  ++ map (fun id => NodeObj (sampleNode id XXL true)) ["1"; "2"; "3"; "4"; "5"; "6"].

Definition otherMachine : Machine :=
  {| objects := otherHeap; world := libraryWorld |}.

(** *** The synthesis pass on references, next to the one on values *)

(** The machine in the course of the pass, started from the heap [h]: the
    objects of [h] as they were, the two maps of the layout at [p] and [d],
    and at [e] the element array with the elements pushed so far; [w] is
    the world. *)
Definition drawState (h : list Obj) (e p d : Loc) (layout : Layout)
    (pushed : list ExcalidrawElement) (w : World) (m : Machine) : Prop :=
  extends h (objects m)
  /\ (length h <= e)%nat /\ e <> p /\ e <> d
  /\ objects m !! e = Some (ElementsObj pushed)
  /\ objects m !! p = Some (PositionsObj (positions layout))
  /\ objects m !! d = Some (DimensionsObj (envDimensions layout))
  /\ world m = w.

(** A run on references follows a run on values: it returns when that one
    returns and throws what that one throws, leaving the same world; when
    both return, [I] holds of what they return and leave. *)
Definition follows {A B} (I : A -> B -> World -> Machine -> Prop)
    (r : Outcome A * World) (r' : Outcome B * Machine) : Prop :=
  world (snd r') = snd r
  /\ match fst r with
     | Returned a => exists b, fst r' = Returned b /\ I a b (snd r) (snd r')
     | Thrown e => fst r' = Thrown e
     end.

(* ===================================================================== *)
(** * Part II.  Properties                                                *)
(* ===================================================================== *)

(** ** Keys of the layout maps *)

Lemma prefixed_inj (p a b : string) : p +:+ a = p +:+ b -> a = b.
Proof.
  induction p as [|c p IH]; simpl; intros H; [exact H|].
  injection H as H. auto.
Qed.

Lemma env_key_ne_snaplex_key (a b : string) : "env-" +:+ a <> "snaplex-" +:+ b.
Proof. simpl. intros H. discriminate H. Qed.

(** ** autoLayout: the dimension table *)

Lemma snaplexLoop_envDimensions y l : forall i st,
  sl_envDimensions (forEach_from (snaplexBody y) l i st)
  = fold_left recordSnaplex l (sl_envDimensions st).
Proof.
  induction l as [|s l IH]; intros i st; simpl; [reflexivity|].
  rewrite IH. reflexivity.
Qed.

Lemma envBody_envDimensions st env i :
  exists d, ev_envDimensions (envBody st env i)
            = <[ "env-" +:+ env_id env := d ]>
                (fold_left recordSnaplex (snaplexes env) (ev_envDimensions st)).
Proof.
  unfold envBody, forEach.
  destruct ((Z.of_nat i + 1) mod 2 =? 0); simpl;
    rewrite snaplexLoop_envDimensions; simpl; eauto.
Qed.

Lemma recordSnaplex_lookup_congr l : forall (m m' : gmap string Dimensions) k,
  m !! k = m' !! k ->
  fold_left recordSnaplex l m !! k = fold_left recordSnaplex l m' !! k.
Proof.
  induction l as [|s l IH]; intros m m' k H; simpl; [exact H|].
  apply IH. unfold recordSnaplex. rewrite !lookup_insert.
  case_decide; [reflexivity|exact H].
Qed.

Lemma envLoop_snaplex_lookup l : forall i st id,
  ev_envDimensions (forEach_from envBody l i st) !! ("snaplex-" +:+ id)
  = fold_left recordSnaplex (flat_map snaplexes l) (ev_envDimensions st)
      !! ("snaplex-" +:+ id).
Proof.
  induction l as [|env l IH]; intros i st id; simpl; [reflexivity|].
  rewrite IH, fold_left_app.
  destruct (envBody_envDimensions st env i) as [d ->].
  apply recordSnaplex_lookup_congr.
  apply lookup_insert_ne, env_key_ne_snaplex_key.
Qed.

Lemma recordSnaplex_other l : forall d id,
  ~ In id (map snaplex_id l) ->
  fold_left recordSnaplex l d !! ("snaplex-" +:+ id) = d !! ("snaplex-" +:+ id).
Proof.
  induction l as [|s l IH]; intros d id Hnot; simpl; [reflexivity|].
  rewrite IH by (intros H; apply Hnot; right; exact H).
  unfold recordSnaplex. apply lookup_insert_ne.
  intros H. apply prefixed_inj in H. apply Hnot. left. exact H.
Qed.

Lemma recordSnaplex_lookup l : forall d s,
  In s l -> List.NoDup (map snaplex_id l) ->
  fold_left recordSnaplex l d !! ("snaplex-" +:+ snaplex_id s)
  = Some (snaplexDimensions s).
Proof.
  induction l as [|a l IH]; intros d s Hin Hnd; simpl in *; [contradiction|].
  apply List.NoDup_cons_iff in Hnd as [Hnot Hnd].
  destruct Hin as [->|Hin].
  - rewrite recordSnaplex_other by exact Hnot.
    unfold recordSnaplex. apply lookup_insert_eq.
  - apply IH; assumption.
Qed.

Lemma autoLayout_snaplex_dimensions envs eps env s :
  In env envs -> In s (snaplexes env) ->
  List.NoDup (map snaplex_id (flat_map snaplexes envs)) ->
  envDimensions (autoLayout envs eps) !! ("snaplex-" +:+ snaplex_id s)
  = Some (snaplexDimensions s).
Proof.
  intros Henv Hs Hnd. unfold autoLayout, forEach. simpl.
  rewrite envLoop_snaplex_lookup. simpl.
  apply recordSnaplex_lookup; [|exact Hnd].
  apply in_flat_map. exists env. split; assumption.
Qed.

(** [Math.ceil(k / 5)] on integers. *)
Lemma ceil_div_5 (k : Z) : Qceiling (inject_Z k / inject_Z 5) = (k + 4) / 5.
Proof.
  unfold Qceiling, Qfloor, Qdiv, Qmult, Qinv, Qopp, inject_Z. simpl.
  change (Z.pos (1 * 5)) with 5. rewrite Z.mul_1_r.
  pose proof (Z.div_mod (- k) 5 ltac:(lia)) as H1.
  pose proof (Z.mod_pos_bound (- k) 5 ltac:(lia)) as H2.
  pose proof (Z.div_mod (k + 4) 5 ltac:(lia)) as H3.
  pose proof (Z.mod_pos_bound (k + 4) 5 ltac:(lia)) as H4.
  lia.
Qed.

Lemma nodeRows_eq snaplex :
  nodeRows snaplex = (Z.of_nat (length (nodes (container snaplex))) + 4) / 5.
Proof. unfold nodeRows, nodesPerRow. apply ceil_div_5. Qed.

(** C2.  A cluster with k nodes gets the height
    max(300, 300 + (ceil(k/5) - 1) * 70): that is what the engine computes
    and, cluster ids being distinct, what it records under the cluster's key
    together with the fixed width 450.  For k > 0 this is
    300 + max(0, ceil(k/5) - 1) * 70, and for k = 0 the recorded size is the
    minimum one, 450 by 300; the height is never below 300. *)
Theorem cluster_height_formula (s : Snaplex) :
  let k := Z.of_nat (length (nodes (container s))) in
  let rows := Qceiling (inject_Z k / inject_Z 5) in
  actualSnaplexHeight s = Z.max 300 (300 + (rows - 1) * 70)
  /\ (0 < k -> actualSnaplexHeight s = 300 + Z.max 0 (rows - 1) * 70)
  /\ (k = 0 -> snaplexDimensions s = {| dim_width := 450; dim_height := 300 |})
  /\ 300 <= actualSnaplexHeight s
  /\ (forall envs eps env,
        In env envs -> In s (snaplexes env) ->
        List.NoDup (map snaplex_id (flat_map snaplexes envs)) ->
        envDimensions (autoLayout envs eps) !! ("snaplex-" +:+ snaplex_id s)
        = Some {| dim_width := 450; dim_height := Z.max 300 (300 + (rows - 1) * 70) |}).
Proof.
  intros k rows.
  assert (Hrows : nodeRows s = rows) by reflexivity.
  assert (Hval : rows = (k + 4) / 5) by apply ceil_div_5.
  assert (Hk : 0 <= k) by apply Nat2Z.is_nonneg.
  assert (Hform : actualSnaplexHeight s = Z.max 300 (300 + (rows - 1) * 70)).
  { unfold actualSnaplexHeight, SNAPLEX_HEIGHT. rewrite Hrows.
    destruct (1 <? rows) eqn:E; [apply Z.ltb_lt in E|apply Z.ltb_ge in E]; lia. }
  assert (Hdiv : 0 < k -> 1 <= rows).
  { intros Hpos. rewrite Hval. apply Z.div_le_lower_bound; lia. }
  repeat split.
  - exact Hform.
  - intros Hpos. specialize (Hdiv Hpos). lia.
  - intros H0. unfold snaplexDimensions. rewrite Hform, Hval, H0. reflexivity.
  - lia.
  - intros envs eps env Henv Hs Hnd.
    rewrite (autoLayout_snaplex_dimensions envs eps env s Henv Hs Hnd).
    unfold snaplexDimensions, SNAPLEX_WIDTH. rewrite Hform. reflexivity.
Qed.

Lemma cluster_height_formula_witness :
  envDimensions (autoLayout [scenarioEnvironment] []) !! "snaplex-cluster-1"
  = Some {| dim_width := 450; dim_height := 370 |}.
Proof.
  apply (proj2 (proj2 (proj2 (proj2 (cluster_height_formula scenarioCluster))))
           [scenarioEnvironment] [] scenarioEnvironment).
  - left. reflexivity.
  - left. reflexivity.
  - constructor; [simpl; tauto|constructor].
Defined.

(** ** autoLayout: the position table *)

Lemma nodeBody_positions nsx st node i :
  exists p, nl_positions (nodeBody nsx st node i)
            = <[ "node-" +:+ node_id node := p ]> (nl_positions st).
Proof.
  unfold nodeBody.
  destruct ((0 <? Z.of_nat i) && (Z.of_nat i mod nodesPerRow =? 0)); simpl; eauto.
Qed.

Lemma nodeLoop_keeps nsx l : forall i st k,
  is_Some (nl_positions st !! k) ->
  is_Some (nl_positions (forEach_from (nodeBody nsx) l i st) !! k).
Proof.
  induction l as [|n l IH]; intros i st k H; simpl; [exact H|].
  apply IH. destruct (nodeBody_positions nsx st n i) as [p ->].
  apply lookup_insert_is_Some'. right. exact H.
Qed.

Lemma nodeLoop_total nsx l : forall i st n,
  In n l ->
  is_Some (nl_positions (forEach_from (nodeBody nsx) l i st) !! ("node-" +:+ node_id n)).
Proof.
  induction l as [|a l IH]; intros i st n Hin; simpl in *; [contradiction|].
  destruct Hin as [->|Hin]; [|apply IH; exact Hin].
  apply nodeLoop_keeps. destruct (nodeBody_positions nsx st n i) as [p ->].
  apply lookup_insert_is_Some'. left. reflexivity.
Qed.

Lemma snaplexBody_keeps y st s i k :
  is_Some (sl_positions st !! k) -> is_Some (sl_positions (snaplexBody y st s i) !! k).
Proof.
  intros H. unfold snaplexBody, forEach. simpl.
  apply nodeLoop_keeps. simpl. apply lookup_insert_is_Some'. right. exact H.
Qed.

Lemma snaplexBody_total y st s i :
  is_Some (sl_positions (snaplexBody y st s i) !! ("snaplex-" +:+ snaplex_id s))
  /\ forall n, In n (nodes (container s)) ->
       is_Some (sl_positions (snaplexBody y st s i) !! ("node-" +:+ node_id n)).
Proof.
  unfold snaplexBody, forEach. simpl. split.
  - apply nodeLoop_keeps. simpl. apply lookup_insert_is_Some'. left. reflexivity.
  - intros n Hin. apply nodeLoop_total. exact Hin.
Qed.

Lemma snaplexLoop_keeps y l : forall i st k,
  is_Some (sl_positions st !! k) ->
  is_Some (sl_positions (forEach_from (snaplexBody y) l i st) !! k).
Proof.
  induction l as [|s l IH]; intros i st k H; simpl; [exact H|].
  apply IH, snaplexBody_keeps, H.
Qed.

Lemma snaplexLoop_total y l : forall i st s,
  In s l ->
  is_Some (sl_positions (forEach_from (snaplexBody y) l i st) !! ("snaplex-" +:+ snaplex_id s))
  /\ forall n, In n (nodes (container s)) ->
       is_Some (sl_positions (forEach_from (snaplexBody y) l i st) !! ("node-" +:+ node_id n)).
Proof.
  induction l as [|a l IH]; intros i st s Hin; simpl in *; [contradiction|].
  destruct Hin as [->|Hin]; [|apply IH; exact Hin].
  destruct (snaplexBody_total y st s i) as [H1 H2]. split.
  - apply snaplexLoop_keeps, H1.
  - intros n Hn. apply snaplexLoop_keeps, H2, Hn.
Qed.

Lemma envBody_positions st env i :
  ev_positions (envBody st env i)
  = sl_positions
      (forEach (snaplexBody (currentY st + 80)) (snaplexes env)
         {| sl_positions :=
              <[ "env-" +:+ env_id env := {| pt_x := currentX st; pt_y := currentY st |} ]>
                (ev_positions st);
            sl_envDimensions := ev_envDimensions st;
            snaplexX := currentX st + SNAPLEX_MARGIN;
            maxX := currentX st; maxY := currentY st + 80 |}).
Proof. unfold envBody. destruct ((Z.of_nat i + 1) mod 2 =? 0); reflexivity. Qed.

Lemma envBody_keeps st env i k :
  is_Some (ev_positions st !! k) -> is_Some (ev_positions (envBody st env i) !! k).
Proof.
  intros H. rewrite envBody_positions. unfold forEach.
  apply snaplexLoop_keeps. simpl. apply lookup_insert_is_Some'. right. exact H.
Qed.

Lemma envLoop_keeps l : forall i st k,
  is_Some (ev_positions st !! k) ->
  is_Some (ev_positions (forEach_from envBody l i st) !! k).
Proof.
  induction l as [|e l IH]; intros i st k H; simpl; [exact H|].
  apply IH, envBody_keeps, H.
Qed.

Lemma envLoop_total l : forall i st env,
  In env l ->
  let P := ev_positions (forEach_from envBody l i st) in
  is_Some (P !! ("env-" +:+ env_id env))
  /\ forall s, In s (snaplexes env) ->
       is_Some (P !! ("snaplex-" +:+ snaplex_id s))
       /\ forall n, In n (nodes (container s)) -> is_Some (P !! ("node-" +:+ node_id n)).
Proof.
  induction l as [|a l IH]; intros i st env Hin; simpl in *; [contradiction|].
  destruct Hin as [->|Hin]; [|apply IH; exact Hin].
  split.
  - apply envLoop_keeps. rewrite envBody_positions. unfold forEach.
    apply snaplexLoop_keeps. simpl. apply lookup_insert_is_Some'. left. reflexivity.
  - intros s Hs.
    pose proof (fun st0 => snaplexLoop_total (currentY st + 80) (snaplexes env) 0%nat st0 s Hs) as Hl.
    split.
    + apply envLoop_keeps. rewrite envBody_positions. apply Hl.
    + intros n Hn. apply envLoop_keeps. rewrite envBody_positions.
      unfold forEach. apply (proj2 (Hl _)), Hn.
Qed.

Lemma endpointLoop_keeps y l : forall i (m : gmap string Point) k,
  is_Some (m !! k) -> is_Some (forEach_from (endpointBody y) l i m !! k).
Proof.
  induction l as [|e l IH]; intros i m k H; simpl; [exact H|].
  apply IH. unfold endpointBody. apply lookup_insert_is_Some'. right. exact H.
Qed.

Lemma endpointLoop_total y l : forall i (m : gmap string Point) ep,
  In ep l ->
  is_Some (forEach_from (endpointBody y) l i m !! ("endpoint-" +:+ endpoint_id ep)).
Proof.
  induction l as [|a l IH]; intros i m ep Hin; simpl in *; [contradiction|].
  destruct Hin as [->|Hin]; [|apply IH; exact Hin].
  apply endpointLoop_keeps. unfold endpointBody.
  apply lookup_insert_is_Some'. left. reflexivity.
Qed.

(** C10.  The position table of autoLayout is total over the model: every
    environment, every cluster of every environment, every node of every
    cluster and every endpoint of the input has an entry under its prefixed
    key (env-, snaplex-, node-, endpoint-). *)
Theorem positions_total (envs : list Environment) (eps : list Endpoint) :
  let P := positions (autoLayout envs eps) in
  (forall env, In env envs ->
     is_Some (P !! ("env-" +:+ env_id env))
     /\ forall s, In s (snaplexes env) ->
          is_Some (P !! ("snaplex-" +:+ snaplex_id s))
          /\ forall n, In n (nodes (container s)) ->
               is_Some (P !! ("node-" +:+ node_id n)))
  /\ (forall ep, In ep eps -> is_Some (P !! ("endpoint-" +:+ endpoint_id ep))).
Proof.
  unfold autoLayout, forEach. simpl. split.
  - intros env Henv.
    destruct (envLoop_total envs 0%nat
                {| ev_positions := ∅; ev_envDimensions := ∅; currentX := 50;
                   currentY := 50; rowStartY := 50; maxRowHeight := 0 |}
                env Henv) as [H1 H2].
    split; [apply endpointLoop_keeps, H1|].
    intros s Hs. destruct (H2 s Hs) as [H3 H4].
    split; [apply endpointLoop_keeps, H3|].
    intros n Hn. apply endpointLoop_keeps, H4, Hn.
  - intros ep Hep. apply endpointLoop_total, Hep.
Qed.

Lemma positions_total_witness :
  is_Some (positions (autoLayout [scenarioEnvironment] []) !! "node-6").
Proof.
  destruct (positions_total [scenarioEnvironment] []) as [H _].
  destruct (H scenarioEnvironment (or_introl eq_refl)) as [_ Hs].
  destruct (Hs scenarioCluster (or_introl eq_refl)) as [_ Hn].
  apply (Hn (sampleNode "6" medium false)).
  simpl. tauto.
Defined.

(** *** The layout reads ids only *)

Lemma forEach_from_skeleton {A K S : Type} (sk : A -> K) (f : S -> A -> nat -> S) :
  (forall st a b i, sk a = sk b -> f st a i = f st b i) ->
  forall l1 l2, map sk l1 = map sk l2 ->
  forall i st, forEach_from f l1 i st = forEach_from f l2 i st.
Proof.
  intros Hf l1. induction l1 as [|a l1 IH]; intros [|b l2] Hmap i st;
    try discriminate Hmap; simpl; [reflexivity|].
  injection Hmap as Hab Hmap. rewrite (Hf st a b i Hab). apply IH, Hmap.
Qed.

Lemma nodeBody_skeleton nsx st a b i :
  node_id a = node_id b -> nodeBody nsx st a i = nodeBody nsx st b i.
Proof. intros H. unfold nodeBody. rewrite H. reflexivity. Qed.

Lemma snaplexBody_skeleton y st a b i :
  snaplexSkeleton a = snaplexSkeleton b -> snaplexBody y st a i = snaplexBody y st b i.
Proof.
  unfold snaplexSkeleton. intros H. injection H as Hid Hnodes.
  assert (Hh : actualSnaplexHeight a = actualSnaplexHeight b).
  { unfold actualSnaplexHeight, nodeRows.
    rewrite <- (length_map node_id (nodes (container a))), Hnodes, length_map. reflexivity. }
  unfold snaplexBody, forEach. rewrite Hid, Hh.
  rewrite (forEach_from_skeleton node_id _ (nodeBody_skeleton _) _ _ Hnodes).
  reflexivity.
Qed.

Lemma envBody_skeleton st a b i :
  environmentSkeleton a = environmentSkeleton b -> envBody st a i = envBody st b i.
Proof.
  unfold environmentSkeleton. intros H. injection H as Hid Hs.
  unfold envBody, forEach. rewrite Hid.
  rewrite (forEach_from_skeleton snaplexSkeleton _ (snaplexBody_skeleton _) _ _ Hs).
  reflexivity.
Qed.

Lemma endpointBody_skeleton y (m : gmap string Point) a b i :
  endpoint_id a = endpoint_id b -> endpointBody y m a i = endpointBody y m b i.
Proof. intros H. unfold endpointBody. rewrite H. reflexivity. Qed.

(** Names, kinds, statuses, sizes and every other field are not read: two
    inputs with the same ids in the same order are laid out alike. *)
Lemma autoLayout_reads_ids_only envs1 envs2 eps1 eps2 :
  map environmentSkeleton envs1 = map environmentSkeleton envs2 ->
  map endpoint_id eps1 = map endpoint_id eps2 ->
  autoLayout envs1 eps1 = autoLayout envs2 eps2.
Proof.
  intros Henvs Heps. unfold autoLayout, forEach.
  assert (Hlen : length envs1 = length envs2).
  { rewrite <- (length_map environmentSkeleton envs1), Henvs, length_map. reflexivity. }
  rewrite (forEach_from_skeleton environmentSkeleton _ envBody_skeleton _ _ Henvs), Hlen.
  rewrite (forEach_from_skeleton endpoint_id _ (endpointBody_skeleton _) _ _ Heps).
  reflexivity.
Qed.


(** ** The basic shapes *)

Lemma createConnectionElement_runs conn sx sy ex ey w :
  exists arrow w',
    createConnectionElement conn sx sy ex ey w = (Returned arrow, w')
    /\ el_type arrow = "arrow"
    /\ el_id arrow = "connection-" +:+ conn_id conn
    /\ el_x arrow = inject_Z sx /\ el_y arrow = inject_Z sy
    /\ el_width arrow = inject_Z (ex - sx) /\ el_height arrow = inject_Z (ey - sy)
    /\ (exists a, el_arrow arrow = Some a
          /\ elementId (startBinding a) = source conn
          /\ elementId (endBinding a) = target conn
          /\ points a = [(0, 0); (inject_Z (ex - sx), inject_Z (ey - sy))]%Q).
Proof.
  eexists _, _. split; [reflexivity|]. simpl.
  repeat split. eexists. repeat split.
Qed.

(** C5.  A connection whose source (or target) has no entry in the position
    table still resolves, without throwing, to exactly one arrow: the arrow
    starts at the default point (0, 0) when the source is missing and ends
    at the default point (100, 100) when the target is missing, and the
    synthesis pass appends just that one element. *)
Theorem resolve_missing_endpoint (layout : Layout) (conn : Connection)
    (elements : list ExcalidrawElement) (w : World) :
  exists arrow w',
    resolveConnection (positions layout) conn w = (Returned arrow, w')
    /\ connectionElements layout conn elements w = (Returned (elements ++ [arrow]), w')
    /\ el_type arrow = "arrow"
    /\ (positions layout !! source conn = None ->
        el_x arrow = 0%Q /\ el_y arrow = 0%Q)
    /\ (positions layout !! target conn = None ->
        (el_x arrow + el_width arrow == 100)%Q
        /\ (el_y arrow + el_height arrow == 100)%Q).
Proof.
  unfold connectionElements, resolveConnection.
  destruct (createConnectionElement_runs conn
              (pt_x (positionOr (positions layout) (source conn) {| pt_x := 0; pt_y := 0 |}))
              (pt_y (positionOr (positions layout) (source conn) {| pt_x := 0; pt_y := 0 |}))
              (pt_x (positionOr (positions layout) (target conn) {| pt_x := 100; pt_y := 100 |}))
              (pt_y (positionOr (positions layout) (target conn) {| pt_x := 100; pt_y := 100 |}))
              w)
    as (arrow & w' & Hrun & Hty & _ & Hx & Hy & Hw & Hh & _).
  exists arrow, w'. split; [exact Hrun|]. split.
  { unfold bind. rewrite Hrun. reflexivity. }
  split; [exact Hty|]. split.
  - intros Hs. rewrite Hx, Hy. unfold positionOr. rewrite Hs. split; reflexivity.
  - intros Ht. rewrite Hx, Hy, Hw, Hh. unfold positionOr. rewrite Ht. simpl.
    split; unfold Qeq; simpl; lia.
Qed.

Lemma resolve_missing_endpoint_witness :
  exists arrow w',
    resolveConnection ∅ danglingConnection basicWorld = (Returned arrow, w')
    /\ el_type arrow = "arrow"
    /\ el_x arrow = 0%Q /\ el_y arrow = 0%Q
    /\ (el_x arrow + el_width arrow == 100)%Q
    /\ (el_y arrow + el_height arrow == 100)%Q.
Proof.
  destruct (resolve_missing_endpoint {| positions := ∅; envDimensions := ∅ |}
              danglingConnection [] basicWorld)
    as (arrow & w' & Hrun & _ & Hty & Hs & Ht).
  exists arrow, w'. simpl in Hrun, Hs, Ht.
  destruct (Hs (lookup_empty _)) as [Hx Hy].
  destruct (Ht (lookup_empty _)) as [Hx' Hy'].
  repeat split; assumption.
Defined.

(** ** The shape factory *)

(** Runs the draws of a shape literal. *)
Ltac run_draws :=
  cbv [stamp ShapeFactory.indicatorIndex bind ret gets generateIndex randomSeed Math_random
       Date_now].

Lemma createSnaplexElement_runs snaplex x y width height w :
  exists box label w',
    createSnaplexElement snaplex x y width height w = (Returned [box; label], w')
    /\ el_type box = "rectangle" /\ el_type label = "text"
    /\ el_id box = "snaplex-" +:+ snaplex_id snaplex
    /\ el_id label = "label-snaplex-" +:+ snaplex_id snaplex
    /\ el_width box = inject_Z width /\ el_height box = inject_Z height.
Proof.
  unfold createSnaplexElement. run_draws.
  eexists _, _, _. split; [reflexivity|]. simpl. repeat split.
Qed.

Lemma createNodeElement_runs node x y size w :
  exists circle label w',
    createNodeElement node x y size w = (Returned [circle; label], w')
    /\ el_type circle = "ellipse" /\ el_type label = "text"
    /\ el_id circle = "node-" +:+ node_id node
    /\ el_id label = "label-node-" +:+ node_id node
    /\ (exists t, el_text label = Some t
          /\ text t = node_name node
                      +:+ (if NodeSize_is_medium (node_size node) then ""
                           else " (" +:+ NodeSize_toString (node_size node) +:+ ")")
                      +:+ (if node_memoryOptimized node && isJCC (node_type node)
                           then " MO" else "")).
Proof.
  unfold createNodeElement. run_draws.
  eexists _, _, _. split; [reflexivity|]. simpl. repeat split.
  eexists. split; reflexivity.
Qed.

Lemma createNodeIndicators_none node x y w :
  ShapeFactory.hasIndicator node = false ->
  ShapeFactory.createNodeIndicators node x y w = (Returned [], w).
Proof. intros H. unfold ShapeFactory.createNodeIndicators. rewrite H. reflexivity. Qed.

Lemma createNodeIndicators_badge node x y w txt :
  ShapeFactory.hasIndicator node = true -> ShapeFactory.indicatorText node = Some txt ->
  exists background badge w',
    ShapeFactory.createNodeIndicators node x y w = (Returned [background; badge], w')
    /\ el_type background = "rectangle" /\ el_roundness background = Some 3
    /\ el_id background = "indicator-bg-" +:+ node_id node
    /\ el_type badge = "text"
    /\ el_id badge = "indicator-text-" +:+ node_id node
    /\ (exists t, el_text badge = Some t /\ text t = txt /\ textAlign t = "center")
    /\ el_x background = inject_Z (x + 5) /\ el_y background = inject_Z (y + 37).
Proof.
  intros H Ht. unfold ShapeFactory.createNodeIndicators. rewrite H, Ht.
  run_draws. eexists _, _, _. split; [reflexivity|]. simpl. repeat split.
  eexists. repeat split.
Qed.

Section Fallback.
Variable provider : ShapeProvider.

Lemma createSnaplex_unavailable snaplex x y width height w :
  isLibraryLoaded provider w = false ->
  ShapeFactory.createSnaplex provider snaplex x y width height w
  = createSnaplexElement snaplex x y (ShapeFactory.orDefault width 350)
      (ShapeFactory.orDefault height 200) (checkedWorld provider w).
Proof.
  intros H. unfold ShapeFactory.createSnaplex, ShapeFactory.checkLibraryAvailability, checkedWorld.
  unfold bind at 1 2 3. unfold gets, modify. simpl. rewrite H. reflexivity.
Qed.

Lemma createSnaplex_available snaplex x y width height w :
  isLibraryLoaded provider w = true ->
  ShapeFactory.createSnaplex provider snaplex x y width height w
  = match getShape provider (snaplexShapeType snaplex) x y (checkedWorld provider w) with
    | (Returned elements, w') =>
        if 0 <? Z.of_nat (length elements) then (Returned elements, w')
        else createSnaplexElement snaplex x y (ShapeFactory.orDefault width 350)
               (ShapeFactory.orDefault height 200) w'
    | (Thrown _, w') =>
        createSnaplexElement snaplex x y (ShapeFactory.orDefault width 350)
          (ShapeFactory.orDefault height 200) w'
    end.
Proof.
  intros H. unfold ShapeFactory.createSnaplex, ShapeFactory.checkLibraryAvailability, checkedWorld.
  unfold bind at 1 2 3. unfold gets, modify. simpl. rewrite H.
  unfold bind, try_catch, snaplexShapeType.
  destruct (getShape provider _ x y _) as [[elements|e] w']; [|reflexivity].
  destruct (0 <? Z.of_nat (length elements)); reflexivity.
Qed.

Lemma createExecutionNode_unavailable node x y w :
  isLibraryLoaded provider w = false ->
  ShapeFactory.createExecutionNode provider node x y w
  = createNodeElement node x y 40 (checkedWorld provider w).
Proof.
  intros H.
  unfold ShapeFactory.createExecutionNode, ShapeFactory.checkLibraryAvailability, checkedWorld.
  unfold bind at 1 2 3. unfold gets, modify. simpl. rewrite H. reflexivity.
Qed.

Lemma createExecutionNode_available node x y w :
  isLibraryLoaded provider w = true ->
  ShapeFactory.createExecutionNode provider node x y w
  = match getShape provider (nodeShapeType node) x y (checkedWorld provider w) with
    | (Returned elements, w') =>
        if 0 <? Z.of_nat (length elements) then
          match ShapeFactory.createNodeIndicators node x y w' with
          | (Returned indicators, w'') => (Returned (elements ++ indicators), w'')
          | (Thrown _, w'') => createNodeElement node x y 40 w''
          end
        else createNodeElement node x y 40 w'
    | (Thrown _, w') => createNodeElement node x y 40 w'
    end.
Proof.
  intros H.
  unfold ShapeFactory.createExecutionNode, ShapeFactory.checkLibraryAvailability, checkedWorld.
  unfold bind at 1 2 3. unfold gets, modify. simpl. rewrite H.
  unfold bind at 1. unfold try_catch, nodeShapeType. unfold bind at 1.
  destruct (getShape provider _ x y _) as [[elements|e] w']; [|reflexivity].
  destruct (0 <? Z.of_nat (length elements)); [|reflexivity].
  unfold bind.
  destruct (ShapeFactory.createNodeIndicators node x y w') as [[ind|e] w'']; reflexivity.
Qed.

Lemma createSnaplex_succeeds snaplex x y width height w :
  exists l w', ShapeFactory.createSnaplex provider snaplex x y width height w = (Returned l, w')
               /\ l <> [].
Proof.
  destruct (isLibraryLoaded provider w) eqn:H.
  - rewrite createSnaplex_available by exact H.
    destruct (getShape provider _ x y _) as [[elements|e] w'].
    + destruct (0 <? Z.of_nat (length elements)) eqn:E.
      * exists elements, w'. split; [reflexivity|].
        intros ->. discriminate E.
      * destruct (createSnaplexElement_runs snaplex x y (ShapeFactory.orDefault width 350)
                    (ShapeFactory.orDefault height 200) w') as (b & l & w'' & -> & _).
        eexists _, _. split; [reflexivity|discriminate].
    + destruct (createSnaplexElement_runs snaplex x y (ShapeFactory.orDefault width 350)
                  (ShapeFactory.orDefault height 200) w') as (b & l & w'' & -> & _).
      eexists _, _. split; [reflexivity|discriminate].
  - rewrite createSnaplex_unavailable by exact H.
    destruct (createSnaplexElement_runs snaplex x y (ShapeFactory.orDefault width 350)
                (ShapeFactory.orDefault height 200) (checkedWorld provider w))
      as (b & l & w'' & -> & _).
    eexists _, _. split; [reflexivity|discriminate].
Qed.

Lemma createExecutionNode_succeeds node x y w :
  exists l w', ShapeFactory.createExecutionNode provider node x y w = (Returned l, w')
               /\ l <> [].
Proof.
  assert (Hbasic : forall w0, exists l w',
             createNodeElement node x y 40 w0 = (Returned l, w') /\ l <> []).
  { intros w0. destruct (createNodeElement_runs node x y 40 w0) as (c & l & w'' & -> & _).
    eexists _, _. split; [reflexivity|discriminate]. }
  destruct (isLibraryLoaded provider w) eqn:H.
  - rewrite createExecutionNode_available by exact H.
    destruct (getShape provider _ x y _) as [[elements|e] w']; [|apply Hbasic].
    destruct (0 <? Z.of_nat (length elements)) eqn:E; [|apply Hbasic].
    destruct (ShapeFactory.createNodeIndicators node x y w') as [[ind|e] w'']; [|apply Hbasic].
    exists (elements ++ ind), w''. split; [reflexivity|].
    destruct elements; [discriminate E|discriminate].
  - rewrite createExecutionNode_unavailable by exact H. apply Hbasic.
Qed.

End Fallback.

(** C7.  Synthesis never throws and never returns an empty list, whatever
    the provider does; when the provider is unavailable, throws, or returns
    an empty list, the result is the one of the built-in generator, run in
    the world the provider left behind. *)
Theorem provider_failure_uses_fallback (provider : ShapeProvider)
    (snaplex : Snaplex) (node : ExecutionNode) (x y : Z) (width height : option Z)
    (w : World) :
  let w1 := set_useLibraryShapes (isLibraryLoaded provider w) w in
  let basicSnaplex :=
    createSnaplexElement snaplex x y
      (ShapeFactory.orDefault width 350) (ShapeFactory.orDefault height 200) in
  let basicNode := createNodeElement node x y 40 in
  (exists l w', ShapeFactory.createSnaplex provider snaplex x y width height w
                = (Returned l, w') /\ l <> [])
  /\ (exists l w', ShapeFactory.createExecutionNode provider node x y w
                   = (Returned l, w') /\ l <> [])
  /\ (forall w0, exists l w', basicSnaplex w0 = (Returned l, w') /\ l <> [])
  /\ (forall w0, exists l w', basicNode w0 = (Returned l, w') /\ l <> [])
  /\ (isLibraryLoaded provider w = false ->
      ShapeFactory.createSnaplex provider snaplex x y width height w = basicSnaplex w1
      /\ ShapeFactory.createExecutionNode provider node x y w = basicNode w1)
  /\ (isLibraryLoaded provider w = true ->
      (forall r w2,
          getShape provider (snaplexShapeType snaplex) x y w1 = (r, w2) ->
          r = Returned [] \/ (exists e, r = Thrown e) ->
          ShapeFactory.createSnaplex provider snaplex x y width height w = basicSnaplex w2)
      /\ (forall r w2,
          getShape provider (nodeShapeType node) x y w1 = (r, w2) ->
          r = Returned [] \/ (exists e, r = Thrown e) ->
          ShapeFactory.createExecutionNode provider node x y w = basicNode w2)).
Proof.
  intros w1 basicSnaplex basicNode.
  split; [apply createSnaplex_succeeds|].
  split; [apply createExecutionNode_succeeds|].
  split.
  { intros w0. destruct (createSnaplexElement_runs snaplex x y (ShapeFactory.orDefault width 350)
                           (ShapeFactory.orDefault height 200) w0) as (b & l & w' & H & _).
    exists [b; l], w'. split; [exact H|discriminate]. }
  split.
  { intros w0. destruct (createNodeElement_runs node x y 40 w0) as (b & l & w' & H & _).
    exists [b; l], w'. split; [exact H|discriminate]. }
  split.
  - intros H. split.
    + apply createSnaplex_unavailable, H.
    + apply createExecutionNode_unavailable, H.
  - intros H. split; intros r w2 Hget Hr.
    + rewrite createSnaplex_available by exact H. unfold checkedWorld. fold w1. rewrite Hget.
      destruct Hr as [->|[e ->]]; reflexivity.
    + rewrite createExecutionNode_available by exact H. unfold checkedWorld. fold w1. rewrite Hget.
      destruct Hr as [->|[e ->]]; reflexivity.
Qed.

Lemma provider_failure_uses_fallback_witness :
  exists box label w',
    ShapeFactory.createSnaplex throwingProvider scenarioCluster 120 160 (Some 450) (Some 370)
      basicWorld = (Returned [box; label], w')
    /\ el_type box = "rectangle" /\ el_type label = "text".
Proof.
  destruct (provider_failure_uses_fallback throwingProvider scenarioCluster
              (sampleNode "1" medium false) 120 160 (Some 450) (Some 370) basicWorld)
    as (_ & _ & _ & _ & _ & Hthrow).
  destruct (Hthrow eq_refl) as [Hs _].
  rewrite (Hs (Thrown "library unavailable") _ eq_refl
              (or_intror (ex_intro _ "library unavailable" eq_refl))).
  eexists _, _, _. split; [vm_compute; reflexivity|split; reflexivity].
Defined.

(** C6, as the code has it.  createNodeIndicators gives no badge to a
    medium node without memory optimisation, whatever its role, and one
    badge (a rounded rectangle and a centred text reading mo-2XL) to a
    memory-optimised 2XL control node.  The badge is appended only when the
    library supplied the base shape; under the basic strategy the node is
    the circle and its label alone, the label carrying the size and MO
    suffixes. *)
Theorem node_indicator_badges (provider : ShapeProvider) (node : ExecutionNode)
    (x y : Z) (w : World) :
  let w1 := set_useLibraryShapes (isLibraryLoaded provider w) w in
  (node_size node = Some medium -> node_memoryOptimized node = false ->
   ShapeFactory.createNodeIndicators node x y w = (Returned [], w))
  /\ (node_size node = Some XXL -> node_memoryOptimized node = true ->
      node_type node = JCC ->
      exists background badge w',
        ShapeFactory.createNodeIndicators node x y w = (Returned [background; badge], w')
        /\ el_type background = "rectangle" /\ el_roundness background = Some 3
        /\ el_type badge = "text"
        /\ (exists t, el_text badge = Some t /\ text t = "mo-2XL" /\ textAlign t = "center")
        /\ indicatorBadges [background; badge] = ["mo-2XL"])
  /\ (isLibraryLoaded provider w = true ->
      forall shape w2 indicators w3,
        getShape provider (nodeShapeType node) x y w1 = (Returned shape, w2) ->
        shape <> [] ->
        ShapeFactory.createNodeIndicators node x y w2 = (Returned indicators, w3) ->
        ShapeFactory.createExecutionNode provider node x y w
        = (Returned (shape ++ indicators), w3))
  /\ (isLibraryLoaded provider w = false ->
      exists circle label w',
        ShapeFactory.createExecutionNode provider node x y w = (Returned [circle; label], w')
        /\ el_type circle = "ellipse" /\ el_type label = "text"
        /\ indicatorBadges [circle; label] = []
        /\ (node_size node = Some XXL -> node_memoryOptimized node = true ->
            node_type node = JCC ->
            exists t, el_text label = Some t /\ text t = node_name node +:+ " (2XL) MO")).
Proof.
  intros w1. repeat apply conj.
  - intros Hs Hm. apply createNodeIndicators_none.
    unfold ShapeFactory.hasIndicator. rewrite Hs, Hm. reflexivity.
  - intros Hs Hm Ht.
    destruct (createNodeIndicators_badge node x y w "mo-2XL")
      as (bg & badge & w' & Hrun & Hbt & Hbr & Hbi & Htt & Hti & Htxt & _).
    { unfold ShapeFactory.hasIndicator. rewrite Hs. reflexivity. }
    { unfold ShapeFactory.indicatorText. rewrite Hs, Hm, Ht. reflexivity. }
    exists bg, badge, w'. repeat apply conj; try assumption.
    destruct Htxt as (t & Het & Htx & _).
    unfold indicatorBadges. simpl. rewrite Hbi, Hti, Het, Htx. reflexivity.
  - intros H shape w2 indicators w3 Hget Hne Hind.
    rewrite createExecutionNode_available by exact H. unfold checkedWorld. fold w1. rewrite Hget.
    destruct shape; [contradiction|]. simpl. rewrite Hind. reflexivity.
  - intros H. rewrite createExecutionNode_unavailable by exact H.
    unfold checkedWorld. fold w1.
    destruct (createNodeElement_runs node x y 40 w1)
      as (c & l & w' & Hrun & Hct & Hlt & Hci & Hli & t & Het & Htx).
    exists c, l, w'. repeat apply conj; try assumption.
    + unfold indicatorBadges. simpl. rewrite Hci, Hli. reflexivity.
    + intros Hs Hm Hty. exists t. split; [exact Het|].
      rewrite Htx, Hs, Hm, Hty. reflexivity.
Qed.

Lemma node_indicator_badges_witness :
  exists background badge w',
    ShapeFactory.createNodeIndicators (sampleNode "1" XXL true) 0 0 basicWorld
    = (Returned [background; badge], w')
    /\ indicatorBadges [background; badge] = ["mo-2XL"].
Proof.
  destruct (node_indicator_badges libraryLoaderProvider (sampleNode "1" XXL true) 0 0 basicWorld)
    as (_ & Hbadge & _).
  destruct (Hbadge eq_refl eq_refl eq_refl) as (bg & badge & w' & Hrun & _ & _ & _ & _ & Hb).
  exists bg, badge, w'. split; assumption.
Defined.

(** C6 as stated fails under the basic strategy: with the library not
    loaded, a memory-optimised 2XL control node is drawn as a circle and a
    label, with no badge reading mo-2XL. *)
Lemma basic_strategy_draws_no_badge :
  exists circle label w',
    ShapeFactory.createExecutionNode libraryLoaderProvider (sampleNode "1" XXL true) 0 0
      basicWorld = (Returned [circle; label], w')
    /\ indicatorBadges [circle; label] = []
    /\ indicatorBadges [circle; label] <> ["mo-2XL"].
Proof.
  eexists _, _, _. split; [vm_compute; reflexivity|].
  split; [reflexivity|discriminate].
Qed.

(** ** The pipeline under the basic strategy *)

Lemma createEnvironmentElement_summary env x y width height w :
  exists new w',
    createEnvironmentElement env x y width height w = (Returned new, w')
    /\ map summary new = [("env-" +:+ env_id env, "rectangle"); ("label-" +:+ env_id env, "text")]
    /\ indicatorBadges new = []
    /\ keeps_library w w'.
Proof.
  unfold createEnvironmentElement. run_draws.
  eexists _, _. split; [reflexivity|]. repeat split.
Qed.

Lemma createSnaplexElement_summary snaplex x y width height w :
  exists new w',
    createSnaplexElement snaplex x y width height w = (Returned new, w')
    /\ map summary new = [("snaplex-" +:+ snaplex_id snaplex, "rectangle");
                          ("label-snaplex-" +:+ snaplex_id snaplex, "text")]
    /\ indicatorBadges new = []
    /\ keeps_library w w'.
Proof.
  unfold createSnaplexElement. run_draws.
  eexists _, _. split; [reflexivity|]. repeat split.
Qed.

Lemma createSnaplexContainer_summary snaplex x y width height w :
  exists outline w',
    createSnaplexContainer snaplex x y width height w = (Returned outline, w')
    /\ summary outline = ("container-" +:+ snaplex_id snaplex, "rectangle")
    /\ el_strokeStyle outline = "dashed"
    /\ indicatorBadges [outline] = []
    /\ keeps_library w w'.
Proof.
  unfold createSnaplexContainer. run_draws.
  eexists _, _. split; [reflexivity|]. repeat split.
Qed.

Lemma createNodeElement_summary node x y size w :
  exists new w',
    createNodeElement node x y size w = (Returned new, w')
    /\ map summary new = nodeSummary node
    /\ indicatorBadges new = []
    /\ keeps_library w w'.
Proof.
  unfold createNodeElement. run_draws.
  eexists _, _. split; [reflexivity|]. repeat split.
Qed.

Lemma createEndpointElement_summary endpoint x y width height w :
  exists new w',
    createEndpointElement endpoint x y width height w = (Returned new, w')
    /\ map summary new = endpointSummary endpoint
    /\ indicatorBadges new = []
    /\ keeps_library w w'.
Proof.
  unfold createEndpointElement. run_draws.
  eexists _, _. split; [reflexivity|]. repeat split.
Qed.

Lemma createConnectionElement_summary conn sx sy ex ey w :
  exists arrow w',
    createConnectionElement conn sx sy ex ey w = (Returned arrow, w')
    /\ summary arrow = ("connection-" +:+ conn_id conn, "arrow")
    /\ indicatorBadges [arrow] = []
    /\ keeps_library w w'.
Proof.
  unfold createConnectionElement. run_draws.
  eexists _, _. split; [reflexivity|]. repeat split.
Qed.

Lemma indicatorBadges_app l1 l2 :
  indicatorBadges (l1 ++ l2) = indicatorBadges l1 ++ indicatorBadges l2.
Proof. unfold indicatorBadges. apply flat_map_app. Qed.

(** A loop whose every iteration appends elements with a known summary. *)
Section Loops.
Context {A : Type}.
Variable f : A -> list ExcalidrawElement -> M (list ExcalidrawElement).
Variable S : A -> list (string * string).
Variable Inv : World -> Prop.
Hypothesis step : forall a elements w, Inv w ->
  exists new w', f a elements w = (Returned (elements ++ new), w')
                 /\ map summary new = S a /\ indicatorBadges new = [] /\ Inv w'.

Lemma forEachM_summary l : forall elements w, Inv w ->
  exists new w', forEachM f l elements w = (Returned (elements ++ new), w')
                 /\ map summary new = flat_map S l /\ indicatorBadges new = []
                 /\ Inv w'.
Proof.
  induction l as [|a l IH]; intros elements w Hw; simpl.
  - exists [], w. rewrite app_nil_r. repeat split. exact Hw.
  - destruct (step a elements w Hw) as (new1 & w1 & Hrun1 & Hs1 & Hb1 & Hw1).
    destruct (IH (elements ++ new1) w1 Hw1) as (new2 & w2 & Hrun2 & Hs2 & Hb2 & Hw2).
    exists (new1 ++ new2), w2. unfold bind. rewrite Hrun1, Hrun2.
    rewrite <- app_assoc, map_app, Hs1, Hs2, indicatorBadges_app, Hb1, Hb2.
    repeat split. exact Hw2.
Qed.
End Loops.

Section BasicStrategy.
Variable layout : Layout.

Lemma unloaded_keeps w w' : unloaded w -> keeps_library w w' -> unloaded w'.
Proof. unfold unloaded. intros H (_ & -> & _). exact H. Qed.

Lemma nodeElements_basic node elements w :
  unloaded w ->
  exists new w',
    nodeElements libraryLoaderProvider layout node elements w = (Returned (elements ++ new), w')
    /\ map summary new = nodeSummary node /\ indicatorBadges new = [] /\ unloaded w'.
Proof.
  intros Hw. unfold nodeElements, bind.
  rewrite createExecutionNode_unavailable by exact Hw.
  match goal with |- context [createNodeElement ?n ?x ?y ?s ?w0] =>
    destruct (createNodeElement_summary n x y s w0) as (new & w' & -> & Hs & Hb & Hk) end.
  exists new, w'. repeat split; try assumption.
  eapply unloaded_keeps; [|exact Hk]. exact Hw.
Qed.

Lemma snaplexElements_basic snaplex elements w :
  unloaded w ->
  exists new w',
    snaplexElements libraryLoaderProvider layout snaplex elements w
    = (Returned (elements ++ new), w')
    /\ map summary new = snaplexSummary snaplex /\ indicatorBadges new = []
    /\ unloaded w'.
Proof.
  intros Hw. unfold snaplexElements. unfold bind at 1.
  rewrite createSnaplex_unavailable by exact Hw.
  match goal with |- context [createSnaplexElement ?n ?x ?y ?a ?b ?w0] =>
    destruct (createSnaplexElement_summary n x y a b w0) as (hd & w1 & -> & Hs1 & Hb1 & Hk1) end.
  unfold bind at 1.
  match goal with |- context [createSnaplexContainer ?n ?x ?y ?a ?b ?w0] =>
    destruct (createSnaplexContainer_summary n x y a b w0)
      as (outline & w2 & -> & Hs2 & _ & Hb2 & Hk2) end.
  assert (Hw2 : unloaded w2).
  { eapply unloaded_keeps; [|exact Hk2]. eapply unloaded_keeps; [|exact Hk1]. exact Hw. }
  destruct (forEachM_summary (nodeElements libraryLoaderProvider layout) nodeSummary unloaded
              nodeElements_basic (nodes (container snaplex))
              ((elements ++ hd) ++ [outline]) w2 Hw2)
    as (new & w3 & -> & Hs3 & Hb3 & Hw3).
  exists (hd ++ [outline] ++ new), w3.
  rewrite <- !app_assoc. split; [reflexivity|].
  rewrite !map_app, !indicatorBadges_app, Hs1, Hs3, Hb1, Hb2, Hb3. simpl. rewrite Hs2.
  repeat split. exact Hw3.
Qed.

Lemma environmentElements_basic env elements w :
  unloaded w ->
  exists new w',
    environmentElements libraryLoaderProvider layout env elements w
    = (Returned (elements ++ new), w')
    /\ map summary new = environmentSummary env /\ indicatorBadges new = []
    /\ unloaded w'.
Proof.
  intros Hw. unfold environmentElements. unfold bind at 1.
  match goal with |- context [createEnvironmentElement ?n ?x ?y ?a ?b ?w0] =>
    destruct (createEnvironmentElement_summary n x y a b w0) as (hd & w1 & -> & Hs1 & Hb1 & Hk1) end.
  assert (Hw1 : unloaded w1) by (eapply unloaded_keeps; [|exact Hk1]; exact Hw).
  destruct (forEachM_summary (snaplexElements libraryLoaderProvider layout) snaplexSummary unloaded
              snaplexElements_basic (snaplexes env) (elements ++ hd) w1 Hw1)
    as (new & w2 & -> & Hs2 & Hb2 & Hw2).
  exists (hd ++ new), w2. rewrite <- app_assoc. split; [reflexivity|].
  rewrite map_app, indicatorBadges_app, Hs1, Hs2, Hb1, Hb2. repeat split. exact Hw2.
Qed.

Lemma endpointElements_basic endpoint elements w :
  unloaded w ->
  exists new w',
    endpointElements layout endpoint elements w = (Returned (elements ++ new), w')
    /\ map summary new = endpointSummary endpoint /\ indicatorBadges new = []
    /\ unloaded w'.
Proof.
  intros Hw. unfold endpointElements, ShapeFactory.createEndpoint, bind.
  match goal with |- context [createEndpointElement ?n ?x ?y ?a ?b ?w0] =>
    destruct (createEndpointElement_summary n x y a b w0) as (new & w1 & -> & Hs1 & Hb1 & Hk1) end.
  exists new, w1. repeat split; try assumption.
  eapply unloaded_keeps; [|exact Hk1]. exact Hw.
Qed.

Lemma connectionElements_basic conn elements w :
  unloaded w ->
  exists new w',
    connectionElements layout conn elements w = (Returned (elements ++ new), w')
    /\ map summary new = connectionSummary conn /\ indicatorBadges new = []
    /\ unloaded w'.
Proof.
  intros Hw. unfold connectionElements, resolveConnection, bind.
  match goal with |- context [createConnectionElement ?n ?x ?y ?a ?b ?w0] =>
    destruct (createConnectionElement_summary n x y a b w0)
      as (arrow & w1 & -> & Hs1 & Hb1 & Hk1) end.
  exists [arrow], w1. simpl. rewrite Hs1. repeat split; try assumption.
  eapply unloaded_keeps; [|exact Hk1]. exact Hw.
Qed.
End BasicStrategy.

(** With the library not loaded the diagram is, in order: per environment
    its background and label, then per cluster its filled box, header label
    and dashed outline and per node its circle and label; then per endpoint
    its diamond and label; then one arrow per connection. *)
Lemma generateExcalidrawElements_basic (w : World) :
  isLoaded (libraryLoader w) = false ->
  exists elements w',
    generateExcalidrawElements libraryLoaderProvider w = (Returned elements, w')
    /\ map summary elements
       = flat_map environmentSummary (environments (architecture w))
         ++ flat_map endpointSummary (endpoints (architecture w))
         ++ flat_map connectionSummary (connections (architecture w))
    /\ indicatorBadges elements = [].
Proof.
  intros Hw. unfold generateExcalidrawElements. unfold bind at 1. unfold gets.
  set (layout := autoLayout _ _).
  destruct (forEachM_summary (environmentElements libraryLoaderProvider layout)
              environmentSummary unloaded (environmentElements_basic layout)
              (environments (architecture w)) [] w Hw)
    as (new1 & w1 & Hrun1 & Hs1 & Hb1 & Hw1).
  destruct (forEachM_summary (endpointElements layout)
              endpointSummary unloaded (endpointElements_basic layout)
              (endpoints (architecture w)) new1 w1 Hw1)
    as (new2 & w2 & Hrun2 & Hs2 & Hb2 & Hw2).
  destruct (forEachM_summary (connectionElements layout)
              connectionSummary unloaded (connectionElements_basic layout)
              (connections (architecture w)) (new1 ++ new2) w2 Hw2)
    as (new3 & w3 & Hrun3 & Hs3 & Hb3 & Hw3).
  exists ((new1 ++ new2) ++ new3), w3.
  unfold bind. simpl in Hrun1. rewrite Hrun1, Hrun2, Hrun3.
  split; [reflexivity|].
  rewrite !map_app, !indicatorBadges_app, Hs1, Hs2, Hs3, Hb1, Hb2, Hb3, <- app_assoc.
  split; reflexivity.
Qed.

(** ** The one-cluster scenario *)

Lemma countType_summary t l :
  countType t l = length (List.filter (fun p => String.eqb (snd p) t) (map summary l)).
Proof.
  unfold countType. induction l as [|e l IH]; simpl; [reflexivity|].
  destruct (String.eqb (el_type e) t); simpl; rewrite IH; reflexivity.
Qed.

Lemma one_cluster_layout env s eps :
  snaplexes env = [s] -> length (nodes (container s)) = 6%nat ->
  envDimensions (autoLayout [env] eps) !! ("env-" +:+ env_id env)
  = Some {| dim_width := 1200; dim_height := 500 |}
  /\ envDimensions (autoLayout [env] eps) !! ("snaplex-" +:+ snaplex_id s)
     = Some {| dim_width := 450; dim_height := 370 |}.
Proof.
  intros Hs Hn.
  assert (Hh : actualSnaplexHeight s = 370).
  { unfold actualSnaplexHeight. rewrite nodeRows_eq, Hn. reflexivity. }
  unfold autoLayout, forEach. simpl forEach_from. unfold envBody.
  rewrite Hs. unfold forEach. simpl forEach_from. unfold snaplexBody.
  cbn [sl_positions sl_envDimensions snaplexX maxX maxY ev_positions ev_envDimensions
       currentX currentY rowStartY maxRowHeight envDimensions positions].
  rewrite Hh.
  change ((Z.of_nat 0 + 1) mod 2 =? 0) with false.
  cbn [sl_positions sl_envDimensions snaplexX maxX maxY ev_positions ev_envDimensions
       currentX currentY rowStartY maxRowHeight envDimensions positions].
  split.
  - rewrite lookup_insert_eq. reflexivity.
  - rewrite lookup_insert_ne by apply env_key_ne_snaplex_key.
    rewrite lookup_insert_eq. reflexivity.
Qed.

(** C1, as the code has it.  One production environment holding one cloud
    cluster of six medium control nodes without memory optimisation, no
    endpoints and no connections, drawn with the library not loaded: the
    environment is 1200 by 500, the cluster 450 by 370, and the diagram has
    17 elements: the environment background and label, the cluster's filled
    box, header label and dashed outline, and a circle and a label per node;
    no indicator badge. *)
Theorem one_cluster_six_nodes (w : World) (env : Environment) (s : Snaplex)
    (ns : list ExecutionNode) :
  isLoaded (libraryLoader w) = false ->
  architecture w = {| environments := [env]; endpoints := []; connections := [] |} ->
  env_type env = production -> snaplexes env = [s] -> snaplex_type s = cloudplex ->
  nodes (container s) = ns -> length ns = 6%nat ->
  Forall (fun n => node_type n = JCC /\ node_size n = Some medium
                   /\ node_memoryOptimized n = false) ns ->
  let layout := autoLayout [env] [] in
  envDimensions layout !! ("env-" +:+ env_id env)
  = Some {| dim_width := 1200; dim_height := 500 |}
  /\ envDimensions layout !! ("snaplex-" +:+ snaplex_id s)
     = Some {| dim_width := 450; dim_height := 370 |}
  /\ exists elements w',
       generateExcalidrawElements libraryLoaderProvider w = (Returned elements, w')
       /\ length elements = 17%nat
       /\ countType "ellipse" elements = 6%nat
       /\ countType "text" elements = 8%nat
       /\ countType "rectangle" elements = 3%nat
       /\ indicatorBadges elements = []
       /\ map summary elements
          = [("env-" +:+ env_id env, "rectangle"); ("label-" +:+ env_id env, "text");
             ("snaplex-" +:+ snaplex_id s, "rectangle");
             ("label-snaplex-" +:+ snaplex_id s, "text");
             ("container-" +:+ snaplex_id s, "rectangle")]
            ++ flat_map nodeSummary ns.
Proof.
  intros Hw Harch _ Hs _ Hns Hlen _ layout.
  assert (Hlen' : length (nodes (container s)) = 6%nat) by (rewrite Hns; exact Hlen).
  destruct (one_cluster_layout env s [] Hs Hlen') as [Hd1 Hd2].
  split; [exact Hd1|]. split; [exact Hd2|].
  destruct (generateExcalidrawElements_basic w Hw) as (elements & w' & Hrun & Hsum & Hb).
  exists elements, w'. split; [exact Hrun|].
  rewrite Harch in Hsum. simpl in Hsum. rewrite !app_nil_r in Hsum.
  unfold environmentSummary in Hsum. rewrite Hs in Hsum. simpl in Hsum.
  rewrite app_nil_r in Hsum. rewrite Hns in Hsum.
  assert (Hl : length elements = length (map summary elements)) by (symmetry; apply length_map).
  rewrite !countType_summary, Hl, Hsum.
  destruct ns as [|n1 [|n2 [|n3 [|n4 [|n5 [|n6 [|n7 ns]]]]]]]; try discriminate Hlen.
  repeat split; try reflexivity. exact Hb.
Qed.

Lemma one_cluster_six_nodes_witness :
  exists elements w',
    generateExcalidrawElements libraryLoaderProvider scenarioWorld = (Returned elements, w')
    /\ length elements = 17%nat.
Proof.
  destruct (one_cluster_six_nodes scenarioWorld scenarioEnvironment scenarioCluster
              scenarioNodes eq_refl eq_refl eq_refl eq_refl eq_refl eq_refl eq_refl)
    as (_ & _ & elements & w' & Hrun & Hlen & _).
  - repeat constructor.
  - exists elements, w'. split; assumption.
Defined.

(** C1 as stated fails: the scenario yields 17 elements, not 16; the
    cluster contributes two rectangles, its filled box and its dashed
    outline, besides the header label. *)
Lemma scenario_yields_17_elements :
  exists elements w',
    generateExcalidrawElements libraryLoaderProvider scenarioWorld = (Returned elements, w')
    /\ length elements = 17%nat
    /\ length elements <> 16%nat
    /\ countType "rectangle" elements = 3%nat.
Proof.
  eexists _, _. split; [vm_compute; reflexivity|].
  split; [reflexivity|]. split; [discriminate|reflexivity].
Qed.


(** ** The shape cache *)

(** *** The cache key determines the request *)

Lemma dash_split s1 : forall s2 r1 r2,
  noChar "-" s1 = true -> noChar "-" s2 = true ->
  s1 +:+ String "-" r1 = s2 +:+ String "-" r2 -> s1 = s2 /\ r1 = r2.
Proof.
  induction s1 as [|a s1 IH]; intros [|b s2] r1 r2 H1 H2 H; simpl in *.
  - injection H as H. split; [reflexivity|exact H].
  - injection H as Hc _. subst b. discriminate H2.
  - injection H as Hc _. subst a. discriminate H1.
  - injection H as Hc H. subst b.
    apply andb_prop in H1 as [_ H1]. apply andb_prop in H2 as [_ H2].
    destruct (IH s2 r1 r2 H1 H2 H) as [-> ->]. split; reflexivity.
Qed.

Lemma noDash_uint d : noChar "-" (NilEmpty.string_of_uint d) = true.
Proof. induction d; simpl; auto. Qed.

Lemma noDash_shape t : noChar "-" (SnapLogicShapeType_value t) = true.
Proof. destruct t; reflexivity. Qed.

Lemma SnapLogicShapeType_value_inj t t' :
  SnapLogicShapeType_value t = SnapLogicShapeType_value t' -> t = t'.
Proof. destruct t, t'; intros H; first [reflexivity|discriminate H]. Qed.

Lemma Z_toString_inj a b : Z_toString a = Z_toString b -> a = b.
Proof.
  unfold Z_toString. intros H.
  assert (Hi : Z.to_int a = Z.to_int b).
  { pose proof (NilEmpty.isi (Z.to_int a)) as Ha.
    pose proof (NilEmpty.isi (Z.to_int b)) as Hb.
    rewrite H in Ha. rewrite Ha in Hb. injection Hb as Hb. exact Hb. }
  rewrite <- (DecimalZ.of_to a), <- (DecimalZ.of_to b), Hi. reflexivity.
Qed.

Lemma uint_string_head d :
  d <> Decimal.Nil ->
  exists c r, NilEmpty.string_of_uint d = String c r /\ c <> "-"%char.
Proof.
  destruct d; intros H; [contradiction| |  | | | | | | | | ];
    simpl; eexists _, _; (split; [reflexivity|discriminate]).
Qed.

(** The printed form of an integer: digits, after a dash when negative. *)
Lemma Z_toString_form z :
  (exists d, Z_toString z = NilEmpty.string_of_uint d /\ d <> Decimal.Nil)
  \/ (exists d, Z_toString z = String "-" (NilEmpty.string_of_uint d)).
Proof.
  unfold Z_toString. destruct z as [|p|p].
  - left. exists (Decimal.D0 Decimal.Nil). split; [reflexivity|discriminate].
  - left. exists (Pos.to_uint p). split; [reflexivity|apply Unsigned.to_uint_nonnil].
  - right. exists (Pos.to_uint p). reflexivity.
Qed.

Lemma number_pair_inj x y x' y' :
  Z_toString x +:+ String "-" (Z_toString y) = Z_toString x' +:+ String "-" (Z_toString y') ->
  x = x' /\ y = y'.
Proof.
  intros H.
  assert (Hgoal : Z_toString x = Z_toString x' /\ Z_toString y = Z_toString y').
  { destruct (Z_toString_form x) as [(d & Hx & Hd)|(d & Hx)];
      destruct (Z_toString_form x') as [(d' & Hx' & Hd')|(d' & Hx')];
      rewrite Hx, Hx' in H |- *.
    - apply dash_split; [apply noDash_uint|apply noDash_uint|exact H].
    - destruct (uint_string_head d Hd) as (c & r & Hc & Hne).
      rewrite Hc in H. simpl in H. injection H as Hch _. contradiction.
    - destruct (uint_string_head d' Hd') as (c & r & Hc & Hne).
      rewrite Hc in H. simpl in H. injection H as Hch _. symmetry in Hch. contradiction.
    - simpl in H. injection H as H.
      destruct (dash_split _ _ _ _ (noDash_uint d) (noDash_uint d') H) as [-> ->].
      split; reflexivity. }
  destruct Hgoal as [Hx Hy]. split; apply Z_toString_inj; assumption.
Qed.

Lemma cacheKey_inj type x y type' x' y' :
  LibraryLoaderService.cacheKey type x y = LibraryLoaderService.cacheKey type' x' y' ->
  type = type' /\ x = x' /\ y = y'.
Proof.
  unfold LibraryLoaderService.cacheKey. intros H.
  change ("-" +:+ ?s) with (String "-" s) in H.
  apply dash_split in H; [|apply noDash_shape|apply noDash_shape].
  destruct H as [Ht H]. apply SnapLogicShapeType_value_inj in Ht.
  apply number_pair_inj in H. tauto.
Qed.

(** *** Cached bundles and fresh ones *)

Lemma cloneElement_runs x y minX minY element w :
  exists clone w',
    LibraryManager.cloneElement x y minX minY element w = (Returned clone, w')
    /\ blank clone = movedElement x y minX minY element
    /\ keeps_library w w'.
Proof.
  unfold LibraryManager.cloneElement, LibraryManager.generateId. run_draws.
  eexists _, _. split; [reflexivity|]. repeat split.
Qed.

Lemma mapM_cloneElement x y minX minY l : forall w,
  exists clones w',
    mapM (LibraryManager.cloneElement x y minX minY) l w = (Returned clones, w')
    /\ map blank clones = map (movedElement x y minX minY) l
    /\ keeps_library w w'.
Proof.
  induction l as [|e l IH]; intros w; simpl.
  - exists [], w. repeat split.
  - destruct (cloneElement_runs x y minX minY e w) as (c & w1 & Hc & Hb & Hk1).
    destruct (IH w1) as (cs & w2 & Hcs & Hbs & Hk2).
    exists (c :: cs), w2. unfold bind. rewrite Hc, Hcs. simpl.
    rewrite Hb, Hbs. repeat split; try reflexivity.
    all: destruct Hk1 as (A1 & B1 & C1), Hk2 as (A2 & B2 & C2); congruence.
Qed.

Lemma cloneLibraryItem_runs type x y w :
  exists clones w',
    LibraryManager.cloneLibraryItem type x y w = (Returned clones, w')
    /\ map blank clones = clonedGeometry (libraryItems (libraryManager w)) type x y
    /\ keeps_library w w'.
Proof.
  unfold LibraryManager.cloneLibraryItem, LibraryManager.getShape, clonedGeometry.
  unfold bind at 1. unfold gets.
  destruct (libraryItems (libraryManager w) !! SnapLogicShapeType_value type) as [item|].
  - destruct (item_elements item) as [|e0 rest] eqn:E.
    + exists [], w. repeat split.
    + apply mapM_cloneElement.
  - exists [], w. repeat split.
Qed.

Lemma getShape_uncached_runs type x y w :
  exists fresh w',
    getShape_uncached type x y w = (Returned fresh, w')
    /\ map blank fresh
       = (if isLoaded (libraryLoader w)
          then clonedGeometry (libraryItems (libraryManager w)) type x y else [])
    /\ keeps_library w w'.
Proof.
  unfold getShape_uncached. unfold bind at 1. unfold gets.
  destruct (isLoaded (libraryLoader w)); simpl.
  - apply cloneLibraryItem_runs.
  - exists [], w. repeat split.
Qed.

Lemma getShape_runs type x y w :
  cache_sound w ->
  exists elements w',
    LibraryLoaderService.getShape type x y w = (Returned elements, w')
    /\ map blank elements
       = (if isLoaded (libraryLoader w)
          then clonedGeometry (libraryItems (libraryManager w)) type x y else [])
    /\ cache_sound w'
    /\ libraryManager w' = libraryManager w
    /\ isLoaded (libraryLoader w') = isLoaded (libraryLoader w).
Proof.
  intros Hsound. unfold LibraryLoaderService.getShape. unfold bind at 1. unfold gets.
  destruct (isLoaded (libraryLoader w)) eqn:Hl; simpl.
  - unfold bind at 1.
    destruct (libraryCache (libraryLoader w) !! LibraryLoaderService.cacheKey type x y)
      as [cached|] eqn:Hc.
    + exists cached, w. repeat split; try assumption.
      apply Hsound, Hc.
    + destruct (cloneLibraryItem_runs type x y w) as (clones & w1 & Hrun & Hb & Hk).
      destruct Hk as (Ha & Hlo & Hm).
      unfold bind, modify. rewrite Hrun.
      eexists _, _. split; [reflexivity|]. split; [exact Hb|]. simpl.
      split; [|split; [exact Hm|rewrite Hlo; exact Hl]].
      intros type' x' y' elements'. unfold LibraryLoaderService.set_libraryCache. simpl.
      rewrite Hm, Hlo. rewrite lookup_insert. case_decide as Hk.
      * apply cacheKey_inj in Hk as (<- & <- & <-).
        intros H. injection H as <-. exact Hb.
      * apply Hsound.
  - exists [], w. repeat split; assumption.
Qed.

Lemma cache_sound_empty w :
  libraryCache (libraryLoader w) = ∅ -> cache_sound w.
Proof. intros H type x y elements. rewrite H, lookup_empty. discriminate. Qed.

Lemma getShape_unloaded type x y w :
  isLoaded (libraryLoader w) = false ->
  LibraryLoaderService.getShape type x y w = (Returned [], w).
Proof.
  intros H. unfold LibraryLoaderService.getShape. unfold bind at 1. unfold gets.
  rewrite H. reflexivity.
Qed.

Lemma getShape_hit type x y w elements :
  isLoaded (libraryLoader w) = true ->
  libraryCache (libraryLoader w) !! LibraryLoaderService.cacheKey type x y = Some elements ->
  LibraryLoaderService.getShape type x y w = (Returned elements, w).
Proof.
  intros Hl Hc. unfold LibraryLoaderService.getShape. unfold bind at 1. unfold gets.
  rewrite Hl. simpl. unfold bind at 1. rewrite Hc. reflexivity.
Qed.

Lemma getShape_miss type x y w :
  isLoaded (libraryLoader w) = true ->
  libraryCache (libraryLoader w) !! LibraryLoaderService.cacheKey type x y = None ->
  exists clones w1,
    LibraryManager.cloneLibraryItem type x y w = (Returned clones, w1)
    /\ map blank clones = clonedGeometry (libraryItems (libraryManager w)) type x y
    /\ keeps_library w w1
    /\ LibraryLoaderService.getShape type x y w
       = (Returned clones,
          LibraryLoaderService.set_libraryCache
            (<[ LibraryLoaderService.cacheKey type x y := clones ]>
               (libraryCache (libraryLoader w1))) w1).
Proof.
  intros Hl Hc.
  destruct (cloneLibraryItem_runs type x y w) as (clones & w1 & Hrun & Hb & Hk).
  exists clones, w1. split; [exact Hrun|]. split; [exact Hb|]. split; [exact Hk|].
  unfold LibraryLoaderService.getShape. unfold bind at 1. unfold gets.
  rewrite Hl. simpl. unfold bind at 1. rewrite Hc.
  unfold bind, modify. rewrite Hrun. reflexivity.
Qed.

(** Once a request has been answered, the answer is settled: no later
    request changes it. *)
Lemma getShape_settles type x y w :
  exists elements w',
    LibraryLoaderService.getShape type x y w = (Returned elements, w')
    /\ settled w' type x y elements
    /\ (forall type' x' y' elements',
          settled w type' x' y' elements' -> settled w' type' x' y' elements').
Proof.
  destruct (isLoaded (libraryLoader w)) eqn:Hl.
  - destruct (libraryCache (libraryLoader w) !! LibraryLoaderService.cacheKey type x y)
      as [cached|] eqn:Hc.
    + exists cached, w. split; [apply getShape_hit; assumption|].
      split; [|intros; assumption]. unfold settled. rewrite Hl. exact Hc.
    + destruct (getShape_miss type x y w Hl Hc) as (clones & w1 & _ & _ & Hk & Hrun).
      destruct Hk as (_ & Hlo & _).
      eexists _, _. split; [exact Hrun|]. unfold settled. simpl. rewrite Hlo, Hl.
      split; [apply lookup_insert_eq|].
      intros type' x' y' elements' H'. rewrite lookup_insert_ne; [exact H'|].
      intros Hkey. rewrite Hkey in Hc. rewrite Hc in H'. discriminate.
  - exists [], w. split; [apply getShape_unloaded; exact Hl|].
    split; [|intros; assumption]. unfold settled. rewrite Hl. reflexivity.
Qed.

Lemma settled_answer type x y w elements :
  settled w type x y elements ->
  LibraryLoaderService.getShape type x y w = (Returned elements, w).
Proof.
  unfold settled. destruct (isLoaded (libraryLoader w)) eqn:Hl.
  - apply getShape_hit. exact Hl.
  - intros ->. apply getShape_unloaded. exact Hl.
Qed.

Lemma serve_settled calls : forall w cached w' type x y elements,
  serve LibraryLoaderService.getShape calls w = (Returned cached, w') ->
  settled w type x y elements ->
  forall j, calls !! j = Some (type, x, y) -> cached !! j = Some elements.
Proof.
  unfold serve.
  induction calls as [|[[t0 x0] y0] calls IH];
    intros w cached w' type x y elements Hrun Hs j Hj; [destruct j; discriminate|].
  simpl in Hrun. unfold bind in Hrun.
  destruct (getShape_settles t0 x0 y0 w) as (e0 & w1 & Hrun0 & _ & Hkeep).
  rewrite Hrun0 in Hrun.
  destruct (mapM _ calls w1) as [[rest|err] w2] eqn:Hrest; [|discriminate].
  injection Hrun as <- <-.
  destruct j as [|j].
  - injection Hj as -> -> ->.
    rewrite (settled_answer type x y w elements Hs) in Hrun0.
    injection Hrun0 as <- _. reflexivity.
  - exact (IH w1 rest w2 type x y elements Hrest (Hkeep _ _ _ _ Hs) j Hj).
Qed.

(** Served again, a request gets the bundle it got the first time. *)
Lemma serve_repeats calls : forall w cached w',
  serve LibraryLoaderService.getShape calls w = (Returned cached, w') ->
  forall i j call,
    calls !! i = Some call -> calls !! j = Some call -> cached !! i = cached !! j.
Proof.
  induction calls as [|[[t0 x0] y0] calls IH]; intros w cached w' Hrun i j call Hi Hj;
    [destruct i; discriminate|].
  pose proof Hrun as Hrun'. unfold serve in Hrun'. simpl in Hrun'. unfold bind in Hrun'.
  destruct (getShape_settles t0 x0 y0 w) as (e0 & w1 & Hrun0 & Hs0 & _).
  rewrite Hrun0 in Hrun'.
  destruct (mapM _ calls w1) as [[rest|err] w2] eqn:Hrest; [|discriminate].
  injection Hrun' as <- <-.
  destruct i as [|i], j as [|j].
  - reflexivity.
  - injection Hi as <-.
    symmetry. exact (serve_settled calls w1 rest w2 t0 x0 y0 e0 Hrest Hs0 j Hj).
  - injection Hj as <-.
    exact (serve_settled calls w1 rest w2 t0 x0 y0 e0 Hrest Hs0 i Hi).
  - exact (IH w1 rest w2 Hrest i j call Hi Hj).
Qed.

(** What the cache-backed service returns equals what fresh derivations
    return, up to the fields cloning draws anew. *)
Lemma served_shapes_match (calls : list (SnapLogicShapeType * Z * Z)) (w w2 : World) :
  cache_sound w ->
  libraryManager w2 = libraryManager w ->
  isLoaded (libraryLoader w2) = isLoaded (libraryLoader w) ->
  exists cached w' fresh w2',
    serve LibraryLoaderService.getShape calls w = (Returned cached, w')
    /\ serve getShape_uncached calls w2 = (Returned fresh, w2')
    /\ Forall2 (fun a b => map blank a = map blank b) cached fresh
    /\ cache_sound w'.
Proof.
  revert w w2. unfold serve.
  induction calls as [|[[type x] y] calls IH]; intros w w2 Hsound Hm Hl; simpl.
  - exists [], w, [], w2. repeat split; [constructor|exact Hsound].
  - destruct (getShape_runs type x y w Hsound) as (e1 & w1 & Hrun1 & Hb1 & Hs1 & Hm1 & Hl1).
    destruct (getShape_uncached_runs type x y w2) as (e2 & w3 & Hrun2 & Hb2 & _ & Hlo2 & Hm2).
    destruct (IH w1 w3 Hs1) as (cached & w' & fresh & w2' & Hc & Hf & Hall & Hs').
    { congruence. }
    { rewrite Hlo2. congruence. }
    exists (e1 :: cached), w', (e2 :: fresh), w2'.
    unfold bind. rewrite Hrun1, Hrun2, Hc, Hf.
    repeat split; [|exact Hs'].
    constructor; [|exact Hall].
    rewrite Hb1, Hb2, Hm, Hl. reflexivity.
Qed.

(** C8, as the code has it.  Along every sequence of getShape requests,
    starting from a cache whose bundles were cloned from the current library
    (an empty one, for instance), what the cache-backed service returns
    equals what fresh derivations without the cache return in every field
    except the ones cloning draws anew: the id, the seed, the version nonce
    and the time stamp.  In those the cache shows: a request repeated
    anywhere in the sequence is answered with the very bundle its first
    occurrence got, ids included. *)
Theorem cache_preserves_shapes (calls : list (SnapLogicShapeType * Z * Z)) (w w2 : World) :
  cache_sound w ->
  libraryManager w2 = libraryManager w ->
  isLoaded (libraryLoader w2) = isLoaded (libraryLoader w) ->
  exists cached w' fresh w2',
    serve LibraryLoaderService.getShape calls w = (Returned cached, w')
    /\ serve getShape_uncached calls w2 = (Returned fresh, w2')
    /\ Forall2 (fun a b => map blank a = map blank b) cached fresh
    /\ cache_sound w'
    /\ (forall i j call,
          calls !! i = Some call -> calls !! j = Some call -> cached !! i = cached !! j).
Proof.
  intros Hsound Hm Hl.
  destruct (served_shapes_match calls w w2 Hsound Hm Hl)
    as (cached & w' & fresh & w2' & Hc & Hf & Hall & Hs').
  exists cached, w', fresh, w2'.
  split; [exact Hc|]. split; [exact Hf|]. split; [exact Hall|]. split; [exact Hs'|].
  exact (serve_repeats calls w cached w' Hc).
Qed.

Lemma cache_preserves_shapes_witness :
  exists cached w' fresh w2',
    serve LibraryLoaderService.getShape [(CLOUDPLEX, 0, 0); (CLOUDPLEX, 0, 0)] libraryWorld
    = (Returned cached, w')
    /\ serve getShape_uncached [(CLOUDPLEX, 0, 0); (CLOUDPLEX, 0, 0)] libraryWorld
       = (Returned fresh, w2')
    /\ Forall2 (fun a b => map blank a = map blank b) cached fresh
    /\ cached !! 0%nat = cached !! 1%nat.
Proof.
  destruct (cache_preserves_shapes [(CLOUDPLEX, 0, 0); (CLOUDPLEX, 0, 0)]
              libraryWorld libraryWorld (cache_sound_empty libraryWorld eq_refl)
              eq_refl eq_refl)
    as (cached & w' & fresh & w2' & H1 & H2 & H3 & _ & H4).
  exists cached, w', fresh, w2'. repeat split; try assumption.
  exact (H4 0%nat 1%nat (CLOUDPLEX, 0, 0) eq_refl eq_refl).
Defined.

(** C8 as stated fails: served twice at the same key, the cache hands the
    first bundle out again, ids and seeds included, where a fresh derivation
    draws new ones. *)
Lemma cached_bundle_differs_from_fresh :
  exists cached w' fresh w2',
    serve LibraryLoaderService.getShape [(CLOUDPLEX, 0, 0); (CLOUDPLEX, 0, 0)] libraryWorld
    = (Returned cached, w')
    /\ serve getShape_uncached [(CLOUDPLEX, 0, 0); (CLOUDPLEX, 0, 0)] libraryWorld
       = (Returned fresh, w2')
    /\ map (map el_id) cached = [["i"; "777777777"]; ["i"; "777777777"]]
    /\ map (map el_id) fresh = [["i"; "777777777"]; ["4i"; "39tgd39tg"]]
    /\ cached <> fresh.
Proof.
  eexists _, _, _, _. split; [vm_compute; reflexivity|].
  split; [vm_compute; reflexivity|].
  split; [reflexivity|]. split; [reflexivity|].
  intros H. apply (f_equal (map (map el_id))) in H. discriminate H.
Qed.

(** ** Text flow *)

(** *** Splitting and joining *)

Lemma length_append (a b : string) :
  String.length (a +:+ b) = (String.length a + String.length b)%nat.
Proof. induction a as [|c a IH]; simpl; [reflexivity|]. rewrite IH. reflexivity. Qed.

Lemma length_substring_le s : forall n, (String.length (substring 0 n s) <= n)%nat.
Proof.
  induction s as [|c s IH]; intros [|n]; simpl; try lia.
  specialize (IH n). lia.
Qed.

Lemma split_nonempty sep s : split sep s <> [].
Proof.
  destruct s as [|c s]; simpl; [discriminate|].
  destruct (Ascii.eqb c sep); [discriminate|].
  destruct (split sep s); discriminate.
Qed.

Lemma split_nosep sep s : noChar sep s = true -> split sep s = [s].
Proof.
  induction s as [|c s IH]; simpl; intros H; [reflexivity|].
  apply andb_prop in H as [Hc Hs].
  destruct (Ascii.eqb c sep); [discriminate Hc|].
  rewrite (IH Hs). reflexivity.
Qed.

Lemma split_app sep a r :
  split sep (a +:+ String sep r) = split sep a ++ split sep r.
Proof.
  induction a as [|c a IH]; simpl.
  - rewrite Ascii.eqb_refl. reflexivity.
  - destruct (Ascii.eqb c sep); [rewrite IH; reflexivity|].
    rewrite IH. destruct (split sep a) as [|h t] eqn:E.
    + exfalso. exact (split_nonempty sep a E).
    + reflexivity.
Qed.

Lemma split_pieces c sep s :
  noChar c s = true -> Forall (fun p => noChar c p = true) (split sep s).
Proof.
  induction s as [|a s IH]; simpl; intros H.
  - constructor; [reflexivity|constructor].
  - apply andb_prop in H as [Ha Hs]. specialize (IH Hs).
    destruct (Ascii.eqb a sep).
    + constructor; [reflexivity|exact IH].
    + destruct (split sep s) as [|h t].
      * constructor; [simpl; rewrite Ha; reflexivity|constructor].
      * inversion IH as [|? ? Hh Ht]; subst.
        constructor; [simpl; rewrite Ha, Hh; reflexivity|exact Ht].
Qed.

Lemma split_pieces_nosep sep s :
  Forall (fun p => noChar sep p = true) (split sep s).
Proof.
  induction s as [|a s IH]; simpl.
  - constructor; [reflexivity|constructor].
  - destruct (Ascii.eqb a sep) eqn:E.
    + constructor; [reflexivity|exact IH].
    + destruct (split sep s) as [|h t].
      * constructor; [simpl; rewrite E; reflexivity|constructor].
      * inversion IH as [|? ? Hh Ht]; subst.
        constructor; [simpl; rewrite E, Hh; reflexivity|exact Ht].
Qed.

Lemma noChar_app c a b : noChar c (a +:+ b) = noChar c a && noChar c b.
Proof.
  induction a as [|x a IH]; simpl; [reflexivity|].
  rewrite IH. apply andb_assoc.
Qed.

Lemma noChar_substring c s : forall n m,
  noChar c s = true -> noChar c (substring n m s) = true.
Proof.
  induction s as [|a s IH]; intros n m H.
  - destruct n, m; reflexivity.
  - simpl in H. apply andb_prop in H as [Ha Hs].
    destruct n as [|n]; simpl.
    + destruct m as [|m]; [reflexivity|]. simpl. rewrite Ha. apply IH, Hs.
    + apply IH, Hs.
Qed.

Lemma join_cons sep a b l :
  join sep (a :: b :: l) = a +:+ String sep (join sep (b :: l)).
Proof. reflexivity. Qed.

Lemma split_join sep l :
  l <> [] -> Forall (fun p => noChar sep p = true) l -> split sep (join sep l) = l.
Proof.
  induction l as [|a l IH]; intros Hne Hall; [contradiction|].
  inversion Hall as [|? ? Ha Hl]; subst.
  destruct l as [|b l].
  - simpl. apply split_nosep, Ha.
  - rewrite join_cons, split_app, (split_nosep sep a Ha), IH; [reflexivity|discriminate|exact Hl].
Qed.

(** *** Wrapped lines carry no line break *)

Lemma wrapBody_noChar maxChars st word :
  Forall (fun l => noChar newline l = true) (wrappedLines st) ->
  noChar newline (currentLine st) = true ->
  noChar newline word = true ->
  Forall (fun l => noChar newline l = true) (wrappedLines (wrapBody maxChars st word))
  /\ noChar newline (currentLine (wrapBody maxChars st word)) = true.
Proof.
  intros Hw Hc Hword. unfold wrapBody.
  assert (Htest : noChar newline
                    (if String.eqb (currentLine st) "" then word
                     else currentLine st +:+ " " +:+ word) = true).
  { destruct (String.eqb (currentLine st) ""); [exact Hword|].
    rewrite !noChar_app, Hc, Hword. reflexivity. }
  destruct (Z.of_nat (String.length _) <=? maxChars); simpl.
  - split; assumption.
  - destruct (negb (String.eqb (currentLine st) "")); simpl.
    + split; [|exact Hword]. apply Forall_app. split; [exact Hw|].
      constructor; [exact Hc|constructor].
    + split; [|reflexivity]. apply Forall_app. split; [exact Hw|].
      constructor; [|constructor].
      rewrite noChar_app, noChar_substring by exact Hword. reflexivity.
Qed.

Lemma wrapLoop_noChar maxChars words : forall st,
  Forall (fun l => noChar newline l = true) words ->
  Forall (fun l => noChar newline l = true) (wrappedLines st) ->
  noChar newline (currentLine st) = true ->
  Forall (fun l => noChar newline l = true)
    (wrappedLines (fold_left (wrapBody maxChars) words st))
  /\ noChar newline (currentLine (fold_left (wrapBody maxChars) words st)) = true.
Proof.
  induction words as [|w words IH]; intros st Hws Hw Hc; simpl.
  - split; assumption.
  - inversion Hws as [|? ? Hw1 Hws']; subst.
    destruct (wrapBody_noChar maxChars st w Hw Hc Hw1) as [H1 H2].
    apply IH; assumption.
Qed.

Lemma wrapLine_noChar line maxChars :
  noChar newline line = true ->
  Forall (fun l => noChar newline l = true) (wrapLine line maxChars).
Proof.
  intros H. unfold wrapLine.
  destruct (Z.of_nat (String.length line) <=? maxChars).
  - constructor; [exact H|constructor].
  - destruct (wrapLoop_noChar maxChars (split space line)
                {| wrappedLines := []; currentLine := "" |}) as [H1 H2].
    + apply split_pieces, H.
    + constructor.
    + reflexivity.
    + destruct (negb (String.eqb _ "")); [|exact H1].
      apply Forall_app. split; [exact H1|]. constructor; [exact H2|constructor].
Qed.

Lemma wrappedText_noChar text maxChars :
  Forall (fun l => noChar newline l = true) (wrappedText text maxChars).
Proof.
  unfold wrappedText.
  pose proof (split_pieces_nosep newline text) as H.
  induction H as [|line lines Hl _ IH]; simpl; [constructor|].
  apply Forall_app. split; [apply wrapLine_noChar, Hl|exact IH].
Qed.

(** *** Chunks of at most [n] lines *)

Section Chunking.
Variable maxChars : Z.
Variable n : nat.
Hypothesis n_positive : (1 <= n)%nat.

Lemma chunk_inv_initial :
  chunk_inv n {| chunks := []; currentChunk := []; currentChunkLines := 0 |}.
Proof. repeat split; simpl; [lia|constructor|constructor]. Qed.

Lemma chunkStep_inv st line :
  chunk_inv n st -> noChar newline line = true ->
  chunk_inv n (chunkStep (Z.of_nat n) st line)
  /\ flat_map (split newline) (chunks (chunkStep (Z.of_nat n) st line))
     ++ currentChunk (chunkStep (Z.of_nat n) st line)
     = flat_map (split newline) (chunks st) ++ currentChunk st ++ [line].
Proof.
  intros (Hcount & Hlt & Hfull & Hfree) Hline.
  unfold chunkStep, flushIfFull, pushLine. simpl.
  assert (Hfree' : Forall (fun l => noChar newline l = true) (currentChunk st ++ [line])).
  { apply Forall_app. split; [exact Hfree|]. constructor; [exact Hline|constructor]. }
  destruct (Z.of_nat n <=? currentChunkLines st + 1) eqn:E; simpl.
  - apply Z.leb_le in E.
    assert (Hsplit : split newline (join newline (currentChunk st ++ [line]))
                     = currentChunk st ++ [line]).
    { apply split_join; [|exact Hfree']. destruct (currentChunk st); discriminate. }
    split.
    + repeat split; simpl; [lia| |constructor].
      apply Forall_app. split; [exact Hfull|]. constructor; [|constructor].
      rewrite Hsplit, length_app. simpl. lia.
    + rewrite flat_map_app. simpl. rewrite Hsplit, !app_nil_r. reflexivity.
  - apply Z.leb_gt in E. split.
    + repeat split; simpl; [rewrite length_app; simpl; lia|rewrite length_app; simpl; lia
                            |exact Hfull|exact Hfree'].
    + reflexivity.
Qed.

Lemma chunkSteps_inv lines : forall st,
  chunk_inv n st -> Forall (fun l => noChar newline l = true) lines ->
  chunk_inv n (fold_left (chunkStep (Z.of_nat n)) lines st)
  /\ flat_map (split newline) (chunks (fold_left (chunkStep (Z.of_nat n)) lines st))
     ++ currentChunk (fold_left (chunkStep (Z.of_nat n)) lines st)
     = flat_map (split newline) (chunks st) ++ currentChunk st ++ lines.
Proof.
  induction lines as [|l lines IH]; intros st Hinv Hall; simpl.
  - rewrite app_nil_r. split; [exact Hinv|reflexivity].
  - inversion Hall as [|? ? Hl Hls]; subst.
    destruct (chunkStep_inv st l Hinv Hl) as [Hinv1 Heq1].
    destruct (IH _ Hinv1 Hls) as [Hinv2 Heq2].
    split; [exact Hinv2|]. rewrite Heq2, app_assoc, Heq1, <- !app_assoc. reflexivity.
Qed.

Lemma flushIfFull_no_op st : chunk_inv n st -> flushIfFull (Z.of_nat n) st = st.
Proof.
  intros (Hcount & Hlt & _). unfold flushIfFull.
  destruct (Z.of_nat n <=? currentChunkLines st) eqn:E; [|reflexivity].
  apply Z.leb_le in E. lia.
Qed.

(** One logical line: its wrapped lines enter the chunk one by one. *)
Lemma chunkBody_steps st line :
  chunk_inv n st -> noChar newline line = true ->
  chunkBody maxChars (Z.of_nat n) st line
  = fold_left (chunkStep (Z.of_nat n)) (wrapLine line maxChars) st.
Proof.
  intros Hinv Hline. unfold chunkBody, wrapLine.
  destruct (Z.of_nat (String.length line) <=? maxChars) eqn:E.
  - reflexivity.
  - fold (wrapLine line maxChars).
    assert (Hw : wrapLine line maxChars
                 = (let st0 := fold_left (wrapBody maxChars) (split space line)
                                 {| wrappedLines := []; currentLine := "" |} in
                    if negb (String.eqb (currentLine st0) "")
                    then wrappedLines st0 ++ [currentLine st0] else wrappedLines st0)).
    { unfold wrapLine. rewrite E. reflexivity. }
    cbv zeta in Hw. rewrite <- Hw.
    change (fold_left (fun st0 wrappedLine => flushIfFull (Z.of_nat n) (pushLine wrappedLine st0)))
      with (fold_left (chunkStep (Z.of_nat n))).
    apply flushIfFull_no_op.
    apply chunkSteps_inv; [exact Hinv|apply wrapLine_noChar, Hline].
Qed.

Lemma chunkLoop_steps lines : forall st,
  chunk_inv n st -> Forall (fun l => noChar newline l = true) lines ->
  fold_left (chunkBody maxChars (Z.of_nat n)) lines st
  = fold_left (chunkStep (Z.of_nat n))
      (flat_map (fun line => wrapLine line maxChars) lines) st.
Proof.
  induction lines as [|l lines IH]; intros st Hinv Hall; simpl; [reflexivity|].
  inversion Hall as [|? ? Hl Hls]; subst.
  rewrite fold_left_app, chunkBody_steps by assumption.
  apply IH; [|exact Hls].
  apply chunkSteps_inv; [exact Hinv|apply wrapLine_noChar, Hl].
Qed.

Lemma length_full_chunks (cs : list string) :
  Forall (fun c => length (split newline c) = n) cs ->
  length (flat_map (split newline) cs) = (n * length cs)%nat.
Proof.
  induction 1 as [|c cs Hc _ IH]; simpl; [lia|].
  rewrite length_app, Hc, IH. lia.
Qed.

(** The chunks of a text whose wrapped lines are not all gone: full chunks
    of [n] lines and a last one with the remainder. *)
Lemma chunkText_shape text :
  wrappedText text maxChars <> [] ->
  exists full rest,
    chunkText text maxChars (Z.of_nat n)
    = full ++ (if (0 <? Z.of_nat (length rest)) then [join newline rest] else [])
    /\ Forall (fun c => length (split newline c) = n) full
    /\ (length rest < n)%nat
    /\ flat_map (split newline) full ++ rest = wrappedText text maxChars
    /\ flat_map (split newline) (chunkText text maxChars (Z.of_nat n))
       = wrappedText text maxChars.
Proof.
  intros Hne. unfold chunkText.
  rewrite chunkLoop_steps by (apply chunk_inv_initial || apply split_pieces_nosep).
  fold (wrappedText text maxChars).
  destruct (chunkSteps_inv (wrappedText text maxChars) _ chunk_inv_initial
              (wrappedText_noChar text maxChars)) as [(Hcount & Hlt & Hfull & Hfree) Heq].
  simpl in Heq.
  set (st := fold_left (chunkStep (Z.of_nat n)) (wrappedText text maxChars) _) in *.
  exists (chunks st), (currentChunk st).
  assert (Hout : (if 0 <? Z.of_nat (length
                        (if 0 <? Z.of_nat (length (currentChunk st))
                         then chunks st ++ [join newline (currentChunk st)] else chunks st))
                  then (if 0 <? Z.of_nat (length (currentChunk st))
                        then chunks st ++ [join newline (currentChunk st)] else chunks st)
                  else [text])
                 = chunks st ++ (if 0 <? Z.of_nat (length (currentChunk st))
                                 then [join newline (currentChunk st)] else [])).
  { destruct (0 <? Z.of_nat (length (currentChunk st))) eqn:E.
    - rewrite length_app. simpl.
      destruct (0 <? Z.of_nat (length (chunks st) + 1)) eqn:E2; [reflexivity|].
      apply Z.ltb_ge in E2. lia.
    - rewrite app_nil_r.
      destruct (0 <? Z.of_nat (length (chunks st))) eqn:E2; [reflexivity|].
      apply Z.ltb_ge in E, E2.
      destruct (chunks st); [|simpl in E2; lia].
      destruct (currentChunk st); [|simpl in E; lia].
      simpl in Heq. symmetry in Heq. contradiction. }
  rewrite Hout. repeat split; try assumption.
  rewrite flat_map_app, <- Heq. f_equal.
  destruct (0 <? Z.of_nat (length (currentChunk st))) eqn:E; simpl.
  - rewrite app_nil_r. apply split_join; [|exact Hfree].
    destruct (currentChunk st); [discriminate E|discriminate].
  - apply Z.ltb_ge in E. destruct (currentChunk st); [reflexivity|simpl in E; lia].
Qed.

End Chunking.

(** *** Line lengths *)

Section LineLengths.
Variable maxChars : Z.
Hypothesis maxChars_nonneg : 0 <= maxChars.

Lemma wrapBody_fits st word :
  Forall (fun l => Z.of_nat (String.length l) <= maxChars) (wrappedLines st) ->
  Z.of_nat (String.length (currentLine st)) <= maxChars ->
  Z.of_nat (String.length word) <= maxChars ->
  Forall (fun l => Z.of_nat (String.length l) <= maxChars)
    (wrappedLines (wrapBody maxChars st word))
  /\ Z.of_nat (String.length (currentLine (wrapBody maxChars st word))) <= maxChars.
Proof.
  intros Hw Hc Hword. unfold wrapBody.
  destruct (Z.of_nat (String.length _) <=? maxChars) eqn:E; simpl.
  - apply Z.leb_le in E. split; assumption.
  - destruct (String.eqb (currentLine st) "") eqn:Ec; simpl.
    + apply Z.leb_gt in E. lia.
    + split; [|exact Hword]. apply Forall_app. split; [exact Hw|].
      constructor; [exact Hc|constructor].
Qed.

Lemma wrapLoop_fits words : forall st,
  Forall (fun w => Z.of_nat (String.length w) <= maxChars) words ->
  Forall (fun l => Z.of_nat (String.length l) <= maxChars) (wrappedLines st) ->
  Z.of_nat (String.length (currentLine st)) <= maxChars ->
  Forall (fun l => Z.of_nat (String.length l) <= maxChars)
    (wrappedLines (fold_left (wrapBody maxChars) words st))
  /\ Z.of_nat (String.length (currentLine (fold_left (wrapBody maxChars) words st)))
     <= maxChars.
Proof.
  induction words as [|w words IH]; intros st Hws Hw Hc; simpl.
  - split; assumption.
  - inversion Hws as [|? ? Hw1 Hws']; subst.
    destruct (wrapBody_fits st w Hw Hc Hw1) as [H1 H2].
    apply IH; assumption.
Qed.

(** Words too long for a line, met while the current line is empty, are
    each broken into a full line. *)
Lemma wrapLoop_breaks longs : forall st,
  3 <= maxChars ->
  Forall (fun w => maxChars < Z.of_nat (String.length w)) longs ->
  Forall (fun l => Z.of_nat (String.length l) <= maxChars) (wrappedLines st) ->
  currentLine st = "" ->
  Forall (fun l => Z.of_nat (String.length l) <= maxChars)
    (wrappedLines (fold_left (wrapBody maxChars) longs st))
  /\ currentLine (fold_left (wrapBody maxChars) longs st) = "".
Proof.
  induction longs as [|w longs IH]; intros st H3 Hlong Hw Hc; simpl.
  - split; assumption.
  - inversion Hlong as [|? ? Hw1 Hlongs]; subst.
    assert (Hstep : wrapBody maxChars st w
                    = {| wrappedLines := wrappedLines st ++ [truncated maxChars w];
                         currentLine := "" |}).
    { unfold wrapBody. rewrite Hc. simpl.
      destruct (Z.of_nat (String.length w) <=? maxChars) eqn:E; [|reflexivity].
      apply Z.leb_le in E. lia. }
    rewrite Hstep. apply IH; try assumption; simpl; [|reflexivity].
    apply Forall_app. split; [exact Hw|]. constructor; [|constructor].
    unfold truncated. rewrite length_append. simpl.
    pose proof (length_substring_le w (Z.to_nat (maxChars - 3))). lia.
Qed.

Lemma wrapLine_fits_breaking line :
  3 <= maxChars -> longWordsFirst maxChars line ->
  Forall (fun l => Z.of_nat (String.length l) <= maxChars) (wrapLine line maxChars).
Proof.
  intros H3 (longs & shorts & Hsplit & Hlongs & Hshorts). unfold wrapLine.
  destruct (Z.of_nat (String.length line) <=? maxChars) eqn:E.
  - apply Z.leb_le in E. constructor; [exact E|constructor].
  - rewrite Hsplit, fold_left_app.
    destruct (wrapLoop_breaks longs {| wrappedLines := []; currentLine := "" |} H3 Hlongs)
      as [H1 H2]; [constructor|reflexivity|].
    destruct (wrapLoop_fits shorts _ Hshorts H1) as [H4 H5].
    { rewrite H2. simpl. lia. }
    destruct (negb (String.eqb _ "")); [|exact H4].
    apply Forall_app. split; [exact H4|]. constructor; [exact H5|constructor].
Qed.

Lemma wrappedLines_fit (lines : list string) :
  3 <= maxChars ->
  Forall (longWordsFirst maxChars) lines ->
  Forall (fun l => Z.of_nat (String.length l) <= maxChars)
    (flat_map (fun line => wrapLine line maxChars) lines).
Proof.
  intros H3. induction 1 as [|line lines Hl _ IH]; simpl; [constructor|].
  apply Forall_app. split; [apply wrapLine_fits_breaking; assumption|exact IH].
Qed.

Lemma short_words_longWordsFirst line :
  Forall (fun w => Z.of_nat (String.length w) <= maxChars) (split space line) ->
  longWordsFirst maxChars line.
Proof. intros H. exists [], (split space line). repeat split; [constructor|exact H]. Qed.

(** *** Words *)

Lemma wordsOf_single word :
  noChar space word = true -> wordsOf word = List.filter nonEmpty [word].
Proof. intros H. unfold wordsOf. rewrite split_nosep by exact H. reflexivity. Qed.

Lemma wordsOf_append current word :
  noChar space word = true ->
  wordsOf (current +:+ " " +:+ word) = wordsOf current ++ List.filter nonEmpty [word].
Proof.
  intros H. unfold wordsOf.
  change (current +:+ " " +:+ word) with (current +:+ String space word).
  rewrite split_app, List.filter_app, (split_nosep space word H). reflexivity.
Qed.

Lemma standsFor_refl l : Forall2 (standsFor maxChars) l l.
Proof. induction l; constructor; [left; reflexivity|assumption]. Qed.

Lemma wordsOf_truncated word :
  noChar space word = true ->
  wordsOf (truncated maxChars word) = [truncated maxChars word].
Proof.
  intros H. unfold wordsOf. rewrite split_nosep.
  - simpl. unfold nonEmpty, truncated.
    destruct (substring 0 (Z.to_nat (maxChars - 3)) word); reflexivity.
  - unfold truncated. rewrite noChar_app, noChar_substring by exact H. reflexivity.
Qed.

Lemma wrapBody_words st word :
  noChar space word = true ->
  exists outs,
    laidOut (wrapBody maxChars st word) = laidOut st ++ outs
    /\ Forall2 (standsFor maxChars) outs (List.filter nonEmpty [word]).
Proof.
  intros Hword. unfold wrapBody, laidOut.
  destruct (String.eqb (currentLine st) "") eqn:Ec.
  - apply String.eqb_eq in Ec. rewrite Ec.
    change (wordsOf "") with (@nil string). rewrite app_nil_r.
    destruct (Z.of_nat (String.length word) <=? maxChars) eqn:E; simpl.
    + exists (List.filter nonEmpty [word]).
      rewrite (wordsOf_single word Hword). split; [reflexivity|apply standsFor_refl].
    + exists [truncated maxChars word].
      rewrite flat_map_app. simpl.
      change (wordsOf "") with (@nil string).
      fold (truncated maxChars word).
      rewrite (wordsOf_truncated word Hword), !app_nil_r. split; [reflexivity|].
      apply Z.leb_gt in E.
      assert (Hne : nonEmpty word = true).
      { destruct word; [simpl in E; lia|reflexivity]. }
      rewrite Hne. constructor; [right; split; [exact E|reflexivity]|constructor].
  - destruct (Z.of_nat (String.length _) <=? maxChars) eqn:E; simpl.
    + exists (List.filter nonEmpty [word]).
      rewrite (wordsOf_append _ word Hword), app_assoc.
      split; [reflexivity|apply standsFor_refl].
    + exists (List.filter nonEmpty [word]).
      rewrite flat_map_app. simpl.
      rewrite (wordsOf_single word Hword), <- !app_assoc.
      split; [reflexivity|apply standsFor_refl].
Qed.

Lemma wrapLoop_words words : forall st,
  Forall (fun w => noChar space w = true) words ->
  exists outs,
    laidOut (fold_left (wrapBody maxChars) words st) = laidOut st ++ outs
    /\ Forall2 (standsFor maxChars) outs (List.filter nonEmpty words).
Proof.
  induction words as [|w words IH]; intros st Hall; simpl.
  - exists []. rewrite app_nil_r. split; [reflexivity|constructor].
  - inversion Hall as [|? ? Hw Hws]; subst.
    destruct (wrapBody_words st w Hw) as (o1 & Heq1 & Hr1).
    destruct (IH (wrapBody maxChars st w) Hws) as (o2 & Heq2 & Hr2).
    exists (o1 ++ o2). rewrite Heq2, Heq1, <- app_assoc. split; [reflexivity|].
    simpl in Hr1. simpl. destruct (nonEmpty w).
    + change (w :: List.filter nonEmpty words) with ([w] ++ List.filter nonEmpty words).
      apply Forall2_app; assumption.
    + inversion Hr1; subst. exact Hr2.
Qed.

Lemma wrapLine_words line :
  Forall2 (standsFor maxChars) (flat_map wordsOf (wrapLine line maxChars)) (wordsOf line).
Proof.
  unfold wrapLine.
  destruct (Z.of_nat (String.length line) <=? maxChars).
  - simpl. rewrite app_nil_r. apply standsFor_refl.
  - destruct (wrapLoop_words (split space line) {| wrappedLines := []; currentLine := "" |}
                (split_pieces_nosep space line)) as (outs & Heq & Hr).
    unfold laidOut in Heq. simpl in Heq.
    set (st := fold_left (wrapBody maxChars) (split space line) _) in *.
    assert (Hout : flat_map wordsOf
                     (if negb (String.eqb (currentLine st) "")
                      then wrappedLines st ++ [currentLine st] else wrappedLines st)
                   = outs).
    { rewrite <- Heq. destruct (String.eqb (currentLine st) "") eqn:Ec; simpl.
      - apply String.eqb_eq in Ec. rewrite Ec. simpl. rewrite app_nil_r. reflexivity.
      - rewrite flat_map_app. simpl. rewrite app_nil_r. reflexivity. }
    rewrite Hout. exact Hr.
Qed.

Lemma wrappedLines_words (lines : list string) :
  Forall2 (standsFor maxChars)
    (flat_map wordsOf (flat_map (fun line => wrapLine line maxChars) lines))
    (flat_map wordsOf lines).
Proof.
  induction lines as [|line lines IH]; simpl; [constructor|].
  rewrite flat_map_app. apply Forall2_app; [apply wrapLine_words|exact IH].
Qed.

End LineLengths.

Lemma wrapLine_short line maxChars :
  Z.of_nat (String.length line) <= maxChars -> wrapLine line maxChars = [line].
Proof.
  intros H. unfold wrapLine. apply Z.leb_le in H. rewrite H. reflexivity.
Qed.

Lemma wrapped_short_lines (lines : list string) maxChars :
  Forall (fun l => Z.of_nat (String.length l) <= maxChars) lines ->
  flat_map (fun line => wrapLine line maxChars) lines = lines.
Proof.
  induction 1 as [|l lines Hl _ IH]; simpl; [reflexivity|].
  rewrite (wrapLine_short l maxChars Hl), IH. reflexivity.
Qed.

(** C4, as the code has it.  With 20 characters per line and 15 lines per
    chunk, as long as wrapping leaves at least one line: the chunks number
    ceil(W / 15) for W wrapped lines, each has at most 15 lines, and their
    lines are the wrapped lines in order; a text of 200 logical lines none
    longer than 20 characters therefore gives ceil(200 / 15) = 14 chunks.
    Every wrapped line has at most 20 characters when, on each logical line,
    the words longer than 20 characters come before all the others, as they
    do when there are none.  The words of the output are the words of the
    input, in order: a word of at most 20 characters is always unchanged,
    and a longer one is either unchanged or replaced by its forced break
    (its first 17 characters and an ellipsis). *)
Theorem text_flow_chunks (text : string) :
  let lines := split newline text in
  let wrapped := wrappedText text 20 in
  let out := chunkText text 20 15 in
  (wrapped <> [] ->
   Z.of_nat (length out) = (Z.of_nat (length wrapped) + 14) / 15
   /\ Forall (fun c => (length (split newline c) <= 15)%nat) out
   /\ flat_map (split newline) out = wrapped)
  /\ (length lines = 200%nat ->
      Forall (fun l => Z.of_nat (String.length l) <= 20) lines ->
      length out = 14%nat)
  /\ (Forall (longWordsFirst 20) lines ->
      Forall (fun l => Z.of_nat (String.length l) <= 20) wrapped)
  /\ (forall line,
        Forall (fun w => Z.of_nat (String.length w) <= 20) (split space line) ->
        longWordsFirst 20 line)
  /\ Forall2 (standsFor 20)
       (flat_map wordsOf (flat_map (split newline) out)) (flat_map wordsOf lines).
Proof.
  intros lines wrapped out.
  assert (Hshape : wrapped <> [] ->
            Z.of_nat (length out) = (Z.of_nat (length wrapped) + 14) / 15
            /\ Forall (fun c => (length (split newline c) <= 15)%nat) out
            /\ flat_map (split newline) out = wrapped).
  { intros Hne.
    destruct (chunkText_shape 20 15 ltac:(lia) text Hne)
      as (full & rest & Hout & Hfull & Hrest & Hcat & Hflat).
    change (Z.of_nat 15) with 15 in Hout, Hflat. fold out in Hout, Hflat.
    fold wrapped in Hcat, Hflat.
    pose proof (length_full_chunks 15 ltac:(lia) full Hfull) as Hlen.
    assert (Hw : length wrapped = (15 * length full + length rest)%nat).
    { rewrite <- Hcat, length_app, Hlen. reflexivity. }
    split; [|split; [|exact Hflat]].
    - rewrite Hout, length_app, Hw.
      destruct (0 <? Z.of_nat (length rest)) eqn:E;
        [apply Z.ltb_lt in E|apply Z.ltb_ge in E]; simpl length.
      + apply (Z.div_unique _ 15 _ (Z.of_nat (length rest) - 1)); lia.
      + apply (Z.div_unique _ 15 _ 14); lia.
    - rewrite Hout. apply Forall_app. split.
      + eapply Forall_impl; [exact Hfull|]. simpl. intros c Hc. lia.
      + destruct (0 <? Z.of_nat (length rest)) eqn:E; [|constructor].
        constructor; [|constructor].
        rewrite split_join.
        * lia.
        * destruct rest; [discriminate E|discriminate].
        * pose proof (wrappedText_noChar text 20) as Hfree. fold wrapped in Hfree.
          rewrite <- Hcat in Hfree. apply Forall_app in Hfree. tauto. }
  split; [exact Hshape|]. split; [|split; [|split]].
  - intros Hlen Hshort.
    assert (Hw : wrapped = lines) by (apply wrapped_short_lines, Hshort).
    destruct Hshape as (Hcount & _).
    { rewrite Hw. intros ->. discriminate Hlen. }
    rewrite Hw, Hlen in Hcount. change ((Z.of_nat 200 + 14) / 15) with 14 in Hcount. lia.
  - apply wrappedLines_fit; lia.
  - intros line. apply short_words_longWordsFirst.
  - assert (Hcases : wrapped = [] \/ wrapped <> []).
    { destruct wrapped; [left; reflexivity|right; discriminate]. }
    destruct Hcases as [Hnil|Hne].
    + assert (Hout : out = [text]).
      { unfold out, chunkText.
        rewrite (chunkLoop_steps 20 15 ltac:(lia))
          by first [apply chunk_inv_initial; lia | apply split_pieces_nosep].
        fold (wrappedText text 20). fold wrapped. rewrite Hnil. reflexivity. }
      rewrite Hout. simpl. rewrite app_nil_r. apply standsFor_refl.
    + destruct (Hshape Hne) as (_ & _ & ->).
      apply wrappedLines_words. lia.
Qed.

Lemma text_flow_chunks_witness :
  (length (split newline shortLinesText) = 200%nat
   /\ length (chunkText shortLinesText 20 15) = 14%nat)
  /\ (wrappedText wrappingLinesText 20 <> []
      /\ Z.of_nat (length (chunkText wrappingLinesText 20 15))
         = (Z.of_nat (length (wrappedText wrappingLinesText 20)) + 14) / 15)
  /\ (flat_map wordsOf (flat_map (split newline) (chunkText breakingText 20 15))
       = ["aaaaaaaaaaaaaaaaa..."; "hi"; "there"; "second"; "line"]
      /\ Forall2 (standsFor 20)
           (flat_map wordsOf (flat_map (split newline) (chunkText breakingText 20 15)))
           (flat_map wordsOf (split newline breakingText))).
Proof.
  assert (Hlen : length (split newline shortLinesText) = 200%nat) by (vm_compute; reflexivity).
  assert (Hne : wrappedText wrappingLinesText 20 <> [])
    by (vm_compute; discriminate).
  split; [split; [exact Hlen|]|split; [split; [exact Hne|]|split]].
  - apply (proj1 (proj2 (text_flow_chunks shortLinesText)) Hlen).
    apply Forall_forall. intros l Hl.
    assert (Hall : forallb (fun l => Z.of_nat (String.length l) <=? 20)
                     (split newline shortLinesText) = true) by (vm_compute; reflexivity).
    rewrite forallb_forall in Hall. apply Z.leb_le, Hall, list_elem_of_In, Hl.
  - exact (proj1 (proj1 (text_flow_chunks wrappingLinesText) Hne)).
  - vm_compute. reflexivity.
  - exact (proj2 (proj2 (proj2 (proj2 (text_flow_chunks breakingText))))).
Defined.

(** C4 as stated fails: 200 logical lines of 23 characters wrap into 400
    lines and fill 27 chunks, not ceil(200 / 15) = 14. *)
Lemma wrapping_adds_chunks :
  length (split newline wrappingLinesText) = 200%nat
  /\ length (wrappedText wrappingLinesText 20) = 400%nat
  /\ length (chunkText wrappingLinesText 20 15) = 27%nat
  /\ length (chunkText wrappingLinesText 20 15) <> 14%nat.
Proof.
  assert (H : length (chunkText wrappingLinesText 20 15) = 27%nat) by (vm_compute; reflexivity).
  split; [vm_compute; reflexivity|].
  split; [vm_compute; reflexivity|].
  split; [exact H|].
  rewrite H. discriminate.
Qed.

(** A word that does not fit is broken only when it starts a line: coming
    after another word it is laid out whole, whatever its length. *)
Lemma long_word_after_text_is_kept :
  wrapLine "hi aaaaaaaaaaaaaaaaaaaaaaaaa" 20 = ["hi"; "aaaaaaaaaaaaaaaaaaaaaaaaa"]
  /\ wrapLine "aaaaaaaaaaaaaaaaaaaaaaaaa hi" 20 = ["aaaaaaaaaaaaaaaaa..."; "hi"].
Proof. split; reflexivity. Qed.

(** A text of over-long lines made of spaces wraps to nothing and comes back
    as one chunk, unwrapped. *)
Lemma blank_text_is_returned_whole :
  wrappedText "                         " 20 = []
  /\ chunkText "                         " 20 15 = ["                         "].
Proof. split; reflexivity. Qed.

(** ** autoLayout: where things are put *)

Lemma NoDup_app_parts {A : Type} (l k : list A) :
  List.NoDup (l ++ k) ->
  List.NoDup l /\ List.NoDup k /\ (forall x, In x l -> ~ In x k).
Proof.
  intros H. split; [exact (List.NoDup_app_remove_r _ _ H)|].
  split; [exact (List.NoDup_app_remove_l _ _ H)|].
  induction l as [|a l IH]; intros x Hx Hk; [contradiction|].
  simpl in H. apply List.NoDup_cons_iff in H as [Hnot Hnd].
  destruct Hx as [->|Hx].
  - apply Hnot, in_or_app. right. exact Hk.
  - exact (IH Hnd x Hx Hk).
Qed.

Lemma forEach_from_app {A S : Type} (f : S -> A -> nat -> S) (l1 l2 : list A) :
  forall i s,
    forEach_from f (l1 ++ l2) i s
    = forEach_from f l2 (i + length l1) (forEach_from f l1 i s).
Proof.
  induction l1 as [|a l1 IH]; intros i s; simpl.
  - rewrite Nat.add_0_r. reflexivity.
  - rewrite IH. f_equal. lia.
Qed.

(** *** Keys a loop does not write are left alone *)

Lemma nodeLoop_other nsx l : forall i st k,
  ~ In k (map (fun n => "node-" +:+ node_id n) l) ->
  nl_positions (forEach_from (nodeBody nsx) l i st) !! k = nl_positions st !! k.
Proof.
  induction l as [|n l IH]; intros i st k Hk; simpl; [reflexivity|].
  rewrite IH by (intros H; apply Hk; right; exact H).
  destruct (nodeBody_positions nsx st n i) as [p ->].
  apply lookup_insert_ne. intros H. apply Hk. left. exact H.
Qed.

Lemma snaplexBody_positions y st s i :
  sl_positions (snaplexBody y st s i)
  = nl_positions
      (forEach (nodeBody (snaplexX st + 50)) (nodes (container s))
         {| nl_positions :=
              <[ "snaplex-" +:+ snaplex_id s := {| pt_x := snaplexX st; pt_y := y |} ]>
                (sl_positions st);
            nodeX := snaplexX st + 50; nodeY := y + 220 |}).
Proof. reflexivity. Qed.

Lemma snaplexBody_other y st s i k :
  ~ In k (snaplexKeys s) ->
  sl_positions (snaplexBody y st s i) !! k = sl_positions st !! k.
Proof.
  intros Hk. rewrite snaplexBody_positions. unfold forEach.
  rewrite nodeLoop_other by (intros H; apply Hk; right; exact H).
  simpl. apply lookup_insert_ne. intros H. apply Hk. left. exact H.
Qed.

Lemma snaplexLoop_other y l : forall i st k,
  ~ In k (flat_map snaplexKeys l) ->
  sl_positions (forEach_from (snaplexBody y) l i st) !! k = sl_positions st !! k.
Proof.
  induction l as [|s l IH]; intros i st k Hk; simpl; [reflexivity|].
  change (flat_map snaplexKeys (s :: l))
    with (snaplexKeys s ++ flat_map snaplexKeys l) in Hk.
  rewrite IH by (intros H; apply Hk, in_or_app; right; exact H).
  apply snaplexBody_other. intros H. apply Hk, in_or_app. left. exact H.
Qed.

Lemma envBody_other st env i k :
  ~ In k (environmentKeys env) ->
  ev_positions (envBody st env i) !! k = ev_positions st !! k.
Proof.
  intros Hk. rewrite envBody_positions. unfold forEach.
  rewrite snaplexLoop_other by (intros H; apply Hk; right; exact H).
  simpl. apply lookup_insert_ne. intros H. apply Hk. left. exact H.
Qed.

Lemma envLoop_other l : forall i st k,
  ~ In k (flat_map environmentKeys l) ->
  ev_positions (forEach_from envBody l i st) !! k = ev_positions st !! k.
Proof.
  induction l as [|e l IH]; intros i st k Hk; simpl; [reflexivity|].
  change (flat_map environmentKeys (e :: l))
    with (environmentKeys e ++ flat_map environmentKeys l) in Hk.
  rewrite IH by (intros H; apply Hk, in_or_app; right; exact H).
  apply envBody_other. intros H. apply Hk, in_or_app. left. exact H.
Qed.

Lemma endpointLoop_other y l : forall i (m : gmap string Point) k,
  ~ In k (endpointKeys l) ->
  forEach_from (endpointBody y) l i m !! k = m !! k.
Proof.
  induction l as [|e l IH]; intros i m k Hk; simpl; [reflexivity|].
  rewrite IH by (intros H; apply Hk; right; exact H).
  unfold endpointBody. apply lookup_insert_ne. intros H. apply Hk. left. exact H.
Qed.

(** *** The node grid *)

Ltac divmod := Z.div_mod_to_equations; lia.
Ltac fields_by_lia := repeat first [reflexivity | lia | divmod | f_equal].

Lemma nodeBody_grid x0 y0 j st n :
  node_pre x0 y0 j st ->
  nodeBody x0 st n j
  = {| nl_positions :=
         <[ "node-" +:+ node_id n :=
              {| pt_x := x0 + 70 * (Z.of_nat j mod 5);
                 pt_y := y0 + 70 * (Z.of_nat j / 5) |} ]> (nl_positions st);
       nodeX := x0 + 70 * (Z.of_nat j mod 5 + 1);
       nodeY := y0 + 70 * (Z.of_nat j / 5) |}.
Proof.
  intros Hpre. unfold nodeBody, nodesPerRow, nodeSpacing, NODE_SPACING.
  destruct ((0 <? Z.of_nat j) && (Z.of_nat j mod 5 =? 0)) eqn:E.
  - apply andb_prop in E as [E1 E2]. apply Z.ltb_lt in E1. apply Z.eqb_eq in E2.
    destruct Hpre as [(-> & _)|(Hj & HX & HY)]; [simpl in E1; lia|].
    cbn [nl_positions nodeX nodeY]. rewrite HY, E2.
    assert (Hd : (Z.of_nat j - 1) / 5 = Z.of_nat j / 5 - 1).
    { Z.div_mod_to_equations. lia. }
    rewrite Hd. fields_by_lia.
  - destruct Hpre as [(-> & HX & HY)|(Hj & HX & HY)].
    + rewrite HX, HY. simpl. fields_by_lia.
    + assert (Hm : Z.of_nat j mod 5 <> 0).
      { intros Hm. rewrite Hm in E. replace (0 <? Z.of_nat j) with true in E by
          (symmetry; apply Z.ltb_lt; lia). discriminate E. }
      assert (Hd : (Z.of_nat j - 1) / 5 = Z.of_nat j / 5
                   /\ (Z.of_nat j - 1) mod 5 + 1 = Z.of_nat j mod 5).
      { Z.div_mod_to_equations. lia. }
      destruct Hd as [Hd1 Hd2]. rewrite HX, HY, Hd1, Hd2.
      fields_by_lia.
Qed.

Lemma nodeBody_pre x0 y0 j st n :
  node_pre x0 y0 j st -> node_pre x0 y0 (S j) (nodeBody x0 st n j).
Proof.
  intros Hpre. rewrite (nodeBody_grid x0 y0 j st n Hpre).
  right. cbn [nodeX nodeY]. replace (Z.of_nat (S j) - 1) with (Z.of_nat j) by lia.
  repeat split; lia.
Qed.

Lemma nodeLoop_grid x0 y0 l : forall j st,
  node_pre x0 y0 j st ->
  List.NoDup (map (fun n => "node-" +:+ node_id n) l) ->
  forall i n, nth_error l i = Some n ->
    nl_positions (forEach_from (nodeBody x0) l j st) !! ("node-" +:+ node_id n)
    = Some {| pt_x := x0 + 70 * (Z.of_nat (j + i) mod 5);
              pt_y := y0 + 70 * (Z.of_nat (j + i) / 5) |}.
Proof.
  induction l as [|a l IH]; intros j st Hpre Hnd i n Hn; [destruct i; discriminate|].
  simpl in Hnd. apply List.NoDup_cons_iff in Hnd as [Hnot Hnd].
  destruct i as [|i]; simpl in Hn |- *.
  - injection Hn as ->. rewrite nodeLoop_other by exact Hnot.
    rewrite (nodeBody_grid x0 y0 j st n Hpre). cbn [nl_positions].
    rewrite lookup_insert_eq, Nat.add_0_r. reflexivity.
  - rewrite (IH (S j) _ (nodeBody_pre x0 y0 j st a Hpre) Hnd i n Hn).
    replace (S j + i)%nat with (j + S i)%nat by lia. reflexivity.
Qed.

Lemma node_pre_start x0 y0 st :
  nodeX st = x0 -> nodeY st = y0 -> node_pre x0 y0 0 st.
Proof. intros HX HY. left. repeat split; assumption. Qed.

(** *** Clusters side by side *)

Lemma snaplexBody_snaplexX y st s i :
  snaplexX (snaplexBody y st s i) = snaplexX st + 480.
Proof. reflexivity. Qed.

Lemma snaplexBody_place y st s i :
  List.NoDup (snaplexKeys s) ->
  sl_positions (snaplexBody y st s i) !! ("snaplex-" +:+ snaplex_id s)
  = Some {| pt_x := snaplexX st; pt_y := y |}
  /\ forall j n, nth_error (nodes (container s)) j = Some n ->
       sl_positions (snaplexBody y st s i) !! ("node-" +:+ node_id n)
       = Some (gridPoint (snaplexX st) y j).
Proof.
  intros Hnd. unfold snaplexKeys in Hnd.
  apply List.NoDup_cons_iff in Hnd as [Hnot Hnd].
  rewrite snaplexBody_positions. unfold forEach. split.
  - rewrite nodeLoop_other by exact Hnot. simpl. apply lookup_insert_eq.
  - intros j n Hn.
    erewrite (nodeLoop_grid (snaplexX st + 50) (y + 220));
      [reflexivity | apply node_pre_start; reflexivity | exact Hnd | exact Hn].
Qed.

Lemma snaplexLoop_place y l : forall i st,
  List.NoDup (flat_map snaplexKeys l) ->
  forall k s, nth_error l k = Some s ->
    sl_positions (forEach_from (snaplexBody y) l i st) !! ("snaplex-" +:+ snaplex_id s)
    = Some {| pt_x := snaplexX st + 480 * Z.of_nat k; pt_y := y |}
    /\ forall j n, nth_error (nodes (container s)) j = Some n ->
         sl_positions (forEach_from (snaplexBody y) l i st) !! ("node-" +:+ node_id n)
         = Some (gridPoint (snaplexX st + 480 * Z.of_nat k) y j).
Proof.
  induction l as [|a l IH]; intros i st Hnd k s Hk; [destruct k; discriminate|].
  change (flat_map snaplexKeys (a :: l))
    with (snaplexKeys a ++ flat_map snaplexKeys l) in Hnd.
  apply NoDup_app_parts in Hnd as (Hnd1 & Hnd2 & Hdis).
  destruct k as [|k]; simpl in Hk.
  - injection Hk as ->. simpl forEach_from.
    destruct (snaplexBody_place y st s i Hnd1) as [H1 H2].
    replace (snaplexX st + 480 * Z.of_nat 0) with (snaplexX st) by lia.
    split.
    + rewrite snaplexLoop_other by (apply Hdis; left; reflexivity). exact H1.
    + intros j n Hn. rewrite snaplexLoop_other; [exact (H2 j n Hn)|].
      apply Hdis. right. unfold nodeKeys.
      apply (in_map (fun n => "node-" +:+ node_id n)), (nth_error_In _ _ Hn).
  - simpl forEach_from.
    destruct (IH (S i) (snaplexBody y st a i) Hnd2 k s Hk) as [H1 H2].
    rewrite snaplexBody_snaplexX in H1, H2.
    replace (snaplexX st + 480 * Z.of_nat (S k))
      with (snaplexX st + 480 + 480 * Z.of_nat k) by lia.
    split; assumption.
Qed.

Lemma snaplexLoop_maxX y l : forall i st,
  maxX (forEach_from (snaplexBody y) l i st)
  = match l with
    | [] => maxX st
    | _ :: _ => Z.max (maxX st) (snaplexX st + 480 * Z.of_nat (length l) - 30)
    end.
Proof.
  induction l as [|a l IH]; intros i st; [reflexivity|].
  simpl forEach_from. rewrite IH. destruct l as [|b l].
  - simpl. unfold SNAPLEX_WIDTH. lia.
  - rewrite snaplexBody_snaplexX.
    change (maxX (snaplexBody y st a i)) with (Z.max (maxX st) (snaplexX st + 450)).
    simpl length. lia.
Qed.

Lemma tallest_nonneg (l : list Z) : 0 <= fold_right Z.max 0 l.
Proof. induction l as [|a l IH]; simpl; lia. Qed.

Lemma snaplexLoop_maxY y l : forall i st,
  y <= maxY st ->
  maxY (forEach_from (snaplexBody y) l i st)
  = Z.max (maxY st) (y + fold_right Z.max 0 (map actualSnaplexHeight l)).
Proof.
  induction l as [|a l IH]; intros i st Hy; simpl forEach_from.
  - simpl. lia.
  - rewrite IH.
    + change (maxY (snaplexBody y st a i))
        with (Z.max (maxY st) (y + actualSnaplexHeight a)).
      simpl. lia.
    + change (maxY (snaplexBody y st a i))
        with (Z.max (maxY st) (y + actualSnaplexHeight a)).
      lia.
Qed.

Lemma snaplexLoop_bounds cx cy l i st :
  snaplexX st = cx + 40 -> maxX st = cx -> maxY st = cy + 80 ->
  Z.max 1200 (maxX (forEach_from (snaplexBody (cy + 80)) l i st) - cx + 40)
  = Z.max 1200 (480 * Z.of_nat (length l) + 50)
  /\ Z.max 500 (maxY (forEach_from (snaplexBody (cy + 80)) l i st) - cy + 30)
     = Z.max 500 (fold_right Z.max 0 (map actualSnaplexHeight l) + 110).
Proof.
  intros HX HmX HmY. rewrite snaplexLoop_maxX, snaplexLoop_maxY by lia.
  pose proof (tallest_nonneg (map actualSnaplexHeight l)) as HT.
  rewrite HX, HmX, HmY. split; [|lia].
  destruct l as [|a l]; [simpl; lia|].
  change (length (a :: l)) with (S (length l)). lia.
Qed.

(** *** One iteration of the environment loop *)

Lemma envBody_bounds st env :
  Z.max ENV_WIDTH
    (maxX (forEach (snaplexBody (currentY st + 80)) (snaplexes env)
             {| sl_positions :=
                  <[ "env-" +:+ env_id env :=
                       {| pt_x := currentX st; pt_y := currentY st |} ]> (ev_positions st);
                sl_envDimensions := ev_envDimensions st;
                snaplexX := currentX st + SNAPLEX_MARGIN;
                maxX := currentX st; maxY := currentY st + 80 |})
     - currentX st + SNAPLEX_MARGIN)
  = dim_width (environmentDimensions env)
  /\ Z.max ENV_HEIGHT
       (maxY (forEach (snaplexBody (currentY st + 80)) (snaplexes env)
                {| sl_positions :=
                     <[ "env-" +:+ env_id env :=
                          {| pt_x := currentX st; pt_y := currentY st |} ]> (ev_positions st);
                   sl_envDimensions := ev_envDimensions st;
                   snaplexX := currentX st + SNAPLEX_MARGIN;
                   maxX := currentX st; maxY := currentY st + 80 |})
        - currentY st + 30)
     = dim_height (environmentDimensions env).
Proof.
  unfold forEach, ENV_WIDTH, ENV_HEIGHT, SNAPLEX_MARGIN.
  apply snaplexLoop_bounds; reflexivity.
Qed.

Lemma envBody_state st env j :
  currentX (envBody st env j)
  = (if (Z.of_nat j + 1) mod 2 =? 0 then 50
     else currentX st + (dim_width (environmentDimensions env) + 50))
  /\ currentY (envBody st env j)
     = (if (Z.of_nat j + 1) mod 2 =? 0
        then rowStartY st
             + Z.max (maxRowHeight st) (dim_height (environmentDimensions env)) + 100
        else currentY st)
  /\ rowStartY (envBody st env j)
     = (if (Z.of_nat j + 1) mod 2 =? 0
        then rowStartY st
             + Z.max (maxRowHeight st) (dim_height (environmentDimensions env)) + 100
        else rowStartY st)
  /\ maxRowHeight (envBody st env j)
     = (if (Z.of_nat j + 1) mod 2 =? 0 then 0
        else Z.max (maxRowHeight st) (dim_height (environmentDimensions env))).
Proof.
  destruct (envBody_bounds st env) as [HW HH].
  unfold envBody. cbv zeta.
  destruct ((Z.of_nat j + 1) mod 2 =? 0); cbn [currentX currentY rowStartY maxRowHeight];
    rewrite ?HW, ?HH; repeat split; reflexivity.
Qed.

Lemma envBody_dimensions st env j :
  ev_envDimensions (envBody st env j)
  = <[ "env-" +:+ env_id env := environmentDimensions env ]>
      (fold_left recordSnaplex (snaplexes env) (ev_envDimensions st)).
Proof.
  destruct (envBody_bounds st env) as [HW HH].
  unfold envBody. cbv zeta.
  destruct ((Z.of_nat j + 1) mod 2 =? 0); cbn [ev_envDimensions];
    rewrite HW, HH; unfold forEach; rewrite snaplexLoop_envDimensions; reflexivity.
Qed.

Lemma envBody_place st env j :
  List.NoDup (environmentKeys env) ->
  ev_positions (envBody st env j) !! ("env-" +:+ env_id env)
  = Some {| pt_x := currentX st; pt_y := currentY st |}
  /\ forall k s, nth_error (snaplexes env) k = Some s ->
       ev_positions (envBody st env j) !! ("snaplex-" +:+ snaplex_id s)
       = Some {| pt_x := currentX st + 40 + 480 * Z.of_nat k; pt_y := currentY st + 80 |}
       /\ forall i n, nth_error (nodes (container s)) i = Some n ->
            ev_positions (envBody st env j) !! ("node-" +:+ node_id n)
            = Some (gridPoint (currentX st + 40 + 480 * Z.of_nat k) (currentY st + 80) i).
Proof.
  intros Hnd. unfold environmentKeys in Hnd.
  apply List.NoDup_cons_iff in Hnd as [Hnot Hnd].
  rewrite envBody_positions. unfold forEach. split.
  - rewrite snaplexLoop_other by exact Hnot. simpl. apply lookup_insert_eq.
  - intros k s Hk.
    exact (snaplexLoop_place (currentY st + 80) (snaplexes env) 0 _ Hnd k s Hk).
Qed.

(** *** The dimension table: keys a loop does not write *)

Lemma recordSnaplex_frame l : forall d k,
  ~ In k (flat_map snaplexKeys l) ->
  fold_left recordSnaplex l d !! k = d !! k.
Proof.
  induction l as [|s l IH]; intros d k Hk; simpl; [reflexivity|].
  change (flat_map snaplexKeys (s :: l))
    with (snaplexKeys s ++ flat_map snaplexKeys l) in Hk.
  rewrite IH by (intros H; apply Hk, in_or_app; right; exact H).
  unfold recordSnaplex. apply lookup_insert_ne.
  intros H. apply Hk, in_or_app. left. left. exact H.
Qed.

Lemma recordSnaplex_place l : forall d s,
  List.NoDup (flat_map snaplexKeys l) -> In s l ->
  fold_left recordSnaplex l d !! ("snaplex-" +:+ snaplex_id s)
  = Some (snaplexDimensions s).
Proof.
  induction l as [|a l IH]; intros d s Hnd Hin; [contradiction|].
  change (flat_map snaplexKeys (a :: l))
    with (snaplexKeys a ++ flat_map snaplexKeys l) in Hnd.
  apply NoDup_app_parts in Hnd as (Hnd1 & Hnd2 & Hdis).
  simpl. destruct Hin as [->|Hin].
  - rewrite recordSnaplex_frame by (apply Hdis; left; reflexivity).
    unfold recordSnaplex. apply lookup_insert_eq.
  - apply IH; assumption.
Qed.

Lemma envBody_dims_other st env j k :
  ~ In k (environmentKeys env) ->
  ev_envDimensions (envBody st env j) !! k = ev_envDimensions st !! k.
Proof.
  intros Hk. rewrite envBody_dimensions.
  rewrite lookup_insert_ne by (intros H; apply Hk; left; exact H).
  apply recordSnaplex_frame. intros H. apply Hk. right. exact H.
Qed.

Lemma envLoop_dims_other l : forall i st k,
  ~ In k (flat_map environmentKeys l) ->
  ev_envDimensions (forEach_from envBody l i st) !! k = ev_envDimensions st !! k.
Proof.
  induction l as [|e l IH]; intros i st k Hk; simpl; [reflexivity|].
  change (flat_map environmentKeys (e :: l))
    with (environmentKeys e ++ flat_map environmentKeys l) in Hk.
  rewrite IH by (intros H; apply Hk, in_or_app; right; exact H).
  apply envBody_dims_other. intros H. apply Hk, in_or_app. left. exact H.
Qed.

(** *** From one iteration to the whole layout *)

Lemma firstn_middle {A : Type} (l1 l2 : list A) (a : A) :
  firstn (length l1) (l1 ++ a :: l2) = l1.
Proof.
  rewrite firstn_app, firstn_all, Nat.sub_diag. simpl. apply app_nil_r.
Qed.

Lemma autoLayout_at envs eps m env :
  distinctKeys envs eps -> nth_error envs m = Some env ->
  List.NoDup (environmentKeys env)
  /\ forall k, In k (environmentKeys env) ->
       positions (autoLayout envs eps) !! k
       = ev_positions (envBody (stateBefore envs m) env m) !! k
       /\ envDimensions (autoLayout envs eps) !! k
          = ev_envDimensions (envBody (stateBefore envs m) env m) !! k.
Proof.
  intros Hd Hm. unfold distinctKeys, layoutKeys in Hd.
  apply NoDup_app_parts in Hd as (Hnd & _ & Hdis).
  destruct (nth_error_split envs m Hm) as (pre & post & -> & Hlen).
  rewrite flat_map_app in Hnd, Hdis.
  change (flat_map environmentKeys (env :: post))
    with (environmentKeys env ++ flat_map environmentKeys post) in Hnd, Hdis.
  pose proof Hnd as Hnd'.
  apply NoDup_app_parts in Hnd' as (_ & Hnd' & _).
  apply NoDup_app_parts in Hnd' as (Henv & _ & Hpost).
  split; [exact Henv|]. intros k Hk.
  unfold stateBefore. subst m. rewrite firstn_middle.
  unfold autoLayout. cbn [positions envDimensions]. unfold forEach.
  rewrite endpointLoop_other
    by (apply Hdis, in_or_app; right; apply in_or_app; left; exact Hk).
  rewrite forEach_from_app. simpl forEach_from.
  rewrite envLoop_other, envLoop_dims_other by (apply Hpost; exact Hk).
  split; reflexivity.
Qed.

(** *** Rows of environments *)

Lemma envBody_row_inv j st env : row_inv j st -> row_inv (S j) (envBody st env j).
Proof.
  intros (HY & Hpos & Heven).
  destruct (envBody_state st env j) as (HX' & HY' & HR' & HM').
  unfold row_inv. rewrite HX', HY', HR', HM'.
  replace (Z.of_nat (S j)) with (Z.of_nat j + 1) by lia.
  destruct ((Z.of_nat j + 1) mod 2 =? 0) eqn:E.
  - repeat split; lia.
  - apply Z.eqb_neq in E. repeat split; try lia; contradiction.
Qed.

Lemma envLoop_row_inv l : forall j st,
  row_inv j st -> row_inv (j + length l) (forEach_from envBody l j st).
Proof.
  induction l as [|e l IH]; intros j st H; simpl.
  - rewrite Nat.add_0_r. exact H.
  - replace (j + S (length l))%nat with (S j + length l)%nat by lia.
    apply IH, envBody_row_inv, H.
Qed.

Lemma layoutStart_row_inv : row_inv 0 layoutStart.
Proof. unfold row_inv. simpl. repeat split; lia. Qed.

Lemma stateBefore_row_inv envs m :
  (m <= length envs)%nat -> row_inv m (stateBefore envs m).
Proof.
  intros Hm. unfold stateBefore, forEach.
  pose proof (envLoop_row_inv (firstn m envs) 0 layoutStart layoutStart_row_inv) as H.
  rewrite firstn_length_le in H by exact Hm. exact H.
Qed.

Lemma stateBefore_S envs m env :
  nth_error envs m = Some env ->
  stateBefore envs (S m) = envBody (stateBefore envs m) env m.
Proof.
  intros Hm. destruct (nth_error_split envs m Hm) as (pre & post & -> & Hlen).
  unfold stateBefore, forEach. subst m.
  rewrite firstn_middle.
  replace (pre ++ env :: post) with ((pre ++ [env]) ++ post)
    by (rewrite <- app_assoc; reflexivity).
  replace (S (length pre)) with (length (pre ++ [env]))
    by (rewrite length_app; simpl; lia).
  rewrite firstn_app, firstn_all, Nat.sub_diag. simpl firstn. rewrite app_nil_r.
  rewrite forEach_from_app. reflexivity.
Qed.

Lemma nth_error_le {A : Type} (l : list A) m a :
  nth_error l m = Some a -> (m < length l)%nat.
Proof. intros H. apply nth_error_Some. rewrite H. discriminate. Qed.

(** *** The row of endpoints *)

Lemma endpointLoop_place y l : forall i (m : gmap string Point),
  List.NoDup (endpointKeys l) ->
  forall k ep, nth_error l k = Some ep ->
    forEach_from (endpointBody y) l i m !! ("endpoint-" +:+ endpoint_id ep)
    = Some {| pt_x := 50 + 200 * Z.of_nat (i + k); pt_y := y |}.
Proof.
  induction l as [|a l IH]; intros i m Hnd k ep Hk; [destruct k; discriminate|].
  simpl in Hnd. apply List.NoDup_cons_iff in Hnd as [Hnot Hnd].
  destruct k as [|k]; simpl in Hk |- *.
  - injection Hk as ->. rewrite endpointLoop_other by exact Hnot.
    unfold endpointBody. rewrite lookup_insert_eq, Nat.add_0_r.
    f_equal. f_equal. lia.
  - rewrite (IH (S i) _ Hnd k ep Hk).
    replace (S i + k)%nat with (i + S k)%nat by lia. reflexivity.
Qed.

Lemma nextRowY_step j st env :
  row_inv j st ->
  nextRowY j st <= nextRowY (S j) (envBody st env j)
  /\ currentY st + dim_height (environmentDimensions env) + 100
     <= nextRowY (S j) (envBody st env j).
Proof.
  intros (HY & Hpos & Heven).
  destruct (envBody_state st env j) as (HX' & HY' & HR' & HM').
  unfold nextRowY. rewrite HY', HR', HM'.
  replace (Z.of_nat (S j)) with (Z.of_nat j + 1) by lia.
  destruct ((Z.of_nat j + 1) mod 2 =? 0) eqn:E;
    [apply Z.eqb_eq in E | apply Z.eqb_neq in E].
  - assert (E1 : ((Z.of_nat j + 1) mod 2 =? 1) = false) by (apply Z.eqb_neq; lia).
    assert (E2 : (Z.of_nat j mod 2 =? 1) = true) by (apply Z.eqb_eq; divmod).
    rewrite E1, E2. lia.
  - assert (E1 : ((Z.of_nat j + 1) mod 2 =? 1) = true) by (apply Z.eqb_eq; divmod).
    assert (E2 : (Z.of_nat j mod 2 =? 1) = false) by (apply Z.eqb_neq; divmod).
    rewrite E1, E2. lia.
Qed.

Lemma nextRowY_mono l : forall j st,
  row_inv j st ->
  nextRowY j st <= nextRowY (j + length l) (forEach_from envBody l j st).
Proof.
  induction l as [|e l IH]; intros j st H; simpl.
  - rewrite Nat.add_0_r. lia.
  - replace (j + S (length l))%nat with (S j + length l)%nat by lia.
    pose proof (IH (S j) _ (envBody_row_inv j st e H)) as H1.
    destruct (nextRowY_step j st e H) as [H2 _]. lia.
Qed.

(** ** autoLayout: the geometry of the result *)

Lemma snaplexKey_in env s :
  In s (snaplexes env) -> In ("snaplex-" +:+ snaplex_id s) (environmentKeys env).
Proof.
  intros Hs. right. apply in_flat_map. exists s. split; [exact Hs|]. left. reflexivity.
Qed.

Lemma nodeKey_in env s n :
  In s (snaplexes env) -> In n (nodes (container s)) ->
  In ("node-" +:+ node_id n) (environmentKeys env).
Proof.
  intros Hs Hn. right. apply in_flat_map. exists s. split; [exact Hs|]. right.
  unfold nodeKeys. apply (in_map (fun n => "node-" +:+ node_id n)). exact Hn.
Qed.

Lemma sample_distinctKeys : distinctKeys sampleEnvironments sampleEndpoints.
Proof.
  unfold distinctKeys.
  repeat (apply List.NoDup_cons; [simpl; intuition discriminate|]).
  apply List.NoDup_nil.
Qed.

(** X1.  The nodes of a cluster are laid out on a grid anchored at the
    cluster: five to a row, columns and rows 70 apart, the first node 50 to
    the right of and 220 below the cluster's position.  (Keys distinct.) *)
Theorem nodes_on_grid (envs : list Environment) (eps : list Endpoint)
    (env : Environment) (s : Snaplex) (i : nat) (n : ExecutionNode) :
  distinctKeys envs eps ->
  In env envs -> In s (snaplexes env) ->
  nth_error (nodes (container s)) i = Some n ->
  exists p,
    positions (autoLayout envs eps) !! ("snaplex-" +:+ snaplex_id s) = Some p
    /\ positions (autoLayout envs eps) !! ("node-" +:+ node_id n)
       = Some {| pt_x := pt_x p + 50 + 70 * (Z.of_nat i mod 5);
                 pt_y := pt_y p + 220 + 70 * (Z.of_nat i / 5) |}.
Proof.
  intros Hd Henv Hs Hn.
  destruct (In_nth_error _ _ Henv) as [m Hm].
  destruct (In_nth_error _ _ Hs) as [k Hk].
  destruct (autoLayout_at envs eps m env Hd Hm) as [Hnd Hat].
  destruct (envBody_place (stateBefore envs m) env m Hnd) as [_ Hpl].
  destruct (Hpl k s Hk) as [H1 H2].
  eexists. split.
  - rewrite (proj1 (Hat _ (snaplexKey_in env s Hs))). exact H1.
  - rewrite (proj1 (Hat _ (nodeKey_in env s n Hs (nth_error_In _ _ Hn)))).
    exact (H2 i n Hn).
Qed.

Lemma nodes_on_grid_witness :
  exists p,
    positions (autoLayout sampleEnvironments sampleEndpoints) !! "snaplex-c2" = Some p
    /\ positions (autoLayout sampleEnvironments sampleEndpoints) !! "node-17"
       = Some {| pt_x := pt_x p + 50 + 70 * (Z.of_nat 10 mod 5);
                 pt_y := pt_y p + 220 + 70 * (Z.of_nat 10 / 5) |}.
Proof.
  apply (nodes_on_grid sampleEnvironments sampleEndpoints
           (sampleEnvironment "env-2"
              [sampleCluster "c2"
                 ["7"; "8"; "9"; "10"; "11"; "12"; "13"; "14"; "15"; "16"; "17"];
               sampleCluster "c3" []; sampleCluster "c4" ["18"]])
           (sampleCluster "c2"
              ["7"; "8"; "9"; "10"; "11"; "12"; "13"; "14"; "15"; "16"; "17"])
           10 (sampleNode "17" medium false)).
  - exact sample_distinctKeys.
  - right. left. reflexivity.
  - left. reflexivity.
  - reflexivity.
Defined.

(** X2.  The clusters of an environment stand side by side inside it: the
    [k]-th one 40 + 480 k to the right of the environment's position (450
    wide, 30 apart) and 80 below it.  (Keys distinct.) *)
Theorem clusters_side_by_side (envs : list Environment) (eps : list Endpoint)
    (env : Environment) (k : nat) (s : Snaplex) :
  distinctKeys envs eps ->
  In env envs -> nth_error (snaplexes env) k = Some s ->
  exists p,
    positions (autoLayout envs eps) !! ("env-" +:+ env_id env) = Some p
    /\ positions (autoLayout envs eps) !! ("snaplex-" +:+ snaplex_id s)
       = Some {| pt_x := pt_x p + 40 + 480 * Z.of_nat k; pt_y := pt_y p + 80 |}.
Proof.
  intros Hd Henv Hk.
  destruct (In_nth_error _ _ Henv) as [m Hm].
  destruct (autoLayout_at envs eps m env Hd Hm) as [Hnd Hat].
  destruct (envBody_place (stateBefore envs m) env m Hnd) as [He Hpl].
  destruct (Hpl k s Hk) as [H1 _].
  eexists. split.
  - rewrite (proj1 (Hat _ (or_introl eq_refl))). exact He.
  - rewrite (proj1 (Hat _ (snaplexKey_in env s (nth_error_In _ _ Hk)))). exact H1.
Qed.

Lemma clusters_side_by_side_witness :
  exists p,
    positions (autoLayout sampleEnvironments sampleEndpoints) !! "env-env-2" = Some p
    /\ positions (autoLayout sampleEnvironments sampleEndpoints) !! "snaplex-c4"
       = Some {| pt_x := pt_x p + 40 + 480 * Z.of_nat 2; pt_y := pt_y p + 80 |}.
Proof.
  apply (clusters_side_by_side sampleEnvironments sampleEndpoints
           (sampleEnvironment "env-2"
              [sampleCluster "c2"
                 ["7"; "8"; "9"; "10"; "11"; "12"; "13"; "14"; "15"; "16"; "17"];
               sampleCluster "c3" []; sampleCluster "c4" ["18"]])
           2 (sampleCluster "c4" ["18"])).
  - exact sample_distinctKeys.
  - right. left. reflexivity.
  - reflexivity.
Defined.

Lemma autoLayout_environment_dimensions envs eps env :
  distinctKeys envs eps -> In env envs ->
  envDimensions (autoLayout envs eps) !! ("env-" +:+ env_id env)
  = Some (environmentDimensions env).
Proof.
  intros Hd Henv. destruct (In_nth_error _ _ Henv) as [m Hm].
  destruct (autoLayout_at envs eps m env Hd Hm) as [_ Hat].
  rewrite (proj2 (Hat _ (or_introl eq_refl))), envBody_dimensions.
  apply lookup_insert_eq.
Qed.

Lemma autoLayout_cluster_dimensions envs eps env s :
  distinctKeys envs eps -> In env envs -> In s (snaplexes env) ->
  envDimensions (autoLayout envs eps) !! ("snaplex-" +:+ snaplex_id s)
  = Some (snaplexDimensions s).
Proof.
  intros Hd Henv Hs. destruct (In_nth_error _ _ Henv) as [m Hm].
  destruct (autoLayout_at envs eps m env Hd Hm) as [Hnd Hat].
  rewrite (proj2 (Hat _ (snaplexKey_in env s Hs))), envBody_dimensions.
  rewrite lookup_insert_ne by apply env_key_ne_snaplex_key.
  apply recordSnaplex_place; [|exact Hs].
  unfold environmentKeys in Hnd. apply List.NoDup_cons_iff in Hnd. tauto.
Qed.

(** X3.  The size recorded for an environment: wide enough for its clusters
    side by side with a margin of 40 on either side, never under 1200; high
    enough for its tallest cluster under an 80 header with 30 to spare,
    never under 500.  An environment without clusters gets exactly
    1200 by 500.  (Keys distinct.) *)
Theorem environment_dimensions (envs : list Environment) (eps : list Endpoint)
    (env : Environment) :
  distinctKeys envs eps -> In env envs ->
  exists d,
    envDimensions (autoLayout envs eps) !! ("env-" +:+ env_id env) = Some d
    /\ dim_width d = Z.max 1200 (480 * Z.of_nat (length (snaplexes env)) + 50)
    /\ dim_height d = Z.max 500 (tallestSnaplex env + 110)
    /\ (snaplexes env = [] -> d = {| dim_width := 1200; dim_height := 500 |}).
Proof.
  intros Hd Henv. exists (environmentDimensions env).
  split; [exact (autoLayout_environment_dimensions envs eps env Hd Henv)|].
  split; [reflexivity|]. split; [reflexivity|].
  intros Hnone. unfold environmentDimensions, tallestSnaplex. rewrite Hnone. reflexivity.
Qed.

Lemma environment_dimensions_witness :
  exists d,
    envDimensions (autoLayout sampleEnvironments sampleEndpoints) !! "env-env-2" = Some d
    /\ dim_width d = Z.max 1200 (480 * Z.of_nat 3 + 50)
    /\ dim_height d
       = Z.max 500
           (tallestSnaplex
              (sampleEnvironment "env-2"
                 [sampleCluster "c2"
                    ["7"; "8"; "9"; "10"; "11"; "12"; "13"; "14"; "15"; "16"; "17"];
                  sampleCluster "c3" []; sampleCluster "c4" ["18"]]) + 110)
    /\ (@nil Snaplex <> [] -> True).
Proof.
  destruct (environment_dimensions sampleEnvironments sampleEndpoints
              (sampleEnvironment "env-2"
                 [sampleCluster "c2"
                    ["7"; "8"; "9"; "10"; "11"; "12"; "13"; "14"; "15"; "16"; "17"];
                  sampleCluster "c3" []; sampleCluster "c4" ["18"]])
              sample_distinctKeys ltac:(right; left; reflexivity))
    as (d & H1 & H2 & H3 & _).
  exists d. repeat split; assumption.
Defined.

Lemma tallest_ge env s : In s (snaplexes env) -> actualSnaplexHeight s <= tallestSnaplex env.
Proof.
  unfold tallestSnaplex. induction (snaplexes env) as [|a l IH]; intros H; [contradiction|].
  simpl. destruct H as [->|H]; [lia|]. specialize (IH H). lia.
Qed.

Lemma node_row_fits s i :
  (i < length (nodes (container s)))%nat ->
  300 + 70 * (Z.of_nat i / 5) <= actualSnaplexHeight s.
Proof.
  intros Hi. unfold actualSnaplexHeight, SNAPLEX_HEIGHT. rewrite nodeRows_eq.
  set (c := Z.of_nat (length (nodes (container s)))).
  assert (Hc : Z.of_nat i < c) by (unfold c; lia).
  assert (Hrow : Z.of_nat i / 5 <= (c + 4) / 5 - 1) by divmod.
  destruct (1 <? (c + 4) / 5) eqn:E; [apply Z.ltb_lt in E|apply Z.ltb_ge in E]; lia.
Qed.

(** X4.  Nesting.  Every cluster's box lies inside its environment's box,
    at least 40 from the left and right edges, 80 under the top edge and 30
    over the bottom edge; and every node's position lies inside its
    cluster's box, in the band that starts 50 from the left and 220 from the
    top and leaves 120 to the right of and 80 under the position.  (Keys
    distinct.) *)
Theorem boxes_are_nested (envs : list Environment) (eps : list Endpoint)
    (env : Environment) (s : Snaplex) :
  distinctKeys envs eps -> In env envs -> In s (snaplexes env) ->
  let P := positions (autoLayout envs eps) in
  let D := envDimensions (autoLayout envs eps) in
  exists pe de ps ds,
    P !! ("env-" +:+ env_id env) = Some pe
    /\ D !! ("env-" +:+ env_id env) = Some de
    /\ P !! ("snaplex-" +:+ snaplex_id s) = Some ps
    /\ D !! ("snaplex-" +:+ snaplex_id s) = Some ds
    /\ pt_x pe + 40 <= pt_x ps
    /\ pt_x ps + dim_width ds + 40 <= pt_x pe + dim_width de
    /\ pt_y pe + 80 = pt_y ps
    /\ pt_y ps + dim_height ds + 30 <= pt_y pe + dim_height de
    /\ forall n, In n (nodes (container s)) ->
         exists pn,
           P !! ("node-" +:+ node_id n) = Some pn
           /\ pt_x ps + 50 <= pt_x pn /\ pt_x pn + 120 <= pt_x ps + dim_width ds
           /\ pt_y ps + 220 <= pt_y pn /\ pt_y pn + 80 <= pt_y ps + dim_height ds.
Proof.
  intros Hd Henv Hs P D. subst P D.
  destruct (In_nth_error _ _ Henv) as [m Hm].
  destruct (In_nth_error _ _ Hs) as [k Hk].
  destruct (autoLayout_at envs eps m env Hd Hm) as [Hnd Hat].
  destruct (envBody_place (stateBefore envs m) env m Hnd) as [He Hpl].
  destruct (Hpl k s Hk) as [H1 H2].
  pose proof (nth_error_le _ _ _ Hk) as Hlt.
  pose proof (tallest_ge env s Hs) as Htall.
  exists {| pt_x := currentX (stateBefore envs m); pt_y := currentY (stateBefore envs m) |},
         (environmentDimensions env),
         {| pt_x := currentX (stateBefore envs m) + 40 + 480 * Z.of_nat k;
            pt_y := currentY (stateBefore envs m) + 80 |},
         (snaplexDimensions s).
  split; [rewrite (proj1 (Hat _ (or_introl eq_refl))); exact He|].
  split; [exact (autoLayout_environment_dimensions envs eps env Hd Henv)|].
  split; [rewrite (proj1 (Hat _ (snaplexKey_in env s Hs))); exact H1|].
  split; [exact (autoLayout_cluster_dimensions envs eps env s Hd Henv Hs)|].
  unfold environmentDimensions, snaplexDimensions, SNAPLEX_WIDTH. cbn [pt_x pt_y dim_width dim_height].
  split; [lia|]. split; [lia|]. split; [reflexivity|]. split; [lia|].
  intros n Hn. destruct (In_nth_error _ _ Hn) as [i Hi].
  exists (gridPoint (currentX (stateBefore envs m) + 40 + 480 * Z.of_nat k)
            (currentY (stateBefore envs m) + 80) i).
  split; [rewrite (proj1 (Hat _ (nodeKey_in env s n Hs Hn))); exact (H2 i n Hi)|].
  pose proof (node_row_fits s i (nth_error_le _ _ _ Hi)) as Hrow.
  unfold gridPoint. cbn [pt_x pt_y].
  assert (Hcol : 0 <= Z.of_nat i mod 5 < 5) by (apply Z.mod_pos_bound; lia).
  assert (Hdiv : 0 <= Z.of_nat i / 5) by (apply Z.div_pos; lia).
  repeat split; lia.
Qed.

Lemma boxes_are_nested_witness :
  exists pe de ps ds,
    positions (autoLayout sampleEnvironments sampleEndpoints) !! "env-env-2" = Some pe
    /\ envDimensions (autoLayout sampleEnvironments sampleEndpoints) !! "env-env-2" = Some de
    /\ positions (autoLayout sampleEnvironments sampleEndpoints) !! "snaplex-c2" = Some ps
    /\ envDimensions (autoLayout sampleEnvironments sampleEndpoints) !! "snaplex-c2" = Some ds
    /\ pt_x ps + dim_width ds + 40 <= pt_x pe + dim_width de
    /\ pt_y ps + dim_height ds + 30 <= pt_y pe + dim_height de.
Proof.
  destruct (boxes_are_nested sampleEnvironments sampleEndpoints
              (sampleEnvironment "env-2"
                 [sampleCluster "c2"
                    ["7"; "8"; "9"; "10"; "11"; "12"; "13"; "14"; "15"; "16"; "17"];
                  sampleCluster "c3" []; sampleCluster "c4" ["18"]])
              (sampleCluster "c2"
                 ["7"; "8"; "9"; "10"; "11"; "12"; "13"; "14"; "15"; "16"; "17"])
              sample_distinctKeys ltac:(right; left; reflexivity) ltac:(left; reflexivity))
    as (pe & de & ps & ds & H1 & H2 & H3 & H4 & _ & H6 & _ & H8 & _).
  exists pe, de, ps, ds. repeat split; assumption.
Defined.

(** X5.  Environments go two to a row.  The first one is at (50, 50); the
    second of a row stands 50 to the right of the first one's recorded
    right edge, at the same height; the row after starts at x = 50, 100
    under the taller of the two.  (Keys distinct.) *)
Theorem environments_two_per_row (envs : list Environment) (eps : list Endpoint) :
  distinctKeys envs eps ->
  let P := positions (autoLayout envs eps) in
  let D := envDimensions (autoLayout envs eps) in
  (forall e, nth_error envs 0 = Some e ->
     P !! ("env-" +:+ env_id e) = Some {| pt_x := 50; pt_y := 50 |})
  /\ (forall r e1 e2,
        nth_error envs (2 * r) = Some e1 -> nth_error envs (2 * r + 1) = Some e2 ->
        exists y d1 d2,
          P !! ("env-" +:+ env_id e1) = Some {| pt_x := 50; pt_y := y |}
          /\ D !! ("env-" +:+ env_id e1) = Some d1
          /\ D !! ("env-" +:+ env_id e2) = Some d2
          /\ P !! ("env-" +:+ env_id e2)
             = Some {| pt_x := 50 + dim_width d1 + 50; pt_y := y |}
          /\ forall e3, nth_error envs (2 * r + 2) = Some e3 ->
               P !! ("env-" +:+ env_id e3)
               = Some {| pt_x := 50;
                         pt_y := y + Z.max (dim_height d1) (dim_height d2) + 100 |}).
Proof.
  intros Hd P D. subst P D.
  assert (Hpos : forall m e, nth_error envs m = Some e ->
            positions (autoLayout envs eps) !! ("env-" +:+ env_id e)
            = Some {| pt_x := currentX (stateBefore envs m);
                      pt_y := currentY (stateBefore envs m) |}).
  { intros m e Hm. destruct (autoLayout_at envs eps m e Hd Hm) as [Hnd Hat].
    rewrite (proj1 (Hat _ (or_introl eq_refl))).
    exact (proj1 (envBody_place (stateBefore envs m) e m Hnd)). }
  split.
  - intros e He. rewrite (Hpos 0%nat e He). reflexivity.
  - intros r e1 e2 H1 H2.
    pose proof (stateBefore_row_inv envs (2 * r)
                  (Nat.lt_le_incl _ _ (nth_error_le _ _ _ H1))) as (HY & Hnn & Heven).
    destruct Heven as [HX HM]; [divmod|].
    destruct (envBody_state (stateBefore envs (2 * r)) e1 (2 * r))
      as (HX1 & HY1 & HR1 & HM1).
    rewrite <- (stateBefore_S envs (2 * r) e1 H1) in HX1, HY1, HR1, HM1.
    assert (E1 : ((Z.of_nat (2 * r) + 1) mod 2 =? 0) = false)
      by (apply Z.eqb_neq; divmod).
    rewrite E1 in HX1, HY1, HR1, HM1.
    replace (S (2 * r)) with (2 * r + 1)%nat in HX1, HY1, HR1, HM1 by lia.
    exists (currentY (stateBefore envs (2 * r))),
           (environmentDimensions e1), (environmentDimensions e2).
    split; [rewrite (Hpos _ _ H1), HX; reflexivity|].
    split; [apply (autoLayout_environment_dimensions envs eps e1 Hd),
              (nth_error_In _ _ H1)|].
    split; [apply (autoLayout_environment_dimensions envs eps e2 Hd),
              (nth_error_In _ _ H2)|].
    split.
    + rewrite (Hpos _ _ H2), HX1, HY1, HX. f_equal. f_equal. lia.
    + intros e3 H3.
      destruct (envBody_state (stateBefore envs (2 * r + 1)) e2 (2 * r + 1))
        as (HX2 & HY2 & _ & _).
      rewrite <- (stateBefore_S envs (2 * r + 1) e2 H2) in HX2, HY2.
      assert (E2 : ((Z.of_nat (2 * r + 1) + 1) mod 2 =? 0) = true)
        by (apply Z.eqb_eq; divmod).
      rewrite E2 in HX2, HY2.
      replace (S (2 * r + 1)) with (2 * r + 2)%nat in HX2, HY2 by lia.
      rewrite (Hpos _ _ H3), HX2, HY2, HR1, HM1, HM, <- HY.
      pose proof (Z.le_max_l 500 (tallestSnaplex e1 + 110)) as Hh.
      f_equal. f_equal. unfold environmentDimensions at 1 3. cbn [dim_height]. lia.
Qed.

Lemma environments_two_per_row_witness :
  positions (autoLayout sampleEnvironments sampleEndpoints) !! "env-env-1"
  = Some {| pt_x := 50; pt_y := 50 |}.
Proof.
  apply (proj1 (environments_two_per_row sampleEnvironments sampleEndpoints
                  sample_distinctKeys) scenarioEnvironment).
  reflexivity.
Defined.

(** X6.  The endpoints stand in one row, 200 apart from x = 50, and the row
    lies under every environment: at least 150 under its recorded bottom
    edge.  (Keys distinct.) *)
Theorem endpoints_below_environments (envs : list Environment) (eps : list Endpoint) :
  distinctKeys envs eps ->
  let P := positions (autoLayout envs eps) in
  let D := envDimensions (autoLayout envs eps) in
  exists y,
    (forall i ep, nth_error eps i = Some ep ->
       P !! ("endpoint-" +:+ endpoint_id ep)
       = Some {| pt_x := 50 + 200 * Z.of_nat i; pt_y := y |})
    /\ (forall env p d, In env envs ->
          P !! ("env-" +:+ env_id env) = Some p ->
          D !! ("env-" +:+ env_id env) = Some d ->
          pt_y p + dim_height d + 150 <= y).
Proof.
  intros Hd P D. subst P D.
  exists (nextRowY (length envs) (forEach envBody envs layoutStart) + 50).
  split.
  - intros i ep Hi. unfold distinctKeys, layoutKeys in Hd.
    apply NoDup_app_parts in Hd as (_ & Hnd & _).
    unfold autoLayout. cbn [positions]. unfold forEach at 1.
    rewrite (endpointLoop_place _ eps 0 _ Hnd i ep Hi). reflexivity.
  - intros env p d Henv Hp Hdim.
    destruct (In_nth_error _ _ Henv) as [m Hm].
    destruct (autoLayout_at envs eps m env Hd Hm) as [Hnd Hat].
    rewrite (proj1 (Hat _ (or_introl eq_refl))),
      (proj1 (envBody_place (stateBefore envs m) env m Hnd)) in Hp.
    rewrite (autoLayout_environment_dimensions envs eps env Hd Henv) in Hdim.
    injection Hp as <-. injection Hdim as <-. cbn [pt_y].
    pose proof (stateBefore_row_inv envs m
                  (Nat.lt_le_incl _ _ (nth_error_le _ _ _ Hm))) as Hinv.
    destruct (nextRowY_step m (stateBefore envs m) env Hinv) as [_ Hstep].
    rewrite <- (stateBefore_S envs m env Hm) in Hstep.
    assert (Hmono : nextRowY (S m) (stateBefore envs (S m))
                    <= nextRowY (length envs) (forEach envBody envs layoutStart)).
    { pose proof (nth_error_le _ _ _ Hm) as Hlt.
      assert (Hlen : length (firstn (S m) envs) = S m)
        by (apply firstn_length_le; exact Hlt).
      assert (Hall : forEach envBody envs layoutStart
                     = forEach_from envBody (skipn (S m) envs) (S m)
                         (stateBefore envs (S m))).
      { unfold stateBefore, forEach.
        rewrite <- (firstn_skipn (S m) envs) at 1.
        rewrite forEach_from_app, Hlen. reflexivity. }
      assert (Hcount : length envs = (S m + length (skipn (S m) envs))%nat)
        by (rewrite length_skipn; lia).
      rewrite Hall, Hcount.
      exact (nextRowY_mono (skipn (S m) envs) (S m) (stateBefore envs (S m))
               (stateBefore_row_inv envs (S m) Hlt)). }
    lia.
Qed.

Lemma endpoints_below_environments_witness :
  exists y,
    positions (autoLayout sampleEnvironments sampleEndpoints) !! "endpoint-e2"
    = Some {| pt_x := 50 + 200 * Z.of_nat 1; pt_y := y |}.
Proof.
  destruct (endpoints_below_environments sampleEnvironments sampleEndpoints
              sample_distinctKeys) as (y & H & _).
  exists y. apply (H 1%nat (sampleEndpoint "e2")). reflexivity.
Defined.

(** ** The diagram of the basic strategy, for every store *)

Lemma typeCount_app g l1 l2 : typeCount g (l1 ++ l2) = (typeCount g l1 + typeCount g l2)%nat.
Proof. unfold typeCount. rewrite List.filter_app, length_app. reflexivity. Qed.

Lemma typeCount_nodes g l :
  typeCount g (flat_map nodeSummary l)
  = ((Nat.b2n (g "ellipse") + Nat.b2n (g "text")) * length l)%nat.
Proof.
  induction l as [|n l IH]; [unfold typeCount; simpl; lia|].
  change (flat_map nodeSummary (n :: l)) with (nodeSummary n ++ flat_map nodeSummary l).
  rewrite typeCount_app, IH. unfold typeCount, nodeSummary. simpl.
  destruct (g "ellipse"), (g "text"); simpl; lia.
Qed.

Lemma typeCount_snaplexes g l :
  typeCount g (flat_map snaplexSummary l)
  = ((2 * Nat.b2n (g "rectangle") + Nat.b2n (g "text")) * length l
     + (Nat.b2n (g "ellipse") + Nat.b2n (g "text"))
       * length (flat_map (fun s => nodes (container s)) l))%nat.
Proof.
  induction l as [|s l IH]; [unfold typeCount; simpl; lia|].
  change (flat_map snaplexSummary (s :: l))
    with (snaplexSummary s ++ flat_map snaplexSummary l).
  change (flat_map (fun s => nodes (container s)) (s :: l))
    with (nodes (container s) ++ flat_map (fun s => nodes (container s)) l).
  rewrite typeCount_app, IH, length_app. unfold snaplexSummary.
  rewrite typeCount_app, typeCount_nodes. unfold typeCount at 1. simpl.
  destruct (g "rectangle"), (g "text"); simpl; lia.
Qed.

Lemma typeCount_environments g l :
  typeCount g (flat_map environmentSummary l)
  = ((Nat.b2n (g "rectangle") + Nat.b2n (g "text")) * length l
     + (2 * Nat.b2n (g "rectangle") + Nat.b2n (g "text"))
       * length (flat_map snaplexes l)
     + (Nat.b2n (g "ellipse") + Nat.b2n (g "text"))
       * length (flat_map (fun s => nodes (container s)) (flat_map snaplexes l)))%nat.
Proof.
  induction l as [|e l IH]; [unfold typeCount; simpl; lia|].
  change (flat_map environmentSummary (e :: l))
    with (environmentSummary e ++ flat_map environmentSummary l).
  change (flat_map snaplexes (e :: l)) with (snaplexes e ++ flat_map snaplexes l).
  rewrite typeCount_app, IH, flat_map_app, !length_app. unfold environmentSummary.
  rewrite typeCount_app, typeCount_snaplexes. unfold typeCount at 1. simpl.
  destruct (g "rectangle"), (g "text"); simpl; lia.
Qed.

Lemma typeCount_endpoints g l :
  typeCount g (flat_map endpointSummary l)
  = ((Nat.b2n (g "diamond") + Nat.b2n (g "text")) * length l)%nat.
Proof.
  induction l as [|n l IH]; [unfold typeCount; simpl; lia|].
  change (flat_map endpointSummary (n :: l))
    with (endpointSummary n ++ flat_map endpointSummary l).
  rewrite typeCount_app, IH. unfold typeCount, endpointSummary. simpl.
  destruct (g "diamond"), (g "text"); simpl; lia.
Qed.

Lemma typeCount_connections g l :
  typeCount g (flat_map connectionSummary l) = (Nat.b2n (g "arrow") * length l)%nat.
Proof.
  induction l as [|n l IH]; [unfold typeCount; simpl; lia|].
  change (flat_map connectionSummary (n :: l))
    with (connectionSummary n ++ flat_map connectionSummary l).
  rewrite typeCount_app, IH. unfold typeCount, connectionSummary. simpl.
  destruct (g "arrow"); simpl; lia.
Qed.

Lemma typeCount_all l : typeCount (fun _ => true) l = length l.
Proof.
  unfold typeCount. induction l as [|a l IH]; simpl; [reflexivity|].
  rewrite IH. reflexivity.
Qed.

(** X7.  With the library not loaded, the diagram of any store is drawn and
    holds two elements per environment, three per cluster, two per node,
    two per endpoint and one per connection: a circle per node, a diamond
    per endpoint, an arrow per connection, a rectangle per environment and
    two per cluster, a text per environment, cluster, node and endpoint;
    and no indicator badge. *)
Theorem basic_diagram_census (w : World) :
  isLoaded (libraryLoader w) = false ->
  let store := architecture w in
  let E := length (environments store) in
  let S := length (allSnaplexes store) in
  let N := length (allNodes store) in
  let P := length (endpoints store) in
  let C := length (connections store) in
  exists elements w',
    generateExcalidrawElements libraryLoaderProvider w = (Returned elements, w')
    /\ length elements = (2 * E + 3 * S + 2 * N + 2 * P + C)%nat
    /\ countType "ellipse" elements = N
    /\ countType "diamond" elements = P
    /\ countType "arrow" elements = C
    /\ countType "rectangle" elements = (E + 2 * S)%nat
    /\ countType "text" elements = (E + S + N + P)%nat
    /\ indicatorBadges elements = [].
Proof.
  intros Hw store E S N P C.
  destruct (generateExcalidrawElements_basic w Hw) as (elements & w' & Hrun & Hsum & Hb).
  exists elements, w'. split; [exact Hrun|].
  assert (Hcount : forall g,
            typeCount g (map summary elements)
            = ((Nat.b2n (g "rectangle") + Nat.b2n (g "text")) * E
               + (2 * Nat.b2n (g "rectangle") + Nat.b2n (g "text")) * S
               + (Nat.b2n (g "ellipse") + Nat.b2n (g "text")) * N
               + (Nat.b2n (g "diamond") + Nat.b2n (g "text")) * P
               + Nat.b2n (g "arrow") * C)%nat).
  { intros g. rewrite Hsum, !typeCount_app, typeCount_environments,
      typeCount_endpoints, typeCount_connections, !Nat.add_assoc. reflexivity. }
  split.
  { rewrite <- (length_map summary), <- typeCount_all, Hcount. simpl. lia. }
  assert (Hty : forall t, countType t elements
                          = typeCount (fun s => String.eqb s t) (map summary elements)).
  { intros t. apply countType_summary. }
  rewrite !Hty, !Hcount. simpl. repeat split; try lia. exact Hb.
Qed.

Lemma basic_diagram_census_witness :
  exists elements w',
    generateExcalidrawElements libraryLoaderProvider scenarioWorld = (Returned elements, w')
    /\ length elements = 17%nat.
Proof.
  destruct (basic_diagram_census scenarioWorld eq_refl)
    as (elements & w' & Hrun & Hlen & _).
  exists elements, w'. split; [exact Hrun | exact Hlen].
Defined.

(** ** generateIndex *)

Lemma generateIndex_run w :
  generateIndex w = (Returned (indexAt (indexCounter w)),
                     set_indexCounter (S (indexCounter w)) w).
Proof. reflexivity. Qed.

Lemma noV_uint d : noChar "V" (NilEmpty.string_of_uint d) = true.
Proof. induction d; simpl; auto. Qed.

Lemma nat_toString_inj a b : nat_toString a = nat_toString b -> a = b.
Proof.
  unfold nat_toString. intros H.
  assert (Hu : Nat.to_uint a = Nat.to_uint b).
  { pose proof (NilEmpty.usu (Nat.to_uint a)) as Ha.
    pose proof (NilEmpty.usu (Nat.to_uint b)) as Hb.
    rewrite H in Ha. rewrite Ha in Hb. injection Hb as Hb. exact Hb. }
  rewrite <- (DecimalNat.Unsigned.of_to a), <- (DecimalNat.Unsigned.of_to b), Hu.
  reflexivity.
Qed.

Lemma append_empty_r (s : string) : s +:+ "" = s.
Proof.
  induction s as [|c s IH]; [reflexivity|].
  change (String c s +:+ "") with (String c (s +:+ "")). rewrite IH. reflexivity.
Qed.

Lemma char_split c s1 : forall s2 r1 r2,
  noChar c s1 = true -> noChar c s2 = true ->
  s1 +:+ String c r1 = s2 +:+ String c r2 -> s1 = s2 /\ r1 = r2.
Proof.
  induction s1 as [|a s1 IH]; intros [|b s2] r1 r2 H1 H2 H; simpl in *.
  - injection H as H. split; [reflexivity|exact H].
  - injection H as Hc _. subst b. rewrite Ascii.eqb_refl in H2. discriminate H2.
  - injection H as Hc _. subst a. rewrite Ascii.eqb_refl in H1. discriminate H1.
  - injection H as Hc H. subst b.
    apply andb_prop in H1 as [_ H1]. apply andb_prop in H2 as [_ H2].
    destruct (IH s2 r1 r2 H1 H2 H) as [-> ->]. split; reflexivity.
Qed.

Lemma indexAt_inj a b : indexAt a = indexAt b -> a = b.
Proof.
  unfold indexAt. intros H. apply prefixed_inj in H.
  pose proof (Nat.div_mod_eq a 2) as Ha. pose proof (Nat.div_mod_eq b 2) as Hb.
  pose proof (Nat.mod_upper_bound a 2 ltac:(lia)) as Ha2.
  pose proof (Nat.mod_upper_bound b 2 ltac:(lia)) as Hb2.
  destruct (Nat.eqb (a mod 2) 0) eqn:Ea;
    [apply Nat.eqb_eq in Ea|apply Nat.eqb_neq in Ea];
    (destruct (Nat.eqb (b mod 2) 0) eqn:Eb;
     [apply Nat.eqb_eq in Eb|apply Nat.eqb_neq in Eb]);
    cbv iota in H.
  - change "V" with (String "V" "") in H.
    apply char_split in H as [H _]; [|apply noV_uint|apply noV_uint].
    apply nat_toString_inj in H. lia.
  - exfalso. rewrite append_empty_r in H.
    pose proof (noV_uint (Nat.to_uint (b / 2))) as Hn.
    unfold nat_toString in H. rewrite <- H, noChar_app in Hn.
    simpl in Hn. rewrite andb_false_r in Hn. discriminate Hn.
  - exfalso. rewrite append_empty_r in H.
    pose proof (noV_uint (Nat.to_uint (a / 2))) as Hn.
    unfold nat_toString in H. rewrite H, noChar_app in Hn.
    simpl in Hn. rewrite andb_false_r in Hn. discriminate Hn.
  - rewrite !append_empty_r in H. apply nat_toString_inj in H. lia.
Qed.

Lemma startsWith_append p s : startsWith p (p +:+ s) = true.
Proof.
  induction p as [|c p IH]; simpl; [reflexivity|].
  rewrite Ascii.eqb_refl. exact IH.
Qed.

(** X8.  generateIndex never returns the same index twice: a call advances
    the counter by one and touches nothing else, and two calls that return
    the same index were made at the same counter. *)
Theorem generateIndex_never_repeats :
  (forall w, exists i,
     generateIndex w = (Returned i, set_indexCounter (S (indexCounter w)) w))
  /\ (forall w1 w2,
        fst (generateIndex w1) = fst (generateIndex w2) ->
        indexCounter w1 = indexCounter w2).
Proof.
  split.
  - intros w. eexists. apply generateIndex_run.
  - intros w1 w2. rewrite !generateIndex_run. cbn [fst]. intros H.
    apply indexAt_inj. congruence.
Qed.

(** X9.  The indices generateIndex returns are not in ascending order: the
    index drawn at an even counter 2k is a, k, V, and the next one is a, k,
    a proper prefix of it, which sorts before it. *)
Theorem generateIndex_not_ascending (w : World) (k : nat) :
  indexCounter w = (2 * k)%nat ->
  exists i1 w1 i2 w2,
    generateIndex w = (Returned i1, w1)
    /\ generateIndex w1 = (Returned i2, w2)
    /\ i1 = i2 +:+ "V"
    /\ startsWith i2 i1 = true /\ i1 <> i2.
Proof.
  intros Hc. exists (indexAt (2 * k)), (set_indexCounter (S (2 * k)) w),
    (indexAt (S (2 * k))), (set_indexCounter (S (S (2 * k))) (set_indexCounter (S (2 * k)) w)).
  assert (H1 : indexAt (2 * k) = indexAt (S (2 * k)) +:+ "V").
  { unfold indexAt.
    replace ((2 * k) mod 2)%nat with 0%nat
      by (symmetry; rewrite Nat.mul_comm; apply Nat.Div0.mod_mul).
    replace (S (2 * k) mod 2)%nat with 1%nat.
    2:{ symmetry. replace (S (2 * k)) with (1 + k * 2)%nat by lia.
        rewrite Nat.Div0.mod_add. reflexivity. }
    replace (S (2 * k) / 2)%nat with k.
    2:{ symmetry. replace (S (2 * k)) with (1 + k * 2)%nat by lia.
        rewrite Nat.div_add by lia. reflexivity. }
    replace ((2 * k) / 2)%nat with k
      by (symmetry; rewrite Nat.mul_comm; apply Nat.div_mul; lia).
    simpl. rewrite append_empty_r. reflexivity. }
  split; [rewrite generateIndex_run, Hc; reflexivity|].
  split; [rewrite generateIndex_run; reflexivity|].
  split; [exact H1|]. split.
  - rewrite H1. apply startsWith_append.
  - intros H. apply indexAt_inj in H. lia.
Qed.

Lemma generateIndex_not_ascending_witness :
  exists i1 w1 i2 w2,
    generateIndex (set_indexCounter 2 basicWorld) = (Returned i1, w1)
    /\ generateIndex w1 = (Returned i2, w2)
    /\ i1 = i2 +:+ "V"
    /\ startsWith i2 i1 = true /\ i1 <> i2.
Proof.
  apply (generateIndex_not_ascending (set_indexCounter 2 basicWorld) 1). reflexivity.
Defined.

(** ** The shape cache, continued *)

(** X10.  A request to getShape always returns, and asking again at once
    returns the very same bundle, ids included, and changes nothing: neither
    the cache nor the random source. *)
Theorem cached_shape_is_served_again (type : SnapLogicShapeType) (x y : Z) (w : World) :
  exists elements w',
    LibraryLoaderService.getShape type x y w = (Returned elements, w')
    /\ LibraryLoaderService.getShape type x y w' = (Returned elements, w').
Proof.
  destruct (isLoaded (libraryLoader w)) eqn:Hl.
  - destruct (libraryCache (libraryLoader w) !! LibraryLoaderService.cacheKey type x y)
      as [cached|] eqn:Hc.
    + exists cached, w. split; apply getShape_hit; assumption.
    + destruct (getShape_miss type x y w Hl Hc) as (clones & w1 & _ & _ & Hk & Hrun).
      eexists _, _. split; [exact Hrun|].
      destruct Hk as (_ & Hlo & _).
      apply getShape_hit.
      * simpl. rewrite Hlo. exact Hl.
      * simpl. apply lookup_insert_eq.
  - exists [], w. split; apply getShape_unloaded; exact Hl.
Qed.

(** X11.  Requests do not interfere: serving one request leaves the cached
    bundle of every other request, whether another shape or another
    position, as it was. *)
Theorem requests_do_not_interfere (type type' : SnapLogicShapeType) (x y x' y' : Z)
    (w : World) :
  (type, x, y) <> (type', x', y') ->
  libraryCache (libraryLoader (snd (LibraryLoaderService.getShape type x y w)))
    !! LibraryLoaderService.cacheKey type' x' y'
  = libraryCache (libraryLoader w) !! LibraryLoaderService.cacheKey type' x' y'.
Proof.
  intros Hne.
  destruct (isLoaded (libraryLoader w)) eqn:Hl.
  - destruct (libraryCache (libraryLoader w) !! LibraryLoaderService.cacheKey type x y)
      as [cached|] eqn:Hc.
    + rewrite (getShape_hit type x y w cached Hl Hc). reflexivity.
    + destruct (getShape_miss type x y w Hl Hc) as (clones & w1 & _ & _ & Hk & ->).
      destruct Hk as (_ & Hlo & _). simpl. rewrite Hlo.
      apply lookup_insert_ne. intros Hkey.
      apply cacheKey_inj in Hkey as (-> & -> & ->). apply Hne. reflexivity.
  - rewrite (getShape_unloaded type x y w Hl). reflexivity.
Qed.

Lemma requests_do_not_interfere_witness :
  libraryCache (libraryLoader (snd (LibraryLoaderService.getShape CLOUDPLEX 1 (-2) libraryWorld)))
    !! LibraryLoaderService.cacheKey CLOUDPLEX (-1) 2
  = libraryCache (libraryLoader libraryWorld) !! LibraryLoaderService.cacheKey CLOUDPLEX (-1) 2.
Proof.
  apply (requests_do_not_interfere CLOUDPLEX CLOUDPLEX 1 (-2) (-1) 2 libraryWorld).
  discriminate.
Defined.

(** X12.  The library manager's loadLibrary does not invalidate the shape
    cache of the loader: a bundle cached before a new library is loaded,
    the empty bundle of a shape the old library lacked included, is still
    what getShape returns afterwards. *)
Theorem loadLibrary_keeps_cache (lib : ExcalidrawLibrary) (type : SnapLogicShapeType)
    (x y : Z) (w : World) (elements : list ExcalidrawElement) :
  isLoaded (libraryLoader w) = true ->
  lib_type lib = "excalidrawlib" ->
  (libraryCache (libraryLoader w) !! LibraryLoaderService.cacheKey type x y = Some elements ->
   (run loadLibrary lib; LibraryLoaderService.getShape type x y) w
   = (Returned elements,
      set_libraryManager {| libraryItems := indexLibraryItems (lib_libraryItems lib) |} w))
  /\ (libraryCache (libraryLoader w) !! LibraryLoaderService.cacheKey type x y = None ->
      libraryItems (libraryManager w) !! SnapLogicShapeType_value type = None ->
      exists w1,
        LibraryLoaderService.getShape type x y w = (Returned [], w1)
        /\ (run loadLibrary lib; LibraryLoaderService.getShape type x y) w1
           = (Returned [],
              set_libraryManager
                {| libraryItems := indexLibraryItems (lib_libraryItems lib) |} w1)).
Proof.
  intros Hl Hty.
  assert (Hload : forall w0, loadLibrary lib w0
            = (Returned tt,
               set_libraryManager
                 {| libraryItems := indexLibraryItems (lib_libraryItems lib) |} w0)).
  { intros w0. unfold loadLibrary. rewrite Hty. reflexivity. }
  split.
  - intros Hc. unfold bind. rewrite Hload.
    apply getShape_hit; simpl; assumption.
  - intros Hc Hnone.
    destruct (getShape_miss type x y w Hl Hc) as (clones & w1 & Hclone & _ & Hk & Hrun).
    assert (Hempty : clones = [] /\ w1 = w).
    { unfold LibraryManager.cloneLibraryItem, LibraryManager.getShape in Hclone.
      unfold bind, gets in Hclone. rewrite Hnone in Hclone.
      injection Hclone as <- <-. split; reflexivity. }
    destruct Hempty as [-> ->].
    eexists. split; [exact Hrun|].
    unfold bind. rewrite Hload. apply getShape_hit; simpl.
    + exact Hl.
    + apply lookup_insert_eq.
Qed.

Lemma loadLibrary_keeps_cache_witness :
  exists w1,
    LibraryLoaderService.getShape JCC_NODE 0 0 libraryWorld = (Returned [], w1)
    /\ (run loadLibrary
              {| lib_type := "excalidrawlib"; lib_version := 2;
                 lib_libraryItems :=
                   [{| item_id := "item-2"; item_name := Some "JCC Node";
                       item_elements := [libraryElement 0 0] |}] |};
        LibraryLoaderService.getShape JCC_NODE 0 0) w1
       = (Returned [],
          set_libraryManager
            {| libraryItems :=
                 indexLibraryItems
                   [{| item_id := "item-2"; item_name := Some "JCC Node";
                       item_elements := [libraryElement 0 0] |}] |} w1).
Proof.
  apply (proj2 (loadLibrary_keeps_cache
                  {| lib_type := "excalidrawlib"; lib_version := 2;
                     lib_libraryItems :=
                       [{| item_id := "item-2"; item_name := Some "JCC Node";
                           item_elements := [libraryElement 0 0] |}] |}
                  JCC_NODE 0 0 libraryWorld [] eq_refl eq_refl)); reflexivity.
Defined.

(** X13.  clearCache is the remedy: whatever the cache held, the first
    request after clearCache is served from the library manager's current
    items (up to the fields cloning draws afresh), and the loaded flag is
    untouched. *)
Theorem clearCache_serves_current_library (type : SnapLogicShapeType) (x y : Z)
    (w : World) :
  exists elements w',
    (run clearCache; LibraryLoaderService.getShape type x y) w = (Returned elements, w')
    /\ map blank elements
       = (if isLoaded (libraryLoader w)
          then clonedGeometry (libraryItems (libraryManager w)) type x y else [])
    /\ isLoaded (libraryLoader w') = isLoaded (libraryLoader w)
    /\ libraryManager w' = libraryManager w.
Proof.
  unfold bind at 1. unfold clearCache, modify.
  destruct (getShape_runs type x y (LibraryLoaderService.set_libraryCache ∅ w))
    as (elements & w' & Hrun & Hb & _ & Hm & Hl).
  { apply cache_sound_empty. reflexivity. }
  exists elements, w'. split; [exact Hrun|]. split; [exact Hb|]. split; assumption.
Qed.

(** ** The library index *)

Lemma matchShapeType_not_zone name : matchShapeType name <> Some ZONE.
Proof.
  unfold matchShapeType.
  repeat match goal with |- context [if ?b then _ else _] => destruct b end;
    discriminate.
Qed.

Lemma shape_eqb_eq t t' :
  String.eqb (SnapLogicShapeType_value t') (SnapLogicShapeType_value t) = true <-> t' = t.
Proof.
  split.
  - intros H. apply String.eqb_eq in H. exact (SnapLogicShapeType_value_inj _ _ H).
  - intros ->. apply String.eqb_refl.
Qed.

Lemma indexLoop_lookup items : forall acc t,
  fold_left indexBody items acc !! SnapLogicShapeType_value t
  = match acc !! SnapLogicShapeType_value t with
    | Some item => Some item
    | None => List.find (matchesType t) items
    end.
Proof.
  induction items as [|item items IH]; intros acc t; simpl.
  - destruct (acc !! SnapLogicShapeType_value t); reflexivity.
  - rewrite IH. unfold indexBody, matchesType.
    destruct (matchShapeType (loweredName item)) as [t'|].
    + destruct (String.eqb (SnapLogicShapeType_value t') (SnapLogicShapeType_value t)) eqn:E.
      * apply shape_eqb_eq in E. subst t'.
        destruct (acc !! SnapLogicShapeType_value t) as [old|] eqn:Hacc.
        -- rewrite Hacc. reflexivity.
        -- rewrite lookup_insert_eq. reflexivity.
      * assert (Hne : SnapLogicShapeType_value t' <> SnapLogicShapeType_value t).
        { intros H. apply String.eqb_eq in H. rewrite H in E. discriminate E. }
        destruct (acc !! SnapLogicShapeType_value t') as [old|].
        -- reflexivity.
        -- rewrite lookup_insert_ne by exact Hne. reflexivity.
    + reflexivity.
Qed.

Lemma index_first_match_lookup items t :
  indexLibraryItems items !! SnapLogicShapeType_value t = List.find (matchesType t) items.
Proof.
  unfold indexLibraryItems. rewrite indexLoop_lookup, lookup_empty. reflexivity.
Qed.

(** X14.  The index keeps, for every shape type, the first item of the
    library (in file order) whose lowered name matches the type, and nothing
    when no item matches: later matches never replace an earlier one. *)
Theorem index_keeps_first_match (items : list LibraryItem) (t : SnapLogicShapeType) :
  indexLibraryItems items !! SnapLogicShapeType_value t = List.find (matchesType t) items
  /\ (forall before item after,
        items = before ++ item :: after ->
        matchesType t item = true ->
        Forall (fun i => matchesType t i = false) before ->
        indexLibraryItems items !! SnapLogicShapeType_value t = Some item)
  /\ (Forall (fun i => matchesType t i = false) items ->
      indexLibraryItems items !! SnapLogicShapeType_value t = None).
Proof.
  split; [apply index_first_match_lookup|]. split.
  - intros before item after -> Hitem Hbefore. rewrite index_first_match_lookup.
    induction Hbefore as [|b before Hb _ IH]; simpl.
    + rewrite Hitem. reflexivity.
    + rewrite Hb. exact IH.
  - intros Hnone. rewrite index_first_match_lookup.
    induction Hnone as [|b items Hb _ IH]; simpl; [reflexivity|].
    rewrite Hb. exact IH.
Qed.

Lemma no_zone_match items : List.find (matchesType ZONE) items = None.
Proof.
  induction items as [|item items IH]; simpl; [reflexivity|].
  unfold matchesType at 1.
  destruct (matchShapeType (loweredName item)) as [t'|] eqn:E; [|exact IH].
  destruct (String.eqb (SnapLogicShapeType_value t') (SnapLogicShapeType_value ZONE)) eqn:Eq;
    [|exact IH].
  apply shape_eqb_eq in Eq. subst t'. exfalso. exact (matchShapeType_not_zone _ E).
Qed.

(** X15.  loadLibrary.  Content of another type is rejected with the error
    Invalid library format and changes nothing.  Otherwise the index is
    rebuilt from the new content alone, whatever it held before, and the
    store, the loader and its cache are left alone; and since no name
    pattern yields the zone type, no library provides a zone shape: cloning
    one gives no element. *)
Theorem loadLibrary_rebuilds_index (lib : ExcalidrawLibrary) (w : World) :
  (lib_type lib <> "excalidrawlib" ->
   loadLibrary lib w = (Thrown "Invalid library format", w))
  /\ (lib_type lib = "excalidrawlib" ->
      exists w',
        loadLibrary lib w = (Returned tt, w')
        /\ (forall t, libraryItems (libraryManager w') !! SnapLogicShapeType_value t
                      = List.find (matchesType t) (lib_libraryItems lib))
        /\ architecture w' = architecture w /\ libraryLoader w' = libraryLoader w
        /\ forall x y, LibraryManager.cloneLibraryItem ZONE x y w' = (Returned [], w')).
Proof.
  unfold loadLibrary. split.
  - intros Hne. apply String.eqb_neq in Hne. rewrite Hne. reflexivity.
  - intros ->. simpl. eexists. split; [reflexivity|]. simpl.
    split; [intros t; apply index_first_match_lookup|].
    split; [reflexivity|]. split; [reflexivity|].
    intros x y. unfold LibraryManager.cloneLibraryItem, LibraryManager.getShape.
    unfold bind, gets. cbn [libraryManager libraryItems set_libraryManager].
    rewrite index_first_match_lookup, no_zone_match. reflexivity.
Qed.

(** ** Shape bounds and cloning *)

Lemma Math_min_le d l :
  (Math_min d l <= d)%Q /\ Forall (fun q => (Math_min d l <= q)%Q) l.
Proof.
  unfold Math_min. induction l as [|a l [IH1 IH2]]; simpl.
  - split; [apply Qle_refl|constructor].
  - split.
    + eapply Qle_trans; [apply Q.le_min_r|exact IH1].
    + constructor; [apply Q.le_min_l|].
      eapply Forall_impl; [exact IH2|].
      intros q Hq. simpl in Hq. eapply Qle_trans; [apply Q.le_min_r|exact Hq].
Qed.

Lemma Math_max_ge d l :
  (d <= Math_max d l)%Q /\ Forall (fun q => (q <= Math_max d l)%Q) l.
Proof.
  unfold Math_max. induction l as [|a l [IH1 IH2]]; simpl.
  - split; [apply Qle_refl|constructor].
  - split.
    + eapply Qle_trans; [exact IH1|apply Q.le_max_r].
    + constructor; [apply Q.le_max_l|].
      eapply Forall_impl; [exact IH2|].
      intros q Hq. simpl in Hq. eapply Qle_trans; [exact Hq|apply Q.le_max_r].
Qed.

Lemma fold_min_shift {A : Type} (g h : A -> Q) (a c : Q) :
  (forall e, g e == a + h e + c)%Q ->
  forall l d,
    (fold_right Qmin (g d) (map g l) == a + fold_right Qmin (h d) (map h l) + c)%Q.
Proof.
  intros H l d. induction l as [|e l IH]; simpl; [apply H|].
  rewrite IH, (H e), Q.plus_min_distr_r, Q.plus_min_distr_l. reflexivity.
Qed.

Lemma fold_max_shift {A : Type} (g h : A -> Q) (a c : Q) :
  (forall e, g e == a + h e + c)%Q ->
  forall l d,
    (fold_right Qmax (g d) (map g l) == a + fold_right Qmax (h d) (map h l) + c)%Q.
Proof.
  intros H l d. induction l as [|e l IH]; simpl; [apply H|].
  rewrite IH, (H e), Q.plus_max_distr_r, Q.plus_max_distr_l. reflexivity.
Qed.

(** X16.  getShapeBounds returns the default 100 by 50 at the origin for no
    elements; otherwise its corner is at the least x and the least y, so
    that no element starts left of it or above it; and when the geometry of
    the elements is in whole numbers, where the code's sums are exact, no
    element's right or bottom edge lies beyond the box. *)
Theorem shape_bounds_contain_elements (elements : list ExcalidrawElement) :
  let b := getShapeBounds elements in
  (elements = [] ->
   b = {| sb_width := 100; sb_height := 50; sb_minX := 0; sb_minY := 0 |})
  /\ (forall e, In e elements -> (sb_minX b <= el_x e)%Q /\ (sb_minY b <= el_y e)%Q)
  /\ (forallb wholeGeometry elements = true ->
      forall e, In e elements ->
        (el_x e + el_width e <= sb_minX b + sb_width b)%Q
        /\ (el_y e + el_height e <= sb_minY b + sb_height b)%Q).
Proof.
  cbv zeta. split; [intros ->; reflexivity|].
  assert (H : forall e, In e elements ->
            let b := getShapeBounds elements in
            (sb_minX b <= el_x e)%Q
            /\ (el_x e + el_width e <= sb_minX b + sb_width b)%Q
            /\ (sb_minY b <= el_y e)%Q
            /\ (el_y e + el_height e <= sb_minY b + sb_height b)%Q).
  { intros e He. destruct elements as [|e0 rest] eqn:E; [contradiction|].
    rewrite <- E in *. cbv zeta.
    assert (Hb : getShapeBounds elements
      = {| sb_width := Math_max (el_x e0 + el_width e0) (map (fun el => el_x el + el_width el) elements)
                       - Math_min (el_x e0) (map el_x elements);
           sb_height := Math_max (el_y e0 + el_height e0) (map (fun el => el_y el + el_height el) elements)
                        - Math_min (el_y e0) (map el_y elements);
           sb_minX := Math_min (el_x e0) (map el_x elements);
           sb_minY := Math_min (el_y e0) (map el_y elements) |}%Q).
    { rewrite E. reflexivity. }
    rewrite Hb. cbn [sb_width sb_height sb_minX sb_minY].
    pose proof (proj2 (Math_min_le (el_x e0) (map el_x elements))) as HminX.
    pose proof (proj2 (Math_min_le (el_y e0) (map el_y elements))) as HminY.
    pose proof (proj2 (Math_max_ge (el_x e0 + el_width e0)%Q
                         (map (fun el => el_x el + el_width el)%Q elements))) as HmaxX.
    pose proof (proj2 (Math_max_ge (el_y e0 + el_height e0)%Q
                         (map (fun el => el_y el + el_height el)%Q elements))) as HmaxY.
    rewrite List.Forall_forall in HminX, HminY, HmaxX, HmaxY.
    specialize (HminX _ (in_map el_x _ _ He)).
    specialize (HminY _ (in_map el_y _ _ He)).
    specialize (HmaxX _ (in_map (fun el => el_x el + el_width el)%Q _ _ He)).
    specialize (HmaxY _ (in_map (fun el => el_y el + el_height el)%Q _ _ He)).
    cbv beta in HmaxX, HmaxY.
    repeat split; try assumption.
    - eapply Qle_trans; [exact HmaxX|]. apply Qle_lteq. right. ring.
    - eapply Qle_trans; [exact HmaxY|]. apply Qle_lteq. right. ring. }
  split.
  - intros e He. destruct (H e He) as (H1 & _ & H3 & _). split; assumption.
  - intros _ e He. destruct (H e He) as (_ & H2 & _ & H4). split; assumption.
Qed.

Lemma shape_bounds_contain_elements_witness :
  let b := getShapeBounds [libraryElement 10 20; libraryElement 30 5] in
  (30 + 100 <= sb_minX b + sb_width b)%Q /\ (5 + 60 <= sb_minY b + sb_height b)%Q.
Proof.
  apply (proj2 (proj2 (shape_bounds_contain_elements
                         [libraryElement 10 20; libraryElement 30 5]))
           eq_refl (libraryElement 30 5)).
  right. left. reflexivity.
Defined.

Lemma getShapeBounds_blank l : getShapeBounds (map blank l) = getShapeBounds l.
Proof.
  destruct l as [|e0 rest]; [reflexivity|].
  unfold getShapeBounds. cbn [map].
  change (blank e0 :: map blank rest) with (map blank (e0 :: rest)).
  rewrite !map_map. reflexivity.
Qed.

Lemma map_const_Forall {A B C : Type} (f : A -> B) (v : B) (l : list A) :
  forall (l' : list C), map f l = map (fun _ => v) l' -> Forall (fun a => f a = v) l.
Proof.
  induction l as [|a l IH]; intros [|c l'] H; simpl in H; try discriminate; constructor.
  - injection H as H _. exact H.
  - injection H as _ H. exact (IH l' H).
Qed.

Lemma moved_bounds x y (elements : list ExcalidrawElement) e0 rest :
  elements = e0 :: rest ->
  let minX := Math_min (el_x e0) (map el_x elements) in
  let minY := Math_min (el_y e0) (map el_y elements) in
  let b := getShapeBounds (map (movedElement x y minX minY) elements) in
  (sb_minX b == inject_Z x)%Q /\ (sb_minY b == inject_Z y)%Q
  /\ (sb_width b == sb_width (getShapeBounds elements))%Q
  /\ (sb_height b == sb_height (getShapeBounds elements))%Q.
Proof.
  intros E minX minY b.
  assert (Hb : b = getShapeBounds (movedElement x y minX minY e0
                                   :: map (movedElement x y minX minY) rest)).
  { unfold b. rewrite E. reflexivity. }
  assert (Hb0 : getShapeBounds elements = getShapeBounds (e0 :: rest)) by (rewrite E; reflexivity).
  assert (HX : (Math_min (el_x (movedElement x y minX minY e0))
                  (map el_x (map (movedElement x y minX minY) elements))
                == inject_Z x + minX + - minX)%Q).
  { rewrite map_map. unfold Math_min, minX.
    apply (fold_min_shift (fun e => el_x (movedElement x y minX minY e)) el_x).
    intros e. reflexivity. }
  assert (HY : (Math_min (el_y (movedElement x y minX minY e0))
                  (map el_y (map (movedElement x y minX minY) elements))
                == inject_Z y + minY + - minY)%Q).
  { rewrite map_map. unfold Math_min, minY.
    apply (fold_min_shift (fun e => el_y (movedElement x y minX minY e)) el_y).
    intros e. reflexivity. }
  assert (HW : (Math_max (el_x (movedElement x y minX minY e0)
                          + el_width (movedElement x y minX minY e0))
                  (map (fun el => el_x el + el_width el)
                     (map (movedElement x y minX minY) elements))
                == inject_Z x
                   + Math_max (el_x e0 + el_width e0)
                       (map (fun el => el_x el + el_width el) elements)
                   + - minX)%Q).
  { rewrite map_map. unfold Math_max.
    apply (fold_max_shift
             (fun e => el_x (movedElement x y minX minY e)
                       + el_width (movedElement x y minX minY e))%Q
             (fun e => el_x e + el_width e)%Q).
    intros e. simpl. ring. }
  assert (HH : (Math_max (el_y (movedElement x y minX minY e0)
                          + el_height (movedElement x y minX minY e0))
                  (map (fun el => el_y el + el_height el)
                     (map (movedElement x y minX minY) elements))
                == inject_Z y
                   + Math_max (el_y e0 + el_height e0)
                       (map (fun el => el_y el + el_height el) elements)
                   + - minY)%Q).
  { rewrite map_map. unfold Math_max.
    apply (fold_max_shift
             (fun e => el_y (movedElement x y minX minY e)
                       + el_height (movedElement x y minX minY e))%Q
             (fun e => el_y e + el_height e)%Q).
    intros e. simpl. ring. }
  rewrite Hb, Hb0. unfold getShapeBounds. cbn [sb_width sb_height sb_minX sb_minY].
  change (movedElement x y minX minY e0 :: map (movedElement x y minX minY) rest)
    with (map (movedElement x y minX minY) (e0 :: rest)).
  rewrite <- E. fold minX minY.
  rewrite HX, HY, HW, HH.
  repeat split; ring.
Qed.

(** X17.  Cloning a library item that has elements yields one clone per
    element, none of them deleted, each of its element's width and height;
    and when the target and the geometry of the item are in whole numbers,
    where the code's sums are exact, the item is moved as a whole: the
    bounding box of the clones has the size of the item's bounding box and
    its top left corner at the target (x, y). *)
Theorem clone_lands_on_target (type : SnapLogicShapeType) (x y : Z) (w : World)
    (item : LibraryItem) :
  libraryItems (libraryManager w) !! SnapLogicShapeType_value type = Some item ->
  item_elements item <> [] ->
  exists clones w',
    LibraryManager.cloneLibraryItem type x y w = (Returned clones, w')
    /\ length clones = length (item_elements item)
    /\ Forall (fun c => el_isDeleted c = false) clones
    /\ map el_width clones = map el_width (item_elements item)
    /\ map el_height clones = map el_height (item_elements item)
    /\ (wholeNumber (inject_Z x) && wholeNumber (inject_Z y)
        && forallb wholeGeometry (item_elements item) = true ->
        (sb_minX (getShapeBounds clones) == inject_Z x)%Q
        /\ (sb_minY (getShapeBounds clones) == inject_Z y)%Q
        /\ (sb_width (getShapeBounds clones)
            == sb_width (getShapeBounds (item_elements item)))%Q
        /\ (sb_height (getShapeBounds clones)
            == sb_height (getShapeBounds (item_elements item)))%Q).
Proof.
  intros Hitem Hne.
  destruct (cloneLibraryItem_runs type x y w) as (clones & w' & Hrun & Hb & _).
  exists clones, w'. split; [exact Hrun|].
  unfold clonedGeometry in Hb. rewrite Hitem in Hb.
  destruct (item_elements item) as [|e0 rest] eqn:E; [contradiction|].
  rewrite <- E in *.
  set (minX := Math_min (el_x e0) (map el_x (item_elements item))) in *.
  set (minY := Math_min (el_y e0) (map el_y (item_elements item))) in *.
  split.
  { rewrite <- (length_map blank), Hb, length_map. reflexivity. }
  split.
  { apply (map_const_Forall el_isDeleted false clones (item_elements item)).
    transitivity (map el_isDeleted (map blank clones)).
    - rewrite map_map. reflexivity.
    - rewrite Hb, map_map. reflexivity. }
  split.
  { transitivity (map el_width (map blank clones)).
    - rewrite map_map. reflexivity.
    - rewrite Hb, map_map. reflexivity. }
  split.
  { transitivity (map el_height (map blank clones)).
    - rewrite map_map. reflexivity.
    - rewrite Hb, map_map. reflexivity. }
  intros _. rewrite <- (getShapeBounds_blank clones), Hb.
  exact (moved_bounds x y (item_elements item) e0 rest E).
Qed.

Lemma clone_lands_on_target_witness :
  exists clones w',
    LibraryManager.cloneLibraryItem CLOUDPLEX 400 300 libraryWorld = (Returned clones, w')
    /\ length clones = 2%nat
    /\ (sb_minX (getShapeBounds clones) == 400)%Q
    /\ (sb_minY (getShapeBounds clones) == 300)%Q.
Proof.
  destruct (clone_lands_on_target CLOUDPLEX 400 300 libraryWorld
              {| item_id := "item-1"; item_name := Some "Cloudplex";
                 item_elements := [libraryElement 10 20; libraryElement 30 5] |}
              eq_refl ltac:(discriminate))
    as (clones & w' & Hrun & Hlen & _ & _ & _ & Hwhole).
  destruct (Hwhole eq_refl) as (HX & HY & _).
  exists clones, w'. repeat split; assumption.
Defined.

(** ** The rendering mode *)

(** X18.  Forcing a rendering mode has no effect on what the factory draws:
    createSnaplex and createExecutionNode read the loader's flag anew before
    they choose a strategy, so that a run after forceRenderingMode is the
    run without it, in result and in final state. *)
Theorem forced_mode_is_overridden (mode : RenderingMode) (snaplex : Snaplex)
    (node : ExecutionNode) (x y : Z) (width height : option Z) (w : World) :
  (run forceRenderingMode mode;
   ShapeFactory.createSnaplex libraryLoaderProvider snaplex x y width height) w
  = ShapeFactory.createSnaplex libraryLoaderProvider snaplex x y width height w
  /\ (run forceRenderingMode mode;
      ShapeFactory.createExecutionNode libraryLoaderProvider node x y) w
     = ShapeFactory.createExecutionNode libraryLoaderProvider node x y w
  /\ (run forceRenderingMode mode;
      run ShapeFactory.checkLibraryAvailability libraryLoaderProvider;
      getRenderingMode) w
     = (Returned (if isLoaded (libraryLoader w) then libraryMode else basicMode),
        set_useLibraryShapes (isLoaded (libraryLoader w)) w).
Proof.
  split; [|split].
  - unfold bind at 1. unfold forceRenderingMode, modify.
    unfold ShapeFactory.createSnaplex. unfold bind at 1 3.
    unfold ShapeFactory.checkLibraryAvailability, bind, gets, modify. reflexivity.
  - unfold bind at 1. unfold forceRenderingMode, modify.
    unfold ShapeFactory.createExecutionNode. unfold bind at 1 3.
    unfold ShapeFactory.checkLibraryAvailability, bind, gets, modify. reflexivity.
  - reflexivity.
Qed.

(** ** A node without a size *)

(** X23.  A node without a size (and not a memory-optimised control node)
    cannot be drawn from the library: once the library shape is fetched,
    the indicator code reads the length of the missing size, the error is
    caught, and the node is drawn with the basic shapes after all: a circle
    of the default diameter 40 whose label reads the name followed by
    (undefined). *)
Theorem sizeless_node_falls_back (provider : ShapeProvider) (node : ExecutionNode)
    (x y : Z) (w : World) (shape : list ExcalidrawElement) (w2 : World) :
  isLibraryLoaded provider w = true ->
  node_size node = None ->
  node_memoryOptimized node && isJCC (node_type node) = false ->
  getShape provider (nodeShapeType node) x y (checkedWorld provider w) = (Returned shape, w2) ->
  shape <> [] ->
  ShapeFactory.createNodeIndicators node x y w2
  = (Thrown "TypeError: Cannot read properties of undefined (reading 'length')", w2)
  /\ ShapeFactory.createExecutionNode provider node x y w = createNodeElement node x y 40 w2
  /\ exists circle label w',
       createNodeElement node x y 40 w2 = (Returned [circle; label], w')
       /\ el_type circle = "ellipse" /\ (el_width circle == 40)%Q
       /\ shownText label = node_name node +:+ " (undefined)".
Proof.
  intros Hl Hsize Hmo Hshape Hne.
  assert (Hthrow : ShapeFactory.createNodeIndicators node x y w2
            = (Thrown "TypeError: Cannot read properties of undefined (reading 'length')", w2)).
  { unfold ShapeFactory.createNodeIndicators, ShapeFactory.hasIndicator,
      ShapeFactory.indicatorText. rewrite Hsize, Hmo. reflexivity. }
  split; [exact Hthrow|]. split.
  - rewrite (createExecutionNode_available provider node x y w Hl), Hshape, Hthrow.
    destruct shape as [|e shape]; [contradiction|]. reflexivity.
  - unfold createNodeElement. rewrite Hsize, Hmo. run_draws.
    eexists _, _, _. split; [reflexivity|]. simpl. repeat split; reflexivity.
Qed.

Lemma sizeless_node_falls_back_witness :
  ShapeFactory.createExecutionNode libraryLoaderProvider sizelessNode 10 20 nodeLibraryWorld
  = createNodeElement sizelessNode 10 20 40
      (snd (LibraryLoaderService.getShape JCC_NODE 10 20
              (checkedWorld libraryLoaderProvider nodeLibraryWorld))).
Proof.
  refine (proj1 (proj2 (sizeless_node_falls_back libraryLoaderProvider sizelessNode 10 20
                          nodeLibraryWorld
                          (match fst (LibraryLoaderService.getShape JCC_NODE 10 20
                                        (checkedWorld libraryLoaderProvider nodeLibraryWorld))
                           with Returned l => l | Thrown _ => [] end)
                          _ eq_refl eq_refl eq_refl _ _))).
  - vm_compute. reflexivity.
  - vm_compute. discriminate.
Defined.

(** ** Text flow, continued *)

Lemma append_assoc (a b c : string) : (a +:+ b) +:+ c = a +:+ (b +:+ c).
Proof.
  induction a as [|x a IH]; [reflexivity|].
  change (String x a +:+ b) with (String x (a +:+ b)).
  change (String x (a +:+ b) +:+ c) with (String x ((a +:+ b) +:+ c)).
  change (String x a +:+ (b +:+ c)) with (String x (a +:+ (b +:+ c))).
  rewrite IH. reflexivity.
Qed.

Lemma join_split sep s : join sep (split sep s) = s.
Proof.
  induction s as [|c s IH]; [reflexivity|]. simpl split.
  destruct (Ascii.eqb c sep) eqn:E.
  - apply Ascii.eqb_eq in E. subst c.
    destruct (split sep s) as [|h t] eqn:Hs; [exfalso; exact (split_nonempty sep s Hs)|].
    rewrite join_cons, IH. reflexivity.
  - destruct (split sep s) as [|h t] eqn:Hs; [exfalso; exact (split_nonempty sep s Hs)|].
    destruct t as [|h' t].
    + unfold join in IH |- *. simpl in IH |- *. rewrite IH. reflexivity.
    + rewrite join_cons. rewrite join_cons in IH.
      change (String c h +:+ String sep (join sep (h' :: t)))
        with (String c (h +:+ String sep (join sep (h' :: t)))).
      rewrite IH. reflexivity.
Qed.

Lemma join_app sep (l1 l2 : list string) :
  l1 <> [] -> l2 <> [] ->
  join sep (l1 ++ l2) = join sep l1 +:+ String sep (join sep l2).
Proof.
  intros H1 H2. induction l1 as [|a l1 IH]; [contradiction|].
  destruct l1 as [|a' l1].
  - destruct l2 as [|b l2]; [contradiction|]. reflexivity.
  - change ((a :: a' :: l1) ++ l2) with (a :: a' :: (l1 ++ l2)).
    rewrite !join_cons.
    change (a' :: l1 ++ l2) with ((a' :: l1) ++ l2).
    rewrite IH by discriminate.
    rewrite append_assoc. reflexivity.
Qed.

Lemma join_flat_split sep (cs : list string) :
  join sep (flat_map (split sep) cs) = join sep cs.
Proof.
  induction cs as [|c cs IH]; [reflexivity|].
  change (flat_map (split sep) (c :: cs)) with (split sep c ++ flat_map (split sep) cs).
  destruct cs as [|c' cs].
  - simpl. rewrite app_nil_r. apply join_split.
  - rewrite join_app.
    + rewrite IH, join_split. reflexivity.
    + apply split_nonempty.
    + change (flat_map (split sep) (c' :: cs))
        with (split sep c' ++ flat_map (split sep) cs).
      pose proof (split_nonempty sep c') as Hs.
      destruct (split sep c'); [contradiction|discriminate].
Qed.

(** X19.  Chunking only regroups the wrapped lines: glued back together
    with line breaks, the chunks are the wrapped lines of the text (when
    there are any); and when every line of the text fits, they are the text
    itself, so that nothing is lost or added.  (For any positive chunk
    size.) *)
Theorem chunks_regroup_lines (text : string) (maxChars : Z) (n : nat) :
  (1 <= n)%nat ->
  (wrappedText text maxChars <> [] ->
   join newline (chunkText text maxChars (Z.of_nat n))
   = join newline (wrappedText text maxChars))
  /\ (Forall (fun l => Z.of_nat (String.length l) <= maxChars) (split newline text) ->
      join newline (chunkText text maxChars (Z.of_nat n)) = text).
Proof.
  intros Hn.
  assert (Hgen : wrappedText text maxChars <> [] ->
                 join newline (chunkText text maxChars (Z.of_nat n))
                 = join newline (wrappedText text maxChars)).
  { intros Hne.
    destruct (chunkText_shape maxChars n Hn text Hne) as (_ & _ & _ & _ & _ & _ & Hflat).
    rewrite <- Hflat. symmetry. apply join_flat_split. }
  split; [exact Hgen|].
  intros Hfit.
  assert (Hw : wrappedText text maxChars = split newline text)
    by (apply wrapped_short_lines; exact Hfit).
  rewrite Hgen by (rewrite Hw; apply split_nonempty).
  rewrite Hw. apply join_split.
Qed.

Lemma chunks_regroup_lines_witness :
  join newline (chunkText shortLinesText 20 (Z.of_nat 15)) = shortLinesText.
Proof.
  apply (proj2 (chunks_regroup_lines shortLinesText 20 15 ltac:(lia))).
  vm_compute. repeat constructor; discriminate.
Defined.

(** *** Wrapping a line of plain words *)

Lemma append_nonempty (a b : string) : a <> "" -> a +:+ b <> "".
Proof. destruct a as [|c a]; [contradiction|]. intros _. discriminate. Qed.

Lemma eqb_empty_false (s : string) : s <> "" -> String.eqb s "" = false.
Proof. intros H. apply String.eqb_neq. exact H. Qed.

Lemma wrapBody_plain maxChars st word :
  currentLine st <> "" -> word <> "" ->
  currentLine (wrapBody maxChars st word) <> ""
  /\ join space (wrappedLines (wrapBody maxChars st word)
                 ++ [currentLine (wrapBody maxChars st word)])
     = join space ((wrappedLines st ++ [currentLine st]) ++ [word]).
Proof.
  intros Hc Hw. unfold wrapBody. rewrite (eqb_empty_false _ Hc). cbn [negb].
  destruct (Z.of_nat (String.length (currentLine st +:+ " " +:+ word)) <=? maxChars);
    cbn [wrappedLines currentLine].
  - split; [apply append_nonempty, Hc|].
    rewrite <- app_assoc. cbn [app].
    destruct (wrappedLines st) as [|l ls].
    + reflexivity.
    + rewrite !join_app by discriminate. reflexivity.
  - split; [exact Hw|reflexivity].
Qed.

Lemma wrapLoop_plain maxChars words : forall st,
  currentLine st <> "" -> Forall (fun w => w <> "") words ->
  currentLine (fold_left (wrapBody maxChars) words st) <> ""
  /\ join space (wrappedLines (fold_left (wrapBody maxChars) words st)
                 ++ [currentLine (fold_left (wrapBody maxChars) words st)])
     = join space ((wrappedLines st ++ [currentLine st]) ++ words).
Proof.
  induction words as [|w words IH]; intros st Hc Hall; simpl.
  - rewrite app_nil_r. split; [exact Hc|reflexivity].
  - inversion Hall as [|? ? Hw Hws]; subst.
    destruct (wrapBody_plain maxChars st w Hc Hw) as [Hc1 Hj1].
    destruct (IH _ Hc1 Hws) as [Hc2 Hj2].
    split; [exact Hc2|]. rewrite Hj2.
    set (a := wrappedLines (wrapBody maxChars st w) ++ [currentLine (wrapBody maxChars st w)]) in *.
    set (b := wrappedLines st ++ [currentLine st]) in *.
    destruct words as [|w' words].
    + rewrite !app_nil_r. exact Hj1.
    + rewrite (join_app space a) by (subst a; try discriminate;
                                       destruct (wrappedLines (wrapBody maxChars st w)); discriminate).
      rewrite Hj1.
      replace (b ++ w :: w' :: words) with ((b ++ [w]) ++ w' :: words)
        by (rewrite <- app_assoc; reflexivity).
      rewrite (join_app space (b ++ [w])); [reflexivity| |discriminate].
      destruct b; discriminate.
Qed.

(** X20.  Wrapping a line of plain words (single spaces between them, none
    at either end, no word longer than a line) only replaces spaces by line
    breaks: joined with spaces again, the wrapped lines are the line; and
    every one of them fits. *)
Theorem wrapping_keeps_the_line (line : string) (maxChars : Z) :
  Forall (fun w => w <> "" /\ Z.of_nat (String.length w) <= maxChars) (split space line) ->
  join space (wrapLine line maxChars) = line
  /\ Forall (fun l => Z.of_nat (String.length l) <= maxChars) (wrapLine line maxChars).
Proof.
  intros Hwords.
  assert (Hne : Forall (fun w => w <> "") (split space line))
    by (eapply Forall_impl; [exact Hwords|]; intros w [H _]; exact H).
  assert (Hshort : Forall (fun w => Z.of_nat (String.length w) <= maxChars) (split space line))
    by (eapply Forall_impl; [exact Hwords|]; intros w [_ H]; exact H).
  unfold wrapLine.
  destruct (Z.of_nat (String.length line) <=? maxChars) eqn:E.
  - apply Z.leb_le in E. split; [reflexivity|]. constructor; [exact E|constructor].
  - destruct (split space line) as [|w0 ws] eqn:Hsplit;
      [exfalso; exact (split_nonempty space line Hsplit)|].
    inversion Hne as [|? ? Hw0 Hws]; subst.
    inversion Hshort as [|? ? Hl0 Hls]; subst.
    assert (Hmax : 0 <= maxChars) by lia.
    assert (Hfirst : wrapBody maxChars {| wrappedLines := []; currentLine := "" |} w0
                     = {| wrappedLines := []; currentLine := w0 |}).
    { unfold wrapBody. cbn [currentLine wrappedLines].
      change (String.eqb "" "") with true. cbv iota.
      apply Z.leb_le in Hl0. rewrite Hl0. reflexivity. }
    cbn [fold_left]. rewrite Hfirst.
    destruct (wrapLoop_plain maxChars ws {| wrappedLines := []; currentLine := w0 |}
                Hw0 Hws) as [Hc Hj].
    rewrite (eqb_empty_false _ Hc). cbn [negb].
    split.
    + cbn [wrappedLines currentLine app] in Hj. rewrite Hj, <- Hsplit. apply join_split.
    + destruct (wrapLoop_fits maxChars ws {| wrappedLines := []; currentLine := w0 |}
                  Hls ltac:(constructor) Hl0) as [H1 H2].
      apply Forall_app. split; [exact H1|]. constructor; [exact H2|constructor].
Qed.

Lemma wrapping_keeps_the_line_witness :
  join space (wrapLine "the quick brown fox jumps over the lazy dog" 12)
  = "the quick brown fox jumps over the lazy dog"
  /\ Forall (fun l => Z.of_nat (String.length l) <= 12)
       (wrapLine "the quick brown fox jumps over the lazy dog" 12).
Proof.
  apply (wrapping_keeps_the_line "the quick brown fox jumps over the lazy dog" 12).
  vm_compute. repeat constructor; (discriminate || (intros H; discriminate H)).
Defined.

(** ** Text elements of the documentation *)

Lemma chunkText_nonempty text maxChars maxLines : chunkText text maxChars maxLines <> [].
Proof.
  unfold chunkText. cbv zeta.
  match goal with |- context [if 0 <? Z.of_nat (length ?l) then _ else _] =>
    destruct l as [|c cs] eqn:E end; simpl; discriminate.
Qed.

Lemma textElement_runs chunk x y maxWidth chunkHeight style w :
  exists e w',
    textElement chunk x y maxWidth chunkHeight style w = (Returned e, w')
    /\ el_type e = "text" /\ shownText e = chunk
    /\ el_x e = x /\ el_y e = y /\ el_width e = maxWidth /\ el_height e = chunkHeight
    /\ el_groupIds e = st_groupIds style
    /\ keeps_library w w'.
Proof.
  unfold textElement, Documentation.generateId, Documentation.generateIndex.
  cbv [bind ret gets randomSeed Math_random Date_now].
  eexists _, _. split; [reflexivity|]. repeat split.
Qed.

Lemma keeps_library_trans w1 w2 w3 :
  keeps_library w1 w2 -> keeps_library w2 w3 -> keeps_library w1 w3.
Proof. intros (A1 & B1 & C1) (A2 & B2 & C2). repeat split; congruence. Qed.

Lemma textLoop_runs x maxWidth style count chunks : forall st w,
  let gap := (if (1 <? Z.of_nat count) then 10 else 0)%Q in
  exists new st' w',
    textLoop x maxWidth style count chunks st w = (Returned st', w')
    /\ tl_elements st' = tl_elements st ++ new
    /\ map shownText new = chunks
    /\ Forall (fun e => el_type e = "text" /\ el_x e = x /\ el_width e = maxWidth
                        /\ el_groupIds e = st_groupIds style
                        /\ el_height e
                           = calculateTextHeight (shownText e) (st_fontSize style)
                               (st_lineHeight style)) new
    /\ stacked (tl_currentY st) gap new
    /\ tl_totalHeight st'
       = fold_left (fun total e => total + (el_height e + gap))%Q new (tl_totalHeight st)
    /\ keeps_library w w'.
Proof.
  induction chunks as [|chunk chunks IH]; intros st w gap; simpl.
  - exists [], st, w. rewrite app_nil_r. repeat split. constructor.
  - unfold bind at 1. unfold textBody at 1. unfold bind at 1.
    destruct (textElement_runs chunk x (tl_currentY st) maxWidth
                (calculateTextHeight chunk (st_fontSize style) (st_lineHeight style))
                style w)
      as (e & w1 & -> & Hty & Hshown & Hx & Hy & Hw & Hh & Hg & Hk1).
    unfold ret at 1.
    match goal with |- context [textLoop _ _ _ _ _ ?st1 w1] =>
      destruct (IH st1 w1) as (new & st' & w' & Hrun & Hel & Hshowns & Hall & Hst & Htot & Hk2)
    end.
    exists (e :: new), st', w'. split; [exact Hrun|].
    cbn [tl_elements tl_currentY tl_totalHeight] in Hel, Hst, Htot.
    split; [rewrite Hel, <- app_assoc; reflexivity|].
    split; [simpl; rewrite Hshown, Hshowns; reflexivity|].
    split; [constructor; [rewrite Hshown; tauto|exact Hall]|].
    split; [simpl; rewrite Hh; fold gap; split; [exact Hy|exact Hst]|].
    split; [simpl; rewrite Hh; exact Htot|].
    exact (keeps_library_trans _ _ _ Hk1 Hk2).
Qed.

Lemma text_elements_stack_run (text : string) (x y maxWidth : Q) (style : TextStyle)
    (w : World) :
  exists elements totalHeight w',
    createTextElements text x y maxWidth style w = (Returned (elements, totalHeight), w')
    /\ map shownText elements
       = chunkText text (getCharactersPerLine (st_fontSize style) maxWidth) 15
    /\ elements <> []
    /\ stacked y
         (if (1 <? Z.of_nat (length (chunkText text
                                      (getCharactersPerLine (st_fontSize style) maxWidth) 15)))
          then 10 else 0)%Q elements.
Proof.
  unfold createTextElements. cbv zeta.
  set (chunks := chunkText text (getCharactersPerLine (st_fontSize style) maxWidth) 15).
  destruct (textLoop_runs x maxWidth style (length chunks) chunks
              {| tl_elements := []; tl_currentY := y; tl_totalHeight := 0 |} w)
    as (new & st' & w' & Hrun & Hel & Hshown & _ & Hst & _).
  cbn [tl_elements tl_currentY app] in Hel, Hst.
  exists new, (tl_totalHeight st'), w'.
  split; [unfold bind; rewrite Hrun, Hel; reflexivity|].
  split; [exact Hshown|]. split; [|exact Hst].
  intros ->. simpl in Hshown. symmetry in Hshown.
  exact (chunkText_nonempty _ _ _ Hshown).
Qed.

Lemma fitting_chunks_join (text : string) (maxChars : Z) :
  Forall (fun l => Z.of_nat (String.length l) <= maxChars) (split newline text) ->
  join newline (chunkText text maxChars 15) = text.
Proof.
  intros Hfit.
  assert (Hw : wrappedText text maxChars = split newline text)
    by (apply wrapped_short_lines; exact Hfit).
  assert (Hne : wrappedText text maxChars <> [])
    by (rewrite Hw; apply split_nonempty).
  destruct (chunkText_shape maxChars 15 ltac:(lia) text Hne)
    as (_ & _ & _ & _ & _ & _ & Hflat).
  change (Z.of_nat 15) with 15 in Hflat.
  rewrite <- (join_flat_split newline (chunkText text maxChars 15)), Hflat, Hw.
  apply join_split.
Qed.

(** X21.  createTextElements always returns, with one text element per
    chunk of the text, in order, and at least one; every element is a text
    at the given x, of the given width and in the groups of the style, and
    the first is at the given y.  Nothing of the text is dropped: when every
    line of the text fits the width, the texts of the elements, glued with
    line breaks, are the text itself. *)
Theorem text_elements_show_the_text (text : string) (x y maxWidth : Q) (style : TextStyle)
    (w : World) :
  let maxChars := getCharactersPerLine (st_fontSize style) maxWidth in
  exists elements totalHeight w',
    createTextElements text x y maxWidth style w = (Returned (elements, totalHeight), w')
    /\ map shownText elements = chunkText text maxChars 15
    /\ (exists e others, elements = e :: others /\ el_y e = y)
    /\ Forall (fun e => el_type e = "text" /\ el_x e = x /\ el_width e = maxWidth
                        /\ el_groupIds e = st_groupIds style) elements
    /\ (Forall (fun l => Z.of_nat (String.length l) <= maxChars) (split newline text) ->
        join newline (map shownText elements) = text).
Proof.
  intros maxChars. unfold createTextElements. cbv zeta. fold maxChars.
  set (chunks := chunkText text maxChars 15).
  destruct (textLoop_runs x maxWidth style (length chunks) chunks
              {| tl_elements := []; tl_currentY := y; tl_totalHeight := 0 |} w)
    as (new & st' & w' & Hrun & Hel & Hshown & Hall & Hst & _).
  cbn [tl_elements tl_currentY tl_totalHeight app] in Hel, Hst.
  exists new, (tl_totalHeight st'), w'.
  split; [unfold bind; rewrite Hrun, Hel; reflexivity|].
  split; [exact Hshown|].
  split.
  { destruct new as [|e others].
    - simpl in Hshown. symmetry in Hshown.
      contradiction (chunkText_nonempty _ _ _ Hshown).
    - exists e, others. split; [reflexivity|]. exact (proj1 Hst). }
  split.
  { eapply List.Forall_impl; [|exact Hall]. simpl. intros e He. tauto. }
  intros Hfit. rewrite Hshown. apply fitting_chunks_join. exact Hfit.
Qed.

Lemma first_chunk_of_fitting text maxChars :
  Forall (fun l => Z.of_nat (String.length l) <= maxChars) (split newline text) ->
  hd "" (chunkText text maxChars 15) = join newline (firstn 15 (split newline text)).
Proof.
  intros Hfit.
  assert (Hw : wrappedText text maxChars = split newline text)
    by (apply wrapped_short_lines; exact Hfit).
  assert (Hne : wrappedText text maxChars <> [])
    by (rewrite Hw; apply split_nonempty).
  destruct (chunkText_shape maxChars 15 ltac:(lia) text Hne)
    as (full & others & Hchunks & Hfull & Hlt & Hparts & _).
  change (Z.of_nat 15) with 15 in Hchunks. rewrite Hchunks, <- Hw.
  destruct full as [|c full].
  - simpl in Hparts |- *. rewrite <- Hparts in Hne |- *.
    destruct others as [|l ls]; [contradiction|].
    simpl. rewrite firstn_all2 by (simpl in Hlt |- *; lia). reflexivity.
  - inversion Hfull as [|? ? Hc _]; subst. rewrite <- Hparts.
    simpl. rewrite <- app_assoc.
    rewrite firstn_app, <- Hc, firstn_all, Nat.sub_diag. simpl firstn.
    rewrite app_nil_r. symmetry. apply join_split.
Qed.

(** X22.  createTextElement always returns an element, placed at y, and it
    shows the first chunk of the text and nothing else: of a text whose
    lines all fit, the first 15 lines; the lines after the fifteenth are
    dropped. *)
Theorem single_text_element_keeps_first_chunk (text : string) (x y maxWidth : Q)
    (style : TextStyle) (w : World) :
  let maxChars := getCharactersPerLine (st_fontSize style) maxWidth in
  exists e w',
    createTextElement text x y maxWidth style w = (Returned (Some e), w')
    /\ el_y e = y
    /\ shownText e = hd "" (chunkText text maxChars 15)
    /\ (Forall (fun l => Z.of_nat (String.length l) <= maxChars) (split newline text) ->
        shownText e = join newline (firstn 15 (split newline text))
        /\ ((15 < length (split newline text))%nat -> shownText e <> text)).
Proof.
  intros maxChars.
  destruct (text_elements_stack_run text x y maxWidth style w)
    as (elements & total & w' & Hrun & Hshown & Hne & Hst).
  destruct elements as [|e elements]; [contradiction|].
  exists e, w'. unfold createTextElement, bind. rewrite Hrun.
  split; [reflexivity|]. destruct Hst as [Hy _]. split; [exact Hy|].
  fold maxChars in Hshown.
  assert (Hhd : shownText e = hd "" (chunkText text maxChars 15))
    by (rewrite <- Hshown; reflexivity).
  split; [exact Hhd|].
  intros Hfit. rewrite Hhd, (first_chunk_of_fitting text maxChars Hfit).
  split; [reflexivity|].
  intros Hlong Heq.
  assert (Hlen : length (split newline (join newline (firstn 15 (split newline text))))
                 = 15%nat).
  { rewrite split_join.
    - rewrite firstn_length_le by lia. reflexivity.
    - destruct (split newline text) as [|l ls] eqn:E; [simpl in Hlong; lia|discriminate].
    - pose proof (split_pieces_nosep newline text) as Hfree.
      rewrite <- (firstn_skipn 15 (split newline text)) in Hfree.
      apply Forall_app in Hfree. exact (proj1 Hfree). }
  rewrite Heq in Hlen. lia.
Qed.

Lemma single_text_element_keeps_first_chunk_witness :
  exists e w',
    createTextElement shortLinesText 90 1000 710 tableTextStyle basicWorld
    = (Returned (Some e), w')
    /\ shownText e <> shortLinesText.
Proof.
  destruct (single_text_element_keeps_first_chunk shortLinesText 90 1000 710
              tableTextStyle basicWorld)
    as (e & w' & Hrun & _ & _ & Hfit).
  exists e, w'. split; [exact Hrun|].
  apply Hfit.
  - vm_compute. repeat constructor; discriminate.
  - vm_compute. lia.
Defined.

(** ** Order indices of the basic diagram *)

Lemma indicesFrom_app c n1 n2 :
  indicesFrom c (n1 + n2) = indicesFrom c n1 ++ indicesFrom (c + n1) n2.
Proof. unfold indicesFrom. rewrite seq_app, map_app. reflexivity. Qed.

Lemma indicesFrom_NoDup c n : List.NoDup (indicesFrom c n).
Proof.
  unfold indicesFrom.
  assert (H : forall l, List.NoDup l -> List.NoDup (map indexAt l)).
  { induction 1 as [|a l Ha _ IH]; simpl; constructor; [|exact IH].
    intros Hin. apply in_map_iff in Hin as (b & Hb & Hbl).
    apply indexAt_inj in Hb. subst b. exact (Ha Hbl). }
  apply H, seq_NoDup.
Qed.

Lemma draws_indices_app w new1 w1 new2 w2 :
  draws_indices w new1 w1 -> draws_indices w1 new2 w2 ->
  draws_indices w (new1 ++ new2) w2.
Proof.
  intros [H1 C1] [H2 C2]. unfold draws_indices.
  rewrite map_app, length_app, indicesFrom_app, H1, H2, C1, C2. split; [reflexivity|lia].
Qed.

Lemma createEnvironmentElement_indices env x y width height w :
  exists new w',
    createEnvironmentElement env x y width height w = (Returned new, w')
    /\ draws_indices w new w' /\ keeps_library w w'.
Proof.
  unfold createEnvironmentElement. run_draws.
  eexists _, _. split; [reflexivity|]. unfold draws_indices, indicesFrom. simpl.
  repeat split; f_equal; lia.
Qed.

Lemma createSnaplexElement_indices snaplex x y width height w :
  exists new w',
    createSnaplexElement snaplex x y width height w = (Returned new, w')
    /\ draws_indices w new w' /\ keeps_library w w'.
Proof.
  unfold createSnaplexElement. run_draws.
  eexists _, _. split; [reflexivity|]. unfold draws_indices, indicesFrom. simpl.
  repeat split; f_equal; lia.
Qed.

Lemma createSnaplexContainer_indices snaplex x y width height w :
  exists outline w',
    createSnaplexContainer snaplex x y width height w = (Returned outline, w')
    /\ draws_indices w [outline] w' /\ keeps_library w w'.
Proof.
  unfold createSnaplexContainer. run_draws.
  eexists _, _. split; [reflexivity|]. unfold draws_indices, indicesFrom. simpl.
  repeat split; f_equal; lia.
Qed.

Lemma createNodeElement_indices node x y size w :
  exists new w',
    createNodeElement node x y size w = (Returned new, w')
    /\ draws_indices w new w' /\ keeps_library w w'.
Proof.
  unfold createNodeElement. run_draws.
  eexists _, _. split; [reflexivity|]. unfold draws_indices, indicesFrom. simpl.
  repeat split; f_equal; lia.
Qed.

Lemma createEndpointElement_indices endpoint x y width height w :
  exists new w',
    createEndpointElement endpoint x y width height w = (Returned new, w')
    /\ draws_indices w new w' /\ keeps_library w w'.
Proof.
  unfold createEndpointElement. run_draws.
  eexists _, _. split; [reflexivity|]. unfold draws_indices, indicesFrom. simpl.
  repeat split; f_equal; lia.
Qed.

Lemma createConnectionElement_indices conn sx sy ex ey w :
  exists arrow w',
    createConnectionElement conn sx sy ex ey w = (Returned arrow, w')
    /\ draws_indices w [arrow] w' /\ keeps_library w w'.
Proof.
  unfold createConnectionElement. run_draws.
  eexists _, _. split; [reflexivity|]. unfold draws_indices, indicesFrom. simpl.
  repeat split; f_equal; lia.
Qed.

(** A loop whose every iteration appends elements and draws their indices
    one after the other. *)
Section IndexLoops.
Context {A : Type}.
Variable f : A -> list ExcalidrawElement -> M (list ExcalidrawElement).
Hypothesis step : forall a elements w, unloaded w ->
  exists new w', f a elements w = (Returned (elements ++ new), w')
                 /\ draws_indices w new w' /\ unloaded w'.

Lemma forEachM_indices l : forall elements w, unloaded w ->
  exists new w', forEachM f l elements w = (Returned (elements ++ new), w')
                 /\ draws_indices w new w' /\ unloaded w'.
Proof.
  induction l as [|a l IH]; intros elements w Hw; simpl.
  - exists [], w. rewrite app_nil_r. repeat split; [|exact Hw].
    simpl. lia.
  - destruct (step a elements w Hw) as (new1 & w1 & Hrun1 & Hd1 & Hw1).
    destruct (IH (elements ++ new1) w1 Hw1) as (new2 & w2 & Hrun2 & Hd2 & Hw2).
    exists (new1 ++ new2), w2. unfold bind. rewrite Hrun1, Hrun2, <- app_assoc.
    split; [reflexivity|]. split; [|exact Hw2].
    exact (draws_indices_app _ _ _ _ _ Hd1 Hd2).
Qed.
End IndexLoops.

Section BasicIndices.
Variable layout : Layout.

Lemma nodeElements_indices node elements w :
  unloaded w ->
  exists new w',
    nodeElements libraryLoaderProvider layout node elements w = (Returned (elements ++ new), w')
    /\ draws_indices w new w' /\ unloaded w'.
Proof.
  intros Hw. unfold nodeElements, bind.
  rewrite createExecutionNode_unavailable by exact Hw.
  match goal with |- context [createNodeElement ?n ?x ?y ?s ?w0] =>
    destruct (createNodeElement_indices n x y s w0) as (new & w' & -> & Hd & Hk) end.
  exists new, w'. split; [reflexivity|]. split; [exact Hd|].
  eapply unloaded_keeps; [|exact Hk]. exact Hw.
Qed.

Lemma snaplexElements_indices snaplex elements w :
  unloaded w ->
  exists new w',
    snaplexElements libraryLoaderProvider layout snaplex elements w
    = (Returned (elements ++ new), w')
    /\ draws_indices w new w' /\ unloaded w'.
Proof.
  intros Hw. unfold snaplexElements. unfold bind at 1.
  rewrite createSnaplex_unavailable by exact Hw.
  match goal with |- context [createSnaplexElement ?n ?x ?y ?a ?b ?w0] =>
    destruct (createSnaplexElement_indices n x y a b w0) as (hd & w1 & -> & Hd1 & Hk1) end.
  unfold bind at 1.
  match goal with |- context [createSnaplexContainer ?n ?x ?y ?a ?b ?w0] =>
    destruct (createSnaplexContainer_indices n x y a b w0)
      as (outline & w2 & -> & Hd2 & Hk2) end.
  assert (Hw2 : unloaded w2).
  { eapply unloaded_keeps; [|exact Hk2]. eapply unloaded_keeps; [|exact Hk1]. exact Hw. }
  destruct (forEachM_indices (nodeElements libraryLoaderProvider layout)
              nodeElements_indices (nodes (container snaplex))
              ((elements ++ hd) ++ [outline]) w2 Hw2)
    as (new & w3 & -> & Hd3 & Hw3).
  exists (hd ++ [outline] ++ new), w3.
  rewrite <- !app_assoc. split; [reflexivity|]. split; [|exact Hw3].
  apply (draws_indices_app _ _ w1); [exact Hd1|].
  apply (draws_indices_app _ _ w2); [exact Hd2|exact Hd3].
Qed.

Lemma environmentElements_indices env elements w :
  unloaded w ->
  exists new w',
    environmentElements libraryLoaderProvider layout env elements w
    = (Returned (elements ++ new), w')
    /\ draws_indices w new w' /\ unloaded w'.
Proof.
  intros Hw. unfold environmentElements. unfold bind at 1.
  match goal with |- context [createEnvironmentElement ?n ?x ?y ?a ?b ?w0] =>
    destruct (createEnvironmentElement_indices n x y a b w0) as (hd & w1 & -> & Hd1 & Hk1) end.
  assert (Hw1 : unloaded w1) by (eapply unloaded_keeps; [|exact Hk1]; exact Hw).
  destruct (forEachM_indices (snaplexElements libraryLoaderProvider layout)
              snaplexElements_indices (snaplexes env) (elements ++ hd) w1 Hw1)
    as (new & w2 & -> & Hd2 & Hw2).
  exists (hd ++ new), w2. rewrite <- app_assoc. split; [reflexivity|].
  split; [|exact Hw2]. exact (draws_indices_app _ _ _ _ _ Hd1 Hd2).
Qed.

Lemma endpointElements_indices endpoint elements w :
  unloaded w ->
  exists new w',
    endpointElements layout endpoint elements w = (Returned (elements ++ new), w')
    /\ draws_indices w new w' /\ unloaded w'.
Proof.
  intros Hw. unfold endpointElements, ShapeFactory.createEndpoint, bind.
  match goal with |- context [createEndpointElement ?n ?x ?y ?a ?b ?w0] =>
    destruct (createEndpointElement_indices n x y a b w0) as (new & w1 & -> & Hd1 & Hk1) end.
  exists new, w1. split; [reflexivity|]. split; [exact Hd1|].
  eapply unloaded_keeps; [|exact Hk1]. exact Hw.
Qed.

Lemma connectionElements_indices conn elements w :
  unloaded w ->
  exists new w',
    connectionElements layout conn elements w = (Returned (elements ++ new), w')
    /\ draws_indices w new w' /\ unloaded w'.
Proof.
  intros Hw. unfold connectionElements, resolveConnection, bind.
  match goal with |- context [createConnectionElement ?n ?x ?y ?a ?b ?w0] =>
    destruct (createConnectionElement_indices n x y a b w0)
      as (arrow & w1 & -> & Hd1 & Hk1) end.
  exists [arrow], w1. split; [reflexivity|]. split; [exact Hd1|].
  eapply unloaded_keeps; [|exact Hk1]. exact Hw.
Qed.
End BasicIndices.

(** X24.  With the library not loaded, no two elements of a diagram share
    an order index: the indices of the elements are, in order, the ones
    generateIndex returns from the current counter on, one per element, and
    the counter ends that much further. *)
Theorem basic_diagram_indices_distinct (w : World) :
  isLoaded (libraryLoader w) = false ->
  exists elements w',
    generateExcalidrawElements libraryLoaderProvider w = (Returned elements, w')
    /\ map el_index elements = indicesFrom (indexCounter w) (length elements)
    /\ indexCounter w' = (indexCounter w + length elements)%nat
    /\ List.NoDup (map el_index elements).
Proof.
  intros Hw. unfold generateExcalidrawElements. unfold bind at 1. unfold gets.
  set (layout := autoLayout _ _).
  destruct (forEachM_indices (environmentElements libraryLoaderProvider layout)
              (environmentElements_indices layout)
              (environments (architecture w)) [] w Hw)
    as (new1 & w1 & Hrun1 & Hd1 & Hw1).
  destruct (forEachM_indices (endpointElements layout) (endpointElements_indices layout)
              (endpoints (architecture w)) new1 w1 Hw1)
    as (new2 & w2 & Hrun2 & Hd2 & Hw2).
  destruct (forEachM_indices (connectionElements layout) (connectionElements_indices layout)
              (connections (architecture w)) (new1 ++ new2) w2 Hw2)
    as (new3 & w3 & Hrun3 & Hd3 & Hw3).
  exists ((new1 ++ new2) ++ new3), w3.
  unfold bind. simpl in Hrun1. rewrite Hrun1, Hrun2, Hrun3.
  split; [reflexivity|].
  destruct (draws_indices_app _ _ _ _ _ (draws_indices_app _ _ _ _ _ Hd1 Hd2) Hd3)
    as [Hidx Hcount].
  split; [exact Hidx|]. split; [exact Hcount|].
  rewrite Hidx. apply indicesFrom_NoDup.
Qed.

Lemma basic_diagram_indices_distinct_witness :
  exists elements w',
    generateExcalidrawElements libraryLoaderProvider scenarioWorld = (Returned elements, w')
    /\ List.NoDup (map el_index elements).
Proof.
  destruct (basic_diagram_indices_distinct scenarioWorld eq_refl)
    as (elements & w' & Hrun & _ & _ & Hnd).
  exists elements, w'. split; [exact Hrun | exact Hnd].
Defined.

(** ** The store's actions and the Sidebar's node buttons *)

Lemma withSnaplexes_same env : withSnaplexes env (snaplexes env) = env.
Proof. destruct env; reflexivity. Qed.

Lemma withNodes_same s : withNodes s (nodes (container s)) = s.
Proof. destruct s as [? ? ? ? [? ? ?] ?]; reflexivity. Qed.

Lemma inEnvironment_ext envId f g envs :
  (forall env, In env envs -> env_id env = envId ->
     f (snaplexes env) = g (snaplexes env)) ->
  inEnvironment envId f envs = inEnvironment envId g envs.
Proof.
  intros H. unfold inEnvironment. apply map_ext_in. intros env Hin.
  destruct (String.eqb (env_id env) envId) eqn:E; [|reflexivity].
  apply String.eqb_eq in E. rewrite (H env Hin E). reflexivity.
Qed.

Lemma inEnvironment_same envId envs : inEnvironment envId (fun l => l) envs = envs.
Proof.
  unfold inEnvironment. rewrite <- (map_id envs) at 2. apply map_ext. intros env.
  destruct (String.eqb _ _); [apply withSnaplexes_same | reflexivity].
Qed.

Lemma inEnvironment_compose envId f g envs :
  inEnvironment envId g (inEnvironment envId f envs)
  = inEnvironment envId (fun l => g (f l)) envs.
Proof.
  unfold inEnvironment. rewrite map_map. apply map_ext. intros env.
  destruct (String.eqb (env_id env) envId) eqn:E.
  - simpl. rewrite E. reflexivity.
  - rewrite E. reflexivity.
Qed.

Lemma inCluster_ext snaplexId f g l :
  (forall s, In s l -> snaplex_id s = snaplexId ->
     f (nodes (container s)) = g (nodes (container s))) ->
  inCluster snaplexId f l = inCluster snaplexId g l.
Proof.
  intros H. unfold inCluster. apply map_ext_in. intros s Hin.
  destruct (String.eqb (snaplex_id s) snaplexId) eqn:E; [|reflexivity].
  apply String.eqb_eq in E. rewrite (H s Hin E). reflexivity.
Qed.

Lemma inCluster_same snaplexId l : inCluster snaplexId (fun ns => ns) l = l.
Proof.
  unfold inCluster. rewrite <- (map_id l) at 2. apply map_ext. intros s.
  destruct (String.eqb _ _); [apply withNodes_same | reflexivity].
Qed.

Lemma inCluster_compose snaplexId f g l :
  inCluster snaplexId g (inCluster snaplexId f l)
  = inCluster snaplexId (fun ns => g (f ns)) l.
Proof.
  unfold inCluster. rewrite map_map. apply map_ext. intros s.
  destruct (String.eqb (snaplex_id s) snaplexId) eqn:E.
  - simpl. rewrite E. reflexivity.
  - rewrite E. reflexivity.
Qed.

(** An action on the nodes of a cluster that is not there changes nothing. *)
Lemma inSnaplex_unaddressed envId snaplexId f envs :
  (forall env s, In env envs -> env_id env = envId ->
     In s (snaplexes env) -> snaplex_id s <> snaplexId) ->
  inSnaplex envId snaplexId f envs = envs.
Proof.
  intros H. unfold inSnaplex.
  rewrite (inEnvironment_ext envId _ (fun l => l)); [apply inEnvironment_same|].
  intros env Hin He. unfold inCluster.
  rewrite <- (map_id (snaplexes env)) at 2. apply map_ext_in. intros s Hs.
  destruct (String.eqb (snaplex_id s) snaplexId) eqn:E; [|reflexivity].
  apply String.eqb_eq in E. contradiction (H env s Hin He Hs E).
Qed.

Lemma filter_keeps_all {A : Type} (p : A -> bool) (l : list A) :
  (forall a, In a l -> p a = true) -> List.filter p l = l.
Proof.
  induction l as [|a l IH]; intros H; simpl; [reflexivity|].
  rewrite (H a (or_introl eq_refl)), IH; [reflexivity|].
  intros b Hb. apply H. right. exact Hb.
Qed.

Lemma find_map_same {A : Type} (p : A -> bool) (f : A -> A) (l : list A) :
  (forall a, p (f a) = p a) -> List.find p (map f l) = option_map f (List.find p l).
Proof.
  intros H. induction l as [|a l IH]; simpl; [reflexivity|].
  rewrite H. destruct (p a); [reflexivity | exact IH].
Qed.

Lemma sample_clusters_known env s :
  In env (store_environments sampleStore) -> env_id env = "env-9" ->
  In s (snaplexes env) -> snaplex_id s <> "c2".
Proof.
  intros Hin He. simpl in Hin.
  destruct Hin as [<-|[<-|[<-|[]]]]; simpl in He; discriminate.
Qed.

(** X25.  A node sent to a cluster the store does not hold is lost without
    a word: when no environment with the addressed id holds a cluster with
    the addressed id, addExecutionNode, updateExecutionNode and
    removeExecutionNode leave the environments exactly as they were, and
    the store still records the call as an update at the current time. *)
Theorem unknown_cluster_drops_the_node (now : Z) (envId snaplexId nodeId : string)
    (node : ExecutionNode) (updates : ExecutionNodeUpdate) (st : ArchitectureStore) :
  (forall env s, In env (store_environments st) -> env_id env = envId ->
     In s (snaplexes env) -> snaplex_id s <> snaplexId) ->
  store_environments (Store.addExecutionNode now envId snaplexId node st)
    = store_environments st
  /\ store_environments (Store.updateExecutionNode now envId snaplexId nodeId updates st)
    = store_environments st
  /\ store_environments (Store.removeExecutionNode now envId snaplexId nodeId st)
    = store_environments st
  /\ meta_updatedAt (store_metadata (Store.addExecutionNode now envId snaplexId node st))
    = now.
Proof.
  intros H. repeat split; simpl; apply inSnaplex_unaddressed; exact H.
Qed.

Lemma unknown_cluster_drops_the_node_witness :
  store_environments
    (Store.addExecutionNode 7 "env-9" "c2" sizelessNode sampleStore)
  = store_environments sampleStore.
Proof.
  exact (proj1 (unknown_cluster_drops_the_node 7 "env-9" "c2" "n1" sizelessNode noUpdate
                  sampleStore sample_clusters_known)).
Defined.

Lemma sample_node_is_new env s n :
  In env (store_environments sampleStore) -> env_id env = "env-2" ->
  In s (snaplexes env) -> snaplex_id s = "c4" ->
  In n (nodes (container s)) -> node_id n <> node_id sizelessNode.
Proof.
  intros Hin He. simpl in Hin.
  destruct Hin as [<-|[<-|[<-|[]]]]; simpl in He; try discriminate.
  intros Hs Hsid. simpl in Hs.
  destruct Hs as [<-|[<-|[<-|[]]]]; simpl in Hsid; try discriminate.
  intros Hn. simpl in Hn. destruct Hn as [<-|[]]. simpl. discriminate.
Qed.

(** X26.  Adding a node to a cluster and removing it again by its id gives
    the environments back as they were, provided no node of an addressed
    cluster already had that id.  (removeExecutionNode filters by id, so a
    node that shared the id would go with it.) *)
Theorem node_added_then_removed (now1 now2 : Z) (envId snaplexId : string)
    (node : ExecutionNode) (st : ArchitectureStore) :
  (forall env s n, In env (store_environments st) -> env_id env = envId ->
     In s (snaplexes env) -> snaplex_id s = snaplexId ->
     In n (nodes (container s)) -> node_id n <> node_id node) ->
  store_environments
    (Store.removeExecutionNode now2 envId snaplexId (node_id node)
       (Store.addExecutionNode now1 envId snaplexId node st))
  = store_environments st.
Proof.
  intros H. simpl. unfold inSnaplex. rewrite inEnvironment_compose.
  rewrite (inEnvironment_ext envId _ (fun l => l)); [apply inEnvironment_same|].
  intros env Hin He. rewrite inCluster_compose.
  rewrite (inCluster_ext snaplexId _ (fun ns => ns)); [apply inCluster_same|].
  intros s Hs Hsid. rewrite List.filter_app. simpl.
  rewrite String.eqb_refl. simpl. rewrite app_nil_r.
  apply filter_keeps_all. intros n Hn.
  apply negb_true_iff, String.eqb_neq. exact (H env s n Hin He Hs Hsid Hn).
Qed.

Lemma node_added_then_removed_witness :
  store_environments
    (Store.removeExecutionNode 8 "env-2" "c4" "n1"
       (Store.addExecutionNode 7 "env-2" "c4" sizelessNode sampleStore))
  = store_environments sampleStore.
Proof.
  exact (node_added_then_removed 7 8 "env-2" "c4" sizelessNode sampleStore
           sample_node_is_new).
Defined.

(** *** The node buttons *)

(** The node the handlers look up is, after an update that keeps ids, the
    updated one. *)
Lemma findNode_updated envId snaplexId nodeId updates envs node :
  upd_id updates = None ->
  findNode envId snaplexId nodeId envs = Some node ->
  findNode envId snaplexId nodeId
    (inSnaplex envId snaplexId
       (map (fun n => if String.eqb (node_id n) nodeId then updated n updates else n))
       envs)
  = Some (updated node updates).
Proof.
  intros Hid. unfold findNode, inSnaplex, inEnvironment.
  rewrite find_map_same
    by (intros env; cbv beta; destruct (String.eqb (env_id env) envId) eqn:E;
        simpl; exact E).
  destruct (List.find _ envs) as [env|] eqn:Fe; [|discriminate].
  apply List.find_some in Fe as [_ Fe]. simpl. rewrite Fe. simpl.
  unfold inCluster.
  rewrite find_map_same
    by (intros s; cbv beta; destruct (String.eqb (snaplex_id s) snaplexId) eqn:E;
        simpl; exact E).
  destruct (List.find _ (snaplexes env)) as [s|] eqn:Fs; [|discriminate].
  apply List.find_some in Fs as [_ Fs]. simpl. rewrite Fs. simpl.
  rewrite find_map_same.
  - intros Fn. rewrite Fn. simpl.
    apply List.find_some in Fn as [_ Fn]. rewrite Fn. reflexivity.
  - intros n. cbv beta. destruct (String.eqb (node_id n) nodeId) eqn:E; [|exact E].
    unfold updated. simpl. rewrite Hid. simpl. exact E.
Qed.

Lemma sample_node_found :
  findNode "env-2" "c4" "18" (store_environments sampleStore)
  = Some (sampleNode "18" medium false).
Proof. reflexivity. Qed.

(** X27.  The size buttons move the node they find one step along medium,
    L, XL, 2XL: up from a node without a size gives medium, up from 2XL
    stays at 2XL, down from medium stays at medium, and down from a node
    without a size leaves it without one, so that a size, once given,
    cannot be taken away again.  Nothing else of the node changes. *)
Theorem size_buttons_step (now : Z) (envId snaplexId nodeId : string)
    (node : ExecutionNode) (st : ArchitectureStore) :
  findNode envId snaplexId nodeId (store_environments st) = Some node ->
  findNode envId snaplexId nodeId
    (store_environments (handleNodeSizeUp now envId snaplexId nodeId st))
  = Some (withSize node (Some (sizeAbove (node_size node))))
  /\ findNode envId snaplexId nodeId
       (store_environments (handleNodeSizeDown now envId snaplexId nodeId st))
     = Some (withSize node (sizeBelow (node_size node))).
Proof.
  intros Hf. unfold handleNodeSizeUp, handleNodeSizeDown. rewrite Hf.
  split.
  - destruct (indexOfSize (node_size node) <? Z.of_nat (length sizeOrder) - 1) eqn:E.
    + simpl store_environments.
      erewrite findNode_updated; [|reflexivity|exact Hf]. f_equal.
      destruct node as [i n t h s [[| | |]|] m]; simpl in E; try discriminate;
        reflexivity.
    + rewrite Hf. f_equal.
      destruct node as [i n t h s [[| | |]|] m]; simpl in E; try discriminate;
        reflexivity.
  - destruct (0 <? indexOfSize (node_size node)) eqn:E.
    + simpl store_environments.
      erewrite findNode_updated; [|reflexivity|exact Hf]. f_equal.
      destruct node as [i n t h s [[| | |]|] m]; simpl in E; try discriminate;
        reflexivity.
    + rewrite Hf. f_equal.
      destruct node as [i n t h s [[| | |]|] m]; simpl in E; try discriminate;
        reflexivity.
Qed.

Lemma size_buttons_step_witness :
  findNode "env-2" "c4" "18"
    (store_environments (handleNodeSizeUp 7 "env-2" "c4" "18" sampleStore))
  = Some (sampleNode "18" L false).
Proof.
  exact (proj1 (size_buttons_step 7 "env-2" "c4" "18" _ sampleStore sample_node_found)).
Defined.

(** An update that keeps ids keeps the ids and the order of everything. *)
Lemma updated_skeleton envId snaplexId nodeId updates envs :
  upd_id updates = None ->
  map environmentSkeleton
    (inSnaplex envId snaplexId
       (map (fun n => if String.eqb (node_id n) nodeId then updated n updates else n))
       envs)
  = map environmentSkeleton envs.
Proof.
  intros Hid. unfold inSnaplex, inEnvironment. rewrite map_map. apply map_ext.
  intros env. destruct (String.eqb (env_id env) envId); [|reflexivity].
  unfold environmentSkeleton. simpl. f_equal.
  unfold inCluster. rewrite map_map. apply map_ext.
  intros s. destruct (String.eqb (snaplex_id s) snaplexId); [|reflexivity].
  unfold snaplexSkeleton. simpl. f_equal.
  rewrite map_map. apply map_ext.
  intros n. destruct (String.eqb (node_id n) nodeId); [|reflexivity].
  unfold updated. simpl. rewrite Hid. reflexivity.
Qed.

Lemma updated_layout now envId snaplexId nodeId updates st :
  upd_id updates = None ->
  storeLayout (Store.updateExecutionNode now envId snaplexId nodeId updates st)
  = storeLayout st.
Proof.
  intros Hid. unfold storeLayout. simpl.
  apply autoLayout_reads_ids_only; [|reflexivity].
  apply updated_skeleton. exact Hid.
Qed.

(** X28.  Resizing a node or toggling its memory optimisation never moves
    anything: after any of the three node buttons the layout of the store
    (every position and every box size) is what it was before. *)
Theorem node_buttons_keep_the_layout (now : Z) (envId snaplexId nodeId : string)
    (st : ArchitectureStore) :
  storeLayout (handleNodeSizeUp now envId snaplexId nodeId st) = storeLayout st
  /\ storeLayout (handleNodeSizeDown now envId snaplexId nodeId st) = storeLayout st
  /\ storeLayout (handleToggleMO now envId snaplexId nodeId st) = storeLayout st.
Proof.
  unfold handleNodeSizeUp, handleNodeSizeDown, handleToggleMO.
  destruct (findNode envId snaplexId nodeId (store_environments st)) as [node|];
    [|repeat split].
  repeat split.
  - destruct (_ <? _); [apply updated_layout|]; reflexivity.
  - destruct (_ <? _); [apply updated_layout|]; reflexivity.
  - destruct (isJCC _); [apply updated_layout|]; reflexivity.
Qed.

(** *** Positions and what the store holds *)

(** The layout writes no key but those of its input. *)
Lemma autoLayout_other_keys envs eps k :
  ~ In k (layoutKeys envs eps) -> positions (autoLayout envs eps) !! k = None.
Proof.
  intros Hk. unfold autoLayout, forEach. cbn [positions].
  rewrite endpointLoop_other
    by (intros H; apply Hk, in_or_app; right; exact H).
  rewrite envLoop_other
    by (intros H; apply Hk, in_or_app; left; exact H).
  apply lookup_empty.
Qed.

(** X29.  The position table holds nothing but the input: every key with a
    position is the prefixed id of an environment, a cluster, a node or an
    endpoint of the input. *)
Theorem layout_has_no_stray_positions (envs : list Environment) (eps : list Endpoint)
    (k : string) (p : Point) :
  positions (autoLayout envs eps) !! k = Some p -> In k (layoutKeys envs eps).
Proof.
  intros H.
  destruct (in_dec String.string_dec k (layoutKeys envs eps)) as [Hin|Hout];
    [exact Hin|].
  rewrite (autoLayout_other_keys envs eps k Hout) in H. discriminate.
Qed.

Lemma layout_has_no_stray_positions_witness :
  In "endpoint-e2" (layoutKeys sampleEnvironments sampleEndpoints).
Proof.
  apply (layout_has_no_stray_positions sampleEnvironments sampleEndpoints "endpoint-e2"
           {| pt_x := 250; pt_y := 1350 |}).
  vm_compute. reflexivity.
Defined.

Lemma endpoint_key_not_environment envs id :
  ~ In ("endpoint-" +:+ id) (flat_map environmentKeys envs).
Proof.
  intros H. apply in_flat_map in H as (env & _ & [H|H]); [discriminate|].
  apply in_flat_map in H as (s & _ & [H|H]); [discriminate|].
  unfold nodeKeys in H. apply in_map_iff in H as (n & H & _). discriminate.
Qed.

Lemma removed_endpoint_key id eps envs :
  ~ In ("endpoint-" +:+ id)
      (layoutKeys envs
         (List.filter (fun ep => negb (String.eqb (endpoint_id ep) id)) eps)).
Proof.
  intros H. apply in_app_or in H as [H|H].
  - exact (endpoint_key_not_environment envs id H).
  - unfold endpointKeys in H. apply in_map_iff in H as (ep & Hk & Hin).
    apply prefixed_inj in Hk. apply List.filter_In in Hin as [_ Hne].
    rewrite Hk, String.eqb_refl in Hne. discriminate.
Qed.

Lemma sample_connection_in :
  In {| conn_id := "k1"; source := "snaplex-c2"; target := "endpoint-e2";
        conn_type := data_flow; label := None |} (store_connections sampleStore).
Proof. left. reflexivity. Qed.

(** X30.  Removing an endpoint leaves the connections to it in the store:
    removeEndpoint filters the endpoints only.  The layout of the store has
    then no position under the endpoint's key, and the arrow of such a
    connection is still drawn, ending at the fixed point (100, 100). *)
Theorem removed_endpoint_leaves_connections (now : Z) (id : string)
    (st : ArchitectureStore) (conn : Connection) (w : World) :
  In conn (store_connections st) ->
  target conn = "endpoint-" +:+ id ->
  In conn (store_connections (Store.removeEndpoint now id st))
  /\ positions (storeLayout (Store.removeEndpoint now id st)) !! target conn = None
  /\ exists arrow w',
       resolveConnection (positions (storeLayout (Store.removeEndpoint now id st)))
         conn w = (Returned arrow, w')
       /\ (el_x arrow + el_width arrow == 100)%Q
       /\ (el_y arrow + el_height arrow == 100)%Q.
Proof.
  intros Hin Ht.
  assert (Hnone : positions (storeLayout (Store.removeEndpoint now id st))
                    !! target conn = None).
  { rewrite Ht. unfold storeLayout. simpl.
    apply autoLayout_other_keys, removed_endpoint_key. }
  split; [exact Hin|]. split; [exact Hnone|].
  assert (Hpos : positionOr (positions (storeLayout (Store.removeEndpoint now id st)))
                   (target conn) {| pt_x := 100; pt_y := 100 |}
                 = {| pt_x := 100; pt_y := 100 |}).
  { unfold positionOr. rewrite Hnone. reflexivity. }
  unfold resolveConnection. rewrite Hpos. cbn [pt_x pt_y].
  destruct (createConnectionElement_runs conn
              (pt_x (positionOr (positions (storeLayout (Store.removeEndpoint now id st)))
                       (source conn) {| pt_x := 0; pt_y := 0 |}))
              (pt_y (positionOr (positions (storeLayout (Store.removeEndpoint now id st)))
                       (source conn) {| pt_x := 0; pt_y := 0 |}))
              100 100 w)
    as (arrow & w' & Hrun & _ & _ & Hx & Hy & Hw & Hh & _).
  exists arrow, w'. split; [exact Hrun|].
  rewrite Hx, Hy, Hw, Hh, <- !inject_Z_plus.
  split; apply inject_Z_injective; lia.
Qed.

Lemma removed_endpoint_leaves_connections_witness :
  positions (storeLayout (Store.removeEndpoint 7 "e2" sampleStore)) !! "endpoint-e2"
  = None.
Proof.
  exact (proj1 (proj2 (removed_endpoint_leaves_connections 7 "e2" sampleStore _ basicWorld
                         sample_connection_in eq_refl))).
Defined.

(** ** The pipeline on references *)

(** *** What a run leaves of the heap *)

Lemma untouched_refl n m : (n <= length (objects m))%nat -> untouched n m m.
Proof. intros H. split; [exact H|reflexivity]. Qed.

Lemma untouched_trans n m1 m2 m3 :
  untouched n m1 m2 -> untouched n m2 m3 -> untouched n m1 m3.
Proof.
  intros [H1 H2] [H3 H4]. split; [exact H3|].
  intros l Hl. rewrite H4, H2 by exact Hl. reflexivity.
Qed.

Section Leaves.
Variable n : nat.

Lemma leaves_rret {A} (a : A) (Q : A -> Prop) : Q a -> leaves n (rret a) Q.
Proof.
  intros Ha m Hm. split; [apply untouched_refl, Hm|].
  intros a' H. injection H as <-. exact Ha.
Qed.

Lemma leaves_rthrow {A} (e : string) (Q : A -> Prop) : leaves n (rthrow e) Q.
Proof. intros m Hm. split; [apply untouched_refl, Hm|]. intros a H. discriminate H. Qed.

Lemma leaves_rbind {A B} (c : Prog A) (k : A -> Prog B) (Q : A -> Prop) (Q' : B -> Prop) :
  leaves n c Q -> (forall a, Q a -> leaves n (k a) Q') -> leaves n (rbind c k) Q'.
Proof.
  intros Hc Hk m Hm. unfold rbind. destruct (Hc m Hm) as [Hu Hq].
  destruct (c m) as [[a|e] m1]; simpl in *.
  - destruct (Hk a (Hq a eq_refl) m1 (proj1 Hu)) as [Hu' Hq'].
    split; [exact (untouched_trans _ _ _ _ Hu Hu')|exact Hq'].
  - split; [exact Hu|]. intros b H. discriminate H.
Qed.

Lemma leaves_lift {A} (c : M A) : leaves n (lift c) (fun _ => True).
Proof. intros m Hm. split; [split; [exact Hm|reflexivity]|]. intros; exact I. Qed.

Lemma leaves_alloc (o : Obj) : leaves n (alloc o) (fun l => (n <= l)%nat).
Proof.
  intros m Hm. split.
  - split; simpl.
    + rewrite length_app. lia.
    + intros l Hl. apply lookup_app_l. lia.
  - intros l H. injection H as <-. exact Hm.
Qed.

Lemma leaves_deref (l : Loc) : leaves n (deref l) (fun _ => True).
Proof.
  intros m Hm. unfold deref. destruct (objects m !! l); simpl.
  - split; [apply untouched_refl, Hm|]. intros; exact I.
  - split; [apply untouched_refl, Hm|]. intros; exact I.
Qed.

Lemma leaves_assign (l : Loc) (o : Obj) :
  (n <= l)%nat -> leaves n (assign l o) (fun _ => True).
Proof.
  intros Hl m Hm. split; [|intros; exact I].
  split; simpl.
  - rewrite length_insert. exact Hm.
  - intros l' Hl'. apply list_lookup_insert_ne. lia.
Qed.

Lemma leaves_read {A} (load : list Obj -> Loc -> option A) (l : Loc) :
  leaves n (read load l) (fun _ => True).
Proof.
  intros m Hm. unfold read. destruct (load (objects m) l); simpl.
  - split; [apply untouched_refl, Hm|]. intros; exact I.
  - split; [apply untouched_refl, Hm|]. intros; exact I.
Qed.

(** Reading follows references and assigns to nothing. *)
Ltac reads :=
  repeat first
    [ apply leaves_rret; exact I
    | apply leaves_rthrow
    | apply leaves_deref
    | eapply leaves_rbind; [apply leaves_deref|intros [] _] ].

Lemma leaves_readArray (l : Loc) : leaves n (readArray l) (fun _ => True).
Proof. unfold readArray. reads. Qed.

Lemma leaves_envId (l : Loc) : leaves n (envId l) (fun _ => True).
Proof. unfold envId. reads. Qed.

Lemma leaves_envSnaplexes (l : Loc) : leaves n (envSnaplexes l) (fun _ => True).
Proof. unfold envSnaplexes. reads. Qed.

Lemma leaves_snaplexId (l : Loc) : leaves n (snaplexId l) (fun _ => True).
Proof. unfold snaplexId. reads. Qed.

Lemma leaves_snaplexContainerNodes (l : Loc) :
  leaves n (snaplexContainerNodes l) (fun _ => True).
Proof. unfold snaplexContainerNodes. reads. Qed.

Lemma leaves_nodeId (l : Loc) : leaves n (nodeId l) (fun _ => True).
Proof. unfold nodeId. reads. Qed.

Lemma leaves_endpointId (l : Loc) : leaves n (endpointId l) (fun _ => True).
Proof. unfold endpointId. reads. Qed.

Lemma leaves_positionsGetOr (l : Loc) key d : leaves n (positionsGetOr l key d) (fun _ => True).
Proof. unfold positionsGetOr. reads. Qed.

Lemma leaves_dimensionsGetOr (l : Loc) key d :
  leaves n (dimensionsGetOr l key d) (fun _ => True).
Proof. unfold dimensionsGetOr. reads. Qed.

(** Assigning leaves alone what was there before the assigned object. *)
Lemma leaves_positionsSet (l : Loc) key value :
  (n <= l)%nat -> leaves n (positionsSet l key value) (fun _ => True).
Proof.
  intros Hl. unfold positionsSet.
  eapply leaves_rbind; [apply leaves_deref|intros [] _];
    first [apply leaves_rthrow | apply leaves_assign, Hl].
Qed.

Lemma leaves_dimensionsSet (l : Loc) key value :
  (n <= l)%nat -> leaves n (dimensionsSet l key value) (fun _ => True).
Proof.
  intros Hl. unfold dimensionsSet.
  eapply leaves_rbind; [apply leaves_deref|intros [] _];
    first [apply leaves_rthrow | apply leaves_assign, Hl].
Qed.

Lemma leaves_push (l : Loc) shapes :
  (n <= l)%nat -> leaves n (push l shapes) (fun _ => True).
Proof.
  intros Hl. unfold push.
  eapply leaves_rbind; [apply leaves_deref|intros [] _];
    first [apply leaves_rthrow | apply leaves_assign, Hl].
Qed.

Lemma leaves_forEachRef_from {S} (body : Loc -> nat -> S -> Prog S) array count :
  (forall l i s, leaves n (body l i s) (fun _ => True)) ->
  forall index s, leaves n (forEachRef_from count array index body s) (fun _ => True).
Proof.
  intros Hbody. induction count as [|count IH]; intros index s; simpl.
  - apply leaves_rret. exact I.
  - eapply leaves_rbind; [apply leaves_readArray|]. intros items _.
    destruct (items !! index) as [item|]; [|apply IH].
    eapply leaves_rbind; [apply Hbody|]. intros s' _. apply IH.
Qed.

Lemma leaves_forEachRef {S} (body : Loc -> nat -> S -> Prog S) array s :
  (forall l i s, leaves n (body l i s) (fun _ => True)) ->
  leaves n (forEachRef array body s) (fun _ => True).
Proof.
  intros Hbody. unfold forEachRef.
  eapply leaves_rbind; [apply leaves_readArray|]. intros items _.
  apply leaves_forEachRef_from, Hbody.
Qed.

(** One step of a run: a read, an assignment to an object allocated by the
    run, a step on values, or a loop of such. *)
Ltac step :=
  first
    [ apply leaves_rret; exact I
    | apply leaves_rthrow
    | apply leaves_lift
    | apply leaves_read
    | apply leaves_readArray
    | apply leaves_envId | apply leaves_envSnaplexes
    | apply leaves_snaplexId | apply leaves_snaplexContainerNodes
    | apply leaves_nodeId | apply leaves_endpointId
    | apply leaves_positionsGetOr | apply leaves_dimensionsGetOr
    | apply leaves_positionsSet; assumption
    | apply leaves_dimensionsSet; assumption
    | apply leaves_push; assumption ].

Ltac steps :=
  repeat match goal with
         | |- leaves _ (forEachRef _ _ _) _ => fail 1
         | |- _ => first [ step | eapply leaves_rbind; [step|intros ? _] ]
         end.

Lemma leaves_nodeBody positions nodeStartX node nIndex st :
  (n <= positions)%nat ->
  leaves n (ByReference.nodeBody positions nodeStartX node nIndex st) (fun _ => True).
Proof. intros Hp. unfold ByReference.nodeBody. steps. Qed.

Lemma leaves_snaplexBody positions envDimensions snaplexY snaplex sIndex st :
  (n <= positions)%nat -> (n <= envDimensions)%nat ->
  leaves n (ByReference.snaplexBody positions envDimensions snaplexY snaplex sIndex st)
    (fun _ => True).
Proof.
  intros Hp Hd. unfold ByReference.snaplexBody. steps.
  eapply leaves_rbind.
  { apply leaves_forEachRef. intros. apply leaves_nodeBody, Hp. }
  intros ? _. steps.
Qed.

Lemma leaves_envBody positions envDimensions env index st :
  (n <= positions)%nat -> (n <= envDimensions)%nat ->
  leaves n (ByReference.envBody positions envDimensions env index st) (fun _ => True).
Proof.
  intros Hp Hd. unfold ByReference.envBody. steps.
  eapply leaves_rbind.
  { apply leaves_forEachRef. intros. apply leaves_snaplexBody; assumption. }
  intros ? _. steps.
  destruct (_ =? _); steps.
Qed.

Lemma leaves_endpointBody positions currentY endpoint index st :
  (n <= positions)%nat ->
  leaves n (ByReference.endpointBody positions currentY endpoint index st) (fun _ => True).
Proof. intros Hp. unfold ByReference.endpointBody. steps. Qed.

Lemma leaves_autoLayout environments endpoints :
  leaves n (ByReference.autoLayout environments endpoints)
    (fun layout => (n <= fst layout)%nat /\ (n <= snd layout)%nat).
Proof.
  unfold ByReference.autoLayout.
  eapply leaves_rbind; [apply leaves_alloc|]. intros positions Hp.
  eapply leaves_rbind; [apply leaves_alloc|]. intros envDimensions Hd.
  eapply leaves_rbind.
  { apply leaves_forEachRef. intros. apply leaves_envBody; assumption. }
  intros ev _.
  eapply leaves_rbind; [apply leaves_readArray|]. intros items _.
  eapply leaves_rbind.
  { apply leaves_forEachRef. intros. apply leaves_endpointBody, Hp. }
  intros _ _. apply leaves_rret. split; assumption.
Qed.

Section App.
Variable provider : ShapeProvider.

Lemma leaves_nodeElements elements positions node index st :
  (n <= elements)%nat ->
  leaves n (ByReference.nodeElements provider elements positions node index st)
    (fun _ => True).
Proof. intros He. unfold ByReference.nodeElements. steps. Qed.

Lemma leaves_snaplexElements elements positions envDimensions snaplex index st :
  (n <= elements)%nat ->
  leaves n (ByReference.snaplexElements provider elements positions envDimensions
              snaplex index st) (fun _ => True).
Proof.
  intros He. unfold ByReference.snaplexElements. steps.
  apply leaves_forEachRef. intros. apply leaves_nodeElements, He.
Qed.

Lemma leaves_environmentElements elements positions envDimensions env index st :
  (n <= elements)%nat ->
  leaves n (ByReference.environmentElements provider elements positions envDimensions
              env index st) (fun _ => True).
Proof.
  intros He. unfold ByReference.environmentElements. steps.
  apply leaves_forEachRef. intros. apply leaves_snaplexElements, He.
Qed.

Lemma leaves_endpointElements elements positions endpoint index st :
  (n <= elements)%nat ->
  leaves n (ByReference.endpointElements elements positions endpoint index st)
    (fun _ => True).
Proof. intros He. unfold ByReference.endpointElements. steps. Qed.

Lemma leaves_connectionElements elements positions conn index st :
  (n <= elements)%nat ->
  leaves n (ByReference.connectionElements elements positions conn index st)
    (fun _ => True).
Proof. intros He. unfold ByReference.connectionElements. steps. Qed.

Lemma leaves_generateExcalidrawElements environments endpoints connections :
  leaves n (ByReference.generateExcalidrawElements provider environments endpoints
              connections) (fun elements => (n <= elements)%nat).
Proof.
  unfold ByReference.generateExcalidrawElements.
  eapply leaves_rbind; [apply leaves_alloc|]. intros elements He.
  eapply leaves_rbind; [apply leaves_autoLayout|]. intros layout _.
  eapply leaves_rbind.
  { apply leaves_forEachRef. intros. apply leaves_environmentElements, He. }
  intros _ _.
  eapply leaves_rbind.
  { apply leaves_forEachRef. intros. apply leaves_endpointElements, He. }
  intros _ _.
  eapply leaves_rbind.
  { apply leaves_forEachRef. intros. apply leaves_connectionElements, He. }
  intros _ _. apply leaves_rret. exact He.
Qed.

End App.
End Leaves.

(** *** Reading a heap that holds the input *)

Lemma extends_refl h : extends h h.
Proof. intros l o H. exact H. Qed.

Lemma extends_trans h1 h2 h3 : extends h1 h2 -> extends h2 h3 -> extends h1 h3.
Proof. intros H1 H2 l o H. apply H2, H1, H. Qed.

Lemma untouched_extends m m' : untouched (length (objects m)) m m' ->
  extends (objects m) (objects m').
Proof.
  intros [_ H] l o Hl. rewrite H; [exact Hl|]. exact (lookup_lt_Some _ _ _ Hl).
Qed.

Lemma loadAll_Forall2 {A} (load : Loc -> option A) items : forall vs,
  loadAll load items = Some vs -> Forall2 (fun l v => load l = Some v) items vs.
Proof.
  induction items as [|l items IH]; intros vs H; simpl in H.
  - injection H as <-. constructor.
  - destruct (load l) as [a|] eqn:Ha; [|discriminate].
    destruct (loadAll load items) as [vs'|]; [|discriminate].
    injection H as <-. constructor; [exact Ha|apply IH; reflexivity].
Qed.

Lemma Forall2_loadAll {A} (load : Loc -> option A) items vs :
  Forall2 (fun l v => load l = Some v) items vs -> loadAll load items = Some vs.
Proof.
  induction 1 as [|l v items vs Hl _ IH]; simpl; [reflexivity|].
  rewrite Hl, IH. reflexivity.
Qed.

Lemma loadArray_inv {A} (load : list Obj -> Loc -> option A) h array vs :
  loadArray load h array = Some vs ->
  exists items,
    h !! array = Some (ArrayObj items)
    /\ Forall2 (fun l v => load h l = Some v) items vs.
Proof.
  unfold loadArray. destruct (h !! array) as [[items| | | | | | | | |]|]; try discriminate.
  intros H. exists items. split; [reflexivity|]. apply loadAll_Forall2, H.
Qed.

Lemma loadNode_inv h l n : loadNode h l = Some n -> h !! l = Some (NodeObj n).
Proof.
  unfold loadNode. destruct (h !! l) as [[]|]; try discriminate.
  intros H. injection H as <-. reflexivity.
Qed.

Lemma loadEndpoint_inv h l e : loadEndpoint h l = Some e -> h !! l = Some (EndpointObj e).
Proof.
  unfold loadEndpoint. destruct (h !! l) as [[]|]; try discriminate.
  intros H. injection H as <-. reflexivity.
Qed.

Lemma loadConnection_inv h l c :
  loadConnection h l = Some c -> h !! l = Some (ConnectionObj c).
Proof.
  unfold loadConnection. destruct (h !! l) as [[]|]; try discriminate.
  intros H. injection H as <-. reflexivity.
Qed.

Lemma loadSnaplex_inv h l s :
  loadSnaplex h l = Some s ->
  exists c ns,
    h !! l = Some (SnaplexObj (snaplex_id s) (snaplex_name s) (snaplex_type s)
                     (snaplex_environment s) c (snaplex_status s))
    /\ h !! c = Some (ContainerObj ns (minWidth (container s)) (minHeight (container s)))
    /\ loadArray loadNode h ns = Some (nodes (container s)).
Proof.
  unfold loadSnaplex.
  destruct (h !! l) as [[| |id name type environment c status| | | | | | |]|] eqn:Hl;
    try discriminate.
  destruct (h !! c) as [[| | |ns minW minH| | | | | |]|] eqn:Hc; try discriminate.
  destruct (loadArray loadNode h ns) as [nodes|] eqn:Hn; [|discriminate].
  intros H. injection H as <-. exists c, ns. simpl.
  split; [reflexivity|]. split; [exact Hc|exact Hn].
Qed.

Lemma loadEnvironment_inv h l e :
  loadEnvironment h l = Some e ->
  exists ss,
    h !! l = Some (EnvironmentObj (env_id e) (env_name e) (env_type e) (region e) ss
                     (zones e))
    /\ loadArray loadSnaplex h ss = Some (snaplexes e).
Proof.
  unfold loadEnvironment.
  destruct (h !! l) as [[|id name type region ss zones| | | | | | | |]|] eqn:Hl;
    try discriminate.
  destruct (loadArray loadSnaplex h ss) as [snaplexes|] eqn:Hs; [|discriminate].
  intros H. injection H as <-. exists ss. split; [reflexivity|exact Hs].
Qed.

(** What is loaded from a heap is loaded from every heap that extends it. *)
Lemma loadAll_extends {A} (load load' : Loc -> option A) items vs :
  (forall l v, load l = Some v -> load' l = Some v) ->
  loadAll load items = Some vs -> loadAll load' items = Some vs.
Proof.
  intros H Hl. apply Forall2_loadAll.
  eapply Forall2_impl; [apply loadAll_Forall2, Hl|]. exact H.
Qed.

Lemma loadArray_extends {A} (load : list Obj -> Loc -> option A) h h' array vs :
  extends h h' ->
  (forall l v, load h l = Some v -> load h' l = Some v) ->
  loadArray load h array = Some vs -> loadArray load h' array = Some vs.
Proof.
  intros He Hload H. destruct (loadArray_inv load h array vs H) as (items & Ha & Hall).
  unfold loadArray. rewrite (He _ _ Ha). apply Forall2_loadAll.
  eapply Forall2_impl; [exact Hall|]. exact Hload.
Qed.

Lemma loadNode_extends h h' l n :
  extends h h' -> loadNode h l = Some n -> loadNode h' l = Some n.
Proof.
  intros He H. apply loadNode_inv in H. unfold loadNode. rewrite (He _ _ H). reflexivity.
Qed.

Lemma loadEndpoint_extends h h' l e :
  extends h h' -> loadEndpoint h l = Some e -> loadEndpoint h' l = Some e.
Proof.
  intros He H. apply loadEndpoint_inv in H. unfold loadEndpoint.
  rewrite (He _ _ H). reflexivity.
Qed.

Lemma loadConnection_extends h h' l c :
  extends h h' -> loadConnection h l = Some c -> loadConnection h' l = Some c.
Proof.
  intros He H. apply loadConnection_inv in H. unfold loadConnection.
  rewrite (He _ _ H). reflexivity.
Qed.

Lemma loadSnaplex_extends h h' l s :
  extends h h' -> loadSnaplex h l = Some s -> loadSnaplex h' l = Some s.
Proof.
  intros He H. destruct (loadSnaplex_inv h l s H) as (c & ns & Hl & Hc & Hn).
  unfold loadSnaplex. rewrite (He _ _ Hl), (He _ _ Hc).
  rewrite (loadArray_extends loadNode h h' ns _ He (fun l v => loadNode_extends h h' l v He) Hn).
  destruct s as [? ? ? ? [? ? ?] ?]. reflexivity.
Qed.

Lemma loadEnvironment_extends h h' l e :
  extends h h' -> loadEnvironment h l = Some e -> loadEnvironment h' l = Some e.
Proof.
  intros He H. destruct (loadEnvironment_inv h l e H) as (ss & Hl & Hs).
  unfold loadEnvironment. rewrite (He _ _ Hl).
  rewrite (loadArray_extends loadSnaplex h h' ss _ He (fun l v => loadSnaplex_extends h h' l v He) Hs).
  destruct e. reflexivity.
Qed.

(** *** Steps of a run *)

Lemma rbind_returned {A B} (c : Prog A) (k : A -> Prog B) m a m' :
  c m = (Returned a, m') -> rbind c k m = k a m'.
Proof. intros H. unfold rbind. rewrite H. reflexivity. Qed.

Lemma rbind_thrown {A B} (c : Prog A) (k : A -> Prog B) m e m' :
  c m = (Thrown e, m') -> rbind c k m = (Thrown e, m').
Proof. intros H. unfold rbind. rewrite H. reflexivity. Qed.

Lemma deref_reads h m l o :
  extends h (objects m) -> h !! l = Some o -> deref l m = (Returned o, m).
Proof. intros He H. unfold deref. rewrite (He _ _ H). reflexivity. Qed.

Lemma readArray_reads h m l items :
  extends h (objects m) -> h !! l = Some (ArrayObj items) ->
  readArray l m = (Returned items, m).
Proof.
  intros He H. unfold readArray. rewrite (rbind_returned _ _ _ _ _ (deref_reads h m l _ He H)).
  reflexivity.
Qed.

Lemma nodeId_reads h m l n :
  extends h (objects m) -> loadNode h l = Some n -> nodeId l m = (Returned (node_id n), m).
Proof.
  intros He H. apply loadNode_inv in H. unfold nodeId.
  rewrite (rbind_returned _ _ _ _ _ (deref_reads h m l _ He H)). reflexivity.
Qed.

Lemma endpointId_reads h m l e :
  extends h (objects m) -> loadEndpoint h l = Some e ->
  endpointId l m = (Returned (endpoint_id e), m).
Proof.
  intros He H. apply loadEndpoint_inv in H. unfold endpointId.
  rewrite (rbind_returned _ _ _ _ _ (deref_reads h m l _ He H)). reflexivity.
Qed.

Lemma snaplexId_reads h m l s :
  extends h (objects m) -> loadSnaplex h l = Some s ->
  snaplexId l m = (Returned (snaplex_id s), m).
Proof.
  intros He H. destruct (loadSnaplex_inv h l s H) as (c & ns & Hl & _).
  unfold snaplexId. rewrite (rbind_returned _ _ _ _ _ (deref_reads h m l _ He Hl)).
  reflexivity.
Qed.

Lemma snaplexContainerNodes_reads h m l s :
  extends h (objects m) -> loadSnaplex h l = Some s ->
  exists ns,
    snaplexContainerNodes l m = (Returned ns, m)
    /\ loadArray loadNode h ns = Some (nodes (container s)).
Proof.
  intros He H. destruct (loadSnaplex_inv h l s H) as (c & ns & Hl & Hc & Hn).
  exists ns. split; [|exact Hn]. unfold snaplexContainerNodes.
  rewrite (rbind_returned _ _ _ _ _ (deref_reads h m l _ He Hl)).
  rewrite (rbind_returned _ _ _ _ _ (deref_reads h m c _ He Hc)). reflexivity.
Qed.

Lemma envId_reads h m l e :
  extends h (objects m) -> loadEnvironment h l = Some e ->
  envId l m = (Returned (env_id e), m).
Proof.
  intros He H. destruct (loadEnvironment_inv h l e H) as (ss & Hl & _).
  unfold envId. rewrite (rbind_returned _ _ _ _ _ (deref_reads h m l _ He Hl)).
  reflexivity.
Qed.

Lemma envSnaplexes_reads h m l e :
  extends h (objects m) -> loadEnvironment h l = Some e ->
  exists ss,
    envSnaplexes l m = (Returned ss, m)
    /\ loadArray loadSnaplex h ss = Some (snaplexes e).
Proof.
  intros He H. destruct (loadEnvironment_inv h l e H) as (ss & Hl & Hs).
  exists ss. split; [|exact Hs]. unfold envSnaplexes.
  rewrite (rbind_returned _ _ _ _ _ (deref_reads h m l _ He Hl)). reflexivity.
Qed.

Lemma read_reads {A} (load : list Obj -> Loc -> option A) h m l v :
  (forall l v, load h l = Some v -> load (objects m) l = Some v) ->
  load h l = Some v -> read load l m = (Returned v, m).
Proof. intros Hload H. unfold read. rewrite (Hload _ _ H). reflexivity. Qed.

(** Assigning to one of the two maps. *)
Lemma positionsSet_runs h p d entries dims w m key value :
  layoutState h p d entries dims w m ->
  exists m',
    positionsSet p key value m = (Returned tt, m')
    /\ layoutState h p d (<[ key := value ]> entries) dims w m'.
Proof.
  intros (He & Hp & Hd & Hne & Hpo & Hdo & Hw).
  unfold positionsSet, rbind, deref. rewrite Hpo. unfold assign.
  eexists. split; [reflexivity|]. repeat split; simpl; try assumption.
  - intros l o Hl. rewrite list_lookup_insert_ne; [exact (He _ _ Hl)|].
    apply lookup_lt_Some in Hl. lia.
  - apply list_lookup_insert_eq. exact (lookup_lt_Some _ _ _ Hpo).
  - rewrite list_lookup_insert_ne; [exact Hdo|exact Hne].
Qed.

Lemma dimensionsSet_runs h p d entries dims w m key value :
  layoutState h p d entries dims w m ->
  exists m',
    dimensionsSet d key value m = (Returned tt, m')
    /\ layoutState h p d entries (<[ key := value ]> dims) w m'.
Proof.
  intros (He & Hp & Hd & Hne & Hpo & Hdo & Hw).
  unfold dimensionsSet, rbind, deref. rewrite Hdo. unfold assign.
  eexists. split; [reflexivity|]. repeat split; simpl; try assumption.
  - intros l o Hl. rewrite list_lookup_insert_ne; [exact (He _ _ Hl)|].
    apply lookup_lt_Some in Hl. lia.
  - rewrite list_lookup_insert_ne; [exact Hpo|]. intros H. apply Hne. symmetry. exact H.
  - apply list_lookup_insert_eq. exact (lookup_lt_Some _ _ _ Hdo).
Qed.

(** A loop over an array that stays as it is runs its body on the items in
    order, as the loop over their values does. *)
Lemma forEachRef_from_runs {A S T} (array : Loc) (items : list Loc) (vs : list A)
    (body : Loc -> nat -> S -> Prog S) (f : T -> A -> nat -> T)
    (I : S -> T -> Machine -> Prop) :
  length items = length vs ->
  (forall s t m, I s t m -> readArray array m = (Returned items, m)) ->
  (forall i l v s t m,
     items !! i = Some l -> vs !! i = Some v -> I s t m ->
     exists s' m', body l i s m = (Returned s', m') /\ I s' (f t v i) m') ->
  forall count index s t m,
    (index + count = length items)%nat -> I s t m ->
    exists s' m',
      forEachRef_from count array index body s m = (Returned s', m')
      /\ I s' (forEach_from f (drop index vs) index t) m'.
Proof.
  intros Hlen Harr Hbody. induction count as [|count IH]; intros index s t m Hc HI.
  - exists s, m. split; [reflexivity|].
    rewrite drop_ge by lia. exact HI.
  - simpl. rewrite (rbind_returned _ _ _ _ _ (Harr s t m HI)).
    destruct (lookup_lt_is_Some_2 items index ltac:(lia)) as [l Hl].
    destruct (lookup_lt_is_Some_2 vs index ltac:(lia)) as [v Hv].
    rewrite Hl.
    destruct (Hbody index l v s t m Hl Hv HI) as (s1 & m1 & Hrun & HI1).
    rewrite (rbind_returned _ _ _ _ _ Hrun).
    destruct (IH (Datatypes.S index) s1 (f t v index) m1 ltac:(lia) HI1)
      as (s' & m' & Hrun' & HI').
    exists s', m'. split; [exact Hrun'|].
    rewrite (drop_S _ _ _ Hv). exact HI'.
Qed.

Lemma forEachRef_runs {A S T} (array : Loc) (items : list Loc) (vs : list A)
    (body : Loc -> nat -> S -> Prog S) (f : T -> A -> nat -> T)
    (I : S -> T -> Machine -> Prop) :
  length items = length vs ->
  (forall s t m, I s t m -> readArray array m = (Returned items, m)) ->
  (forall i l v s t m,
     items !! i = Some l -> vs !! i = Some v -> I s t m ->
     exists s' m', body l i s m = (Returned s', m') /\ I s' (f t v i) m') ->
  forall s t m, I s t m ->
    exists s' m',
      forEachRef array body s m = (Returned s', m') /\ I s' (forEach f vs t) m'.
Proof.
  intros Hlen Harr Hbody s t m HI. unfold forEachRef.
  rewrite (rbind_returned _ _ _ _ _ (Harr s t m HI)).
  exact (forEachRef_from_runs array items vs body f I Hlen Harr Hbody
           (length items) 0%nat s t m eq_refl HI).
Qed.

(** *** autoLayout on references computes what autoLayout computes *)

Section LayoutRuns.
Variable h : list Obj.
Variables positions envDimensions : Loc.
Variable w : World.

Lemma layoutState_extends entries dims m :
  layoutState h positions envDimensions entries dims w m -> extends h (objects m).
Proof. intros H. exact (proj1 H). Qed.

Lemma nodeBody_runs dims nodeStartX i l v s t m :
  loadNode h l = Some v ->
  nodeLoopState h positions envDimensions dims w s t m ->
  exists s' m',
    ByReference.nodeBody positions nodeStartX l i s m = (Returned s', m')
    /\ nodeLoopState h positions envDimensions dims w s' (nodeBody nodeStartX t v i) m'.
Proof.
  intros Hv (Hx & Hy & Hst). unfold ByReference.nodeBody, nodeBody.
  rewrite (rbind_returned _ _ _ _ _
             (nodeId_reads h m l v (layoutState_extends _ _ _ Hst) Hv)).
  destruct ((0 <? Z.of_nat i) && (Z.of_nat i mod nodesPerRow =? 0)).
  - destruct (positionsSet_runs h positions envDimensions _ dims w m
                ("node-" +:+ node_id v)
                {| pt_x := nodeStartX; pt_y := nv_nodeY s + 70 |} Hst)
      as (m' & Hrun & Hst').
    cbn [nv_nodeX nv_nodeY]. rewrite (rbind_returned _ _ _ _ _ Hrun).
    eexists _, m'. split; [reflexivity|].
    unfold nodeLoopState. cbn [nodeX nodeY nl_positions nv_nodeX nv_nodeY].
    rewrite Hy. split; [|split; [|exact Hst']]; reflexivity.
  - destruct (positionsSet_runs h positions envDimensions _ dims w m
                ("node-" +:+ node_id v)
                {| pt_x := nv_nodeX s; pt_y := nv_nodeY s |} Hst)
      as (m' & Hrun & Hst').
    rewrite (rbind_returned _ _ _ _ _ Hrun).
    eexists _, m'. split; [reflexivity|].
    unfold nodeLoopState. cbn [nodeX nodeY nl_positions nv_nodeX nv_nodeY].
    rewrite Hx, Hy. split; [|split; [|exact Hst']]; reflexivity.
Qed.

Lemma nodeLoop_runs dims nodeStartX ns vs s t m :
  loadArray loadNode h ns = Some vs ->
  nodeLoopState h positions envDimensions dims w s t m ->
  exists s' m',
    forEachRef ns (ByReference.nodeBody positions nodeStartX) s m = (Returned s', m')
    /\ nodeLoopState h positions envDimensions dims w s'
         (forEach (nodeBody nodeStartX) vs t) m'.
Proof.
  intros Hns. destruct (loadArray_inv _ _ _ _ Hns) as (items & Harr & Hall).
  apply (forEachRef_runs ns items vs).
  - exact (Forall2_length _ _ _ Hall).
  - intros s0 t0 m0 (_ & _ & Hst).
    exact (readArray_reads h m0 ns items (layoutState_extends _ _ _ Hst) Harr).
  - intros i l v s0 t0 m0 Hl Hv HI.
    exact (nodeBody_runs dims nodeStartX i l v s0 t0 m0
             (Forall2_lookup_lr _ _ _ _ _ _ Hall Hl Hv) HI).
Qed.

Lemma snaplexHeight_length snaplex :
  ByReference.snaplexHeight (length (nodes (container snaplex)))
  = actualSnaplexHeight snaplex.
Proof. reflexivity. Qed.

Lemma snaplexBody_runs snaplexY i l v s t m :
  loadSnaplex h l = Some v ->
  snaplexLoopState h positions envDimensions w s t m ->
  exists s' m',
    ByReference.snaplexBody positions envDimensions snaplexY l i s m = (Returned s', m')
    /\ snaplexLoopState h positions envDimensions w s' (snaplexBody snaplexY t v i) m'.
Proof.
  intros Hv (Hx & HmaxX & HmaxY & Hst). unfold ByReference.snaplexBody.
  rewrite (rbind_returned _ _ _ _ _
             (snaplexId_reads h m l v (layoutState_extends _ _ _ Hst) Hv)).
  destruct (positionsSet_runs h positions envDimensions _ _ w m
              ("snaplex-" +:+ snaplex_id v)
              {| pt_x := sv_snaplexX s; pt_y := snaplexY |} Hst)
    as (m1 & Hrun1 & Hst1).
  rewrite (rbind_returned _ _ _ _ _ Hrun1).
  destruct (snaplexContainerNodes_reads h m1 l v (layoutState_extends _ _ _ Hst1) Hv)
    as (ns & Hns & Hnodes).
  rewrite (rbind_returned _ _ _ _ _ Hns).
  destruct (nodeLoop_runs (sl_envDimensions t) (sv_snaplexX s + 50) ns
              (nodes (container v))
              {| nv_nodeX := sv_snaplexX s + 50; nv_nodeY := snaplexY + 220 |}
              {| nl_positions := <[ "snaplex-" +:+ snaplex_id v :=
                                      {| pt_x := sv_snaplexX s; pt_y := snaplexY |} ]>
                                   (sl_positions t);
                 nodeX := sv_snaplexX s + 50; nodeY := snaplexY + 220 |}
              m1 Hnodes)
    as (nv & m2 & Hrun2 & _ & _ & Hst2).
  { split; [|split; [|exact Hst1]]; reflexivity. }
  rewrite (rbind_returned _ _ _ _ _ Hrun2).
  destruct (snaplexContainerNodes_reads h m2 l v (layoutState_extends _ _ _ Hst2) Hv)
    as (ns' & Hns' & Hnodes').
  rewrite (rbind_returned _ _ _ _ _ Hns').
  destruct (loadArray_inv _ _ _ _ Hnodes') as (items & Harr & Hall).
  rewrite (rbind_returned _ _ _ _ _
             (readArray_reads h m2 ns' items (layoutState_extends _ _ _ Hst2) Harr)).
  rewrite (rbind_returned _ _ _ _ _
             (snaplexId_reads h m2 l v (layoutState_extends _ _ _ Hst2) Hv)).
  rewrite (Forall2_length _ _ _ Hall), snaplexHeight_length.
  destruct (dimensionsSet_runs h positions envDimensions _ _ w m2
              ("snaplex-" +:+ snaplex_id v)
              {| dim_width := SNAPLEX_WIDTH; dim_height := actualSnaplexHeight v |} Hst2)
    as (m3 & Hrun3 & Hst3).
  rewrite (rbind_returned _ _ _ _ _ Hrun3).
  eexists _, m3. split; [reflexivity|].
  unfold snaplexLoopState, snaplexBody.
  cbn [snaplexX maxX maxY sl_positions sl_envDimensions sv_snaplexX sv_maxX sv_maxY].
  rewrite Hx, HmaxX, HmaxY. split; [|split; [|split; [|exact Hst3]]]; reflexivity.
Qed.

Lemma snaplexLoop_runs snaplexY ss vs s t m :
  loadArray loadSnaplex h ss = Some vs ->
  snaplexLoopState h positions envDimensions w s t m ->
  exists s' m',
    forEachRef ss (ByReference.snaplexBody positions envDimensions snaplexY) s m
    = (Returned s', m')
    /\ snaplexLoopState h positions envDimensions w s'
         (forEach (snaplexBody snaplexY) vs t) m'.
Proof.
  intros Hss. destruct (loadArray_inv _ _ _ _ Hss) as (items & Harr & Hall).
  apply (forEachRef_runs ss items vs).
  - exact (Forall2_length _ _ _ Hall).
  - intros s0 t0 m0 (_ & _ & _ & Hst).
    exact (readArray_reads h m0 ss items (layoutState_extends _ _ _ Hst) Harr).
  - intros i l v s0 t0 m0 Hl Hv HI.
    exact (snaplexBody_runs snaplexY i l v s0 t0 m0
             (Forall2_lookup_lr _ _ _ _ _ _ Hall Hl Hv) HI).
Qed.

Lemma envBody_runs i l v s t m :
  loadEnvironment h l = Some v ->
  envLoopState h positions envDimensions w s t m ->
  exists s' m',
    ByReference.envBody positions envDimensions l i s m = (Returned s', m')
    /\ envLoopState h positions envDimensions w s' (envBody t v i) m'.
Proof.
  intros Hv (Hx & Hy & Hr & Hmax & Hst). unfold ByReference.envBody.
  rewrite (rbind_returned _ _ _ _ _
             (envId_reads h m l v (layoutState_extends _ _ _ Hst) Hv)).
  destruct (positionsSet_runs h positions envDimensions _ _ w m
              ("env-" +:+ env_id v)
              {| pt_x := ev_currentX s; pt_y := ev_currentY s |} Hst)
    as (m1 & Hrun1 & Hst1).
  rewrite (rbind_returned _ _ _ _ _ Hrun1).
  destruct (envSnaplexes_reads h m1 l v (layoutState_extends _ _ _ Hst1) Hv)
    as (ss & Hss & Hsnaplexes).
  rewrite (rbind_returned _ _ _ _ _ Hss).
  destruct (snaplexLoop_runs (ev_currentY s + 80) ss (snaplexes v)
              {| sv_snaplexX := ev_currentX s + SNAPLEX_MARGIN;
                 sv_maxX := ev_currentX s; sv_maxY := ev_currentY s + 80 |}
              {| sl_positions := <[ "env-" +:+ env_id v :=
                                      {| pt_x := ev_currentX s; pt_y := ev_currentY s |} ]>
                                   (ev_positions t);
                 sl_envDimensions := ev_envDimensions t;
                 snaplexX := ev_currentX s + SNAPLEX_MARGIN;
                 maxX := ev_currentX s; maxY := ev_currentY s + 80 |}
              m1 Hsnaplexes)
    as (sl & m2 & Hrun2 & HslX & HslmaxX & HslmaxY & Hst2).
  { split; [|split; [|split; [|exact Hst1]]]; reflexivity. }
  rewrite (rbind_returned _ _ _ _ _ Hrun2).
  rewrite (rbind_returned _ _ _ _ _
             (envId_reads h m2 l v (layoutState_extends _ _ _ Hst2) Hv)).
  match type of Hst2 with
  | layoutState _ _ _ (sl_positions ?sl0) _ _ _ => set (slv := sl0) in *
  end.
  destruct (dimensionsSet_runs h positions envDimensions _ _ w m2
              ("env-" +:+ env_id v)
              {| dim_width := Z.max ENV_WIDTH (sv_maxX sl - ev_currentX s + SNAPLEX_MARGIN);
                 dim_height := Z.max ENV_HEIGHT (sv_maxY sl - ev_currentY s + 30) |} Hst2)
    as (m3 & Hrun3 & Hst3).
  rewrite (rbind_returned _ _ _ _ _ Hrun3).
  unfold envLoopState, envBody. rewrite Hx, Hy, Hr, Hmax. fold slv.
  rewrite HslmaxX, HslmaxY.
  destruct ((Z.of_nat i + 1) mod 2 =? 0).
  - eexists _, m3. split; [reflexivity|].
    cbn [currentX currentY rowStartY maxRowHeight ev_positions ev_envDimensions
         ev_currentX ev_currentY ev_rowStartY ev_maxRowHeight].
    split; [|split; [|split; [|split; [|exact Hst3]]]]; reflexivity.
  - eexists _, m3. split; [reflexivity|].
    cbn [currentX currentY rowStartY maxRowHeight ev_positions ev_envDimensions
         ev_currentX ev_currentY ev_rowStartY ev_maxRowHeight].
    split; [|split; [|split; [|split; [|exact Hst3]]]]; reflexivity.
Qed.

Lemma envLoop_runs es vs s t m :
  loadArray loadEnvironment h es = Some vs ->
  envLoopState h positions envDimensions w s t m ->
  exists s' m',
    forEachRef es (ByReference.envBody positions envDimensions) s m = (Returned s', m')
    /\ envLoopState h positions envDimensions w s' (forEach envBody vs t) m'.
Proof.
  intros Hes. destruct (loadArray_inv _ _ _ _ Hes) as (items & Harr & Hall).
  apply (forEachRef_runs es items vs).
  - exact (Forall2_length _ _ _ Hall).
  - intros s0 t0 m0 (_ & _ & _ & _ & Hst).
    exact (readArray_reads h m0 es items (layoutState_extends _ _ _ Hst) Harr).
  - intros i l v s0 t0 m0 Hl Hv HI.
    exact (envBody_runs i l v s0 t0 m0 (Forall2_lookup_lr _ _ _ _ _ _ Hall Hl Hv) HI).
Qed.

Lemma endpointLoop_runs dims currentY ps vs t m :
  loadArray loadEndpoint h ps = Some vs ->
  endpointLoopState h positions envDimensions dims w tt t m ->
  exists s' m',
    forEachRef ps (ByReference.endpointBody positions currentY) tt m = (Returned s', m')
    /\ endpointLoopState h positions envDimensions dims w s'
         (forEach (endpointBody currentY) vs t) m'.
Proof.
  intros Hps. destruct (loadArray_inv _ _ _ _ Hps) as (items & Harr & Hall).
  apply (forEachRef_runs ps items vs).
  - exact (Forall2_length _ _ _ Hall).
  - intros s0 t0 m0 Hst.
    exact (readArray_reads h m0 ps items (layoutState_extends _ _ _ Hst) Harr).
  - intros i l v s0 t0 m0 Hl Hv Hst.
    pose proof (Forall2_lookup_lr _ _ _ _ _ _ Hall Hl Hv) as Hload. cbv beta in Hload.
    unfold ByReference.endpointBody.
    rewrite (rbind_returned _ _ _ _ _
               (endpointId_reads h m0 l v (layoutState_extends _ _ _ Hst) Hload)).
    destruct (positionsSet_runs h positions envDimensions _ _ w m0
                ("endpoint-" +:+ endpoint_id v)
                {| pt_x := 50 + Z.of_nat i * 200; pt_y := currentY |} Hst)
      as (m' & Hrun & Hst').
    exists tt, m'. split; [exact Hrun|exact Hst'].
Qed.

End LayoutRuns.

(** On a heap that holds the two sequences, autoLayout on references
    returns two new maps holding what autoLayout computes from the values;
    the objects that were there are as they were. *)
Lemma autoLayout_runs (m : Machine) (es ps : Loc) (envs : list Environment)
    (eps : list Endpoint) :
  loadArray loadEnvironment (objects m) es = Some envs ->
  loadArray loadEndpoint (objects m) ps = Some eps ->
  exists p d m',
    ByReference.autoLayout es ps m = (Returned (p, d), m')
    /\ layoutState (objects m) p d (positions (autoLayout envs eps))
         (envDimensions (autoLayout envs eps)) (world m) m'.
Proof.
  intros Hes Hps. unfold ByReference.autoLayout.
  set (p := length (objects m)).
  set (m2 := {| objects := (objects m ++ [PositionsObj ∅]) ++ [DimensionsObj ∅];
                world := world m |}).
  assert (Hst0 : layoutState (objects m) p (Datatypes.S p) ∅ ∅ (world m) m2).
  { unfold layoutState, m2, p. cbn [objects world].
    split.
    { intros l o Hl. pose proof (lookup_lt_Some _ _ _ Hl).
      rewrite lookup_app_l by (rewrite length_app; simpl; lia).
      rewrite lookup_app_l by lia. exact Hl. }
    split; [lia|]. split; [lia|]. split; [lia|].
    split.
    { rewrite lookup_app_l by (rewrite length_app; simpl; lia).
      apply list_lookup_middle. reflexivity. }
    split; [|reflexivity].
    apply list_lookup_middle. rewrite length_app. simpl. lia. }
  assert (Halloc1 : alloc (PositionsObj ∅) m
                    = (Returned p, {| objects := objects m ++ [PositionsObj ∅];
                                      world := world m |})) by reflexivity.
  rewrite (rbind_returned _ _ _ _ _ Halloc1).
  assert (Halloc2 : alloc (DimensionsObj ∅)
                      {| objects := objects m ++ [PositionsObj ∅]; world := world m |}
                    = (Returned (Datatypes.S p), m2)).
  { unfold alloc, m2, p. cbn [objects world]. rewrite length_app. simpl.
    rewrite Nat.add_1_r. reflexivity. }
  rewrite (rbind_returned _ _ _ _ _ Halloc2).
  destruct (envLoop_runs (objects m) p (Datatypes.S p) (world m) es envs
              {| ev_currentX := 50; ev_currentY := 50; ev_rowStartY := 50;
                 ev_maxRowHeight := 0 |}
              {| ev_positions := ∅; ev_envDimensions := ∅;
                 currentX := 50; currentY := 50; rowStartY := 50; maxRowHeight := 0 |}
              m2 Hes)
    as (ev & m3 & Hrun3 & Hx & Hy & Hr & Hmax & Hst3).
  { split; [|split; [|split; [|split; [|exact Hst0]]]]; reflexivity. }
  rewrite (rbind_returned _ _ _ _ _ Hrun3).
  destruct (loadArray_inv _ _ _ _ Hes) as (items & Harr & Hall).
  rewrite (rbind_returned _ _ _ _ _
             (readArray_reads (objects m) m3 es items (proj1 Hst3) Harr)).
  rewrite (Forall2_length _ _ _ Hall).
  match goal with
  | |- context [forEachRef ps (ByReference.endpointBody p ?y) tt] =>
      destruct (endpointLoop_runs (objects m) p (Datatypes.S p) (world m) _ y ps eps
                  _ m3 Hps Hst3) as ([] & m4 & Hrun4 & Hst4)
  end.
  rewrite (rbind_returned _ _ _ _ _ Hrun4).
  exists p, (Datatypes.S p), m4. split; [reflexivity|].
  unfold autoLayout. cbn [positions envDimensions].
  rewrite <- Hr, <- Hmax, <- Hy in Hst4. exact Hst4.
Qed.

(** C3.  The layout is deterministic.  Two runs of autoLayout, on any two
    machines (whatever their heaps, the addresses of the objects, the
    random source, the clock, the index counter and the shape cache) whose
    arrays hold environment and endpoint sequences with the same ids in the
    same order, identical sequences in particular, both return, and the
    position maps they return hold the same entries, as do the dimension
    maps: the ones autoLayout computes from the values. *)
Theorem layout_deterministic (m1 m2 : Machine) (es1 ps1 es2 ps2 : Loc)
    (envs1 envs2 : list Environment) (eps1 eps2 : list Endpoint) :
  loadArray loadEnvironment (objects m1) es1 = Some envs1 ->
  loadArray loadEndpoint (objects m1) ps1 = Some eps1 ->
  loadArray loadEnvironment (objects m2) es2 = Some envs2 ->
  loadArray loadEndpoint (objects m2) ps2 = Some eps2 ->
  map environmentSkeleton envs1 = map environmentSkeleton envs2 ->
  map endpoint_id eps1 = map endpoint_id eps2 ->
  exists layout1 m1' layout2 m2' entries dims,
    ByReference.autoLayout es1 ps1 m1 = (Returned layout1, m1')
    /\ ByReference.autoLayout es2 ps2 m2 = (Returned layout2, m2')
    /\ objects m1' !! fst layout1 = Some (PositionsObj entries)
    /\ objects m2' !! fst layout2 = Some (PositionsObj entries)
    /\ objects m1' !! snd layout1 = Some (DimensionsObj dims)
    /\ objects m2' !! snd layout2 = Some (DimensionsObj dims)
    /\ entries = positions (autoLayout envs1 eps1)
    /\ dims = envDimensions (autoLayout envs1 eps1).
Proof.
  intros He1 Hp1 He2 Hp2 Hes Hps.
  destruct (autoLayout_runs m1 es1 ps1 envs1 eps1 He1 Hp1)
    as (p1 & d1 & m1' & Hrun1 & _ & _ & _ & _ & Hpos1 & Hdim1 & _).
  destruct (autoLayout_runs m2 es2 ps2 envs2 eps2 He2 Hp2)
    as (p2 & d2 & m2' & Hrun2 & _ & _ & _ & _ & Hpos2 & Hdim2 & _).
  rewrite <- (autoLayout_reads_ids_only envs1 envs2 eps1 eps2 Hes Hps) in Hpos2, Hdim2.
  exists (p1, d1), m1', (p2, d2), m2'. eexists _, _.
  split; [exact Hrun1|]. split; [exact Hrun2|].
  split; [exact Hpos1|]. split; [exact Hpos2|].
  split; [exact Hdim1|]. split; [exact Hdim2|]. split; reflexivity.
Qed.

Lemma layout_deterministic_witness :
  exists layout1 m1' layout2 m2' entries dims,
    ByReference.autoLayout 11 12 scenarioMachine = (Returned layout1, m1')
    /\ ByReference.autoLayout 1 0 otherMachine = (Returned layout2, m2')
    /\ objects m1' !! fst layout1 = Some (PositionsObj entries)
    /\ objects m2' !! fst layout2 = Some (PositionsObj entries)
    /\ objects m1' !! snd layout1 = Some (DimensionsObj dims)
    /\ objects m2' !! snd layout2 = Some (DimensionsObj dims)
    /\ entries = positions (autoLayout [scenarioEnvironment] [])
    /\ dims = envDimensions (autoLayout [scenarioEnvironment] []).
Proof.
  exact (layout_deterministic scenarioMachine otherMachine 11 12 1 0
           [scenarioEnvironment] _ [] [] eq_refl eq_refl eq_refl eq_refl eq_refl eq_refl).
Defined.


(** *** The synthesis pass on references draws what the pass on values draws *)

Lemma lift_bind_follows {A C D} (I : C -> D -> World -> Machine -> Prop)
    (c : M A) (k : A -> M C) (k' : A -> Prog D) (w : World) (m : Machine) :
  world m = w ->
  (forall a w1, c w = (Returned a, w1) ->
     follows I (k a w1) (k' a {| objects := objects m; world := w1 |})) ->
  follows I (bind c k w) (rbind (lift c) k' m).
Proof.
  intros Hw Hk. unfold bind, rbind, lift. rewrite Hw.
  destruct (c w) as [[a|err] w1]; simpl.
  - apply Hk. reflexivity.
  - split; reflexivity.
Qed.

Section DrawRuns.
Variable provider : ShapeProvider.
Variable h : list Obj.
Variables e p d : Loc.
Variable layout : Layout.

Let drawing (pushed : list ExcalidrawElement) (_ : unit) (w : World) (m : Machine) : Prop :=
  drawState h e p d layout pushed w m.

Lemma drawState_world pushed w w' m :
  drawState h e p d layout pushed w m ->
  drawState h e p d layout pushed w' {| objects := objects m; world := w' |}.
Proof.
  intros (H1 & H2 & H3 & H4 & H5 & H6 & H7 & _).
  repeat split; assumption.
Qed.

Lemma push_runs pushed shapes w m :
  drawState h e p d layout pushed w m ->
  exists m',
    push e shapes m = (Returned tt, m')
    /\ drawState h e p d layout (pushed ++ shapes) w m'.
Proof.
  intros (He & Hle & Hep & Hed & Hel & Hpo & Hdo & Hw).
  unfold push, rbind, deref. rewrite Hel. unfold assign.
  eexists. split; [reflexivity|]. repeat split; simpl; try assumption.
  - intros l o Hl. rewrite list_lookup_insert_ne; [exact (He _ _ Hl)|].
    apply lookup_lt_Some in Hl. lia.
  - apply list_lookup_insert_eq. exact (lookup_lt_Some _ _ _ Hel).
  - rewrite list_lookup_insert_ne; [exact Hpo|exact Hep].
  - rewrite list_lookup_insert_ne; [exact Hdo|exact Hed].
Qed.

Lemma positionsGetOr_reads pushed w m key dflt :
  drawState h e p d layout pushed w m ->
  positionsGetOr p key dflt m = (Returned (positionOr (positions layout) key dflt), m).
Proof.
  intros (_ & _ & _ & _ & _ & Hpo & _). unfold positionsGetOr, rbind, deref.
  rewrite Hpo. reflexivity.
Qed.

Lemma dimensionsGetOr_reads pushed w m key dflt :
  drawState h e p d layout pushed w m ->
  dimensionsGetOr d key dflt m
  = (Returned (dimensionsOr (envDimensions layout) key dflt), m).
Proof.
  intros (_ & _ & _ & _ & _ & _ & Hdo & _). unfold dimensionsGetOr, rbind, deref.
  rewrite Hdo. reflexivity.
Qed.

Lemma drawState_extends pushed w m :
  drawState h e p d layout pushed w m -> extends h (objects m).
Proof. intros H. exact (proj1 H). Qed.

Lemma drawState_at pushed w m : drawState h e p d layout pushed w m -> world m = w.
Proof. intros (_ & _ & _ & _ & _ & _ & _ & Hw). exact Hw. Qed.

(** The last step of a callback: the push. *)
Lemma push_follows pushed shapes w m :
  drawState h e p d layout pushed w m ->
  follows drawing (ret (pushed ++ shapes) w) (push e shapes m).
Proof.
  intros Hst. destruct (push_runs pushed shapes w m Hst) as (m' & Hrun & Hst').
  rewrite Hrun. split; [exact (drawState_at _ _ _ Hst')|].
  exists tt. split; [reflexivity|exact Hst'].
Qed.

Lemma forEachRef_from_follows {A} (array : Loc) (items : list Loc) (vs : list A)
    (body : Loc -> nat -> unit -> Prog unit)
    (f : A -> list ExcalidrawElement -> M (list ExcalidrawElement)) :
  length items = length vs ->
  (forall pushed w m, drawState h e p d layout pushed w m ->
     readArray array m = (Returned items, m)) ->
  (forall i l v pushed w m,
     items !! i = Some l -> vs !! i = Some v -> drawState h e p d layout pushed w m ->
     follows drawing (f v pushed w) (body l i tt m)) ->
  forall count index pushed w m,
    (index + count = length items)%nat -> drawState h e p d layout pushed w m ->
    follows drawing (forEachM f (drop index vs) pushed w)
      (forEachRef_from count array index body tt m).
Proof.
  intros Hlen Harr Hbody. induction count as [|count IH]; intros index pushed w m Hc Hst.
  - rewrite drop_ge by lia. simpl. split; [exact (drawState_at _ _ _ Hst)|].
    exists tt. split; [reflexivity|exact Hst].
  - simpl. rewrite (rbind_returned _ _ _ _ _ (Harr pushed w m Hst)).
    destruct (lookup_lt_is_Some_2 items index ltac:(lia)) as [l Hl].
    destruct (lookup_lt_is_Some_2 vs index ltac:(lia)) as [v Hv].
    rewrite Hl, (drop_S _ _ _ Hv). simpl.
    pose proof (Hbody index l v pushed w m Hl Hv Hst) as Hf.
    unfold bind, rbind. unfold follows in Hf.
    destruct (f v pushed w) as [[pushed1|err] w1];
      destruct (body l index tt m) as [[[]|err'] m1]; simpl in Hf.
    + destruct Hf as (_ & b & _ & Hst1).
      exact (IH (Datatypes.S index) pushed1 w1 m1 ltac:(lia) Hst1).
    + destruct Hf as (_ & b & Hb & _). discriminate Hb.
    + destruct Hf as (_ & Hb). discriminate Hb.
    + destruct Hf as (Hw & Hb). injection Hb as ->. split; [exact Hw|reflexivity].
Qed.

Lemma forEachRef_follows {A} (array : Loc) (items : list Loc) (vs : list A)
    (body : Loc -> nat -> unit -> Prog unit)
    (f : A -> list ExcalidrawElement -> M (list ExcalidrawElement)) :
  length items = length vs ->
  (forall pushed w m, drawState h e p d layout pushed w m ->
     readArray array m = (Returned items, m)) ->
  (forall i l v pushed w m,
     items !! i = Some l -> vs !! i = Some v -> drawState h e p d layout pushed w m ->
     follows drawing (f v pushed w) (body l i tt m)) ->
  forall pushed w m, drawState h e p d layout pushed w m ->
    follows drawing (forEachM f vs pushed w) (forEachRef array body tt m).
Proof.
  intros Hlen Harr Hbody pushed w m Hst. unfold forEachRef.
  rewrite (rbind_returned _ _ _ _ _ (Harr pushed w m Hst)).
  exact (forEachRef_from_follows array items vs body f Hlen Harr Hbody
           (length items) 0%nat pushed w m eq_refl Hst).
Qed.

(** A loop over an array of the input. *)
Lemma loop_follows {A} (load : list Obj -> Loc -> option A) (array : Loc) (vs : list A)
    (body : Loc -> nat -> unit -> Prog unit)
    (f : A -> list ExcalidrawElement -> M (list ExcalidrawElement)) :
  loadArray load h array = Some vs ->
  (forall i l v pushed w m,
     load h l = Some v -> drawState h e p d layout pushed w m ->
     follows drawing (f v pushed w) (body l i tt m)) ->
  forall pushed w m, drawState h e p d layout pushed w m ->
    follows drawing (forEachM f vs pushed w) (forEachRef array body tt m).
Proof.
  intros Hload Hbody. destruct (loadArray_inv _ _ _ _ Hload) as (items & Harr & Hall).
  apply (forEachRef_follows array items vs).
  - exact (Forall2_length _ _ _ Hall).
  - intros pushed w m Hst.
    exact (readArray_reads h m array items (drawState_extends _ _ _ Hst) Harr).
  - intros i l v pushed w m Hl Hv Hst.
    exact (Hbody i l v pushed w m (Forall2_lookup_lr _ _ _ _ _ _ Hall Hl Hv) Hst).
Qed.

Lemma nodeElements_follows i l v pushed w m :
  loadNode h l = Some v ->
  drawState h e p d layout pushed w m ->
  follows drawing (nodeElements provider layout v pushed w)
    (ByReference.nodeElements provider e p l i tt m).
Proof.
  intros Hv Hst. unfold ByReference.nodeElements, nodeElements.
  pose proof (drawState_extends _ _ _ Hst) as He.
  rewrite (rbind_returned _ _ _ _ _ (nodeId_reads h m l v He Hv)).
  rewrite (rbind_returned _ _ _ _ _ (positionsGetOr_reads _ _ _ _ _ Hst)).
  rewrite (rbind_returned _ _ _ _ _
             (read_reads loadNode h m l v (fun l0 v0 => loadNode_extends _ _ l0 v0 He) Hv)).
  apply lift_bind_follows; [exact (drawState_at _ _ _ Hst)|].
  intros shapes w1 _. apply push_follows. exact (drawState_world _ _ _ _ Hst).
Qed.

Lemma snaplexElements_follows i l v pushed w m :
  loadSnaplex h l = Some v ->
  drawState h e p d layout pushed w m ->
  follows drawing (snaplexElements provider layout v pushed w)
    (ByReference.snaplexElements provider e p d l i tt m).
Proof.
  intros Hv Hst. unfold ByReference.snaplexElements, snaplexElements.
  pose proof (drawState_extends _ _ _ Hst) as He.
  rewrite (rbind_returned _ _ _ _ _ (snaplexId_reads h m l v He Hv)).
  rewrite (rbind_returned _ _ _ _ _ (positionsGetOr_reads _ _ _ _ _ Hst)).
  rewrite (rbind_returned _ _ _ _ _ (snaplexId_reads h m l v He Hv)).
  rewrite (rbind_returned _ _ _ _ _ (dimensionsGetOr_reads _ _ _ _ _ Hst)).
  rewrite (rbind_returned _ _ _ _ _
             (read_reads loadSnaplex h m l v
                (fun l0 v0 => loadSnaplex_extends _ _ l0 v0 He) Hv)).
  apply lift_bind_follows; [exact (drawState_at _ _ _ Hst)|].
  intros header w1 _.
  destruct (push_runs pushed header w1 _ (drawState_world _ _ w1 _ Hst))
    as (m1 & Hrun1 & Hst1).
  rewrite (rbind_returned _ _ _ _ _ Hrun1).
  pose proof (drawState_extends _ _ _ Hst1) as He1.
  rewrite (rbind_returned _ _ _ _ _
             (read_reads loadSnaplex h m1 l v
                (fun l0 v0 => loadSnaplex_extends _ _ l0 v0 He1) Hv)).
  apply lift_bind_follows; [exact (drawState_at _ _ _ Hst1)|].
  intros outline w2 _.
  destruct (push_runs (pushed ++ header) [outline] w2 _ (drawState_world _ _ w2 _ Hst1))
    as (m2 & Hrun2 & Hst2).
  rewrite (rbind_returned _ _ _ _ _ Hrun2).
  destruct (snaplexContainerNodes_reads h m2 l v (drawState_extends _ _ _ Hst2) Hv)
    as (ns & Hns & Hnodes).
  rewrite (rbind_returned _ _ _ _ _ Hns).
  apply (loop_follows loadNode ns (nodes (container v))); [exact Hnodes| |exact Hst2].
  intros i0 l0 v0 pushed0 w0 m0. apply nodeElements_follows.
Qed.

Lemma environmentElements_follows i l v pushed w m :
  loadEnvironment h l = Some v ->
  drawState h e p d layout pushed w m ->
  follows drawing (environmentElements provider layout v pushed w)
    (ByReference.environmentElements provider e p d l i tt m).
Proof.
  intros Hv Hst. unfold ByReference.environmentElements, environmentElements.
  pose proof (drawState_extends _ _ _ Hst) as He.
  rewrite (rbind_returned _ _ _ _ _ (envId_reads h m l v He Hv)).
  rewrite (rbind_returned _ _ _ _ _ (positionsGetOr_reads _ _ _ _ _ Hst)).
  rewrite (rbind_returned _ _ _ _ _ (envId_reads h m l v He Hv)).
  rewrite (rbind_returned _ _ _ _ _ (dimensionsGetOr_reads _ _ _ _ _ Hst)).
  rewrite (rbind_returned _ _ _ _ _
             (read_reads loadEnvironment h m l v
                (fun l0 v0 => loadEnvironment_extends _ _ l0 v0 He) Hv)).
  apply lift_bind_follows; [exact (drawState_at _ _ _ Hst)|].
  intros shapes w1 _.
  destruct (push_runs pushed shapes w1 _ (drawState_world _ _ w1 _ Hst))
    as (m1 & Hrun1 & Hst1).
  rewrite (rbind_returned _ _ _ _ _ Hrun1).
  destruct (envSnaplexes_reads h m1 l v (drawState_extends _ _ _ Hst1) Hv)
    as (ss & Hss & Hsnaplexes).
  rewrite (rbind_returned _ _ _ _ _ Hss).
  apply (loop_follows loadSnaplex ss (snaplexes v)); [exact Hsnaplexes| |exact Hst1].
  intros i0 l0 v0 pushed0 w0 m0. apply snaplexElements_follows.
Qed.

Lemma endpointElements_follows i l v pushed w m :
  loadEndpoint h l = Some v ->
  drawState h e p d layout pushed w m ->
  follows drawing (endpointElements layout v pushed w)
    (ByReference.endpointElements e p l i tt m).
Proof.
  intros Hv Hst. unfold ByReference.endpointElements, endpointElements.
  pose proof (drawState_extends _ _ _ Hst) as He.
  rewrite (rbind_returned _ _ _ _ _ (endpointId_reads h m l v He Hv)).
  rewrite (rbind_returned _ _ _ _ _ (positionsGetOr_reads _ _ _ _ _ Hst)).
  rewrite (rbind_returned _ _ _ _ _
             (read_reads loadEndpoint h m l v
                (fun l0 v0 => loadEndpoint_extends _ _ l0 v0 He) Hv)).
  apply lift_bind_follows; [exact (drawState_at _ _ _ Hst)|].
  intros shapes w1 _. apply push_follows. exact (drawState_world _ _ _ _ Hst).
Qed.

Lemma connectionElements_follows i l v pushed w m :
  loadConnection h l = Some v ->
  drawState h e p d layout pushed w m ->
  follows drawing (connectionElements layout v pushed w)
    (ByReference.connectionElements e p l i tt m).
Proof.
  intros Hv Hst.
  unfold ByReference.connectionElements, connectionElements, resolveConnection.
  pose proof (drawState_extends _ _ _ Hst) as He.
  pose proof (read_reads loadConnection h m l v
                (fun l0 v0 => loadConnection_extends _ _ l0 v0 He) Hv) as Hread.
  rewrite (rbind_returned _ _ _ _ _ Hread).
  rewrite (rbind_returned _ _ _ _ _ (positionsGetOr_reads _ _ _ _ _ Hst)).
  rewrite (rbind_returned _ _ _ _ _ Hread).
  rewrite (rbind_returned _ _ _ _ _ (positionsGetOr_reads _ _ _ _ _ Hst)).
  rewrite (rbind_returned _ _ _ _ _ Hread).
  apply lift_bind_follows; [exact (drawState_at _ _ _ Hst)|].
  intros arrow w1 _. apply push_follows. exact (drawState_world _ _ _ _ Hst).
Qed.

End DrawRuns.

Lemma follows_bind {A B C D} (I1 : A -> B -> World -> Machine -> Prop)
    (I2 : C -> D -> World -> Machine -> Prop)
    (c : M A) (k : A -> M C) (c' : Prog B) (k' : B -> Prog D) (w : World) (m : Machine) :
  follows I1 (c w) (c' m) ->
  (forall a b w1 m1, I1 a b w1 m1 -> follows I2 (k a w1) (k' b m1)) ->
  follows I2 (bind c k w) (rbind c' k' m).
Proof.
  intros Hc Hk. unfold bind, rbind. unfold follows in Hc.
  destruct (c w) as [[a|err] w1]; destruct (c' m) as [[b|err'] m1]; simpl in Hc.
  - destruct Hc as (_ & b' & Hb & HI). injection Hb as <-. exact (Hk a b w1 m1 HI).
  - destruct Hc as (_ & b' & Hb & _). discriminate Hb.
  - destruct Hc as (_ & Hb). discriminate Hb.
  - destruct Hc as (Hw & Hb). injection Hb as ->. split; [exact Hw|reflexivity].
Qed.

Lemma follows_return {A B D} (I1 : A -> B -> World -> Machine -> Prop)
    (I2 : A -> D -> World -> Machine -> Prop)
    (r : Outcome A * World) (c' : Prog B) (x : D) (m : Machine) :
  follows I1 r (c' m) ->
  (forall a b w1 m1, I1 a b w1 m1 -> I2 a x w1 m1) ->
  follows I2 r (rbind c' (fun _ => rret x) m).
Proof.
  intros Hc HI. unfold rbind. unfold follows in Hc |- *.
  destruct r as [[a|err] w1]; destruct (c' m) as [[b|err'] m1]; simpl in Hc |- *.
  - destruct Hc as (Hw & b' & Hb & H1). split; [exact Hw|].
    exists x. split; [reflexivity|]. exact (HI a b' w1 m1 H1).
  - destruct Hc as (_ & b' & Hb & _). discriminate Hb.
  - destruct Hc as (_ & Hb). discriminate Hb.
  - destruct Hc as (Hw & Hb). injection Hb as ->. split; [exact Hw|reflexivity].
Qed.

(** On a heap that holds the store's snapshot, the pass on references
    returns when the pass on values returns, with an array that holds the
    very elements that one returns, and throws what that one throws; it
    leaves the same world, and the objects that were there as they were. *)
Lemma generateExcalidrawElements_follows (provider : ShapeProvider) (m : Machine)
    (es ps cs : Loc) :
  holds m es ps cs (architecture (world m)) ->
  follows (fun elements l _ m' =>
             objects m' !! l = Some (ElementsObj elements)
             /\ extends (objects m) (objects m'))
    (generateExcalidrawElements provider (world m))
    (ByReference.generateExcalidrawElements provider es ps cs m).
Proof.
  intros (Hes & Hps & Hcs).
  set (envs := environments (architecture (world m))) in *.
  set (eps := endpoints (architecture (world m))) in *.
  set (conns := connections (architecture (world m))) in *.
  unfold ByReference.generateExcalidrawElements, generateExcalidrawElements.
  unfold bind at 1. unfold gets. fold envs eps conns.
  set (e := length (objects m)).
  set (m1 := {| objects := objects m ++ [ElementsObj []]; world := world m |}).
  assert (Halloc : alloc (ElementsObj []) m = (Returned e, m1)) by reflexivity.
  rewrite (rbind_returned _ _ _ _ _ Halloc).
  assert (He1 : extends (objects m) (objects m1)).
  { intros l o Hl. unfold m1. cbn [objects].
    rewrite lookup_app_l by exact (lookup_lt_Some _ _ _ Hl). exact Hl. }
  destruct (autoLayout_runs m1 es ps envs eps)
    as (p & d & m2 & Hrun2 & He2 & Hp & Hd & Hpd & Hpo & Hdo & Hw2).
  { apply (loadArray_extends loadEnvironment (objects m)); [exact He1| |exact Hes].
    intros l v. apply loadEnvironment_extends, He1. }
  { apply (loadArray_extends loadEndpoint (objects m)); [exact He1| |exact Hps].
    intros l v. apply loadEndpoint_extends, He1. }
  rewrite (rbind_returned _ _ _ _ _ Hrun2). cbn [fst snd].
  assert (Hlen1 : length (objects m1) = Datatypes.S e).
  { unfold m1, e. cbn [objects]. rewrite length_app. simpl. lia. }
  assert (Hst : drawState (objects m) e p d (autoLayout envs eps) [] (world m) m2).
  { split; [exact (extends_trans _ _ _ He1 He2)|].
    split; [unfold e; lia|]. split; [lia|]. split; [lia|].
    split.
    { apply He2. unfold m1, e. cbn [objects]. apply list_lookup_middle. reflexivity. }
    split; [exact Hpo|]. split; [exact Hdo|exact Hw2]. }
  apply (follows_bind
           (fun pushed (_ : unit) w' m' =>
              drawState (objects m) e p d (autoLayout envs eps) pushed w' m')).
  { apply (loop_follows (objects m) e p d (autoLayout envs eps)
             loadEnvironment es envs); [exact Hes| |exact Hst].
    intros i l v pushed w0 m0. apply environmentElements_follows. }
  intros pushed1 [] w1 m3 Hst1.
  apply (follows_bind
           (fun pushed (_ : unit) w' m' =>
              drawState (objects m) e p d (autoLayout envs eps) pushed w' m')).
  { apply (loop_follows (objects m) e p d (autoLayout envs eps)
             loadEndpoint ps eps); [exact Hps| |exact Hst1].
    intros i l v pushed w0 m0. apply endpointElements_follows. }
  intros pushed2 [] w2 m4 Hst2.
  apply (follows_return
           (fun pushed (_ : unit) w' m' =>
              drawState (objects m) e p d (autoLayout envs eps) pushed w' m')).
  - apply (loop_follows (objects m) e p d (autoLayout envs eps)
             loadConnection cs conns); [exact Hcs| |exact Hst2].
    intros i l v pushed w0 m0. apply connectionElements_follows.
  - intros pushed [] w' m' Hst'. split; [|exact (proj1 Hst')].
    destruct Hst' as (_ & _ & _ & _ & Hel & _). exact Hel.
Qed.

(** What is assigned to an object shows in the heap: a run that assigned to
    an object of the store would not leave it as it was. *)
Lemma assignment_is_registered (l : Loc) (o o' : Obj) (m : Machine) :
  objects m !! l = Some o -> o <> o' ->
  objects (snd (assign l o' m)) !! l <> Some o.
Proof.
  intros Hl Hne. simpl. rewrite list_lookup_insert_eq by exact (lookup_lt_Some _ _ _ Hl).
  intros H. injection H as H. apply Hne. symmetry. exact H.
Qed.

(** C9.  Layout and synthesis leave their inputs alone.  The pass is handed
    the arrays of the store by reference and does assign to objects: it
    sets entries of the two maps autoLayout allocates and pushes onto the
    element array.  Whatever the heap and whatever the references it is
    handed, every object that was in the heap before a run of autoLayout,
    or of the whole pass, is in it unchanged after the run, whether the run
    returns or throws; so the environments, with every nested cluster and
    node, the endpoints and the connections that the three arrays held
    before, they hold after.  On a heap that holds the store's snapshot the
    pass returns the elements that the pass on values returns. *)
Theorem inputs_unchanged (provider : ShapeProvider) (m : Machine) (es ps cs : Loc) :
  let m1 := snd (ByReference.autoLayout es ps m) in
  let m' := snd (ByReference.generateExcalidrawElements provider es ps cs m) in
  (forall l o, objects m !! l = Some o -> objects m1 !! l = Some o)
  /\ (forall l o, objects m !! l = Some o -> objects m' !! l = Some o)
  /\ (forall envs, loadArray loadEnvironment (objects m) es = Some envs ->
                   loadArray loadEnvironment (objects m') es = Some envs)
  /\ (forall eps, loadArray loadEndpoint (objects m) ps = Some eps ->
                  loadArray loadEndpoint (objects m') ps = Some eps)
  /\ (forall conns, loadArray loadConnection (objects m) cs = Some conns ->
                    loadArray loadConnection (objects m') cs = Some conns)
  /\ (holds m es ps cs (architecture (world m)) ->
      forall elements w',
        generateExcalidrawElements provider (world m) = (Returned elements, w') ->
        exists l,
          fst (ByReference.generateExcalidrawElements provider es ps cs m) = Returned l
          /\ objects m' !! l = Some (ElementsObj elements)
          /\ world m' = w').
Proof.
  intros m1 m'.
  assert (He1 : extends (objects m) (objects m1)).
  { apply untouched_extends.
    exact (proj1 (leaves_autoLayout (length (objects m)) es ps m (le_n _))). }
  assert (He : extends (objects m) (objects m')).
  { apply untouched_extends.
    exact (proj1 (leaves_generateExcalidrawElements (length (objects m)) provider
                    es ps cs m (le_n _))). }
  split; [exact He1|]. split; [exact He|]. split; [|split; [|split]].
  - intros envs. apply loadArray_extends; [exact He|].
    intros l v. apply loadEnvironment_extends, He.
  - intros eps. apply loadArray_extends; [exact He|].
    intros l v. apply loadEndpoint_extends, He.
  - intros conns. apply loadArray_extends; [exact He|].
    intros l v. apply loadConnection_extends, He.
  - intros Hholds elements w' Hrun.
    pose proof (generateExcalidrawElements_follows provider m es ps cs Hholds) as Hf.
    unfold follows in Hf. rewrite Hrun in Hf. simpl in Hf.
    destruct Hf as (Hw & l & Hl & Hel & _).
    exists l. split; [exact Hl|]. split; [exact Hel|exact Hw].
Qed.

Lemma inputs_unchanged_witness :
  let m' := snd (ByReference.generateExcalidrawElements libraryLoaderProvider 11 12 13
                   scenarioMachine) in
  loadArray loadEnvironment (objects m') 11 = Some [scenarioEnvironment]
  /\ exists l elements,
       fst (ByReference.generateExcalidrawElements libraryLoaderProvider 11 12 13
              scenarioMachine) = Returned l
       /\ objects m' !! l = Some (ElementsObj elements)
       /\ length elements = 17%nat.
Proof.
  pose proof (inputs_unchanged libraryLoaderProvider scenarioMachine 11 12 13) as H.
  cbv zeta in H. destruct H as (_ & _ & Henvs & _ & _ & Hsame).
  split; [exact (Henvs [scenarioEnvironment] eq_refl)|].
  destruct (generateExcalidrawElements libraryLoaderProvider (world scenarioMachine))
    as [[elements|err] w'] eqn:Hrun; [|vm_compute in Hrun; discriminate Hrun].
  destruct (Hsame ltac:(repeat split) elements w' eq_refl) as (l & Hl & Hel & _).
  exists l, elements. split; [exact Hl|]. split; [exact Hel|].
  vm_compute in Hrun. injection Hrun as <- _. reflexivity.
Defined.
